(** * DocValidator_AI: the forgery-scoring engine of [server/ai/processor.js]

    A shallow embedding of class [EnhancedForgeryDetector] and the properties
    its specification states about it.

    JavaScript numbers are IEEE-754 binary64 values.  They are modelled by
    Rocq's primitive [float]s, which are binary64 with round-to-nearest-even,
    so every arithmetic step of the source ([+], [*], [/], [Math.sqrt],
    comparisons) is the very operation the engine performs.  Loop counters,
    array indices and array lengths, which the source keeps in numbers but
    which only ever hold small naturals, are [nat]; they are converted with
    [Number_of_nat] where the source mixes them with fractional values. *)

From Stdlib Require Import ZArith List Bool Lia Sorted.
From Stdlib.Strings Require Import String Ascii Byte.
From Stdlib Require Import DecimalString.
From Stdlib Require Import Floats.
Import ListNotations.

Set Warnings "-inexact-float".

(* ================================================================== *)
(** * JavaScript numbers *)
(* ================================================================== *)

Module JS.

Local Open Scope float_scope.

(** [Number(n)] for a natural [n]: the correctly rounded double
    (exact below 2^53). *)
Definition Number_of_Z (z : Z) : float :=
  SF2Prim (binary_normalize prec emax z 0%Z false).

Definition Number_of_nat (n : nat) : float := Number_of_Z (Z.of_nat n).

(** A byte read from a [Buffer] or a [Uint8Array]. *)
Definition Number_of_byte (b : byte) : float :=
  Number_of_Z (Z.of_N (Byte.to_N b)).

(** [a > b] and [a < b]: false as soon as one side is NaN. *)
Definition gt (a b : float) : bool := b <? a.
Definition lt (a b : float) : bool := a <? b.

(** [Math.min(a, b)]: NaN if either is NaN, and [-0] is below [+0]. *)
Definition Math_min (a b : float) : float :=
  if is_nan a || is_nan b then nan
  else if a <? b then a
  else if b <? a then b
  else if get_sign a then a else b.

(** [Math.max(a, b)]: NaN if either is NaN, and [+0] is above [-0]. *)
Definition Math_max (a b : float) : float :=
  if is_nan a || is_nan b then nan
  else if a <? b then b
  else if b <? a then a
  else if get_sign a then b else a.

(** [Math.min(...xs)] and [Math.max(...xs)]; of no argument they are
    [+Infinity] and [-Infinity]. *)
Definition Math_min_list (xs : list float) : float :=
  fold_left Math_min xs infinity.
Definition Math_max_list (xs : list float) : float :=
  fold_left Math_max xs neg_infinity.

Definition Math_abs (a : float) : float := abs a.
Definition Math_sqrt (a : float) : float := sqrt a.

(** [Math.pow(a, 2)]: the engine's [pow] returns [a * a] when the exponent
    is 2. *)
Definition Math_pow2 (a : float) : float := a * a.

(** [xs.reduce((sum, a) => sum + f(a), 0)]. *)
Definition sum_by {A} (f : A -> float) (xs : list A) : float :=
  fold_left (fun sum a => sum + f a) xs 0.

End JS.

Import JS.

(* ================================================================== *)
(** * Data model *)
(* ================================================================== *)

(** The [type] field of a suspicious area, as [classifySuspiciousArea]
    produces it. *)
Inductive AreaType :=
| high_manipulation
| medium_manipulation
| low_manipulation
| noise.

(** An entry of the [suspiciousAreas] array.  The objects pushed by
    [detectSuspiciousAreas] have no [mergedCount] property; only
    [mergeAreaGroup] sets it.  An absent property is [None]. *)
Record SuspiciousArea := mkArea {
  area_x : float;
  area_y : float;
  area_width : float;
  area_height : float;
  area_confidence : float;
  area_type : AreaType;
  area_intensity : float;
  area_mergedCount : option nat
}.

(** The argument of [calculateForgeryScore] and of
    [generateDetailedAnalysis]: of each analyzer result only the flag the
    two functions read, and the array of suspicious areas. *)
Record Analyses := mkAnalyses {
  ela_hasAnomalies : bool;
  compression_hasInconsistentCompression : bool;
  metadata_hasInconsistentMetadata : bool;
  noise_hasInconsistentNoise : bool;
  edge_hasInconsistentEdges : bool;
  suspiciousAreas : list SuspiciousArea
}.

(* ================================================================== *)
(** * Score aggregator and reporter *)
(* ================================================================== *)

Module Weights.
Local Open Scope float_scope.
Definition ela := 0.25.
Definition compression := 0.20.
Definition metadata := 0.15.
Definition noise := 0.20.
Definition edges := 0.10.
Definition suspiciousAreas := 0.10.
End Weights.

Section Aggregator.
Local Open Scope float_scope.

(** [calculateForgeryScore(analyses)], statement by statement. *)
Definition calculateForgeryScore (analyses : Analyses) : float :=
  let score := 0 in
  let score :=
    if ela_hasAnomalies analyses
    then score + Weights.ela * 0.8 else score in
  let score :=
    if compression_hasInconsistentCompression analyses
    then score + Weights.compression * 0.7 else score in
  let score :=
    if metadata_hasInconsistentMetadata analyses
    then score + Weights.metadata * 0.6 else score in
  let score :=
    if noise_hasInconsistentNoise analyses
    then score + Weights.noise * 0.5 else score in
  let score :=
    if edge_hasInconsistentEdges analyses
    then score + Weights.edges * 0.4 else score in
  let suspiciousAreaScore :=
    Math_min (Number_of_nat (List.length (suspiciousAreas analyses)) / 10) 1 in
  let score := score + Weights.suspiciousAreas * suspiciousAreaScore in
  Math_min score 1.

End Aggregator.


(** [generateDetailedAnalysis(forgeryScore, analyses)].  [analyzeImage]
    passes an object without the noise and edge results; the function reads
    neither. *)
Section Reporter.
Local Open Scope string_scope.

(** [`${n}`] for an array length. *)
Definition decimal (n : nat) : string := NilZero.string_of_uint (Nat.to_uint n).

(** [findings.join('. ')]. *)
Fixpoint join (sep : string) (xs : list string) : string :=
  match xs with
  | [] => ""
  | [x] => x
  | x :: rest => x ++ sep ++ join sep rest
  end.

Definition findings (analyses : Analyses) : list string :=
  (if ela_hasAnomalies analyses
   then ["Error Level Analysis detected potential tampering areas"] else [])
  ++ (if compression_hasInconsistentCompression analyses
      then ["Inconsistent JPEG compression patterns found"] else [])
  ++ (if metadata_hasInconsistentMetadata analyses
      then ["Metadata inconsistencies detected"] else [])
  ++ (if Nat.ltb 5 (List.length (suspiciousAreas analyses))
      then [decimal (List.length (suspiciousAreas analyses))
              ++ " suspicious regions identified"] else []).

Definition generateDetailedAnalysis (forgeryScore : float) (analyses : Analyses)
  : string :=
  if gt forgeryScore 0.8%float then
    "HIGH RISK: Multiple forgery indicators detected. "
      ++ join ". " (findings analyses) ++ "."
  else if gt forgeryScore 0.6%float then
    "MEDIUM RISK: Some forgery indicators present. "
      ++ join ". " (findings analyses) ++ "."
  else if gt forgeryScore 0.3%float then
    "LOW RISK: Minor inconsistencies found. "
      ++ join ". " (findings analyses) ++ "."
  else
    "Document appears authentic with no significant tampering indicators.".

End Reporter.

(* ================================================================== *)
(** * Suspicious-region detector and merger *)
(* ================================================================== *)

Section Merger.
Local Open Scope float_scope.

(** [classifySuspiciousArea(intensity)]. *)
Definition classifySuspiciousArea (intensity : float) : AreaType :=
  if gt intensity 200 then high_manipulation
  else if gt intensity 150 then medium_manipulation
  else if gt intensity 100 then low_manipulation
  else noise.

(** The [distance] computed inside [areAreasNearby]. *)
Definition centerDistance (area1 area2 : SuspiciousArea) : float :=
  let centerX1 := area_x area1 + area_width area1 / 2 in
  let centerY1 := area_y area1 + area_height area1 / 2 in
  let centerX2 := area_x area2 + area_width area2 / 2 in
  let centerY2 := area_y area2 + area_height area2 / 2 in
  Math_sqrt (Math_pow2 (centerX2 - centerX1) + Math_pow2 (centerY2 - centerY1)).

(** [areAreasNearby(area1, area2, threshold)]. *)
Definition areAreasNearby (area1 area2 : SuspiciousArea) (threshold : float)
  : bool :=
  lt (centerDistance area1 area2) threshold.

(** [mergeAreaGroup(group)]. *)
Definition mergeAreaGroup (group : list SuspiciousArea) : SuspiciousArea :=
  let minX := Math_min_list (map area_x group) in
  let minY := Math_min_list (map area_y group) in
  let maxX := Math_max_list (map (fun a => area_x a + area_width a) group) in
  let maxY := Math_max_list (map (fun a => area_y a + area_height a) group) in
  let avgConfidence :=
    sum_by area_confidence group / Number_of_nat (List.length group) in
  let avgIntensity :=
    sum_by area_intensity group / Number_of_nat (List.length group) in
  {| area_x := minX;
     area_y := minY;
     area_width := maxX - minX;
     area_height := maxY - minY;
     area_confidence := avgConfidence;
     area_type := classifySuspiciousArea avgIntensity;
     area_intensity := avgIntensity;
     area_mergedCount := Some (List.length group) |}.

(** The [processed] set of indices. *)
Definition processed_has (processed : list nat) (i : nat) : bool :=
  existsb (Nat.eqb i) processed.

(** One turn of the inner loop [for (j = i + 1; ...)]: the state is
    [(group, processed)]. *)
Definition absorb (areas : list SuspiciousArea) (area : SuspiciousArea)
  (st : list SuspiciousArea * list nat) (j : nat)
  : list SuspiciousArea * list nat :=
  let '(group, processed) := st in
  if processed_has processed j then st
  else match nth_error areas j with
       | Some other =>
           if areAreasNearby area other 50
           then (group ++ [other], j :: processed)
           else st
       | None => st
       end.

(** One turn of the outer loop [for (i = 0; ...)]: the state is
    [(merged, processed)]. *)
Definition mergeStep (areas : list SuspiciousArea)
  (st : list SuspiciousArea * list nat) (i : nat)
  : list SuspiciousArea * list nat :=
  let '(merged, processed) := st in
  if processed_has processed i then st
  else match nth_error areas i with
       | Some area =>
           let '(group, processed) :=
             fold_left (absorb areas area)
                       (seq (S i) (List.length areas - S i))
                       ([area], i :: processed) in
           (merged ++ [if Nat.ltb 1 (List.length group)
                       then mergeAreaGroup group else area],
            processed)
       | None => st
       end.

(** The array [merged] when the outer loop ends. *)
Definition mergePass (areas : list SuspiciousArea) : list SuspiciousArea :=
  fst (fold_left (mergeStep areas) (seq 0 (List.length areas)) ([], [])).

(** [mergeSuspiciousAreas(areas)]: [merged.slice(0, 20)]. *)
Definition mergeSuspiciousAreas (areas : list SuspiciousArea)
  : list SuspiciousArea :=
  firstn 20 (mergePass areas).

End Merger.

(* ================================================================== *)
(** * Pixel buffers and the image-codec boundary *)
(* ================================================================== *)

(** A [Buffer] of raw samples and the [info] object that [sharp] returns
    with it. *)
Definition Buffer := list byte.

Record Info := mkInfo {
  info_width : nat;
  info_height : nat;
  info_channels : nat
}.

(** [data[i]] used as a number: an index past the end reads [undefined],
    which arithmetic turns into NaN. *)
Definition Buffer_get (data : Buffer) (i : nat) : float :=
  match nth_error data i with
  | Some b => Number_of_byte b
  | None => nan
  end.

(** How a promise of the image codec, of the file system or of a child
    process settles. *)
Inductive Outcome (A : Type) :=
| Resolved (value : A)
| Rejected (message : string).
Arguments Resolved {A} value.
Arguments Rejected {A} message.

(** [config.ai.forgery]. *)
Record ForgeryConfig := mkConfig {
  elaQuality : float;
  compressionThreshold : float;
  suspiciousAreaThreshold : float;
  metadataCheckEnabled : bool
}.

Definition config : ForgeryConfig :=
  {| elaQuality := 90;
     compressionThreshold := 0.15;
     suspiciousAreaThreshold := 0.7;
     metadataCheckEnabled := true |}.

Section Blocks.
Local Open Scope float_scope.

(** The values of [v] in [for (v = 0; v < n; v += blockSize)]. *)
Definition blockStarts (n blockSize : nat) : list nat :=
  map (fun k => (k * blockSize)%nat) (seq 0 ((n + blockSize - 1) / blockSize)).

(** The pairs [(x, y)] of the two nested block loops, [y] outermost. *)
Definition blockGrid (info : Info) (blockSize : nat) : list (nat * nat) :=
  flat_map (fun y => map (fun x => (x, y)) (blockStarts (info_width info) blockSize))
           (blockStarts (info_height info) blockSize).

(** The pairs [(x, y)] visited inside one block, [y] outermost. *)
Definition blockPixels (startX startY blockSize : nat) : list (nat * nat) :=
  flat_map (fun y => map (fun x => (x, y)) (seq startX blockSize))
           (seq startY blockSize).

(** [calculateBlockIntensity(data, startX, startY, blockSize, imageWidth)]:
    the loop state is [(totalIntensity, count)]. *)
Definition calculateBlockIntensity (data : Buffer)
  (startX startY blockSize imageWidth : nat) : float :=
  let '(totalIntensity, count) :=
    fold_left
      (fun (st : float * nat) (p : nat * nat) =>
         let '(totalIntensity, count) := st in
         let '(x, y) := p in
         if Nat.ltb x imageWidth
            && Nat.ltb (y * imageWidth + x) (List.length data)
         then (totalIntensity + Buffer_get data (y * imageWidth + x), S count)
         else st)
      (blockPixels startX startY blockSize) (0, 0%nat) in
  if Nat.ltb 0 count then totalIntensity / Number_of_nat count else 0.

(** The body of the two nested loops of [detectSuspiciousAreas]: the areas
    pushed, in the order of the pushes. *)
Definition flaggedBlocks (cfg : ForgeryConfig) (data : Buffer) (info : Info)
  : list SuspiciousArea :=
  let blockSize := 32%nat in
  flat_map
    (fun p : nat * nat =>
       let '(x, y) := p in
       let blockIntensity :=
         calculateBlockIntensity data x y blockSize (info_width info) in
       if gt blockIntensity (suspiciousAreaThreshold cfg * 255)
       then [ {| area_x := Number_of_nat x;
                 area_y := Number_of_nat y;
                 area_width :=
                   Math_min (Number_of_nat blockSize)
                            (Number_of_nat (info_width info - x));
                 area_height :=
                   Math_min (Number_of_nat blockSize)
                            (Number_of_nat (info_height info - y));
                 area_confidence := Math_min (blockIntensity / 255) 1;
                 area_type := classifySuspiciousArea blockIntensity;
                 area_intensity := blockIntensity;
                 area_mergedCount := None |} ]
       else [])
    (blockGrid info blockSize).

(** [detectSuspiciousAreas(imagePath, elaAnalysis)].  [elaImagePath] is the
    path of the saved ELA image; [raw] is how
    [sharp(elaImagePath).greyscale().raw().toBuffer()] settles.  Whatever is
    thrown inside is caught and an empty array returned. *)
Definition detectSuspiciousAreas (cfg : ForgeryConfig) (elaImagePath : string)
  (raw : Outcome (Buffer * Info)) : list SuspiciousArea :=
  if String.eqb elaImagePath "" then []
  else match raw with
       | Resolved (data, info) =>
           mergeSuspiciousAreas (flaggedBlocks cfg data info)
       | Rejected _ => []
       end.

End Blocks.

(* ================================================================== *)
(** * Edge analyzer *)
(* ================================================================== *)

Section Edges.
Local Open Scope float_scope.

Record EdgeMetrics := mkEdgeMetrics {
  edgeRatio : float;
  averageEdgeIntensity : float;
  inconsistencyScore : float
}.

(** The result of [analyzeEdges]: [metrics] is absent and [error] present
    in the degraded result. *)
Record EdgeAnalysis := mkEdgeAnalysis {
  edge_metrics : option EdgeMetrics;
  hasInconsistentEdges : bool;
  edge_error : option string
}.

(** The counting loop of [analyzeEdgeConsistency]: the state is
    [(edgePixels, totalIntensity)]. *)
Definition countEdges (pixels : Buffer) : nat * float :=
  fold_left
    (fun (st : nat * float) (b : byte) =>
       let '(edgePixels, totalIntensity) := st in
       if gt (Number_of_byte b) 50
       then (S edgePixels, totalIntensity + Number_of_byte b)
       else st)
    pixels (0%nat, 0).

(** [analyzeEdgeConsistency(edgeData)]. *)
Definition analyzeEdgeConsistency (edgeData : Buffer) : EdgeMetrics :=
  let '(edgePixels, totalIntensity) := countEdges edgeData in
  let edgeRatio := Number_of_nat edgePixels / Number_of_nat (List.length edgeData) in
  let averageEdgeIntensity :=
    if Nat.ltb 0 edgePixels then totalIntensity / Number_of_nat edgePixels else 0 in
  {| edgeRatio := edgeRatio;
     averageEdgeIntensity := averageEdgeIntensity;
     inconsistencyScore := Math_abs (edgeRatio - 0.1) |}.

(** [analyzeEdges(imagePath)]; [raw] is how the convolved greyscale buffer
    settles. *)
Definition analyzeEdges (raw : Outcome Buffer) : EdgeAnalysis :=
  match raw with
  | Resolved edgeData =>
      let edgeMetrics := analyzeEdgeConsistency edgeData in
      {| edge_metrics := Some edgeMetrics;
         hasInconsistentEdges := gt (inconsistencyScore edgeMetrics) 0.3;
         edge_error := None |}
  | Rejected message =>
      {| edge_metrics := None;
         hasInconsistentEdges := false;
         edge_error := Some message |}
  end.

End Edges.

(* ================================================================== *)
(** * Compression analyzer *)
(* ================================================================== *)

Section Compression.
Local Open Scope float_scope.

(** An entry of [compressionMap]. *)
Record QualityBlock := mkQualityBlock {
  qb_x : nat;
  qb_y : nat;
  qb_width : nat;
  qb_height : nat;
  qb_quality : float
}.

(** What [detectCompressionArtifacts] resolves with: the object printed by
    the compression script, of which the engine reads [inconsistentBlocks],
    or one of the two fallback objects. *)
Record CompressionArtifacts := mkArtifacts {
  inconsistentBlocks : float;
  artifacts_error : option string
}.

(** How the compression script ends: its exit code, its standard output
    parsed as JSON ([None] when [JSON.parse] throws) and its standard
    error. *)
Record ScriptRun := mkScriptRun {
  exitCode : Z;
  parsedOutput : option CompressionArtifacts;
  stderr : string
}.

(** [detectCompressionArtifacts(imagePath)]: the promise always resolves. *)
Definition detectCompressionArtifacts (run : ScriptRun) : CompressionArtifacts :=
  if Z.eqb (exitCode run) 0 then
    match parsedOutput run with
    | Some parsed => parsed
    | None => {| inconsistentBlocks := 0; artifacts_error := None |}
    end
  else {| inconsistentBlocks := 0; artifacts_error := Some (stderr run) |}.

(** [estimateBlockQuality(data, startX, startY, blockSize, imageWidth,
    channels)]: the loop state is [(variance, count)]. *)
Definition estimateBlockQuality (data : Buffer)
  (startX startY blockSize imageWidth channels : nat) : float :=
  let '(variance, count) :=
    fold_left
      (fun (st : float * nat) (p : nat * nat) =>
         let '(variance, count) := st in
         let '(x, y) := p in
         if Nat.ltb x imageWidth
            && lt (Number_of_nat (y * imageWidth + x))
                  (Number_of_nat (List.length data) / Number_of_nat channels)
         then
           let pixelIndex := ((y * imageWidth + x) * channels)%nat in
           let intensity :=
             (Buffer_get data pixelIndex + Buffer_get data (pixelIndex + 1)
              + Buffer_get data (pixelIndex + 2)) / 3 in
           (variance + intensity, S count)
         else st)
      (blockPixels startX startY blockSize) (0, 0%nat) in
  if Nat.ltb 0 count then variance / Number_of_nat count else 0.

(** [generateCompressionMap(imagePath)], from the resized raw buffer on. *)
Definition generateCompressionMap (data : Buffer) (info : Info)
  : list QualityBlock :=
  let blockSize := 8%nat in
  map (fun p : nat * nat =>
         let '(x, y) := p in
         {| qb_x := x; qb_y := y; qb_width := blockSize; qb_height := blockSize;
            qb_quality :=
              estimateBlockQuality data x y blockSize
                                   (info_width info) (info_channels info) |})
      (blockGrid info blockSize).

Record QualityVariance := mkQualityVariance {
  qv_mean : float;
  qv_variance : float;
  qv_stdDev : float
}.

(** [calculateQualityVariance(compressionMap)]. *)
Definition calculateQualityVariance (compressionMap : list QualityBlock)
  : QualityVariance :=
  let qualities := map qb_quality compressionMap in
  let mean := sum_by (fun q => q) qualities / Number_of_nat (List.length qualities) in
  let variance :=
    sum_by (fun q => Math_pow2 (q - mean)) qualities
    / Number_of_nat (List.length qualities) in
  {| qv_mean := mean; qv_variance := variance; qv_stdDev := Math_sqrt variance |}.

Inductive Suspicion := high | medium | low.

Record CompressionPatterns := mkPatterns {
  qualityVariance : QualityVariance;
  suspiciousBlockCount : nat;
  suspiciousBlocks : list QualityBlock;
  overallSuspicion : Suspicion
}.

(** [analyzeCompressionPatterns(artifacts, compressionMap)]. *)
Definition analyzeCompressionPatterns (artifacts : CompressionArtifacts)
  (compressionMap : list QualityBlock) : CompressionPatterns :=
  let qualityVariance := calculateQualityVariance compressionMap in
  let suspiciousBlocks :=
    filter (fun block =>
              gt (Math_abs (qb_quality block - qv_mean qualityVariance))
                 (qv_stdDev qualityVariance * 2))
           compressionMap in
  {| qualityVariance := qualityVariance;
     suspiciousBlockCount := List.length suspiciousBlocks;
     suspiciousBlocks := firstn 10 suspiciousBlocks;
     overallSuspicion :=
       if Nat.ltb 5 (List.length suspiciousBlocks) then high
       else if Nat.ltb 2 (List.length suspiciousBlocks) then medium
       else low |}.

End Compression.

(** What [sharp(imagePath).metadata()] resolves with, as far as the engine
    reads it.  [md_exif] is the EXIF block decoded as ASCII. *)
Record Metadata := mkMetadata {
  md_format : string;
  md_quality : option float;
  md_width : nat;
  md_height : nat;
  md_density : option float;
  md_icc : bool;
  md_exif : option string
}.

Section CompressionAnalyzer.
Local Open Scope float_scope.

(** The fields of a full [analyzeCompression] result. *)
Record CompressionDetails := mkCompressionDetails {
  comp_format : string;
  comp_quality : option float;
  compressionArtifacts : CompressionArtifacts;
  compressionMap : list QualityBlock;
  comp_analysis : CompressionPatterns
}.

(** The result of [analyzeCompression]: the degraded result has only the
    flag and [error]. *)
Record CompressionAnalysis := mkCompressionAnalysis {
  comp_details : option CompressionDetails;
  hasInconsistentCompression : bool;
  comp_error : option string
}.

(** [analyzeCompression(imagePath)]: [metadata] and [raw] are how
    [sharp(imagePath).metadata()] and the resized raw buffer settle, [run]
    is how the compression script ends. *)
Definition analyzeCompression (metadata : Outcome Metadata) (run : ScriptRun)
  (raw : Outcome (Buffer * Info)) : CompressionAnalysis :=
  match metadata with
  | Rejected message =>
      {| comp_details := None; hasInconsistentCompression := false;
         comp_error := Some message |}
  | Resolved metadata =>
      let compressionArtifacts := detectCompressionArtifacts run in
      match raw with
      | Rejected message =>
          {| comp_details := None; hasInconsistentCompression := false;
             comp_error := Some message |}
      | Resolved (data, info) =>
          let compressionMap := generateCompressionMap data info in
          {| comp_details :=
               Some {| comp_format := md_format metadata;
                       comp_quality := md_quality metadata;
                       compressionArtifacts := compressionArtifacts;
                       compressionMap := compressionMap;
                       comp_analysis :=
                         analyzeCompressionPatterns compressionArtifacts
                                                    compressionMap |};
             hasInconsistentCompression :=
               gt (inconsistentBlocks compressionArtifacts) 5;
             comp_error := None |}
      end
  end.

End CompressionAnalyzer.

(* ================================================================== *)
(** * Noise analyzer *)
(* ================================================================== *)

Section Noise.
Local Open Scope float_scope.

Record NoiseMetrics := mkNoiseMetrics {
  nm_mean : float;
  nm_variance : float;
  nm_standardDeviation : float;
  nm_snr : float
}.

(** [calculateNoiseMetrics(data, info)]: the loop state is
    [(sum, sumSquares)]. *)
Definition calculateNoiseMetrics (data : Buffer) : NoiseMetrics :=
  let '(sum, sumSquares) :=
    fold_left
      (fun (st : float * float) (b : byte) =>
         let '(sum, sumSquares) := st in
         (sum + Number_of_byte b,
          sumSquares + Number_of_byte b * Number_of_byte b))
      data (0, 0) in
  let mean := sum / Number_of_nat (List.length data) in
  let variance :=
    (sumSquares / Number_of_nat (List.length data)) - (mean * mean) in
  {| nm_mean := mean;
     nm_variance := variance;
     nm_standardDeviation := Math_sqrt variance;
     nm_snr := mean / Math_sqrt variance |}.

(** An entry of [noiseMap]. *)
Record NoiseBlock := mkNoiseBlock {
  nb_x : nat;
  nb_y : nat;
  nb_width : nat;
  nb_height : nat;
  nb_noise : float
}.

(** [calculateBlockNoise(data, startX, startY, blockSize, imageWidth)]. *)
Definition calculateBlockNoise (data : Buffer)
  (startX startY blockSize imageWidth : nat) : float :=
  let inside (p : nat * nat) :=
    let '(x, y) := p in
    Nat.ltb x imageWidth && Nat.ltb (y * imageWidth + x) (List.length data) in
  let '(mean, count) :=
    fold_left
      (fun (st : float * nat) (p : nat * nat) =>
         let '(mean, count) := st in
         let '(x, y) := p in
         if inside p
         then (mean + Buffer_get data (y * imageWidth + x), S count)
         else st)
      (blockPixels startX startY blockSize) (0, 0%nat) in
  let mean := mean / Number_of_nat count in
  let variance :=
    fold_left
      (fun (variance : float) (p : nat * nat) =>
         let '(x, y) := p in
         if inside p
         then variance + Math_pow2 (Buffer_get data (y * imageWidth + x) - mean)
         else variance)
      (blockPixels startX startY blockSize) 0 in
  if Nat.ltb 0 count then variance / Number_of_nat count else 0.

(** [generateNoiseMap(data, info)]. *)
Definition generateNoiseMap (data : Buffer) (info : Info) : list NoiseBlock :=
  let blockSize := 16%nat in
  map (fun p : nat * nat =>
         let '(x, y) := p in
         {| nb_x := x; nb_y := y; nb_width := blockSize; nb_height := blockSize;
            nb_noise := calculateBlockNoise data x y blockSize (info_width info) |})
      (blockGrid info blockSize).

Record NoisePatterns := mkNoisePatterns {
  noiseMean : float;
  noiseVariance : float;
  noise_suspiciousBlockCount : nat;
  noise_suspiciousBlocks : list NoiseBlock;
  noise_overallSuspicion : Suspicion
}.

(** [analyzeNoisePatterns(metrics, noiseMap)]. *)
Definition analyzeNoisePatterns (metrics : NoiseMetrics)
  (noiseMap : list NoiseBlock) : NoisePatterns :=
  let noiseValues := map nb_noise noiseMap in
  let noiseMean :=
    sum_by (fun n => n) noiseValues / Number_of_nat (List.length noiseValues) in
  let noiseVariance :=
    sum_by (fun n => Math_pow2 (n - noiseMean)) noiseValues
    / Number_of_nat (List.length noiseValues) in
  let suspiciousBlocks :=
    filter (fun block =>
              gt (Math_abs (nb_noise block - noiseMean))
                 (Math_sqrt noiseVariance * 2))
           noiseMap in
  {| noiseMean := noiseMean;
     noiseVariance := noiseVariance;
     noise_suspiciousBlockCount := List.length suspiciousBlocks;
     noise_suspiciousBlocks := firstn 10 suspiciousBlocks;
     noise_overallSuspicion :=
       if Nat.ltb 10 (List.length suspiciousBlocks) then high
       else if Nat.ltb 5 (List.length suspiciousBlocks) then medium
       else low |}.

Record NoiseDetails := mkNoiseDetails {
  noise_metrics : NoiseMetrics;
  noiseMap : list NoiseBlock;
  noise_analysis : NoisePatterns
}.

Record NoiseAnalysis := mkNoiseAnalysis {
  noise_details : option NoiseDetails;
  hasInconsistentNoise : bool;
  noise_error : option string
}.

(** [analyzeNoise(imagePath)]; [raw] is how the greyscale raw buffer
    settles. *)
Definition analyzeNoise (raw : Outcome (Buffer * Info)) : NoiseAnalysis :=
  match raw with
  | Resolved (data, info) =>
      let noiseMetrics := calculateNoiseMetrics data in
      let noiseMap := generateNoiseMap data info in
      {| noise_details :=
           Some {| noise_metrics := noiseMetrics;
                   noiseMap := noiseMap;
                   noise_analysis := analyzeNoisePatterns noiseMetrics noiseMap |};
         hasInconsistentNoise := gt (nm_variance noiseMetrics) 1000;
         noise_error := None |}
  | Rejected message =>
      {| noise_details := None; hasInconsistentNoise := false;
         noise_error := Some message |}
  end.

End Noise.

(* ================================================================== *)
(** * Metadata analyzer *)
(* ================================================================== *)

Section Strings.
Local Open Scope string_scope.

Definition NUL : ascii := Ascii.ascii_of_nat 0.

(** [c.toLowerCase()] on an ASCII character. *)
Definition toLowerCase_ascii (c : ascii) : ascii :=
  let n := Ascii.nat_of_ascii c in
  if Nat.leb 65 n && Nat.leb n 90 then Ascii.ascii_of_nat (n + 32) else c.

Fixpoint toLowerCase (s : string) : string :=
  match s with
  | EmptyString => EmptyString
  | String c rest => String (toLowerCase_ascii c) (toLowerCase rest)
  end.

(** [s.includes(sub)]. *)
Fixpoint includes (s sub : string) : bool :=
  String.prefix sub s
  || match s with
     | EmptyString => false
     | String _ rest => includes rest sub
     end.

(** White space as [trim] sees it in an ASCII string. *)
Definition isWhiteSpace (c : ascii) : bool :=
  let n := Ascii.nat_of_ascii c in
  Nat.eqb n 32 || (Nat.leb 9 n && Nat.leb n 13).

Fixpoint trimStart (s : string) : string :=
  match s with
  | String c rest => if isWhiteSpace c then trimStart rest else s
  | EmptyString => EmptyString
  end.

Fixpoint string_rev (s : string) : string :=
  match s with
  | EmptyString => EmptyString
  | String c rest => string_rev rest ++ String c EmptyString
  end.

(** [s.trim()]. *)
Definition trim (s : string) : string :=
  string_rev (trimStart (string_rev (trimStart s))).

(** The longest prefix without a NUL: what [[^\x00]+] captures when it is
    not empty. *)
Fixpoint takeNonNul (s : string) : string :=
  match s with
  | EmptyString => EmptyString
  | String c rest =>
      if Ascii.eqb c NUL then EmptyString else String c (takeNonNul rest)
  end.

(** [s.match(/key\x00([^\x00]+)/)]: the capture of the leftmost match. *)
Fixpoint matchField (key : string) (s : string) : option string :=
  let pattern := key ++ String NUL EmptyString in
  let capture :=
    takeNonNul (substring (String.length pattern)
                          (String.length s - String.length pattern) s) in
  if String.prefix pattern s && negb (String.eqb capture "")
  then Some capture
  else match s with
       | EmptyString => None
       | String _ rest => matchField key rest
       end.

(** [imagePath.replace(/\.(jpg|jpeg|png)$/i, '_ela.jpg')]. *)
Definition hasExtension (ext path : string) : bool :=
  String.eqb
    (toLowerCase (substring (String.length path - String.length ext)
                            (String.length ext) path))
    ext
  && Nat.leb (String.length ext) (String.length path).

Definition replaceExtension (ext path : string) : string :=
  substring 0 (String.length path - String.length ext) path ++ "_ela.jpg".

Definition elaOutputPath (imagePath : string) : string :=
  if hasExtension ".jpg" imagePath then replaceExtension ".jpg" imagePath
  else if hasExtension ".jpeg" imagePath then replaceExtension ".jpeg" imagePath
  else if hasExtension ".png" imagePath then replaceExtension ".png" imagePath
  else imagePath.

End Strings.

Section MetadataAnalyzer.
Local Open Scope string_scope.

(** [new Date(s).getTime()]: [None] is an invalid date.  Which strings
    parse, beyond the ISO format, is left to the engine. *)
Variable Date_parse : string -> option Z.

(** The object built by [parseExifData]: a key is absent when its pattern
    does not match. *)
Record ExifData := mkExifData {
  exif_DateTime : option string;
  exif_Software : option string;
  exif_Make : option string;
  exif_Model : option string
}.

Definition noExif : ExifData :=
  {| exif_DateTime := None; exif_Software := None;
     exif_Make := None; exif_Model := None |}.

(** [parseExifData(exifBuffer)]. *)
Definition parseExifData (exifString : string) : ExifData :=
  {| exif_DateTime := option_map trim (matchField "DateTime" exifString);
     exif_Software := option_map trim (matchField "Software" exifString);
     exif_Make := option_map trim (matchField "Make" exifString);
     exif_Model := option_map trim (matchField "Model" exifString) |}.

(** A property used as a condition: absent and [''] are falsy. *)
Definition truthy (field : option string) : bool :=
  match field with
  | Some s => negb (String.eqb s "")
  | None => false
  end.

Definition field_text (field : option string) : string :=
  match field with Some s => s | None => "" end.

Definition suspiciousSoftware : list string := ["photoshop"; "gimp"; "paint.net"].

(** The array [inconsistencies] of [checkMetadataConsistency]; [now] is the
    reading of the clock by [new Date()]. *)
Definition inconsistencies (now : Z) (exifData : ExifData) : list string :=
  (if truthy (exif_DateTime exifData) then
     match Date_parse (field_text (exif_DateTime exifData)) with
     | Some creationDate =>
         if Z.ltb now creationDate
         then ["Creation date is in the future"] else []
     | None => []
     end
   else [])
  ++ (if truthy (exif_Software exifData)
         && existsb (fun sw =>
                       includes (toLowerCase (field_text (exif_Software exifData))) sw)
                    suspiciousSoftware
      then ["Image edited with photo manipulation software"] else []).

(** [checkMetadataConsistency(metadata, exifData)]. *)
Definition checkMetadataConsistency (now : Z) (metadata : Metadata)
  (exifData : ExifData) : bool :=
  Nat.ltb 0 (List.length (inconsistencies now exifData)).

Record MetadataDetails := mkMetadataDetails {
  meta_format : string;
  meta_width : nat;
  meta_height : nat;
  meta_density : option float;
  hasProfile : bool;
  meta_exif : ExifData;
  creationDate : string + Z;
  modificationDate : Z;
  software : string;
  camera : string
}.

Record MetadataAnalysis := mkMetadataAnalysis {
  meta_details : option MetadataDetails;
  hasInconsistentMetadata : bool;
  meta_error : option string
}.

(** [analyzeMetadata(imagePath)]; [metadata] is how
    [sharp(imagePath).metadata()] settles. *)
Definition analyzeMetadata (now : Z) (metadata : Outcome Metadata)
  : MetadataAnalysis :=
  match metadata with
  | Resolved metadata =>
      let exifData :=
        match md_exif metadata with
        | Some exif => parseExifData exif
        | None => noExif
        end in
      {| meta_details :=
           Some {| meta_format := md_format metadata;
                   meta_width := md_width metadata;
                   meta_height := md_height metadata;
                   meta_density := md_density metadata;
                   hasProfile := md_icc metadata;
                   meta_exif := exifData;
                   creationDate :=
                     if truthy (exif_DateTime exifData)
                     then inl (field_text (exif_DateTime exifData)) else inr now;
                   modificationDate := now;
                   software :=
                     if truthy (exif_Software exifData)
                     then field_text (exif_Software exifData) else "Unknown";
                   camera :=
                     if truthy (exif_Make exifData) && truthy (exif_Model exifData)
                     then field_text (exif_Make exifData) ++ " "
                          ++ field_text (exif_Model exifData)
                     else "Unknown" |};
         hasInconsistentMetadata := checkMetadataConsistency now metadata exifData;
         meta_error := None |}
  | Rejected message =>
      {| meta_details := None; hasInconsistentMetadata := false;
         meta_error := Some message |}
  end.

End MetadataAnalyzer.

(* ================================================================== *)
(** * Error-level analysis *)
(* ================================================================== *)

Section ELA.
Local Open Scope float_scope.

Record ElaStatistics := mkElaStatistics {
  ela_mean : float;
  ela_variance : float;
  maxIntensity : float;
  minIntensity : float;
  ela_standardDeviation : float
}.

(** [analyzeELAStatistics(elaBuffer)], from the raw samples on: the state of
    the first loop is [(sum, max, min)]. *)
Definition analyzeELAStatistics (pixels : Buffer) : ElaStatistics :=
  let '(sum, max, min) :=
    fold_left
      (fun (st : float * float * float) (b : byte) =>
         let '(sum, max, min) := st in
         let value := Number_of_byte b in
         (sum + value, Math_max max value, Math_min min value))
      pixels (0, 0, 255) in
  let mean := sum / Number_of_nat (List.length pixels) in
  let variance :=
    fold_left (fun variance b => variance + Math_pow2 (Number_of_byte b - mean))
              pixels 0 in
  let variance := variance / Number_of_nat (List.length pixels) in
  {| ela_mean := mean;
     ela_variance := variance;
     maxIntensity := max;
     minIntensity := min;
     ela_standardDeviation := Math_sqrt variance |}.

Record ElaAnalysis := mkElaAnalysis {
  elaImagePath : string;
  statistics : ElaStatistics;
  hasAnomalies : bool
}.

(** How the difference script of [calculateImageDifference] ends. *)
Record DifferenceRun := mkDifferenceRun {
  diff_exitCode : Z;
  diff_output : Buffer;
  diff_stderr : string
}.

(** [calculateImageDifference(buffer1, buffer2)]. *)
Definition calculateImageDifference (run : DifferenceRun) : Outcome Buffer :=
  if Z.eqb (diff_exitCode run) 0 then Resolved (diff_output run)
  else Rejected ("ELA calculation failed: " ++ diff_stderr run)%string.

(** What the collaborators of one [performELA] call do. *)
Record ElaWorld := mkElaWorld {
  reencode : Outcome Buffer;
  reencodeAgain : Outcome Buffer;
  difference : DifferenceRun;
  writeFile : Outcome unit;
  elaRaw : Outcome (Buffer * Info)
}.

(** [performELA(imagePath)]: every failure inside is rethrown as one
    error. *)
Definition performELA (imagePath : string) (w : ElaWorld) : Outcome ElaAnalysis :=
  let failed := Rejected "Failed to perform ELA analysis"%string in
  let outputPath := elaOutputPath imagePath in
  match reencode w with
  | Rejected _ => failed
  | Resolved originalBuffer =>
  match reencodeAgain w with
  | Rejected _ => failed
  | Resolved recompressedBuffer =>
  match calculateImageDifference (difference w) with
  | Rejected _ => failed
  | Resolved elaBuffer =>
  match writeFile w with
  | Rejected _ => failed
  | Resolved _ =>
  match elaRaw w with
  | Rejected _ => failed
  | Resolved (data, info) =>
      let stats := analyzeELAStatistics data in
      Resolved {| elaImagePath := outputPath;
                  statistics := stats;
                  hasAnomalies :=
                    gt (maxIntensity stats) 50 || gt (ela_variance stats) 1000 |}
  end end end end end.

End ELA.

(* ================================================================== *)
(** * The pipeline *)
(* ================================================================== *)

Section Pipeline.
Local Open Scope float_scope.

Variable Date_parse : string -> option Z.

(** What the world outside the engine does during one [analyzeImage] call:
    how each promise of the image codec, of the file system and of the two
    scripts settles, and what the clock reads. *)
Record World := mkWorld {
  elaWorld : ElaWorld;
  compressionMetadata : Outcome Metadata;
  compressionScript : ScriptRun;
  resizedRaw : Outcome (Buffer * Info);
  imageMetadata : Outcome Metadata;
  greyscaleRaw : Outcome (Buffer * Info);
  edgeRaw : Outcome Buffer;
  elaGreyscaleRaw : Outcome (Buffer * Info);
  clock : Z
}.

(** The object [analyzeImage] resolves with. *)
Record ForgeryAnalysis := mkForgeryAnalysis {
  isForgery : bool;
  forgeryScore : float;
  result_suspiciousAreas : list SuspiciousArea;
  elaAnalysis : ElaAnalysis;
  compressionAnalysis : CompressionAnalysis;
  metadataAnalysis : MetadataAnalysis;
  noiseAnalysis : NoiseAnalysis;
  edgeAnalysis : EdgeAnalysis;
  analysis : string
}.

(** The [analyses] object handed to the aggregator and to the reporter. *)
Definition analysesOf (ela : ElaAnalysis) (compression : CompressionAnalysis)
  (metadata : MetadataAnalysis) (noise : NoiseAnalysis) (edges : EdgeAnalysis)
  (areas : list SuspiciousArea) : Analyses :=
  {| ela_hasAnomalies := hasAnomalies ela;
     compression_hasInconsistentCompression := hasInconsistentCompression compression;
     metadata_hasInconsistentMetadata := hasInconsistentMetadata metadata;
     noise_hasInconsistentNoise := hasInconsistentNoise noise;
     edge_hasInconsistentEdges := hasInconsistentEdges edges;
     suspiciousAreas := areas |}.

(** [analyzeImage(imagePath)].  Of the five promises given to
    [Promise.all] only [performELA] can reject; a rejection is rethrown as
    one error. *)
Definition analyzeImage (cfg : ForgeryConfig) (imagePath : string) (w : World)
  : Outcome ForgeryAnalysis :=
  match performELA imagePath (elaWorld w) with
  | Rejected _ => Rejected "Failed to analyze image for forgery"%string
  | Resolved elaAnalysis =>
      let compressionAnalysis :=
        analyzeCompression (compressionMetadata w) (compressionScript w)
                           (resizedRaw w) in
      let metadataAnalysis :=
        analyzeMetadata Date_parse (clock w) (imageMetadata w) in
      let noiseAnalysis := analyzeNoise (greyscaleRaw w) in
      let edgeAnalysis := analyzeEdges (edgeRaw w) in
      let suspiciousAreas :=
        detectSuspiciousAreas cfg (elaImagePath elaAnalysis) (elaGreyscaleRaw w) in
      let analyses :=
        analysesOf elaAnalysis compressionAnalysis metadataAnalysis
                   noiseAnalysis edgeAnalysis suspiciousAreas in
      let forgeryScore := calculateForgeryScore analyses in
      Resolved {| isForgery := gt forgeryScore 0.6;
                  forgeryScore := forgeryScore;
                  result_suspiciousAreas := suspiciousAreas;
                  elaAnalysis := elaAnalysis;
                  compressionAnalysis := compressionAnalysis;
                  metadataAnalysis := metadataAnalysis;
                  noiseAnalysis := noiseAnalysis;
                  edgeAnalysis := edgeAnalysis;
                  analysis := generateDetailedAnalysis forgeryScore analyses |}
  end.

End Pipeline.

(* ================================================================== *)
(** * Binary64 rounding: definitions used by the proofs *)
(* ================================================================== *)

(** The primitive operations are specified by the Standard Library through
    [Prim2SF] and the functions of [SpecFloat].  The proofs below need to
    bound the result of a rounded operation by representable numbers; the
    definitions here name what these bounds talk about. *)

Section RoundingDefinitions.
Local Open Scope Z_scope.

Record Located (N D : Z) (mrs : shr_record) : Prop := {
  loc_D : 0 < D;
  loc_N : 0 <= N;
  loc_m : shr_m mrs = N / D;
  loc_r : shr_r mrs = true <-> D <= 2 * (N mod D);
  loc_s : shr_s mrs = true <-> (N mod D <> 0 /\ 2 * (N mod D) <> D)
}.

Definition pack (sx : bool) (m e : Z) : spec_float :=
  match m with
  | Z0 => S754_zero sx
  | Zpos p =>
      if m =? 2 ^ 53
      then (if e + 1 <=? 971 then S754_finite sx (2 ^ 52)%positive (e + 1)
            else S754_infinity sx)
      else if e <=? 971 then S754_finite sx p e else S754_infinity sx
  | Zneg _ => S754_nan
  end.

Definition V (m e : Z) : Z := m * 2 ^ (e + 1074).

Record canon (m e : Z) : Prop := {
  canon_pos : 0 < m;
  canon_lt : m < 2 ^ 53;
  canon_emin : -1074 <= e;
  canon_emax : e <= 971;
  canon_norm : -1074 < e -> 2 ^ 52 <= m
}.

Definition SV (x : spec_float) : Z :=
  match x with
  | S754_finite s m e => cond_Zopp s (V (Zpos m) e)
  | _ => 0
  end.

Definition fin (x : spec_float) : bool :=
  match x with
  | S754_finite _ _ _ | S754_zero _ => true
  | _ => false
  end.

Definition wf (x : spec_float) : Prop := valid_binary x = true /\ fin x = true.

(** The scale of [val]: a finite binary64 number is an integer multiple of
    [2^-1074]. *)
Definition K : Z := 2 ^ 1074.

Definition finite (x : float) : Prop := fin (Prim2SF x) = true.
Definition val (x : float) : Z := SV (Prim2SF x).

End RoundingDefinitions.

(* ================================================================== *)
(** * The score as the specification words it *)
(* ================================================================== *)

Section SpecifiedScore.
Local Open Scope float_scope.

(** Flag, weight and severity constant of the five analyzers. *)
Definition analyzerTable (analyses : Analyses) : list (bool * float * float) :=
  [ (ela_hasAnomalies analyses, 0.25, 0.8);
    (compression_hasInconsistentCompression analyses, 0.20, 0.7);
    (metadata_hasInconsistentMetadata analyses, 0.15, 0.6);
    (noise_hasInconsistentNoise analyses, 0.20, 0.5);
    (edge_hasInconsistentEdges analyses, 0.10, 0.4) ].

(** Clamping to [0, 1]. *)
Definition clamp01 (x : float) : float := Math_max 0 (Math_min x 1).

(** The sum, over the flagged analyzers, of weight times severity, plus
    [0.10 * min(count / 10, 1)], clamped to [0, 1]. *)
Definition spec_forgeryScore (analyses : Analyses) : float :=
  let flagged := filter (fun e => fst (fst e)) (analyzerTable analyses) in
  let sum := sum_by (fun e => snd (fst e) * snd e) flagged in
  clamp01 (sum + 0.10 * Math_min (Number_of_nat (List.length (suspiciousAreas analyses)) / 10) 1).

(** The term [suspiciousAreaScore] of [calculateForgeryScore] as a function
    of the number of areas. *)
Definition suspiciousAreaScore (count : nat) : float :=
  Math_min (Number_of_nat count / 10) 1.

End SpecifiedScore.

(* ================================================================== *)
(** * Example inputs *)
(* ================================================================== *)

Section Examples.
Local Open Scope string_scope.

(** An area as [detectSuspiciousAreas] pushes it for a full block of
    intensity 255 at [(x, y)]. *)
Definition brightBlock (x y : nat) : SuspiciousArea :=
  {| area_x := Number_of_nat x; area_y := Number_of_nat y;
     area_width := 32; area_height := 32;
     area_confidence := 1; area_type := high_manipulation;
     area_intensity := 255; area_mergedCount := None |}.

(** [n] bright blocks in a row, 64 pixels apart: none is near another. *)
Definition farBlocks (n : nat) : list SuspiciousArea :=
  map (fun k => brightBlock (64 * k) 0) (seq 0 n).

(** An engine that parses no date string. *)
Definition Date_parse_none (s : string) : option Z := None.

Definition plainMetadata (exif : option string) : Metadata :=
  {| md_format := "jpeg"; md_quality := None; md_width := 608; md_height := 1;
     md_density := None; md_icc := false; md_exif := exif |}.

(** A greyscale image 608 pixels wide and one pixel high whose 32-pixel
    blocks are alternately white and black: ten white blocks. *)
Definition stripedRow : Buffer :=
  flat_map (fun k => repeat (if Nat.even k then xff else x00) 32) (seq 0 19).

Definition stripedInfo : Info :=
  {| info_width := 608; info_height := 1; info_channels := 1 |}.

Definition okElaWorld (pixels : Buffer) : ElaWorld :=
  {| reencode := Resolved [];
     reencodeAgain := Resolved [];
     difference := {| diff_exitCode := 0; diff_output := []; diff_stderr := "" |};
     writeFile := Resolved tt;
     elaRaw := Resolved (pixels, {| info_width := 2; info_height := 1;
                                    info_channels := 1 |}) |}.

(** A run in which every analyzer raises its flag and ten suspicious areas
    are found. *)
Definition worldAllFlagged : World :=
  {| elaWorld := okElaWorld [x3c; x00];
     compressionMetadata := Resolved (plainMetadata None);
     compressionScript :=
       {| exitCode := 0;
          parsedOutput := Some {| inconsistentBlocks := 6; artifacts_error := None |};
          stderr := "" |};
     resizedRaw := Resolved ([x0a; x0a; x0a],
                             {| info_width := 1; info_height := 1; info_channels := 3 |});
     imageMetadata :=
       Resolved (plainMetadata
                   (Some ("Software" ++ String NUL "Adobe Photoshop" ++ String NUL "")));
     greyscaleRaw := Resolved ([x00; xff],
                               {| info_width := 2; info_height := 1; info_channels := 1 |});
     edgeRaw := Resolved [xff; xff];
     elaGreyscaleRaw := Resolved (stripedRow, stripedInfo);
     clock := 0 |}.

End Examples.

(* ================================================================== *)
(** * Reading a report *)
(* ================================================================== *)

Section Tiers.
Local Open Scope string_scope.

(** The four reports [generateDetailedAnalysis] can produce. *)
Inductive Tier := HighRisk | MediumRisk | LowRisk | AppearsAuthentic.

(** The tier a report announces, read off its first words. *)
Definition reportTier (report : string) : option Tier :=
  if String.prefix "HIGH RISK" report then Some HighRisk
  else if String.prefix "MEDIUM RISK" report then Some MediumRisk
  else if String.prefix "LOW RISK" report then Some LowRisk
  else if String.prefix "Document appears authentic" report then Some AppearsAuthentic
  else None.

End Tiers.

(* ================================================================== *)
(** * Binary64 order: definitions used by the proofs *)
(* ================================================================== *)

Section OrderDefinitions.
Local Open Scope Z_scope.

(** A key whose lexicographic order is the order [SFcompare] decides on
    numbers that are not NaN. *)
Definition key (x : spec_float) : Z * Z * Z :=
  match x with
  | S754_nan => (0, 0, 0)
  | S754_infinity true => (-2, 0, 0)
  | S754_infinity false => (2, 0, 0)
  | S754_zero _ => (0, 0, 0)
  | S754_finite true m e => (-1, - e, - Zpos m)
  | S754_finite false m e => (1, e, Zpos m)
  end.

Definition lexlt (a b : Z * Z * Z) : Prop :=
  fst (fst a) < fst (fst b)
  \/ (fst (fst a) = fst (fst b)
      /\ (snd (fst a) < snd (fst b)
          \/ (snd (fst a) = snd (fst b) /\ snd a < snd b))).

Definition lexeq (a b : Z * Z * Z) : Prop :=
  fst (fst a) = fst (fst b) /\ snd (fst a) = snd (fst b) /\ snd a = snd b.

End OrderDefinitions.

(* ================================================================== *)
(** * The order of the merged areas *)
(* ================================================================== *)

Section MergeOrder.

(** The flagged blocks with their index in the array, that is, in the
    order of detection. *)
Fixpoint indexedFrom (i : nat) (areas : list SuspiciousArea)
  : list (nat * SuspiciousArea) :=
  match areas with
  | [] => []
  | area :: rest => (i, area) :: indexedFrom (S i) rest
  end.

Definition indexed (areas : list SuspiciousArea) : list (nat * SuspiciousArea) :=
  indexedFrom 0 areas.

(** Of the blocks [rest], which start at index [i], those whose index is
    not in the set [processed]. *)
Definition unprocessedFrom (processed : list nat) (i : nat)
  (rest : list SuspiciousArea) : list (nat * SuspiciousArea) :=
  filter (fun p => negb (processed_has processed (fst p))) (indexedFrom i rest).

(** A group of the merge: the block that seeds it and the blocks it
    absorbs. *)
Definition Group : Type := (nat * SuspiciousArea) * list (nat * SuspiciousArea).

Definition seedIndex (g : Group) : nat := fst (fst g).

(** The center of [other] is within 50 of the center of [seed]. *)
Definition nearSeed (seed other : nat * SuspiciousArea) : bool :=
  areAreasNearby (snd seed) (snd other) 50.

(** Step 2 of the merge as the specification words it, on the blocks still
    unprocessed, in detection order: the first one seeds a new group, which
    absorbs every other unprocessed block whose center is within 50 of the
    center of the seed; the blocks left over are clustered in turn.
    [fuel] bounds the number of groups. *)
Fixpoint greedyGroups (fuel : nat) (unprocessed : list (nat * SuspiciousArea))
  : list Group :=
  match fuel, unprocessed with
  | S fuel, seed :: others =>
      (seed, filter (nearSeed seed) others)
      :: greedyGroups fuel (filter (fun other => negb (nearSeed seed other)) others)
  | _, _ => []
  end.

(** A group of size 1 is returned unchanged; a larger one is reduced to a
    single area. *)
Definition reduceGroup (g : Group) : SuspiciousArea :=
  match snd g with
  | [] => snd (fst g)
  | _ :: _ => mergeAreaGroup (snd (fst g) :: map snd (snd g))
  end.

(** Steps 2 and 3 of the specification: the groups of the flagged blocks,
    reduced, in the order in which they were seeded, and of these the first
    twenty. *)
Definition spec_mergedAreas (areas : list SuspiciousArea) : list SuspiciousArea :=
  firstn 20 (map reduceGroup (greedyGroups (List.length areas) (indexed areas))).

End MergeOrder.

(* ================================================================== *)
(** * Exhaustive checks over the flags *)
(* ================================================================== *)

Section FlagChecks.
Local Open Scope float_scope.

(** The five flags, in the order ELA, compression, metadata, noise,
    edges. *)
Definition Flags : Type := bool * bool * bool * bool * bool.

Definition flagsOf (analyses : Analyses) : Flags :=
  (ela_hasAnomalies analyses,
   compression_hasInconsistentCompression analyses,
   metadata_hasInconsistentMetadata analyses,
   noise_hasInconsistentNoise analyses,
   edge_hasInconsistentEdges analyses).

(** An [analyses] object with the given flags and [count] areas. *)
Definition analysesAt (flags : Flags) (count : nat) : Analyses :=
  let '(e, c, m, n, d) := flags in
  mkAnalyses e c m n d (repeat (brightBlock 0 0) count).

Definition bools : list bool := [false; true].

Definition allFlags : list Flags :=
  list_prod (list_prod (list_prod (list_prod bools bools) bools) bools) bools.

(** Every flag set in [f1] is set in [f2]. *)
Definition subflags (f1 f2 : Flags) : bool :=
  let '(e1, c1, m1, n1, d1) := f1 in
  let '(e2, c2, m2, n2, d2) := f2 in
  implb e1 e2 && implb c1 c2 && implb m1 m2 && implb n1 n2 && implb d1 d2.

(** The score does not decrease from [(f1, k1)] to [(f2, k2)] whenever
    [f1] is within [f2] and [k1 <= k2], for all flags and all counts up to
    ten. *)
Definition monotone_check : bool :=
  forallb
    (fun ff : Flags * Flags =>
       forallb
         (fun kk : nat * nat =>
            implb (subflags (fst ff) (snd ff) && Nat.leb (fst kk) (snd kk))
                  (calculateForgeryScore (analysesAt (fst ff) (fst kk))
                   <=? calculateForgeryScore (analysesAt (snd ff) (snd kk))))
         (list_prod (seq 0 11) (seq 0 11)))
    (list_prod allFlags allFlags).

(** The score computed is the score specified, for all flags and all counts
    up to ten. *)
Definition specified_check : bool :=
  forallb
    (fun f : Flags =>
       forallb
         (fun k : nat =>
            PrimFloat.Leibniz.eqb (calculateForgeryScore (analysesAt f k))
                                  (spec_forgeryScore (analysesAt f k)))
         (seq 0 11))
    allFlags.

End FlagChecks.

Section SmallExamples.
Local Open Scope string_scope.

Definition onePixel : Info :=
  {| info_width := 1; info_height := 1; info_channels := 1 |}.

(** A run on a one-pixel image in which every collaborator succeeds and no
    analyzer raises its flag. *)
Definition worldQuiet : World :=
  {| elaWorld := okElaWorld [x00; x00];
     compressionMetadata := Resolved (plainMetadata None);
     compressionScript :=
       {| exitCode := 0;
          parsedOutput := Some {| inconsistentBlocks := 0; artifacts_error := None |};
          stderr := "" |};
     resizedRaw := Resolved ([x0a; x0a; x0a],
                             {| info_width := 1; info_height := 1; info_channels := 3 |});
     imageMetadata := Resolved (plainMetadata None);
     greyscaleRaw := Resolved ([x0a], onePixel);
     edgeRaw := Resolved [x00];
     elaGreyscaleRaw := Resolved ([x00], onePixel);
     clock := 0 |}.

End SmallExamples.

(* ================================================================== *)
(** * Inputs and helpers for the analyzer theorems *)
(* ================================================================== *)

Section AnalyzerExamples.
Local Open Scope string_scope.

(** The block test of [analyzeCompressionPatterns]: the quality deviates
    from the mean of the map by more than twice its standard deviation. *)
Definition isSuspiciousBlock (compressionMap : list QualityBlock)
  (block : QualityBlock) : bool :=
  gt (Math_abs (qb_quality block - qv_mean (calculateQualityVariance compressionMap)))
     (qv_stdDev (calculateQualityVariance compressionMap) * 2).

(** The compression script reports six inconsistent blocks. *)
Definition scriptSaysSix : ScriptRun :=
  {| exitCode := 0;
     parsedOutput := Some {| inconsistentBlocks := 6; artifacts_error := None |};
     stderr := "" |}.

(** A uniform resized image: one block, nothing deviates. *)
Definition uniformRaw : Outcome (Buffer * Info) :=
  Resolved ([x0a; x0a; x0a],
            {| info_width := 1; info_height := 1; info_channels := 3 |}).




End AnalyzerExamples.

Section IsoDates.
Local Open Scope Z_scope.





End IsoDates.

Section ClockExamples.
Local Open Scope string_scope.


End ClockExamples.

Section FailureExamples.
Local Open Scope string_scope.


(** A run in which the ELA succeeds and the four other analyzers fail. *)
Definition worldOthersFail : World :=
  {| elaWorld := okElaWorld [x3c; x00];
     compressionMetadata := Rejected "metadata failed";
     compressionScript := scriptSaysSix;
     resizedRaw := Rejected "resize failed";
     imageMetadata := Rejected "metadata failed";
     greyscaleRaw := Rejected "greyscale failed";
     edgeRaw := Rejected "convolve failed";
     elaGreyscaleRaw := Resolved ([x00], onePixel);
     clock := 0 |}.

End FailureExamples.

Section ScriptExamples.
Local Open Scope string_scope.


(** The compression script exits with code 1. *)
Definition scriptCrashes : ScriptRun :=
  {| exitCode := 1;
     parsedOutput := Some {| inconsistentBlocks := 6; artifacts_error := None |};
     stderr := "Traceback (most recent call last)" |}.

End ScriptExamples.

Section ClockDefinitions.
Local Open Scope float_scope.




End ClockDefinitions.

Section MergeOrderExamples.
Local Open Scope string_scope.

(** A greyscale ELA image one pixel wide and 1312 pixels high: 41 blocks
    of 32 pixels, alternately lit and black.  The lit blocks get brighter
    from top to bottom, 180, 183, ... up to 240: 21 blocks are flagged, 64
    pixels apart, the later the more severe. *)
Definition rampSample (k : nat) : byte :=
  if Nat.even k
  then match Byte.of_N (N.of_nat (180 + 3 * (k / 2))) with
       | Some b => b
       | None => x00
       end
  else x00.

Definition rampColumn : Buffer :=
  flat_map (fun k => repeat (rampSample k) 32) (seq 0 41).

Definition rampInfo : Info :=
  {| info_width := 1; info_height := 1312; info_channels := 1 |}.

(** The blocks flagged in [rampColumn], as [detectSuspiciousAreas] pushes
    them: block [i] starts at row [64 * i] and has the intensity
    [180 + 3 * i]. *)
Definition rampBlock (i : nat) : SuspiciousArea :=
  let intensity := Number_of_nat (180 + 3 * i) in
  {| area_x := 0; area_y := Number_of_nat (64 * i);
     area_width := 1; area_height := 32;
     area_confidence := Math_min (intensity / 255) 1;
     area_type := classifySuspiciousArea intensity;
     area_intensity := intensity;
     area_mergedCount := None |}.

Definition rampBlocks : list SuspiciousArea := map rampBlock (seq 0 21).

(** A run in which every collaborator succeeds and the ELA image is
    [rampColumn]. *)
Definition worldRamp : World :=
  {| elaWorld := okElaWorld [x00; x00];
     compressionMetadata := Resolved (plainMetadata None);
     compressionScript :=
       {| exitCode := 0;
          parsedOutput := Some {| inconsistentBlocks := 0; artifacts_error := None |};
          stderr := "" |};
     resizedRaw := uniformRaw;
     imageMetadata := Resolved (plainMetadata None);
     greyscaleRaw := Resolved ([x0a], onePixel);
     edgeRaw := Resolved [x00];
     elaGreyscaleRaw := Resolved (rampColumn, rampInfo);
     clock := 0 |}.

End MergeOrderExamples.

(* ================================================================== *)
(** * Helpers for the edge and confidence theorems *)
(* ================================================================== *)

Section EdgeDefinitions.
Local Open Scope float_scope.

(** [hasInconsistentEdges] as a function of the edge ratio. *)
Definition edgeFlagOf (edgeRatio : float) : bool :=
  gt (Math_abs (edgeRatio - 0.1)) 0.3.

(** A number with the sign bit clear: [+0], a positive number or
    [+Infinity]. *)
Definition nonneg (x : spec_float) : Prop :=
  match x with
  | S754_zero false | S754_infinity false | S754_finite false _ _ => True
  | _ => False
  end.

(** The unit in which the values of the constants of the edge test are
    integers. *)
Definition P18 : Z := (2 ^ 1018)%Z.

End EdgeDefinitions.


Section EdgeExamples.
Local Open Scope float_scope.

(** The number of pixels of the buffer whose intensity is strictly above
    the edge threshold 50. *)
Definition edgePixelsOf (edgeData : Buffer) : nat :=
  List.length (filter (fun b => (50 <? Z.of_N (Byte.to_N b))%Z) edgeData).

(** Five pixels, two of them (intensity 51) above the edge threshold. *)
Definition twoOfFive : Buffer := [x33; x33; x00; x00; x00]%byte.

(** Two pixels, one of them an edge pixel. *)
Definition oneOfTwo : Buffer := [x33; x00]%byte.

(** The largest double below [0.4]. *)
Definition below_0_4 : float := 0.39999999999999997.

End EdgeExamples.


Section ConfidenceDefinitions.
Local Open Scope float_scope.

(** A confidence within [[0, 1]]. *)
Definition unitConfidence (a : SuspiciousArea) : Prop :=
  (0 <=? area_confidence a) = true /\ (area_confidence a <=? 1) = true.

(** An entry of the merged list is one of the flagged blocks as it was
    pushed, or [mergeAreaGroup] of a group of two or more of them. *)
Definition fromBlocks (areas : list SuspiciousArea) (o : SuspiciousArea) : Prop :=
  In o areas
  \/ exists group,
       (2 <= List.length group <= List.length areas)%nat
       /\ incl group areas /\ o = mergeAreaGroup group.

(** A white image 64 pixels wide and one pixel high: two flagged blocks,
    32 pixels apart. *)
Definition whiteRow : Buffer := repeat xff 64.

Definition whiteRowInfo : Info :=
  {| info_width := 64; info_height := 1; info_channels := 1 |}.

End ConfidenceDefinitions.

Section ConfidenceExamples.
Local Open Scope float_scope.

(** The area returned for [whiteRow]: its two blocks merged. *)
Definition whiteRowMerged : SuspiciousArea :=
  {| area_x := 0; area_y := 0; area_width := 64; area_height := 1;
     area_confidence := 1; area_type := high_manipulation;
     area_intensity := 255; area_mergedCount := Some 2%nat |}.

End ConfidenceExamples.


(* ================================================================== *)
(** * The verdict as a function of the flags and the area count *)
(* ================================================================== *)

Section VerdictDefinitions.
Local Open Scope float_scope.

(** The flags and area counts at which the score is above 0.6: ELA,
    compression, metadata and noise all flagged, with four areas when the
    edges are flagged too and eight when they are not. *)
Definition forgeryVerdict (flags : Flags) (count : nat) : bool :=
  let '(e, c, m, n, d) := flags in
  e && c && m && n && (if d then Nat.leb 4 count else Nat.leb 8 count).

(** [isForgery] agrees with [forgeryVerdict], for all flags and all counts
    up to ten. *)
Definition verdict_check : bool :=
  forallb
    (fun f : Flags =>
       forallb
         (fun k : nat =>
            Bool.eqb (gt (calculateForgeryScore (analysesAt f k)) 0.6)
                     (forgeryVerdict f k))
         (seq 0 11))
    allFlags.

(** The score lies between 0 and 0.6699999999999999, for all flags and all
    counts up to ten. *)
Definition ceiling_check : bool :=
  forallb
    (fun f : Flags =>
       forallb
         (fun k : nat =>
            (0 <=? calculateForgeryScore (analysesAt f k))
            && (calculateForgeryScore (analysesAt f k) <=? 0.6699999999999999))
         (seq 0 11))
    allFlags.

(** A score above 0.3 comes with the ELA, the compression or the metadata
    flag, for all flags and all counts up to ten. *)
Definition findings_check : bool :=
  forallb
    (fun f : Flags =>
       forallb
         (fun k : nat =>
            implb (gt (calculateForgeryScore (analysesAt f k)) 0.3)
                  (let '(e, c, m, n, d) := f in e || c || m))
         (seq 0 11))
    allFlags.

End VerdictDefinitions.

Section MergeAccounting.

(** The number of flagged blocks an area stands for: its [mergedCount], or
    one when it has none. *)
Definition blocksOf (area : SuspiciousArea) : nat :=
  match area_mergedCount area with
  | Some count => count
  | None => 1
  end.

(** No area of the list is near a later one. *)
Definition noneNearby (areas : list SuspiciousArea) : Prop :=
  forall i j a b,
    (i < j)%nat -> nth_error areas i = Some a -> nth_error areas j = Some b ->
    areAreasNearby a b 50 = false.

End MergeAccounting.

Section ElaDefinitions.

(** The largest and the smallest sample of a buffer, from the starting
    values 0 and 255 of [analyzeELAStatistics]. *)
Definition maxSample (pixels : Buffer) : Z :=
  fold_left (fun m b => Z.max m (Z.of_N (Byte.to_N b))) pixels 0%Z.

Definition minSample (pixels : Buffer) : Z :=
  fold_left (fun m b => Z.min m (Z.of_N (Byte.to_N b))) pixels 255%Z.

(** The path ends in [.jpg], [.jpeg] or [.png], in any letter case. *)
Definition hasImageExtension (path : string) : bool :=
  hasExtension ".jpg" path || hasExtension ".jpeg" path || hasExtension ".png" path.

End ElaDefinitions.

(* ================================================================== *)
(** * The document processor *)
(* ================================================================== *)

(** [AIProcessor] of [processor.js].  A text is a string of code units
    below 256; the entity types are the eight names that
    [getFieldDisplayName] knows, among which are the six that the entity
    service emits. *)
Section Text.
Local Open Scope string_scope.

(** [c.toLowerCase()] on a code unit below 256: the letters [A-Z] and the
    accented capitals [U+00C0-U+00DE] other than the multiplication
    sign. *)
Definition toLowerCase_unit (c : ascii) : ascii :=
  let n := Ascii.nat_of_ascii c in
  if (Nat.leb 65 n && Nat.leb n 90)
     || (Nat.leb 192 n && Nat.leb n 222 && negb (Nat.eqb n 215))
  then Ascii.ascii_of_nat (n + 32) else c.

(** [text.toLowerCase()]. *)
Fixpoint text_toLowerCase (s : string) : string :=
  match s with
  | EmptyString => EmptyString
  | String c rest => String (toLowerCase_unit c) (text_toLowerCase rest)
  end.

(** The classes [\w], [\s] and [[0-9]] of a regular expression without
    the [u] flag, on a code unit below 256. *)
Definition isWordChar (c : ascii) : bool :=
  let n := Ascii.nat_of_ascii c in
  (Nat.leb 48 n && Nat.leb n 57) || (Nat.leb 65 n && Nat.leb n 90)
  || (Nat.leb 97 n && Nat.leb n 122) || Nat.eqb n 95.

Definition isRegexSpace (c : ascii) : bool :=
  let n := Ascii.nat_of_ascii c in
  (Nat.leb 9 n && Nat.leb n 13) || Nat.eqb n 32 || Nat.eqb n 160.

Definition isDigit (c : ascii) : bool :=
  let n := Ascii.nat_of_ascii c in
  Nat.leb 48 n && Nat.leb n 57.

(** The class [[^\w\s\-.,]]. *)
Definition isOddChar (c : ascii) : bool :=
  let n := Ascii.nat_of_ascii c in
  negb (isWordChar c || isRegexSpace c
        || Nat.eqb n 45 || Nat.eqb n 46 || Nat.eqb n 44).

(** [(text.match(/[c]/g) || []).length] for a class [c]: the number of
    code units in the class. *)
Fixpoint countChars (class : ascii -> bool) (s : string) : nat :=
  match s with
  | EmptyString => 0
  | String c rest => (if class c then 1 else 0) + countChars class rest
  end.

(** [(text.match(/[c]{k,}/g) || []).length]: the quantifier is greedy, so
    each maximal run of [k] or more code units of the class is one match.
    [run] is the length of the run that ends before [s]. *)
Fixpoint countRuns (class : ascii -> bool) (k : nat) (s : string) (run : nat)
  : nat :=
  match s with
  | EmptyString => if Nat.leb k run then 1 else 0
  | String c rest =>
      if class c then countRuns class k rest (S run)
      else (if Nat.leb k run then 1 else 0) + countRuns class k rest 0
  end.

End Text.

Section Processor.
Local Open Scope float_scope.
Local Open Scope string_scope.

Inductive EntityType :=
| PERSON | DATE | AADHAAR_NUMBER | PAN_NUMBER
| PHONE | ADDRESS | AMOUNT | INVOICE_NUMBER.

Definition EntityType_eqb (a b : EntityType) : bool :=
  match a, b with
  | PERSON, PERSON | DATE, DATE | AADHAAR_NUMBER, AADHAAR_NUMBER
  | PAN_NUMBER, PAN_NUMBER | PHONE, PHONE | ADDRESS, ADDRESS
  | AMOUNT, AMOUNT | INVOICE_NUMBER, INVOICE_NUMBER => true
  | _, _ => false
  end.

(** An entity as the entity service returns it. *)
Record Entity := mkEntity {
  ent_type : EntityType;
  ent_value : string;
  ent_confidence : float;
  ent_start : nat;
  ent_end : nat
}.

Inductive DocumentType :=
| aadhaar_card | pan_card | invoice | id_card | passport | unknown.

(** [classifyDocument(text, entities)]. *)
Definition classifyDocument (text : string) (entities : list Entity)
  : DocumentType :=
  let textLower := text_toLowerCase text in
  if includes textLower "aadhaar" || includes textLower "aadhar"
     || existsb (fun e => EntityType_eqb (ent_type e) AADHAAR_NUMBER) entities
  then aadhaar_card
  else if includes textLower "permanent account number"
          || includes textLower "pan"
          || existsb (fun e => EntityType_eqb (ent_type e) PAN_NUMBER) entities
  then pan_card
  else if includes textLower "invoice" || includes textLower "bill"
          || includes textLower "amount" || includes textLower "total"
  then invoice
  else if includes textLower "identity" || includes textLower "id card"
          || includes textLower "identification"
  then id_card
  else if includes textLower "passport" || includes textLower "republic of india"
  then passport
  else unknown.

(** The number of matches of the three [errorPatterns], added up. *)
Definition errorCount (text : string) : nat :=
  countChars isOddChar text
  + countRuns isRegexSpace 3 text 0
  + countRuns isDigit 10 text 0.

(** [assessOCRQuality(text)]. *)
Definition assessOCRQuality (text : string) : float :=
  if String.eqb text "" || Nat.ltb (String.length text) 10 then 0.2%float
  else
    let errorRatio :=
      (Number_of_nat (errorCount text) / Number_of_nat (String.length text))%float in
    Math_max 0.2 (1 - errorRatio * 10)%float.

(** What the validation service returns for one field, and for the
    document. *)
Record FieldValidation := mkFieldValidation {
  field_isValid : bool;
  field_issues : option (list string)
}.

Record FormatValidation := mkFormatValidation {
  format_isValid : bool;
  format_fields : EntityType -> option FieldValidation
}.

Record Breakdown := mkBreakdown {
  bd_ocrQuality : float;
  bd_formatValidation : float;
  bd_forgeryDetection : float
}.

Record ConfidenceScore := mkConfidenceScore {
  overall : float;
  breakdown : Breakdown
}.

(** [calculateConfidenceScore(text, formatValidation, forgeryAnalysis,
    entities)]; of [forgeryAnalysis] it reads [isForgery]. *)
Definition calculateConfidenceScore (text : string)
  (formatValidation : FormatValidation) (forged : bool) (entities : list Entity)
  : ConfidenceScore :=
  let score := 0%float in
  let ocrQuality := assessOCRQuality text in
  let score := (score + ocrQuality * 0.4)%float in
  let formatScore := if format_isValid formatValidation then 1%float else 0.3%float in
  let score := (score + formatScore * 0.3)%float in
  let forgeryScore := if forged then 0.1%float else 0.9%float in
  let score := (score + forgeryScore * 0.3)%float in
  {| overall := Math_min score 1;
     breakdown := {| bd_ocrQuality := ocrQuality;
                     bd_formatValidation := formatScore;
                     bd_forgeryDetection := forgeryScore |} |}.

(** [calculateFraudRisk(forgeryAnalysis, confidenceScore)]. *)
Definition calculateFraudRisk (forged : bool) (confidenceScore : ConfidenceScore)
  : Suspicion :=
  if forged || lt (overall confidenceScore) 0.5 then high
  else if lt (overall confidenceScore) 0.7 then medium
  else low.

(** [getFieldDisplayName(entityType)]. *)
Definition getFieldDisplayName (entityType : EntityType) : string :=
  match entityType with
  | PERSON => "Name"
  | DATE => "Date"
  | AADHAAR_NUMBER => "Aadhaar Number"
  | PAN_NUMBER => "PAN Number"
  | PHONE => "Phone Number"
  | ADDRESS => "Address"
  | AMOUNT => "Amount"
  | INVOICE_NUMBER => "Invoice Number"
  end.

Record ValidationResult := mkValidationResult {
  vr_field : string;
  vr_value : string;
  vr_isValid : bool;
  vr_confidence : float;
  vr_issues : list string
}.

(** [generateValidationResults(entities, formatValidation,
    documentType)]. *)
Definition generateValidationResults (entities : list Entity)
  (formatValidation : FormatValidation) (documentType : DocumentType)
  : list ValidationResult :=
  map (fun entity =>
         let validation :=
           match format_fields formatValidation (ent_type entity) with
           | Some validation => validation
           | None => {| field_isValid := true; field_issues := Some [] |}
           end in
         {| vr_field := getFieldDisplayName (ent_type entity);
            vr_value := ent_value entity;
            vr_isValid := field_isValid validation;
            vr_confidence := ent_confidence entity;
            vr_issues :=
              match field_issues validation with
              | Some issues => issues
              | None => []
              end |})
      entities.

End Processor.

Section ProcessDocument.
Local Open Scope float_scope.
Local Open Scope string_scope.

Variable Date_parse : string -> option Z.

(** What the services around one [processDocument] call do: the text the
    OCR service extracts, the entity service and the validation service as
    functions of what they are given, the world of the forgery detector,
    the identifier drawn by [generateId] and the four readings of the
    clock. *)
Record Services := mkServices {
  extractText : Outcome string;
  extractEntities : string -> Outcome (list Entity);
  validateFormat : list Entity -> DocumentType -> Outcome FormatValidation;
  forgeryWorld : World;
  generatedId : string;
  startTime : Z;
  endTime : Z;
  uploadedAt : Z;
  processedAt : Z
}.

(** The object [processDocument] resolves with; the two dates are the
    clock readings that [toISOString] renders. *)
Record ProcessedDocument := mkProcessedDocument {
  doc_id : string;
  doc_filename : string;
  doc_type : DocumentType;
  doc_confidence : float;
  doc_isValid : bool;
  doc_fraudRisk : Suspicion;
  doc_extractedText : string;
  doc_validationResults : list ValidationResult;
  doc_entities : list Entity;
  doc_forgeryAnalysis : ForgeryAnalysis;
  doc_confidenceBreakdown : Breakdown;
  doc_uploadedAt : Z;
  doc_processedAt : Z;
  doc_processingTime : Z
}.

(** [processDocument(filePath, filename)]: whatever is thrown inside is
    rethrown as one error. *)
Definition processDocument (cfg : ForgeryConfig) (filePath filename : string)
  (s : Services) : Outcome ProcessedDocument :=
  let failed := Rejected "Failed to process document with AI" in
  match extractText s with
  | Rejected _ => failed
  | Resolved extractedText =>
  match extractEntities s extractedText with
  | Rejected _ => failed
  | Resolved entities =>
  let documentType := classifyDocument extractedText entities in
  match validateFormat s entities documentType with
  | Rejected _ => failed
  | Resolved formatValidation =>
  match analyzeImage Date_parse cfg filePath (forgeryWorld s) with
  | Rejected _ => failed
  | Resolved forgeryAnalysis =>
      let confidenceScore :=
        calculateConfidenceScore extractedText formatValidation
                                 (isForgery forgeryAnalysis) entities in
      let validationResults :=
        generateValidationResults entities formatValidation documentType in
      Resolved
        {| doc_id := generatedId s;
           doc_filename := filename;
           doc_type := documentType;
           doc_confidence := overall confidenceScore;
           doc_isValid :=
             (0.7 <=? overall confidenceScore)%float
             && negb (isForgery forgeryAnalysis);
           doc_fraudRisk :=
             calculateFraudRisk (isForgery forgeryAnalysis) confidenceScore;
           doc_extractedText := extractedText;
           doc_validationResults := validationResults;
           doc_entities := entities;
           doc_forgeryAnalysis := forgeryAnalysis;
           doc_confidenceBreakdown := breakdown confidenceScore;
           doc_uploadedAt := uploadedAt s;
           doc_processedAt := processedAt s;
           doc_processingTime := (endTime s - startTime s)%Z |}
  end end end end.

End ProcessDocument.

Section ConfidenceBounds.
Local Open Scope float_scope.

(** The range of the overall confidence, by the validity of the format
    and the forgery verdict: [0.08 + 0.3 or 0.09 + 0.27 or 0.03], up to
    [0.32] more for the OCR quality, with a margin of [0.0001] for the
    rounding. *)
Definition confidenceFloor (formatValid forged : bool) : float :=
  match formatValid, forged with
  | true, false => 0.6499
  | true, true => 0.4099
  | false, false => 0.4399
  | false, true => 0.1999
  end.

Definition confidenceCeiling (formatValid forged : bool) : float :=
  match formatValid, forged with
  | true, false => 0.9701
  | true, true => 0.7301
  | false, false => 0.7601
  | false, true => 0.5201
  end.

End ConfidenceBounds.

Section ProcessorExamples.
Local Open Scope string_scope.

Definition formatAccepted : FormatValidation :=
  {| format_isValid := true; format_fields := fun _ => None |}.

Definition formatRefused : FormatValidation :=
  {| format_isValid := false; format_fields := fun _ => None |}.

(** Services that read a clean text and accept its format, around a
    forgery analysis that raises no flag. *)
Definition servicesClean : Services :=
  {| extractText := Resolved "Government of India";
     extractEntities := fun _ => Resolved [];
     validateFormat := fun _ _ => Resolved formatAccepted;
     forgeryWorld := worldQuiet;
     generatedId := "k3j9x2m1q";
     startTime := 1700000000000;
     endTime := 1700000001800;
     uploadedAt := 1700000001800;
     processedAt := 1700000001800 |}.

(** Services that read three letters and refuse the format. *)
Definition servicesPoor : Services :=
  {| extractText := Resolved "PAN";
     extractEntities := fun _ => Resolved [];
     validateFormat := fun _ _ => Resolved formatRefused;
     forgeryWorld := worldQuiet;
     generatedId := "k3j9x2m1q";
     startTime := 1700000000000;
     endTime := 1700000001800;
     uploadedAt := 1700000001800;
     processedAt := 1700000001800 |}.

(** Services whose OCR fails. *)
Definition servicesNoText : Services :=
  {| extractText := Rejected "Failed to extract text from image";
     extractEntities := fun _ => Resolved [];
     validateFormat := fun _ _ => Resolved formatAccepted;
     forgeryWorld := worldQuiet;
     generatedId := "k3j9x2m1q";
     startTime := 1700000000000;
     endTime := 1700000001800;
     uploadedAt := 1700000001800;
     processedAt := 1700000001800 |}.

End ProcessorExamples.

(* ================================================================== *)
(** * The validation routes *)
(* ================================================================== *)

(** The parts of [routes/validation.js] around [processDocument]. *)
Section Routes.
Local Open Scope string_scope.

(** The class [[a-zA-Z0-9.-]] of the upload file name. *)
Definition isNameChar (c : ascii) : bool :=
  let n := Ascii.nat_of_ascii c in
  (Nat.leb 97 n && Nat.leb n 122) || (Nat.leb 65 n && Nat.leb n 90)
  || (Nat.leb 48 n && Nat.leb n 57) || Nat.eqb n 46 || Nat.eqb n 45.

(** [file.originalname.replace(/[^a-zA-Z0-9.-]/g, '_')]. *)
Fixpoint sanitizedName (originalname : string) : string :=
  match originalname with
  | EmptyString => EmptyString
  | String c rest =>
      String (if isNameChar c then c else "_"%char) (sanitizedName rest)
  end.

(** The [filename] callback of the disk storage: [uniqueSuffix] is
    [Date.now() + '-' + Math.round(Math.random() * 1E9)]. *)
Definition uploadFilename (uniqueSuffix originalname : string) : string :=
  "doc-" ++ uniqueSuffix ++ "-" ++ sanitizedName originalname.

(** The status and the code that the [catch] of the single-document
    endpoint answers with, from the message of the error. *)
Definition errorResponse (message : string) : Z * string :=
  if includes message "dimensions" then (400%Z, "INVALID_DIMENSIONS")
  else if includes message "integrity" then (400%Z, "FILE_INTEGRITY_ERROR")
  else if includes message "timeout" then (408%Z, "PROCESSING_TIMEOUT")
  else (500%Z, "PROCESSING_ERROR").

(** An upload of the batch endpoint: its path, its original name and the
    services as they behave while it is processed. *)
Record Upload := mkUpload {
  upload_path : string;
  upload_originalname : string;
  upload_services : Services
}.

(** An entry of [results]: the processed document, or the object
    [{error, filename}] that the inner [catch] returns. *)
Inductive BatchEntry :=
| Processed (document : ProcessedDocument)
| Failed (error filename : string).

(** [r.error] as a condition: documents have no [error], and an empty
    message is falsy. *)
Definition entryError (r : BatchEntry) : bool :=
  match r with
  | Processed _ => false
  | Failed error _ => negb (String.eqb error "")
  end.

Record BatchSummary := mkBatchSummary {
  summary_total : nat;
  summary_successful : nat;
  summary_failed : nat
}.

(** The slices [req.files.slice(i, i + concurrencyLimit)] pushed by the
    loop [for (i = 0; i < req.files.length; i += concurrencyLimit)]. *)
Definition chunksOf {A} (concurrencyLimit : nat) (files : list A)
  : list (list A) :=
  map (fun i => firstn concurrencyLimit (skipn i files))
      (blockStarts (List.length files) concurrencyLimit).

Variable Date_parse : string -> option Z.

(** The body of [chunk.map]: a failure of [processDocument] becomes an
    entry. *)
Definition processUpload (cfg : ForgeryConfig) (file : Upload) : BatchEntry :=
  match processDocument Date_parse cfg (upload_path file)
                        (upload_originalname file) (upload_services file) with
  | Resolved document => Processed document
  | Rejected message => Failed message (upload_originalname file)
  end.

(** The [results] and the [summary] of the batch endpoint, for a request
    with files and with the services initialised. *)
Definition batchResults (cfg : ForgeryConfig) (files : list Upload)
  : list BatchEntry :=
  flat_map (fun chunk => map (processUpload cfg) chunk) (chunksOf 3 files).

Definition batchSummary (cfg : ForgeryConfig) (files : list Upload)
  : BatchSummary :=
  let results := batchResults cfg files in
  {| summary_total := List.length files;
     summary_successful :=
       List.length (filter (fun r => negb (entryError r)) results);
     summary_failed := List.length (filter entryError results) |}.

End Routes.


(* ================================================================== *)
(** * The rectangle of a suspicious area *)
(* ================================================================== *)

(** The rectangle of an area has whole coordinates, is not empty and lies
    inside the image. *)
Definition insideImage (info : Info) (a : SuspiciousArea) : Prop :=
  exists x y w h : nat,
    area_x a = Number_of_nat x /\ area_y a = Number_of_nat y
    /\ area_width a = Number_of_nat w /\ area_height a = Number_of_nat h
    /\ (1 <= w)%nat /\ (1 <= h)%nat
    /\ (x + w <= info_width info)%nat /\ (y + h <= info_height info)%nat.


(* ================================================================== *)
(** * Binary64 rounding: the rounded result lies between representable
      bounds of the exact result *)
(* ================================================================== *)

Section RoundingTheory.
Local Open Scope Z_scope.

(** digits *)
Lemma digits2_pos_bounds (p : positive) :
  2 ^ (Zpos (digits2_pos p) - 1) <= Zpos p < 2 ^ (Zpos (digits2_pos p)).
Proof.
  induction p as [p IH | p IH |]; cbn [digits2_pos].
  - rewrite Pos2Z.inj_succ.
    replace (Z.succ (Zpos (digits2_pos p)) - 1) with (Z.succ (Zpos (digits2_pos p) - 1)) by lia.
    rewrite !Z.pow_succ_r by lia. lia.
  - rewrite Pos2Z.inj_succ.
    replace (Z.succ (Zpos (digits2_pos p)) - 1) with (Z.succ (Zpos (digits2_pos p) - 1)) by lia.
    rewrite !Z.pow_succ_r by lia. lia.
  - cbn. lia.
Qed.

Lemma Zdigits2_bounds (m : Z) : 0 < m ->
  2 ^ (Zdigits2 m - 1) <= m < 2 ^ (Zdigits2 m).
Proof. destruct m; try lia. intros _. apply digits2_pos_bounds. Qed.

Lemma Zdigits2_nonneg m : 0 <= Zdigits2 m.
Proof. destruct m; cbn; lia. Qed.

Lemma Zdigits2_unique (m d : Z) : 0 < m -> 2 ^ (d - 1) <= m < 2 ^ d -> Zdigits2 m = d.
Proof.
  intros Hm [H1 H2]. pose proof (Zdigits2_bounds m Hm) as [H3 H4].
  assert (0 <= d). { destruct (Z_lt_le_dec d 0); auto. rewrite Z.pow_neg_r in H2; lia. }
  pose proof (Zdigits2_nonneg m).
  destruct (Z.lt_trichotomy (Zdigits2 m) d) as [L | [E | G]]; auto.
  - assert (2 ^ (Zdigits2 m) <= 2 ^ (d - 1)) by (apply Z.pow_le_mono_r; lia). lia.
  - assert (2 ^ d <= 2 ^ (Zdigits2 m - 1)) by (apply Z.pow_le_mono_r; lia). lia.
Qed.

(** location of N/D *)
Lemma shr_1_m m r s :
  0 <= m -> shr_m (shr_1 (Build_shr_record m r s)) = m / 2
            /\ (shr_r (shr_1 (Build_shr_record m r s)) = true <-> m mod 2 = 1)
            /\ shr_s (shr_1 (Build_shr_record m r s)) = orb r s.
Proof.
  intros Hm. destruct m as [|[p|p|]|p]; try lia; cbn [shr_1 shr_m shr_r shr_s].
  - cbn. intuition congruence.
  - rewrite Pos2Z.inj_xI. rewrite (Z.add_comm _ 1), (Z.mul_comm 2).
    rewrite Z.div_add by lia. rewrite Z.mod_add by lia. cbn. intuition congruence.
  - rewrite Pos2Z.inj_xO. rewrite (Z.mul_comm 2).
    rewrite Z.div_mul by lia. rewrite Z.mod_mul by lia. cbn. intuition congruence.
  - cbn. intuition congruence.
Qed.

Lemma shr_1_located N D mrs : Located N D mrs -> Located N (2 * D) (shr_1 mrs).
Proof.
  intros [HD HN Hm Hr Hs]. destruct mrs as [m r s]. cbn [shr_m shr_r shr_s] in *.
  assert (Hdiv : N / (2 * D) = m / 2).
  { subst m. rewrite Z.mul_comm. rewrite <- Z.div_div by lia. reflexivity. }
  assert (Hmod : N mod (2 * D) = D * (m mod 2) + N mod D).
  { subst m. rewrite Z.mul_comm. rewrite Z.rem_mul_r by lia. lia. }
  pose proof (Z.mod_pos_bound N D HD) as HB.
  assert (Hm0 : 0 <= m) by (subst m; apply Z.div_pos; lia).
  pose proof (Z.mod_pos_bound m 2 ltac:(lia)) as HB2.
  destruct (shr_1_m m r s Hm0) as (E1 & E2 & E3).
  assert (Hb : m mod 2 = 0 \/ m mod 2 = 1) by lia.
  constructor; try lia.
  - rewrite Hmod, E2. destruct Hb as [-> | ->]; lia.
  - rewrite Hmod, E3. rewrite orb_true_iff, Hr, Hs. destruct Hb as [-> | ->]; lia.
Qed.

Lemma iter_shr_1_located p : forall N D mrs,
  Located N D mrs -> Located N (2 ^ Zpos p * D) (iter_pos shr_1 p mrs).
Proof.
  induction p as [p IH | p IH |]; intros N D mrs H; cbn [iter_pos].
  - apply shr_1_located in H. apply IH in H. apply IH in H.
    replace (2 ^ Z.pos p~1 * D) with (2 ^ Z.pos p * (2 ^ Z.pos p * (2 * D))); auto.
    replace (Z.pos p~1) with (Z.pos p + Z.pos p + 1) by lia.
    rewrite !Z.pow_add_r, Z.pow_1_r by lia. ring.
  - apply IH in H. apply IH in H.
    replace (2 ^ Z.pos p~0 * D) with (2 ^ Z.pos p * (2 ^ Z.pos p * D)); auto.
    replace (Z.pos p~0) with (Z.pos p + Z.pos p) by lia.
    rewrite Z.pow_add_r by lia. ring.
  - apply shr_1_located in H. exact H.
Qed.

(** ** binary64 parameters *)
Lemma fexp_eq e : fexp prec emax e = Z.max (e - 53) (-1074).
Proof. reflexivity. Qed.

Lemma Located_exact m : 0 <= m -> Located m 1 (shr_record_of_loc m loc_Exact).
Proof.
  intros Hm. constructor; cbn [shr_record_of_loc shr_m shr_r shr_s]; try lia.
  - now rewrite Z.div_1_r.
  - rewrite Z.mod_1_r. split; [discriminate | lia].
  - rewrite Z.mod_1_r. split; [discriminate | lia].
Qed.

Lemma shr_fexp_located N D m e l :
  Located N D (shr_record_of_loc m l) ->
  let e' := Z.max e (fexp prec emax (Zdigits2 m + e)) in
  snd (shr_fexp prec emax m e l) = e' /\
  Located N (2 ^ (e' - e) * D) (fst (shr_fexp prec emax m e l)).
Proof.
  intros H e'. unfold shr_fexp, shr.
  destruct (fexp prec emax (Zdigits2 m + e) - e) as [|p|p] eqn:En; cbn [fst snd].
  - assert (e' = e) by lia. rewrite H0, Z.sub_diag. cbn. split; auto.
    replace (1 * D) with D by lia. destruct D; auto.
  - assert (e' - e = Zpos p) by lia. split; [lia|]. rewrite H0. now apply iter_shr_1_located.
  - assert (e' = e) by lia. rewrite H0, Z.sub_diag. split; auto.
    replace (2 ^ 0 * D) with D by (cbn; destruct D; auto). auto.
Qed.

Lemma rne_bounds N D mrs :
  Located N D mrs ->
  let m := round_nearest_even (shr_m mrs) (loc_of_shr_record mrs) in
  N / D <= m /\ m * D < N + D.
Proof.
  intros [HD HN Hm Hr Hs]. destruct mrs as [m r s]. cbn [shr_m shr_r shr_s] in *.
  pose proof (Z.mod_pos_bound N D HD) as HB.
  pose proof (Z.div_mod N D ltac:(lia)) as HE.
  rewrite <- Hm in HE.
  cbn zeta. rewrite <- Hm.
  destruct r, s; cbn [loc_of_shr_record round_nearest_even].
  - assert (D <= 2 * (N mod D)) by (apply Hr; auto). nia.
  - assert (D <= 2 * (N mod D)) by (apply Hr; auto).
    destruct (Z.even m); nia.
  - nia.
  - assert (N mod D = 0).
    { destruct (Z.eq_dec (N mod D) 0); auto.
      destruct (Z.eq_dec (2 * (N mod D)) D).
      - assert (false = true) by (apply Hr; lia). discriminate.
      - assert (false = true) by (apply Hs; lia). discriminate. }
    nia.
Qed.

Lemma pow2_pos e : 0 < 2 ^ e \/ (e < 0 /\ 2 ^ e = 0).
Proof.
  destruct (Z_lt_le_dec e 0).
  - right. split; auto. now apply Z.pow_neg_r.
  - left. apply Z.pow_pos_nonneg; lia.
Qed.

Lemma shift_digits mx n d :
  0 < mx -> 0 <= n -> 2 ^ (d - 1) <= mx < 2 ^ d -> 
  mx / 2 ^ n < 2 ^ (Z.max 0 (d - n)) /\ (n < d -> 2 ^ (d - n - 1) <= mx / 2 ^ n).
Proof.
  intros Hm Hn [H1 H2].
  assert (Hd : 0 < d). { destruct (Z_lt_le_dec 0 d); auto. assert (2 ^ d <= 2 ^ 0) by (apply Z.pow_le_mono_r; lia). change (2^0) with 1 in H. lia. }
  assert (Hp : 0 < 2 ^ n) by (apply Z.pow_pos_nonneg; lia).
  split.
  - apply Z.div_lt_upper_bound; auto.
    destruct (Z_lt_le_dec n d).
    + rewrite Z.max_r by lia. rewrite <- Z.pow_add_r by lia. replace (n + (d - n)) with d by lia. auto.
    + rewrite Z.max_l by lia. change (2^0) with 1. 
      assert (2 ^ d <= 2 ^ n) by (apply Z.pow_le_mono_r; lia). lia.
  - intros Hnd. apply Z.div_le_lower_bound; auto.
    rewrite <- Z.pow_add_r by lia. replace (n + (d - n - 1)) with (d - 1) by lia. auto.
Qed.

Lemma bra_spec sx mx ex lx N D :
  Located N D (shr_record_of_loc mx lx) ->
  ex <= fexp prec emax (Zdigits2 mx + ex) ->
  let e' := fexp prec emax (Zdigits2 mx + ex) in
  let D' := 2 ^ (e' - ex) * D in
  exists m'',
    binary_round_aux prec emax sx mx ex lx = pack sx m'' e'
    /\ N / D' <= m'' /\ m'' * D' < N + D' /\ m'' <= 2 ^ 53
    /\ (-1074 < e' -> 2 ^ 52 <= N / D') /\ -1074 <= e' /\ 0 < D'.
Proof.
  intros HL HP e' D'.
  pose proof (shr_fexp_located N D mx ex lx HL) as [He1 HL1].
  cbn zeta in He1, HL1. rewrite Z.max_r in He1, HL1 by exact HP.
  fold e' in He1, HL1. fold D' in HL1.
  pose proof (rne_bounds N D' _ HL1) as [Hlo Hhi]. cbn zeta in Hlo, Hhi.
  unfold binary_round_aux.
  destruct (shr_fexp prec emax mx ex lx) as [mrs1 e1]. cbn [fst snd] in *. subst e1.
  set (m2 := round_nearest_even (shr_m mrs1) (loc_of_shr_record mrs1)) in *.
  assert (He' : -1074 <= e') by (unfold e'; rewrite fexp_eq; lia).
  assert (HD' : 0 < D') by (destruct HL1; auto).
  assert (Hmx : mx = N / D).
  { destruct HL as [_ _ Hm _ _]. destruct lx as [|[]]; exact Hm. }
  assert (HN : 0 <= N) by (destruct HL; auto).
  assert (HD : 0 < D) by (destruct HL; auto).
  assert (Hmx0 : 0 <= mx) by (subst mx; apply Z.div_pos; lia).
  assert (Hn : 0 <= e' - ex) by lia.
  assert (Hm1 : N / D' = mx / 2 ^ (e' - ex)).
  { unfold D'. rewrite Z.mul_comm, <- Z.div_div by (try lia; apply Z.pow_pos_nonneg; lia). now rewrite Hmx. }
  assert (Hb : N / D' < 2 ^ 53 /\ (-1074 < e' -> 2 ^ 52 <= N / D')).
  { rewrite Hm1. destruct (Z.eq_dec mx 0) as [E0 | NE0].
    - rewrite E0. rewrite Z.div_0_l by (assert (0 < 2 ^ (e' - ex)) by (apply Z.pow_pos_nonneg; lia); lia).
      split; [reflexivity|]. intros Hc. exfalso. unfold e' in Hc, HP. rewrite E0 in Hc, HP. cbn [Zdigits2] in *.
      rewrite fexp_eq in Hc, HP. lia.
    - assert (0 < mx) by lia.
      pose proof (Zdigits2_bounds mx H) as HB.
      pose proof (shift_digits mx (e' - ex) (Zdigits2 mx) H Hn HB) as [S1 S2].
      assert (Hdn : Zdigits2 mx - (e' - ex) <= 53) by (unfold e'; rewrite fexp_eq; lia).
      split.
      + eapply Z.lt_le_trans; [exact S1|]. apply Z.pow_le_mono_r; lia.
      + intros Hc. assert (e' = Zdigits2 mx + ex - 53) by (unfold e' in *; rewrite fexp_eq in *; lia).
        replace 52 with (Zdigits2 mx - (e' - ex) - 1) by lia. apply S2. lia. }
  destruct Hb as [Hb1 Hb2].
  assert (H2 : 0 <= m2 <= 2 ^ 53).
  { split. - apply Z.le_trans with (N / D'); auto. apply Z.div_pos; lia.
    - assert (m2 < N / D' + 1 + 1); [|lia].
      assert (N < D' * (N / D' + 1)).
      { pose proof (Z.div_mod N D' ltac:(lia)). pose proof (Z.mod_pos_bound N D' HD'). lia. }
      nia. }
  exists m2. repeat split; auto; try lia.
  unfold shr_fexp, shr, shr_record_of_loc.
  destruct (Z.eq_dec m2 0) as [E0 | NE0].
  - rewrite E0. cbn [Zdigits2]. rewrite fexp_eq.
    destruct (Z.max (0 + e' - 53) (-1074) - e') eqn:En; try lia; reflexivity.
  - destruct (Z.eq_dec m2 (2 ^ 53)) as [E53 | NE53].
    + rewrite E53. change (Zdigits2 (2 ^ 53)) with 54. rewrite fexp_eq.
      replace (Z.max (54 + e' - 53) (-1074) - e') with 1 by lia.
      cbn [iter_pos]. cbn -[Z.leb Z.add]. reflexivity.
    + assert (0 < m2 < 2 ^ 53) by lia.
      assert (Zdigits2 m2 <= 53).
      { pose proof (Zdigits2_bounds m2 ltac:(lia)) as [B1 B2].
        destruct (Z_lt_le_dec 53 (Zdigits2 m2)); try lia.
        assert (2 ^ 53 <= 2 ^ (Zdigits2 m2 - 1)) by (apply Z.pow_le_mono_r; lia). lia. }
      rewrite fexp_eq.
      assert (Hpk : pack sx m2 e' = match m2 with
                                    | Z0 => S754_zero sx
                                    | Zpos q => if e' <=? 971 then S754_finite sx q e' else S754_infinity sx
                                    | Zneg _ => S754_nan end).
      { unfold pack. destruct m2 as [|q|q]; auto. destruct (Z.eqb_spec (Z.pos q) (2 ^ 53)); [lia|reflexivity]. }
      rewrite Hpk.
      destruct (Z.max (Zdigits2 m2 + e' - 53) (-1074) - e') eqn:En; try lia; reflexivity.
Qed.

(** ** Scaled values and canonical representations *)
Lemma bounded_canon m e : bounded prec emax m e = true <-> canon (Zpos m) e.
Proof.
  unfold bounded, canonical_mantissa. rewrite andb_true_iff, Z.eqb_eq, Z.leb_le, fexp_eq.
  change (emax - prec) with 971.
  pose proof (digits2_pos_bounds m) as [B1 B2].
  set (d := Zpos (digits2_pos m)) in *.
  assert (0 < d) by (unfold d; lia).
  split.
  - intros [H1 H2]. constructor; try lia.
    + eapply Z.lt_le_trans; [exact B2|]. apply Z.pow_le_mono_r; lia.
    + intros Hn. assert (d = 53) by lia. rewrite H0 in B1. exact B1.
  - intros [C1 C2 C3 C4 C5]. split; auto.
    assert (d <= 53).
    { destruct (Z_lt_le_dec 53 d); try lia.
      assert (2 ^ 53 <= 2 ^ (d - 1)) by (apply Z.pow_le_mono_r; lia). lia. }
    destruct (Z.eq_dec e (-1074)); [lia|].
    assert (2 ^ 52 <= Zpos m) by (apply C5; lia).
    assert (53 <= d).
    { destruct (Z_lt_le_dec d 53); try lia.
      assert (2 ^ d <= 2 ^ 52) by (apply Z.pow_le_mono_r; lia). lia. }
    lia.
Qed.

Lemma V_lt_exp m1 e1 m2 e2 :
  0 <= m1 < 2 ^ 53 -> 2 ^ 52 <= m2 -> -1074 <= e1 < e2 -> V m1 e1 < V m2 e2.
Proof.
  intros H1 H2 He. unfold V.
  replace (e2 + 1074) with ((e2 - e1 - 1) + 1 + (e1 + 1074)) by lia.
  rewrite (Z.pow_add_r 2 (e2 - e1 - 1 + 1) (e1 + 1074)), (Z.pow_add_r 2 (e2 - e1 - 1) 1) by lia.
  assert (0 < 2 ^ (e1 + 1074)) by (apply Z.pow_pos_nonneg; lia).
  assert (1 <= 2 ^ (e2 - e1 - 1)) by (apply (Z.pow_le_mono_r 2 0); lia).
  change (2 ^ 1) with 2. change (2 ^ 53) with (2 * 2 ^ 52) in H1.
  assert (Hc : 0 < 2 ^ 52) by reflexivity.
  remember (2 ^ 52) as c eqn:Ec. clear Ec.
  remember (2 ^ (e1 + 1074)) as P eqn:EP. clear EP.
  remember (2 ^ (e2 - e1 - 1)) as A eqn:EA. clear EA.
  apply Z.lt_le_trans with (2 * c * P); [nia|].
  apply Z.le_trans with (2 * m2 * P); [nia|].
  replace (m2 * (A * 2 * P)) with (A * (2 * m2 * P)) by ring.
  assert (0 <= 2 * m2 * P) by nia. nia.
Qed.

Lemma compare_canon m1 e1 m2 e2 :
  canon (Zpos m1) e1 -> canon (Zpos m2) e2 ->
  SFcompare (S754_finite false m1 e1) (S754_finite false m2 e2)
  = Some (V (Zpos m1) e1 ?= V (Zpos m2) e2).
Proof.
  intros [A1 A2 A3 A4 A5] [B1 B2 B3 B4 B5]. cbn [SFcompare]. f_equal.
  destruct (Z.compare_spec e1 e2) as [E | L | G].
  - subst e2. unfold V. change (Pos.compare_cont Eq m1 m2) with (Zpos m1 ?= Zpos m2).
    assert (0 < 2 ^ (e1 + 1074)) by (apply Z.pow_pos_nonneg; lia).
    destruct (Z.compare_spec (Zpos m1) (Zpos m2)); symmetry;
      [apply Z.compare_eq_iff | apply Z.compare_lt_iff | apply Z.compare_gt_iff]; nia.
  - symmetry. apply Z.compare_lt_iff. apply V_lt_exp; lia.
  - symmetry. apply Z.compare_gt_iff. apply V_lt_exp; lia.
Qed.

Lemma V_pos m e : 0 < m -> -1074 <= e -> 0 < V m e.
Proof. intros. unfold V. apply Z.mul_pos_pos; auto. apply Z.pow_pos_nonneg; lia. Qed.

Lemma V_carry e : -1074 <= e -> V (2 ^ 52) (e + 1) = V (2 ^ 53) e.
Proof.
  intros. unfold V. replace (e + 1 + 1074) with (1 + (e + 1074)) by lia.
  rewrite Z.pow_add_r by lia. change (2 ^ 53) with (2 ^ 52 * 2 ^ 1). ring.
Qed.

Section Pack.
Variables (m e : Z) (mt : positive) (et : Z).
Hypothesis Hm : 0 <= m <= 2 ^ 53.
Hypothesis He : -1074 <= e.
Hypothesis Hnorm : -1074 < e -> 2 ^ 52 <= m.
Hypothesis Ht : canon (Zpos mt) et.

Lemma pack_cases :
  (m = 0 /\ pack false m e = S754_zero false) \/
  (0 < m /\ pack false m e = S754_infinity false /\ 2 ^ (53 + 971 + 1074) <= V m e) \/
  (0 < m /\ exists mf ef, pack false m e = S754_finite false mf ef
                     /\ canon (Zpos mf) ef /\ V (Zpos mf) ef = V m e).
Proof.
  destruct (Z.eq_dec m 0) as [E0 | N0]; [left; subst; auto|right].
  assert (0 < m) by lia.
  assert (Hbig : forall m' e', 2 ^ 52 <= m' -> 971 < e' -> 2 ^ (53 + 971 + 1074) <= V m' e').
  { intros m' e' M E. unfold V.
    replace (53 + 971 + 1074) with (52 + (972 + 1074)) by lia. rewrite Z.pow_add_r by lia.
    assert (2 ^ (972 + 1074) <= 2 ^ (e' + 1074)) by (apply Z.pow_le_mono_r; lia).
    assert (0 < 2 ^ (972 + 1074)) by (apply Z.pow_pos_nonneg; lia).
    assert (0 < 2 ^ 52) by reflexivity. nia. }
  destruct m as [|p|p]; try lia. unfold pack.
  destruct (Z.eqb_spec (Zpos p) (2 ^ 53)) as [E53 | N53].
  - destruct (Z.leb_spec (e + 1) 971).
    + right. split; auto. exists (2 ^ 52)%positive, (e + 1). split; auto. split.
      * constructor; try lia; try reflexivity.
      * rewrite E53. change (Z.pos (2 ^ 52)) with (2 ^ 52). apply V_carry; auto.
    + left. split; auto. split; auto. rewrite E53, <- V_carry by auto. apply Hbig; [reflexivity | lia].
  - destruct (Z.leb_spec e 971).
    + right. split; auto. exists p, e. split; auto. split; auto. constructor; try lia. 
    + left. split; auto. split; auto. apply Hbig; [apply Hnorm|]; lia.
Qed.

Lemma V_canon_lt : V (Zpos mt) et < 2 ^ (53 + 971 + 1074).
Proof.
  destruct Ht as [A1 A2 A3 A4 A5]. unfold V.
  replace (53 + 971 + 1074) with (53 + (971 + 1074)) by lia.
  rewrite (Z.pow_add_r 2 53 (971 + 1074)) by lia.
  assert (2 ^ (et + 1074) <= 2 ^ (971 + 1074)) by (apply Z.pow_le_mono_r; lia).
  assert (0 < 2 ^ (et + 1074)) by (apply Z.pow_pos_nonneg; lia).
  nia.
Qed.

Lemma pack_lo : V (Zpos mt) et <= V m e ->
  SFleb (S754_finite false mt et) (pack false m e) = true.
Proof.
  intros HV. destruct pack_cases as [[E0 ->] | [(Hp & -> & _) | (Hp & mf & ef & -> & Hc & HVe)]].
  - subst m. pose proof (V_pos (Zpos mt) et ltac:(lia) ltac:(destruct Ht; auto)). unfold V in HV at 2. lia.
  - reflexivity.
  - unfold SFleb. rewrite compare_canon by auto. rewrite HVe.
    destruct (Z.compare_spec (V (Zpos mt) et) (V m e)); auto; lia.
Qed.

Lemma pack_hi : V m e <= V (Zpos mt) et ->
  SFleb (pack false m e) (S754_finite false mt et) = true.
Proof.
  intros HV. destruct pack_cases as [[E0 ->] | [(Hp & -> & Hbig) | (Hp & mf & ef & -> & Hc & HVe)]].
  - reflexivity.
  - pose proof V_canon_lt. lia.
  - unfold SFleb. rewrite compare_canon by auto. rewrite HVe.
    destruct (Z.compare_spec (V m e) (V (Zpos mt) et)); auto; lia.
Qed.
End Pack.

Section Sandwich.
Variables (mx ex : Z) (lx : location) (N D : Z) (mt : positive) (et : Z).
Hypothesis HL : Located N D (shr_record_of_loc mx lx).
Hypothesis HP : ex <= fexp prec emax (Zdigits2 mx + ex).
Hypothesis Ht : canon (Zpos mt) et.
Let e' := fexp prec emax (Zdigits2 mx + ex).
Let D' := 2 ^ (e' - ex) * D.

Lemma bra_lo :
  V (Zpos mt) et * D' <= N * 2 ^ (e' + 1074) ->
  SFleb (S754_finite false mt et) (binary_round_aux prec emax false mx ex lx) = true.
Proof.
  intros HV.
  destruct (bra_spec false mx ex lx N D HL HP) as (m2 & -> & Hlo & Hhi & H53 & Hn & He & HD').
  fold e' in Hlo, Hhi, Hn, He, HD' |- *. fold D' in Hlo, Hhi, Hn, HD'.
  assert (HN : 0 <= N) by (destruct HL; auto).
  assert (0 <= N / D') by (apply Z.div_pos; lia).
  apply pack_lo; auto; try lia.
  pose proof Ht as [A1 A2 A3 A4 A5].
  assert (HP' : 0 < 2 ^ (e' + 1074)) by (apply Z.pow_pos_nonneg; lia).
  destruct (Z_lt_le_dec et e').
  - apply Z.lt_le_incl. apply V_lt_exp; lia.
  - assert (Epow : 2 ^ (et + 1074) = 2 ^ (et - e') * 2 ^ (e' + 1074))
      by (rewrite <- Z.pow_add_r by lia; f_equal; lia).
    unfold V in HV |- *. rewrite Epow in HV |- *.
    assert (0 < 2 ^ (et - e')) by (apply Z.pow_pos_nonneg; lia).
    set (T := Zpos mt * 2 ^ (et - e')) in *.
    assert (T * D' <= N) by nia.
    assert (T <= N / D') by (apply Z.div_le_lower_bound; lia).
    rewrite Z.mul_assoc. fold T. nia.
Qed.

Lemma bra_hi :
  N * 2 ^ (e' + 1074) <= V (Zpos mt) et * D' ->
  SFleb (binary_round_aux prec emax false mx ex lx) (S754_finite false mt et) = true.
Proof.
  intros HV.
  destruct (bra_spec false mx ex lx N D HL HP) as (m2 & -> & Hlo & Hhi & H53 & Hn & He & HD').
  fold e' in Hlo, Hhi, Hn, He, HD' |- *. fold D' in Hlo, Hhi, Hn, HD'.
  assert (HN : 0 <= N) by (destruct HL; auto).
  assert (0 <= N / D') by (apply Z.div_pos; lia).
  apply pack_hi; auto; try lia.
  pose proof Ht as [A1 A2 A3 A4 A5].
  assert (HP' : 0 < 2 ^ (e' + 1074)) by (apply Z.pow_pos_nonneg; lia).
  destruct (Z_lt_le_dec et e').
  - exfalso.
    assert (V (Zpos mt) et < V (2 ^ 52) e') by (apply V_lt_exp; lia).
    assert (2 ^ 52 <= N / D') by (apply Hn; lia).
    assert (2 ^ 52 * D' <= N).
    { pose proof (Z.mul_div_le N D' HD'). nia. }
    unfold V in H0 at 2. nia.
  - assert (Epow : 2 ^ (et + 1074) = 2 ^ (et - e') * 2 ^ (e' + 1074))
      by (rewrite <- Z.pow_add_r by lia; f_equal; lia).
    unfold V in HV |- *. rewrite Epow in HV |- *.
    assert (0 < 2 ^ (et - e')) by (apply Z.pow_pos_nonneg; lia).
    set (T := Zpos mt * 2 ^ (et - e')) in *.
    assert (N <= T * D') by nia.
    assert (m2 <= T) by nia.
    rewrite Z.mul_assoc. fold T. nia.
Qed.
End Sandwich.

(** ** Signed scaled value of a finite binary64 number: value * 2^1074 *)
Lemma wf_finite s m e : wf (S754_finite s m e) <-> canon (Zpos m) e.
Proof.
  unfold wf. cbn [valid_binary SpecFloat.valid_binary fin]. rewrite bounded_canon. tauto.
Qed.

Lemma Some_inj {A} (a b : A) : Some a = Some b -> a = b.
Proof. congruence. Qed.

Lemma SFcompare_SV x y : wf x -> wf y -> SFcompare x y = Some (SV x ?= SV y).
Proof.
  intros Hx Hy.
  destruct x as [sx | sx | | sx mx ex], y as [sy | sy | | sy my ey];
    try (destruct Hx as [_ Hx]; discriminate Hx);
    try (destruct Hy as [_ Hy]; discriminate Hy).
  - reflexivity.
  - apply wf_finite in Hy. pose proof (V_pos (Zpos my) ey ltac:(lia) ltac:(destruct Hy; auto)).
    cbn [SFcompare SV]. f_equal. destruct sy; cbn [cond_Zopp]; symmetry;
      [apply Z.compare_gt_iff | apply Z.compare_lt_iff]; lia.
  - apply wf_finite in Hx. pose proof (V_pos (Zpos mx) ex ltac:(lia) ltac:(destruct Hx; auto)).
    cbn [SFcompare SV]. f_equal. destruct sx; cbn [cond_Zopp]; symmetry;
      [apply Z.compare_lt_iff | apply Z.compare_gt_iff]; lia.
  - apply wf_finite in Hx, Hy.
    pose proof (V_pos (Zpos mx) ex ltac:(lia) ltac:(destruct Hx; auto)).
    pose proof (V_pos (Zpos my) ey ltac:(lia) ltac:(destruct Hy; auto)).
    pose proof (compare_canon mx ex my ey Hx Hy) as Hc. cbn [SFcompare] in Hc.
    apply Some_inj in Hc.
    cbn [SFcompare SV]. f_equal. destruct sx, sy; cbn [cond_Zopp].
    + rewrite Z.compare_opp. rewrite (Z.compare_antisym (V (Zpos mx) ex)). rewrite <- Hc.
      destruct (ex ?= ey); try reflexivity.
    + symmetry; apply Z.compare_lt_iff; lia.
    + symmetry; apply Z.compare_gt_iff; lia.
    + exact Hc.
Qed.

Lemma SFleb_SV x y : wf x -> wf y -> SFleb x y = (SV x <=? SV y).
Proof.
  intros Hx Hy. unfold SFleb. rewrite SFcompare_SV by auto.
  unfold Z.leb. destruct (SV x ?= SV y); reflexivity.
Qed.

Lemma SFltb_SV x y : wf x -> wf y -> SFltb x y = (SV x <? SV y).
Proof.
  intros Hx Hy. unfold SFltb. rewrite SFcompare_SV by auto.
  unfold Z.ltb. destruct (SV x ?= SV y); reflexivity.
Qed.

Lemma SFeqb_SV x y : wf x -> wf y -> SFeqb x y = (SV x =? SV y).
Proof.
  intros Hx Hy. unfold SFeqb. rewrite SFcompare_SV by auto.
  unfold Z.eqb. destruct (SV x) , (SV y); cbn; try reflexivity.
  - destruct (p ?= p0)%positive eqn:E; try reflexivity.
    + apply Pos.compare_eq in E. subst. now rewrite Pos.eqb_refl.
    + destruct (Pos.eqb_spec p p0); auto. subst. rewrite Pos.compare_refl in E. discriminate.
    + destruct (Pos.eqb_spec p p0); auto. subst. rewrite Pos.compare_refl in E. discriminate.
  - destruct (p ?= p0)%positive eqn:E; cbn; try reflexivity.
    + apply Pos.compare_eq in E. subst. now rewrite Pos.eqb_refl.
    + destruct (Pos.eqb_spec p p0); auto. subst. rewrite Pos.compare_refl in E. discriminate.
    + destruct (Pos.eqb_spec p p0); auto. subst. rewrite Pos.compare_refl in E. discriminate.
Qed.

(** A well-formed number is determined by its value, up to the sign of zero. *)
Lemma canon_unique m1 e1 m2 e2 :
  canon (Zpos m1) e1 -> canon (Zpos m2) e2 -> V (Zpos m1) e1 = V (Zpos m2) e2 ->
  m1 = m2 /\ e1 = e2.
Proof.
  intros H1 H2 HV.
  pose proof H1 as [A1 A2 A3 A4 A5]. pose proof H2 as [B1 B2 B3 B4 B5].
  destruct (Z.lt_trichotomy e1 e2) as [L | [E | G]].
  - assert (V (Zpos m1) e1 < V (Zpos m2) e2) by (apply V_lt_exp; lia). lia.
  - subst e2. split; auto. unfold V in HV.
    assert (0 < 2 ^ (e1 + 1074)) by (apply Z.pow_pos_nonneg; lia).
    assert (Zpos m1 = Zpos m2) by nia. congruence.
  - assert (V (Zpos m2) e2 < V (Zpos m1) e1) by (apply V_lt_exp; lia). lia.
Qed.

Lemma SV_inj x y : wf x -> wf y -> SV x = SV y -> SV x <> 0 -> x = y.
Proof.
  intros Hx Hy E NZ.
  destruct x as [sx | sx | | sx mx ex]; try (exfalso; apply NZ; reflexivity).
  destruct y as [sy | sy | | sy my ey]; try (exfalso; apply NZ; rewrite E; reflexivity).
  apply wf_finite in Hx, Hy.
  pose proof (V_pos (Zpos mx) ex ltac:(lia) ltac:(destruct Hx; auto)).
  pose proof (V_pos (Zpos my) ey ltac:(lia) ltac:(destruct Hy; auto)).
  cbn [SV] in E.
  destruct sx, sy; cbn [cond_Zopp] in E; try lia;
    (destruct (canon_unique mx ex my ey Hx Hy ltac:(lia)); subst; reflexivity).
Qed.

(** The result of rounding a non-negative quantity *)
Lemma pack_wf m e :
  0 <= m <= 2 ^ 53 -> -1074 <= e -> (-1074 < e -> 2 ^ 52 <= m) ->
  pack false m e = S754_infinity false \/
  (wf (pack false m e) /\ 0 <= SV (pack false m e) /\ SV (pack false m e) = V m e).
Proof.
  intros Hm He Hn.
  destruct (pack_cases m e Hm He Hn) as [[E0 ->] | [(Hp & -> & _) | (Hp & mf & ef & -> & Hc & HVe)]].
  - right. subst m. repeat split; cbn; auto; lia.
  - left; auto.
  - right. split; [apply wf_finite; auto|]. cbn [SV cond_Zopp]. rewrite HVe.
    pose proof (V_pos m e Hp He). lia.
Qed.

Lemma bra_sign mx ex lx :
  binary_round_aux prec emax true mx ex lx = SFopp (binary_round_aux prec emax false mx ex lx).
Proof.
  unfold binary_round_aux.
  destruct (shr_fexp prec emax mx ex lx) as [mrs1 e1].
  destruct (shr_fexp prec emax _ e1 loc_Exact) as [mrs2 e2].
  destruct (shr_m mrs2); try reflexivity. cbn [SFopp negb].
  destruct (e2 <=? emax - prec); reflexivity.
Qed.

Lemma SFcompare_opp x y : SFcompare (SFopp x) (SFopp y) = SFcompare y x.
Proof.
  destruct x as [sx | sx | | sx mx ex], y as [sy | sy | | sy my ey]; cbn [SFopp SFcompare];
    try reflexivity;
    try (destruct sx; reflexivity); try (destruct sy; reflexivity);
    try (destruct sx, sy; reflexivity).
  destruct sx, sy; cbn [negb]; try reflexivity.
  - rewrite (Z.compare_antisym ey ex). destruct (ey ?= ex); cbn [CompOpp]; try reflexivity.
    change (Pos.compare_cont Eq mx my) with (mx ?= my)%positive.
    change (Pos.compare_cont Eq my mx) with (my ?= mx)%positive.
    now rewrite (Pos.compare_antisym mx my), CompOpp_involutive.
  - rewrite (Z.compare_antisym ey ex). destruct (ey ?= ex); cbn [CompOpp]; try reflexivity.
    change (Pos.compare_cont Eq mx my) with (mx ?= my)%positive.
    change (Pos.compare_cont Eq my mx) with (my ?= mx)%positive.
    now rewrite (Pos.compare_antisym mx my).
Qed.

Lemma SFopp_involutive x : SFopp (SFopp x) = x.
Proof. destruct x; cbn; rewrite ?negb_involutive; reflexivity. Qed.

Lemma SFleb_opp x y : SFleb (SFopp x) y = SFleb (SFopp y) x.
Proof.
  unfold SFleb. rewrite <- (SFcompare_opp x (SFopp y)), SFopp_involutive. reflexivity.
Qed.

Lemma SFopp_wf x : wf x -> wf (SFopp x).
Proof. destruct x; unfold wf; cbn; tauto. Qed.

Lemma SV_opp x : SV (SFopp x) = - SV x.
Proof. destruct x as [| | | s m e]; cbn; try reflexivity. destruct s; cbn; lia. Qed.

(** ** [binary_round] and [binary_normalize] *)
Lemma Pos_iter_xO p d : Zpos (Pos.iter xO p d) = Zpos p * 2 ^ Zpos d.
Proof.
  induction d as [|d IH] using Pos.peano_ind.
  - cbn [Pos.iter]. rewrite Pos2Z.inj_xO. change (2 ^ 1) with 2. lia.
  - rewrite Pos.iter_succ, Pos2Z.inj_xO, IH, Pos2Z.inj_succ, Z.pow_succ_r by lia. ring.
Qed.

Lemma shl_align_spec mx ex ex' :
  snd (shl_align mx ex ex') = Z.min ex ex' /\
  Zpos (fst (shl_align mx ex ex')) = Zpos mx * 2 ^ (ex - Z.min ex ex').
Proof.
  unfold shl_align. destruct (ex' - ex) as [|d|d] eqn:E; cbn [fst snd].
  - rewrite Z.min_l by lia. rewrite Z.sub_diag. change (2 ^ 0) with 1. lia.
  - rewrite Z.min_l by lia. rewrite Z.sub_diag. change (2 ^ 0) with 1. lia.
  - rewrite Z.min_r by lia. split; auto. rewrite Pos_iter_xO. f_equal. f_equal. lia.
Qed.

Lemma Zdigits2_shift m k : 0 < m -> 0 <= k -> Zdigits2 (m * 2 ^ k) = Zdigits2 m + k.
Proof.
  intros Hm Hk. pose proof (Zdigits2_bounds m Hm) as [B1 B2].
  assert (0 < 2 ^ k) by (apply Z.pow_pos_nonneg; lia).
  assert (0 < Zdigits2 m).
  { destruct m; try lia. cbn. lia. }
  apply Zdigits2_unique; [nia|].
  replace (Zdigits2 m + k - 1) with (Zdigits2 m - 1 + k) by lia.
  rewrite !Z.pow_add_r by lia. nia.
Qed.

Section BinaryRound.
Variables (p : positive) (e : Z).
Hypothesis He : -1074 <= e.
Let fe := fexp prec emax (Zpos (digits2_pos p) + e).
Let mz := fst (shl_align p e fe).
Let ez := snd (shl_align p e fe).

Lemma binary_round_eq sx :
  binary_round prec emax sx p e = binary_round_aux prec emax sx (Zpos mz) ez loc_Exact.
Proof. unfold binary_round, mz, ez, fe. destruct (shl_align p e _); reflexivity. Qed.

Lemma br_facts :
  ez = Z.min e fe /\ Zpos mz = Zpos p * 2 ^ (e - ez) /\
  fexp prec emax (Zdigits2 (Zpos mz) + ez) = fe.
Proof.
  destruct (shl_align_spec p e fe) as [E1 E2]. fold ez in E1, E2. fold mz in E2.
  rewrite <- E1 in E2.
  split; [exact E1|]. split; [exact E2|].
  assert (Hd : Zdigits2 (Zpos mz) = Zdigits2 (Zpos p) + (e - ez))
    by (rewrite E2; apply Zdigits2_shift; lia).
  rewrite Hd. unfold fe. f_equal. cbn [Zdigits2]. lia.
Qed.

Lemma br_lo mt et : canon (Zpos mt) et ->
  V (Zpos mt) et <= V (Zpos p) e ->
  SFleb (S754_finite false mt et) (binary_round prec emax false p e) = true.
Proof.
  intros Ht HV. rewrite binary_round_eq.
  destruct br_facts as (E1 & E2 & E3).
  apply bra_lo with (N := Zpos mz) (D := 1); auto.
  - apply Located_exact. lia.
  - rewrite E3. lia.
  - rewrite E3. rewrite Z.mul_1_r. rewrite E2.
    assert (-1074 <= fe) by (unfold fe; rewrite fexp_eq; lia).
    unfold V in HV.
    replace (Zpos p * 2 ^ (e - ez) * 2 ^ (fe + 1074))
      with (Zpos p * 2 ^ (e + 1074) * 2 ^ (fe - ez)).
    + assert (0 < 2 ^ (fe - ez)) by (apply Z.pow_pos_nonneg; lia). unfold V. nia.
    + rewrite <- !Z.mul_assoc. f_equal. rewrite <- !Z.pow_add_r by lia. f_equal. lia.
Qed.

Lemma br_hi mt et : canon (Zpos mt) et ->
  V (Zpos p) e <= V (Zpos mt) et ->
  SFleb (binary_round prec emax false p e) (S754_finite false mt et) = true.
Proof.
  intros Ht HV. rewrite binary_round_eq.
  destruct br_facts as (E1 & E2 & E3).
  apply bra_hi with (N := Zpos mz) (D := 1); auto.
  - apply Located_exact. lia.
  - rewrite E3. lia.
  - rewrite E3. rewrite Z.mul_1_r. rewrite E2.
    assert (-1074 <= fe) by (unfold fe; rewrite fexp_eq; lia).
    unfold V in HV.
    replace (Zpos p * 2 ^ (e - ez) * 2 ^ (fe + 1074))
      with (Zpos p * 2 ^ (e + 1074) * 2 ^ (fe - ez)).
    + assert (0 < 2 ^ (fe - ez)) by (apply Z.pow_pos_nonneg; lia). unfold V. nia.
    + rewrite <- !Z.mul_assoc. f_equal. rewrite <- !Z.pow_add_r by lia. f_equal. lia.
Qed.

(** The rounded result is [+infinity] or a well-formed non-negative number. *)
Lemma br_shape :
  binary_round prec emax false p e = S754_infinity false \/
  (wf (binary_round prec emax false p e) /\ 0 <= SV (binary_round prec emax false p e)).
Proof.
  rewrite binary_round_eq. destruct br_facts as (E1 & E2 & E3).
  destruct (bra_spec false (Zpos mz) ez loc_Exact (Zpos mz) 1) as (m2 & -> & Hlo & Hhi & H53 & Hn & He' & HD').
  - apply Located_exact. lia.
  - rewrite E3. lia.
  - assert (0 <= Zpos mz / (2 ^ (fexp prec emax (Zdigits2 (Zpos mz) + ez) - ez) * 1)) by (apply Z.div_pos; lia).
    destruct (pack_wf m2 (fexp prec emax (Zdigits2 (Z.pos mz) + ez))) as [-> | (W & P0 & _)]; auto; lia.
Qed.
End BinaryRound.

Lemma SFleb_opp_r x y : SFleb x (SFopp y) = SFleb y (SFopp x).
Proof.
  unfold SFleb. rewrite <- (SFopp_involutive x) at 1. rewrite SFcompare_opp. reflexivity.
Qed.

Lemma binary_round_sign p e :
  binary_round prec emax true p e = SFopp (binary_round prec emax false p e).
Proof.
  unfold binary_round. destruct (shl_align p e _). apply bra_sign.
Qed.

Section RoundPositive.
Variables (p : positive) (e : Z) (t : spec_float).
Hypothesis He : -1074 <= e.
Hypothesis Ht : wf t.

Lemma brp_lo : SV t <= V (Zpos p) e ->
  SFleb t (binary_round prec emax false p e) = true.
Proof.
  intros HV.
  destruct t as [st | st | | st mt et]; try (destruct Ht as [_ F]; discriminate F).
  - destruct (br_shape p e He) as [-> | [W P0]]; [reflexivity|].
    rewrite SFleb_SV by auto. apply Z.leb_le. exact P0.
  - destruct st.
    + destruct (br_shape p e He) as [-> | [W P0]]; [reflexivity|].
      rewrite SFleb_SV by auto. apply Z.leb_le.
      apply wf_finite in Ht.
      pose proof (V_pos (Zpos mt) et ltac:(lia) ltac:(destruct Ht; auto)).
      cbn [SV cond_Zopp]. lia.
    + apply br_lo; auto. now apply wf_finite in Ht.
Qed.

Lemma brp_hi : V (Zpos p) e <= SV t ->
  SFleb (binary_round prec emax false p e) t = true.
Proof.
  intros HV. pose proof (V_pos (Zpos p) e ltac:(lia) He).
  destruct t as [st | st | | st mt et]; try (destruct Ht as [_ F]; discriminate F).
  - cbn [SV] in HV. lia.
  - destruct st.
    + apply wf_finite in Ht.
      pose proof (V_pos (Zpos mt) et ltac:(lia) ltac:(destruct Ht; auto)).
      cbn [SV cond_Zopp] in HV. lia.
    + apply br_hi; auto. now apply wf_finite in Ht.
Qed.
End RoundPositive.

Section BinaryNormalize.
Variables (z e : Z) (t : spec_float).
Hypothesis He : -1074 <= e.
Hypothesis Ht : wf t.

Lemma bn_lo : SV t <= z * 2 ^ (e + 1074) ->
  SFleb t (binary_normalize prec emax z e false) = true.
Proof.
  intros HV. destruct z as [|p|p]; cbn [binary_normalize].
  - rewrite SFleb_SV; [apply Z.leb_le; cbn [SV]; lia | auto | split; reflexivity].
  - apply brp_lo; auto.
  - rewrite binary_round_sign, SFleb_opp_r. apply brp_hi; auto.
    + now apply SFopp_wf.
    + rewrite SV_opp. unfold V. lia.
Qed.

Lemma bn_hi : z * 2 ^ (e + 1074) <= SV t ->
  SFleb (binary_normalize prec emax z e false) t = true.
Proof.
  intros HV. destruct z as [|p|p]; cbn [binary_normalize].
  - rewrite SFleb_SV; [apply Z.leb_le; cbn [SV]; lia | split; reflexivity | auto].
  - apply brp_hi; auto.
  - rewrite binary_round_sign, SFleb_opp. apply brp_lo; auto.
    + now apply SFopp_wf.
    + rewrite SV_opp. unfold V. lia.
Qed.
End BinaryNormalize.

(** ** Rounding with a location, any sign for the bound *)
Section RoundAux.
Variables (mx ex : Z) (lx : location) (N D : Z) (t : spec_float).
Hypothesis HL : Located N D (shr_record_of_loc mx lx).
Hypothesis HP : ex <= fexp prec emax (Zdigits2 mx + ex).
Hypothesis HN : 0 < N.
Hypothesis Ht : wf t.
Let e' := fexp prec emax (Zdigits2 mx + ex).
Let D' := 2 ^ (e' - ex) * D.

Lemma bra_shape :
  binary_round_aux prec emax false mx ex lx = S754_infinity false \/
  (wf (binary_round_aux prec emax false mx ex lx)
   /\ 0 <= SV (binary_round_aux prec emax false mx ex lx)).
Proof.
  destruct (bra_spec false mx ex lx N D HL HP) as (m2 & -> & Hlo & Hhi & H53 & Hn & He & HD').
  assert (0 <= N / (2 ^ (fexp prec emax (Zdigits2 mx + ex) - ex) * D)) by (apply Z.div_pos; lia).
  destruct (pack_wf m2 (fexp prec emax (Zdigits2 mx + ex))) as [-> | (W & P0 & _)]; auto; lia.
Qed.

Lemma bra_lo_wf : SV t * D' <= N * 2 ^ (e' + 1074) ->
  SFleb t (binary_round_aux prec emax false mx ex lx) = true.
Proof.
  intros HV.
  destruct t as [st | st | | st mt et]; try (destruct Ht as [_ F]; discriminate F).
  - destruct bra_shape as [-> | [W P0]]; [reflexivity|].
    rewrite SFleb_SV by auto. apply Z.leb_le. exact P0.
  - destruct st.
    + destruct bra_shape as [-> | [W P0]]; [reflexivity|].
      rewrite SFleb_SV by auto. apply Z.leb_le.
      apply wf_finite in Ht.
      pose proof (V_pos (Zpos mt) et ltac:(lia) ltac:(destruct Ht; auto)).
      cbn [SV cond_Zopp]. lia.
    + apply bra_lo with (N := N) (D := D); auto. now apply wf_finite in Ht.
Qed.

Lemma bra_hi_wf : N * 2 ^ (e' + 1074) <= SV t * D' ->
  SFleb (binary_round_aux prec emax false mx ex lx) t = true.
Proof.
  intros HV.
  assert (He : -1074 <= e') by (unfold e'; rewrite fexp_eq; lia).
  assert (0 < 2 ^ (e' + 1074)) by (apply Z.pow_pos_nonneg; lia).
  assert (0 < D').
  { destruct (bra_spec false mx ex lx N D HL HP) as (m2 & _ & _ & _ & _ & _ & _ & HD'). exact HD'. }
  assert (0 < SV t) by nia.
  destruct t as [st | st | | st mt et]; try (destruct Ht as [_ F]; discriminate F).
  - cbn [SV] in *. lia.
  - destruct st.
    + apply wf_finite in Ht.
      pose proof (V_pos (Zpos mt) et ltac:(lia) ltac:(destruct Ht; auto)).
      cbn [SV cond_Zopp] in *. lia.
    + apply bra_hi with (N := N) (D := D); auto. now apply wf_finite in Ht.
Qed.
End RoundAux.

(** ** Addition and subtraction *)
Lemma cond_Zopp_mul s a b : cond_Zopp s a * b = cond_Zopp s (a * b).
Proof. destruct s; cbn [cond_Zopp]; lia. Qed.

Lemma aligned_value s m e ez :
  -1074 <= ez <= e ->
  cond_Zopp s (Zpos (fst (shl_align m e ez))) * 2 ^ (ez + 1074)
  = SV (S754_finite s m e).
Proof.
  intros H. destruct (shl_align_spec m e ez) as [_ E]. rewrite E, Z.min_r by lia.
  rewrite cond_Zopp_mul. cbn [SV]. f_equal. unfold V.
  rewrite <- Z.mul_assoc, <- Z.pow_add_r by lia. f_equal. f_equal. lia.
Qed.

Lemma wf_zero s : wf (S754_zero s).
Proof. split; reflexivity. Qed.

Lemma wf_emin s m e : wf (S754_finite s m e) -> -1074 <= e.
Proof. intros H. apply wf_finite in H. destruct H; auto. Qed.

Section AddSub.
Variables x y t : spec_float.
Hypothesis Hx : wf x.
Hypothesis Hy : wf y.
Hypothesis Ht : wf t.

Lemma SFadd_lo : SV t <= SV x + SV y -> SFleb t (SFadd prec emax x y) = true.
Proof.
  intros HV.
  destruct x as [sx | sx | | sx mx ex]; try (destruct Hx as [_ F]; discriminate F);
  destruct y as [sy | sy | | sy my ey]; try (destruct Hy as [_ F]; discriminate F);
    cbn [SFadd].
  - destruct sx, sy; rewrite SFleb_SV by (auto using wf_zero); apply Z.leb_le; cbn [SV] in *; lia.
  - rewrite SFleb_SV by auto. apply Z.leb_le. cbn [SV] in *. lia.
  - rewrite SFleb_SV by auto. apply Z.leb_le. cbn [SV] in *. lia.
  - pose proof (wf_emin _ _ _ Hx). pose proof (wf_emin _ _ _ Hy).
    apply bn_lo; auto; [lia|].
    rewrite Z.mul_add_distr_r, !aligned_value by lia. exact HV.
Qed.

Lemma SFadd_hi : SV x + SV y <= SV t -> SFleb (SFadd prec emax x y) t = true.
Proof.
  intros HV.
  destruct x as [sx | sx | | sx mx ex]; try (destruct Hx as [_ F]; discriminate F);
  destruct y as [sy | sy | | sy my ey]; try (destruct Hy as [_ F]; discriminate F);
    cbn [SFadd].
  - destruct sx, sy; rewrite SFleb_SV by (auto using wf_zero); apply Z.leb_le; cbn [SV] in *; lia.
  - rewrite SFleb_SV by auto. apply Z.leb_le. cbn [SV] in *. lia.
  - rewrite SFleb_SV by auto. apply Z.leb_le. cbn [SV] in *. lia.
  - pose proof (wf_emin _ _ _ Hx). pose proof (wf_emin _ _ _ Hy).
    apply bn_hi; auto; [lia|].
    rewrite Z.mul_add_distr_r, !aligned_value by lia. exact HV.
Qed.

Lemma SFsub_lo : SV t <= SV x - SV y -> SFleb t (SFsub prec emax x y) = true.
Proof.
  intros HV.
  destruct x as [sx | sx | | sx mx ex]; try (destruct Hx as [_ F]; discriminate F);
  destruct y as [sy | sy | | sy my ey]; try (destruct Hy as [_ F]; discriminate F);
    cbn [SFsub].
  - destruct sx, sy; rewrite SFleb_SV by (auto using wf_zero); apply Z.leb_le; cbn [SV] in *; lia.
  - change (S754_finite (negb sy) my ey) with (SFopp (S754_finite sy my ey)).
    rewrite SFleb_SV by (auto using SFopp_wf). apply Z.leb_le. rewrite SV_opp. cbn [SV] in HV |- *. lia.
  - rewrite SFleb_SV by auto. apply Z.leb_le. cbn [SV] in *. lia.
  - pose proof (wf_emin _ _ _ Hx). pose proof (wf_emin _ _ _ Hy).
    apply bn_lo; auto; [lia|].
    rewrite Z.mul_sub_distr_r, !aligned_value by lia. exact HV.
Qed.

Lemma SFsub_hi : SV x - SV y <= SV t -> SFleb (SFsub prec emax x y) t = true.
Proof.
  intros HV.
  destruct x as [sx | sx | | sx mx ex]; try (destruct Hx as [_ F]; discriminate F);
  destruct y as [sy | sy | | sy my ey]; try (destruct Hy as [_ F]; discriminate F);
    cbn [SFsub].
  - destruct sx, sy; rewrite SFleb_SV by (auto using wf_zero); apply Z.leb_le; cbn [SV] in *; lia.
  - change (S754_finite (negb sy) my ey) with (SFopp (S754_finite sy my ey)).
    rewrite SFleb_SV by (auto using SFopp_wf). apply Z.leb_le. rewrite SV_opp. cbn [SV] in HV |- *. lia.
  - rewrite SFleb_SV by auto. apply Z.leb_le. cbn [SV] in *. lia.
  - pose proof (wf_emin _ _ _ Hx). pose proof (wf_emin _ _ _ Hy).
    apply bn_hi; auto; [lia|].
    rewrite Z.mul_sub_distr_r, !aligned_value by lia. exact HV.
Qed.
End AddSub.

(** ** Division *)
Lemma new_location_located N D :
  0 < D -> 0 <= N ->
  Located N D (shr_record_of_loc (N / D) (new_location D (N mod D))).
Proof.
  intros HD HN. pose proof (Z.mod_pos_bound N D HD) as HB.
  set (k := N mod D) in *.
  assert (Hloc : new_location D k = loc_Exact /\ k = 0 \/
                 new_location D k = loc_Inexact Lt /\ 0 < k /\ 2 * k < D \/
                 new_location D k = loc_Inexact Eq /\ 0 < k /\ 2 * k = D \/
                 new_location D k = loc_Inexact Gt /\ 0 < k /\ D < 2 * k).
  { unfold new_location. destruct (Z.even D) eqn:Ev.
    - unfold new_location_even. destruct (Z.eqb_spec k 0) as [E0 | N0]; [left; auto|right].
      destruct (Z.compare_spec (2 * k) D); [right; left | left | right; right]; split; auto; lia.
    - unfold new_location_odd. destruct (Z.eqb_spec k 0) as [E0 | N0]; [left; auto|right].
      assert (Ho : Z.odd D = true) by (rewrite <- Z.negb_even, Ev; reflexivity).
      apply Z.odd_spec in Ho. destruct Ho as [h Hh].
      destruct (Z.compare_spec (2 * k + 1) D); [left | left | right; right]; split; auto; lia. }
  constructor; auto.
  - destruct (new_location D k) as [|[]]; reflexivity.
  - fold k. destruct Hloc as [[-> H] | [[-> H] | [[-> H] | [-> H]]]];
      cbn [shr_record_of_loc shr_r]; split; intros; try congruence; try lia; exfalso; lia.
  - fold k. destruct Hloc as [[-> H] | [[-> H] | [[-> H] | [-> H]]]];
      cbn [shr_record_of_loc shr_s]; split; intros; try congruence; try lia; exfalso; lia.
Qed.

Lemma Zdigits2_ge m k : 0 <= k -> 2 ^ k <= m -> k + 1 <= Zdigits2 m.
Proof.
  intros Hk H. assert (0 < 2 ^ k) by (apply Z.pow_pos_nonneg; lia).
  pose proof (Zdigits2_bounds m ltac:(lia)) as [_ B].
  destruct (Z_lt_le_dec (Zdigits2 m) (k + 1)); auto.
  assert (2 ^ Zdigits2 m <= 2 ^ k) by (apply Z.pow_le_mono_r; lia). lia.
Qed.

Lemma shift_match m s : 0 <= s ->
  match s with Zpos _ => Z.shiftl m s | Z0 => m | Zneg _ => 0 end = m * 2 ^ s.
Proof.
  intros Hs. destruct s as [|q|q].
  - change (2 ^ 0) with 1. lia.
  - now rewrite Z.shiftl_mul_pow2 by lia.
  - lia.
Qed.

Section DivCore.
Variables (mx my : positive) (ex ey : Z).
Let d1 := Zdigits2 (Zpos mx).
Let d2 := Zdigits2 (Zpos my).
Let e' := Z.min (fexp prec emax (d1 + ex - (d2 + ey))) (ex - ey).
Let s := ex - ey - e'.
Let N := Zpos mx * 2 ^ s.
Let D := Zpos my.

Lemma div_core_eq :
  SFdiv_core_binary prec emax (Zpos mx) ex (Zpos my) ey
  = (N / D, e', new_location D (N mod D)).
Proof.
  unfold SFdiv_core_binary. fold d1 d2 e' s.
  assert (Hs : 0 <= s) by (unfold s, e'; lia).
  rewrite (shift_match (Zpos mx) s Hs). fold N. unfold Z.div, Z.modulo, D. destruct (Z.div_eucl N (Zpos my)); reflexivity.
Qed.

Lemma div_core_spec :
  0 <= s /\ 0 < N /\
  Located N D (shr_record_of_loc (N / D) (new_location D (N mod D))) /\
  e' <= fexp prec emax (Zdigits2 (N / D) + e').
Proof.
  assert (Hs : 0 <= s) by (unfold s, e'; lia).
  assert (HPs : 0 < 2 ^ s) by (apply Z.pow_pos_nonneg; lia).
  assert (HN : 0 < N) by (unfold N; lia).
  split; auto. split; auto. split.
  - apply new_location_located; unfold D; lia.
  - rewrite fexp_eq.
    assert (He' : e' <= Z.max (d1 + ex - (d2 + ey) - 53) (-1074))
      by (unfold e'; rewrite fexp_eq; lia).
    destruct (Z_le_gt_dec e' (-1074)); [lia|].
    (* then e' <= d1 + ex - d2 - ey - 53, so the quotient has at least 53 digits *)
    assert (Hk : 53 <= d1 + s - d2) by (unfold s; lia).
    pose proof (Zdigits2_bounds (Zpos mx) ltac:(lia)) as [B1 _].
    pose proof (Zdigits2_bounds (Zpos my) ltac:(lia)) as [_ B2].
    fold d1 in B1. fold d2 in B2.
    assert (Hd2 : 0 < d2) by (unfold d2; cbn; lia).
    assert (Hd1 : 0 < d1) by (unfold d1; cbn; lia).
    assert (Hq : 2 ^ (d1 + s - d2 - 1) <= N / D).
    { apply Z.div_le_lower_bound; [unfold D; lia|].
      apply Z.le_trans with (2 ^ d2 * 2 ^ (d1 + s - d2 - 1)).
      - apply Z.mul_le_mono_nonneg_r; [apply Z.pow_nonneg; lia | unfold D; lia].
      - rewrite <- Z.pow_add_r by lia. replace (d2 + (d1 + s - d2 - 1)) with ((d1 - 1) + s) by lia.
        rewrite Z.pow_add_r by lia. unfold N. nia. }
    pose proof (Zdigits2_ge (N / D) (d1 + s - d2 - 1) ltac:(lia) Hq).
    unfold s in *. lia.
Qed.
End DivCore.

Section Div.
Variables x y t : spec_float.
Hypothesis Hx : wf x.
Hypothesis Hy : wf y.
Hypothesis Ht : wf t.
Hypothesis Hx0 : 0 <= SV x.
Hypothesis Hy0 : 0 < SV y.

Lemma div_scale (mx my : positive) (ex ey e' e'' : Z) (vt : Z) :
  -1074 <= ex -> -1074 <= ey -> e' <= ex - ey -> e' <= e'' -> -1074 <= e'' ->
  (vt * V (Zpos my) ey <= V (Zpos mx) ex * 2 ^ 1074 <->
   vt * (2 ^ (e'' - e') * Zpos my) <= Zpos mx * 2 ^ (ex - ey - e') * 2 ^ (e'' + 1074))
  /\ (V (Zpos mx) ex * 2 ^ 1074 <= vt * V (Zpos my) ey <->
   Zpos mx * 2 ^ (ex - ey - e') * 2 ^ (e'' + 1074) <= vt * (2 ^ (e'' - e') * Zpos my)).
Proof.
  intros H1 H2 H3 H4 H5. unfold V.
  set (a := e'' - e'). set (b := e'' + 1074). set (s := ex - ey - e').
  assert (Hpy : 0 < 2 ^ (ey + 1074)) by (apply Z.pow_pos_nonneg; lia).
  assert (Hpa : 0 < 2 ^ a) by (apply Z.pow_pos_nonneg; unfold a; lia).
  assert (E : 2 ^ (ex + 1074) * 2 ^ 1074 * 2 ^ a = 2 ^ s * 2 ^ b * 2 ^ (ey + 1074)).
  { rewrite <- !Z.pow_add_r by (unfold a, b, s; lia). f_equal. unfold a, b, s. lia. }
  remember (2 ^ (ey + 1074)) as Py eqn:EPy. clear EPy.
  remember (2 ^ a) as Pa eqn:EPa. clear EPa.
  assert (E1 : Zpos mx * 2 ^ s * 2 ^ b * Py = Zpos mx * 2 ^ (ex + 1074) * 2 ^ 1074 * Pa).
  { rewrite <- !Z.mul_assoc. f_equal. rewrite !Z.mul_assoc. symmetry. exact E. }
  remember (Zpos mx * 2 ^ s * 2 ^ b) as L eqn:EL. clear EL.
  remember (Zpos mx * 2 ^ (ex + 1074) * 2 ^ 1074) as R eqn:ER. clear ER E.
  remember (Zpos my) as M eqn:EM. clear EM.
  split; split; intros H.
  - assert (vt * (Pa * M) * Py <= L * Py); [|nia].
    rewrite E1. nia.
  - assert (vt * (M * Py) * Pa <= R * Pa); [|nia].
    rewrite <- E1. nia.
  - assert (L * Py <= vt * (Pa * M) * Py); [|nia].
    rewrite E1. nia.
  - assert (R * Pa <= vt * (M * Py) * Pa); [|nia].
    rewrite <- E1. nia.
Qed.

Lemma SFdiv_lo : SV t * SV y <= SV x * 2 ^ 1074 -> SFleb t (SFdiv prec emax x y) = true.
Proof.
  intros HV.
  destruct y as [sy | sy | | sy my ey]; try (destruct Hy as [_ F]; discriminate F);
    [cbn [SV] in Hy0; lia|].
  pose proof (wf_emin _ _ _ Hy) as Hey.
  pose proof Hy as Hcy. apply wf_finite in Hcy.
  pose proof (V_pos (Zpos my) ey ltac:(lia) Hey) as HVy.
  destruct sy; [cbn [SV cond_Zopp] in Hy0; lia|].
  destruct x as [sx | sx | | sx mx ex]; try (destruct Hx as [_ F]; discriminate F).
  - cbn [SFdiv]. rewrite SFleb_SV by (auto using wf_zero). apply Z.leb_le.
    cbn [SV cond_Zopp] in *. nia.
  - pose proof (wf_emin _ _ _ Hx) as Hex.
    pose proof (V_pos (Zpos mx) ex ltac:(lia) Hex) as HVx.
    destruct sx; [cbn [SV cond_Zopp] in Hx0; lia|].
    cbn [SFdiv xorb]. rewrite div_core_eq.
    destruct (div_core_spec mx my ex ey) as (Hs & HN & HL & HP).
    eapply bra_lo_wf; eauto.
    cbn [SV cond_Zopp] in HV.
    match goal with |- context [fexp prec emax (Zdigits2 ?q + ?e1)] =>
      assert (He1 : e1 <= ex - ey) by apply Z.le_min_r;
      assert (He2 : -1074 <= fexp prec emax (Zdigits2 q + e1)) by (rewrite fexp_eq; lia);
      apply (proj1 (div_scale mx my ex ey e1 _ (SV t) Hex Hey He1 HP He2))
    end.
    exact HV.
Qed.

Lemma SFdiv_hi : SV x * 2 ^ 1074 <= SV t * SV y ->
  SFleb (SFdiv prec emax x y) t = true.
Proof.
  intros HV.
  destruct y as [sy | sy | | sy my ey]; try (destruct Hy as [_ F]; discriminate F);
    [cbn [SV] in Hy0; lia|].
  pose proof (wf_emin _ _ _ Hy) as Hey.
  pose proof (V_pos (Zpos my) ey ltac:(lia) Hey) as HVy.
  destruct sy; [cbn [SV cond_Zopp] in Hy0; lia|].
  destruct x as [sx | sx | | sx mx ex]; try (destruct Hx as [_ F]; discriminate F).
  - cbn [SFdiv]. rewrite SFleb_SV by (auto using wf_zero). apply Z.leb_le.
    cbn [SV cond_Zopp] in *. nia.
  - pose proof (wf_emin _ _ _ Hx) as Hex.
    pose proof (V_pos (Zpos mx) ex ltac:(lia) Hex) as HVx.
    destruct sx; [cbn [SV cond_Zopp] in Hx0; lia|].
    cbn [SFdiv xorb]. rewrite div_core_eq.
    destruct (div_core_spec mx my ex ey) as (Hs & HN & HL & HP).
    eapply bra_hi_wf; eauto.
    cbn [SV cond_Zopp] in HV.
    match goal with |- context [fexp prec emax (Zdigits2 ?q + ?e1)] =>
      assert (He1 : e1 <= ex - ey) by apply Z.le_min_r;
      assert (He2 : -1074 <= fexp prec emax (Zdigits2 q + e1)) by (rewrite fexp_eq; lia);
      apply (proj2 (div_scale mx my ex ey e1 _ (SV t) Hex Hey He1 HP He2))
    end.
    exact HV.
Qed.

(** The quotient of a non-negative by a positive number is [+infinity] or
    a well-formed non-negative number. *)
Lemma SFdiv_shape :
  SFdiv prec emax x y = S754_infinity false \/
  (wf (SFdiv prec emax x y) /\ 0 <= SV (SFdiv prec emax x y)).
Proof.
  destruct y as [sy | sy | | sy my ey]; try (destruct Hy as [_ F]; discriminate F);
    [cbn [SV] in Hy0; lia|].
  pose proof (wf_emin _ _ _ Hy) as Hey.
  pose proof (V_pos (Zpos my) ey ltac:(lia) Hey) as HVy.
  destruct sy; [cbn [SV cond_Zopp] in Hy0; lia|].
  destruct x as [sx | sx | | sx mx ex]; try (destruct Hx as [_ F]; discriminate F).
  - right. cbn [SFdiv]. split; [apply wf_zero | cbn [SV]; lia].
  - pose proof (wf_emin _ _ _ Hx) as Hex.
    pose proof (V_pos (Zpos mx) ex ltac:(lia) Hex) as HVx.
    destruct sx; [cbn [SV cond_Zopp] in Hx0; lia|].
    cbn [SFdiv xorb]. rewrite div_core_eq.
    destruct (div_core_spec mx my ex ey) as (Hs & HN & HL & HP).
    eapply bra_shape; eauto.
Qed.
End Div.

End RoundingTheory.

Section PrimitiveFloats.
Local Open Scope Z_scope.
Local Open Scope float_scope.

Lemma K_pos : (0 < K)%Z. Proof. reflexivity. Qed.

Lemma prim_wf x : finite x -> wf (Prim2SF x).
Proof. intros H. split; [apply Prim2SF_valid | exact H]. Qed.

Lemma leb_val x y : finite x -> finite y -> (x <=? y) = (val x <=? val y)%Z.
Proof. intros. rewrite leb_spec. apply SFleb_SV; now apply prim_wf. Qed.

Lemma ltb_val x y : finite x -> finite y -> (x <? y) = (val x <? val y)%Z.
Proof. intros. rewrite ltb_spec. apply SFltb_SV; now apply prim_wf. Qed.

Lemma eqb_val x y : finite x -> finite y -> (x =? y) = (val x =? val y)%Z.
Proof. intros. rewrite eqb_spec. apply SFeqb_SV; now apply prim_wf. Qed.

Lemma val_inj x y : finite x -> finite y -> val x = val y -> val x <> 0%Z -> x = y.
Proof.
  intros Hx Hy E NZ. apply Prim2SF_inj. apply SV_inj; auto using prim_wf.
Qed.

Lemma finite_between a b x :
  finite a -> finite b -> (a <=? x) = true -> (x <=? b) = true -> finite x.
Proof.
  unfold finite. rewrite !leb_spec. intros Ha Hb H1 H2.
  destruct (Prim2SF x) as [| [] | |]; try reflexivity.
  - destruct (Prim2SF a) as [| | |[]]; try discriminate; cbn in H1; discriminate.
  - destruct (Prim2SF b) as [| | |[]]; try discriminate; cbn in H2; discriminate.
  - destruct (Prim2SF a); discriminate.
Qed.

Section PrimOps.
Variables x y t : float.
Hypothesis Hx : finite x.
Hypothesis Hy : finite y.
Hypothesis Ht : finite t.

Lemma add_lo : (val t <= val x + val y)%Z -> (t <=? x + y) = true.
Proof. intros. rewrite leb_spec, add_spec. apply SFadd_lo; auto using prim_wf. Qed.

Lemma add_hi : (val x + val y <= val t)%Z -> (x + y <=? t) = true.
Proof. intros. rewrite leb_spec, add_spec. apply SFadd_hi; auto using prim_wf. Qed.

Lemma sub_lo : (val t <= val x - val y)%Z -> (t <=? x - y) = true.
Proof. intros. rewrite leb_spec, sub_spec. apply SFsub_lo; auto using prim_wf. Qed.

Lemma sub_hi : (val x - val y <= val t)%Z -> (x - y <=? t) = true.
Proof. intros. rewrite leb_spec, sub_spec. apply SFsub_hi; auto using prim_wf. Qed.

Lemma div_lo : (0 <= val x)%Z -> (0 < val y)%Z ->
  (val t * val y <= val x * K)%Z -> (t <=? x / y) = true.
Proof.
  intros. rewrite leb_spec, div_spec. apply SFdiv_lo; auto using prim_wf.
Qed.

Lemma div_hi : (0 <= val x)%Z -> (0 < val y)%Z ->
  (val x * K <= val t * val y)%Z -> (x / y <=? t) = true.
Proof.
  intros. rewrite leb_spec, div_spec. apply SFdiv_hi; auto using prim_wf.
Qed.
End PrimOps.


(** ** Numbers made from integers *)

Lemma br_exact p e mt et :
  (-1074 <= e)%Z -> canon (Zpos mt) et -> V (Zpos mt) et = V (Zpos p) e ->
  binary_round prec emax false p e = S754_finite false mt et.
Proof.
  intros He Ht HV.
  pose proof (br_lo p e He mt et Ht ltac:(lia)) as Hlo.
  pose proof (br_hi p e He mt et Ht ltac:(lia)) as Hhi.
  destruct (br_shape p e He) as [E | [W P0]].
  - rewrite E in Hhi. discriminate Hhi.
  - assert (Wt : wf (S754_finite false mt et)) by (apply wf_finite; exact Ht).
    rewrite SFleb_SV in Hlo, Hhi by auto.
    apply Z.leb_le in Hlo, Hhi.
    apply SV_inj; auto; try lia.
    assert (0 < SV (S754_finite false mt et))%Z; [|lia].
    cbn [SV cond_Zopp]. apply V_pos; [lia | destruct Ht; auto].
Qed.

Lemma small_integer_canon z :
  (0 < z < 2 ^ 53)%Z ->
  exists mt et, canon (Zpos mt) et /\ V (Zpos mt) et = (z * 2 ^ 1074)%Z.
Proof.
  intros Hz.
  pose proof (Zdigits2_bounds z ltac:(lia)) as [B1 B2].
  set (d := Zdigits2 z) in *.
  assert (Hd : (0 < d <= 53)%Z).
  { split.
    - unfold d. destruct z; try lia. cbn. lia.
    - destruct (Z_lt_le_dec 53 d); try lia.
      assert (2 ^ 53 <= 2 ^ (d - 1))%Z by (apply Z.pow_le_mono_r; lia). lia. }
  assert (Hp : (0 < 2 ^ (53 - d))%Z) by (apply Z.pow_pos_nonneg; lia).
  exists (Z.to_pos (z * 2 ^ (53 - d))), (d - 53)%Z.
  rewrite Z2Pos.id by nia. split.
  - assert (E53 : (2 ^ 53 = 2 ^ d * 2 ^ (53 - d))%Z)
      by (rewrite <- Z.pow_add_r by lia; f_equal; lia).
    assert (E52 : (2 ^ 52 = 2 ^ (d - 1) * 2 ^ (53 - d))%Z)
      by (rewrite <- Z.pow_add_r by lia; f_equal; lia).
    constructor.
    + nia.
    + rewrite E53. nia.
    + lia.
    + lia.
    + intros _. rewrite E52. nia.
  - unfold V. rewrite <- Z.mul_assoc, <- Z.pow_add_r by lia. f_equal. f_equal. lia.
Qed.

Lemma binary_normalize_valid z :
  (0 <= z)%Z -> valid_binary (binary_normalize prec emax z 0 false) = true.
Proof.
  intros Hz. destruct z as [|p|p]; try lia; cbn [binary_normalize].
  - reflexivity.
  - destruct (br_shape p 0 ltac:(lia)) as [-> | [[W _] _]]; [reflexivity | exact W].
Qed.

Lemma Number_of_Z_spec z :
  (0 <= z)%Z -> Prim2SF (Number_of_Z z) = binary_normalize prec emax z 0 false.
Proof.
  intros Hz. unfold Number_of_Z. apply Prim2SF_SF2Prim. now apply binary_normalize_valid.
Qed.

Lemma Number_lo z t :
  (0 <= z)%Z -> finite t -> (val t <= z * K)%Z -> (t <=? Number_of_Z z) = true.
Proof.
  intros Hz Ht HV. rewrite leb_spec, Number_of_Z_spec by auto.
  apply bn_lo; auto using prim_wf; lia.
Qed.

Lemma Number_hi z t :
  (0 <= z)%Z -> finite t -> (z * K <= val t)%Z -> (Number_of_Z z <=? t) = true.
Proof.
  intros Hz Ht HV. rewrite leb_spec, Number_of_Z_spec by auto.
  apply bn_hi; auto using prim_wf; lia.
Qed.

Lemma Number_exact z :
  (0 <= z < 2 ^ 53)%Z -> finite (Number_of_Z z) /\ val (Number_of_Z z) = (z * K)%Z.
Proof.
  intros Hz. unfold finite, val. rewrite Number_of_Z_spec by lia.
  destruct z as [|p|p]; try lia; cbn [binary_normalize].
  - split; reflexivity.
  - destruct (small_integer_canon (Zpos p) ltac:(lia)) as (mt & et & Hc & HV).
    rewrite (br_exact p 0 mt et ltac:(lia) Hc).
    + split; [reflexivity|]. cbn [SV cond_Zopp]. exact HV.
    + rewrite HV. reflexivity.
Qed.

Lemma Number_of_nat_exact n :
  (Z.of_nat n < 2 ^ 53)%Z ->
  finite (Number_of_nat n) /\ val (Number_of_nat n) = (Z.of_nat n * K)%Z.
Proof. intros. apply Number_exact. lia. Qed.

End PrimitiveFloats.

(* ================================================================== *)
(** * Comparisons, NaN and [Math.min] *)
(* ================================================================== *)

Section Comparisons.
Local Open Scope float_scope.

Lemma SFcompare_antisym x y :
  SFcompare y x = option_map CompOpp (SFcompare x y).
Proof.
  destruct x as [sx | sx | | sx mx ex], y as [sy | sy | | sy my ey];
    cbn [SFcompare option_map]; try reflexivity;
    try (destruct sx; reflexivity); try (destruct sy; reflexivity);
    try (destruct sx, sy; reflexivity).
  change (Pos.compare_cont Eq mx my) with (mx ?= my)%positive.
  change (Pos.compare_cont Eq my mx) with (my ?= mx)%positive.
  rewrite (Z.compare_antisym ex ey), (Pos.compare_antisym mx my).
  destruct sx, sy; try reflexivity;
    destruct (ex ?= ey)%Z; cbn [CompOpp]; try reflexivity;
    destruct (mx ?= my)%positive; reflexivity.
Qed.

Lemma SFcompare_refl x : x <> S754_nan -> SFcompare x x = Some Eq.
Proof.
  destruct x as [sx | sx | | sx mx ex]; intros H; try congruence; cbn [SFcompare];
    try (destruct sx; reflexivity).
  rewrite Z.compare_refl.
  change (Pos.compare_cont Eq mx mx) with (mx ?= mx)%positive.
  rewrite Pos.compare_refl. destruct sx; reflexivity.
Qed.

Lemma is_nan_spec x : is_nan x = true <-> Prim2SF x = S754_nan.
Proof.
  unfold is_nan. rewrite eqb_spec. unfold SFeqb. split.
  - destruct (Prim2SF x) eqn:E; auto; rewrite SFcompare_refl; discriminate.
  - intros ->. reflexivity.
Qed.

Lemma is_nan_nan x : is_nan x = true -> x = nan.
Proof.
  intros H. apply is_nan_spec in H. apply Prim2SF_inj. rewrite H. reflexivity.
Qed.

Lemma leb_not_nan a b : (a <=? b) = true -> is_nan a = false /\ is_nan b = false.
Proof.
  rewrite leb_spec. unfold SFleb. intros H.
  split; apply not_true_is_false; intros N; apply is_nan_spec in N; rewrite N in H.
  - discriminate H.
  - destruct (Prim2SF a); discriminate H.
Qed.

Lemma ltb_not_nan a b : (a <? b) = true -> is_nan a = false /\ is_nan b = false.
Proof.
  rewrite ltb_spec. unfold SFltb. intros H.
  split; apply not_true_is_false; intros N; apply is_nan_spec in N; rewrite N in H.
  - discriminate H.
  - destruct (Prim2SF a); discriminate H.
Qed.

Lemma ltb_leb a b : (a <? b) = true -> (a <=? b) = true.
Proof.
  rewrite ltb_spec, leb_spec. unfold SFltb, SFleb.
  destruct (SFcompare (Prim2SF a) (Prim2SF b)) as [[]|]; congruence.
Qed.

Lemma leb_ltb_false a b : (a <=? b) = true -> (b <? a) = false.
Proof.
  rewrite ltb_spec, leb_spec. unfold SFltb, SFleb.
  rewrite (SFcompare_antisym (Prim2SF a) (Prim2SF b)).
  destruct (SFcompare (Prim2SF a) (Prim2SF b)) as [[]|]; cbn; congruence.
Qed.

Lemma ltb_leb_false a b : (a <? b) = true -> (b <=? a) = false.
Proof.
  rewrite ltb_spec, leb_spec. unfold SFltb, SFleb.
  rewrite (SFcompare_antisym (Prim2SF a) (Prim2SF b)).
  destruct (SFcompare (Prim2SF a) (Prim2SF b)) as [[]|]; cbn; congruence.
Qed.


(** Two numbers that are not NaN are comparable. *)
Lemma ltb_false_leb a b :
  is_nan a = false -> is_nan b = false -> (a <? b) = false -> (b <=? a) = true.
Proof.
  intros Ha Hb. rewrite ltb_spec, leb_spec. unfold SFltb, SFleb.
  rewrite (SFcompare_antisym (Prim2SF a) (Prim2SF b)).
  destruct (SFcompare (Prim2SF a) (Prim2SF b)) as [[]|] eqn:E; cbn; try congruence.
  intros _. exfalso.
  assert (Prim2SF a <> S754_nan).
  { intros N. apply is_nan_spec in N. congruence. }
  assert (Prim2SF b <> S754_nan).
  { intros N. apply is_nan_spec in N. congruence. }
  destruct (Prim2SF a) as [| | |[]], (Prim2SF b) as [| | |[]]; try congruence;
    cbn in E; try discriminate; destruct s; try discriminate; destruct s0; discriminate.
Qed.

(** [Math.min(a, b)] is one of its arguments when neither is NaN. *)
Lemma Math_min_cases a b :
  is_nan a = false -> is_nan b = false ->
  (Math_min a b = a /\ (a <=? b) = true) \/ (Math_min a b = b /\ (b <=? a) = true).
Proof.
  intros Ha Hb. unfold Math_min. rewrite Ha, Hb. cbn [orb].
  destruct (a <? b) eqn:E1.
  - left. split; auto. now apply ltb_leb.
  - destruct (b <? a) eqn:E2.
    + right. split; auto. now apply ltb_leb.
    + destruct (get_sign a).
      * left. split; auto. now apply ltb_false_leb.
      * right. split; auto. now apply ltb_false_leb.
Qed.

Lemma Math_min_le_r a b :
  is_nan a = false -> is_nan b = false -> (Math_min a b <=? b) = true.
Proof.
  intros Ha Hb. destruct (Math_min_cases a b Ha Hb) as [[-> H] | [-> H]]; auto.
  rewrite leb_spec. unfold SFleb. rewrite SFcompare_refl; auto.
  intros N. apply is_nan_spec in N. congruence.
Qed.

Lemma leb_refl a : is_nan a = false -> (a <=? a) = true.
Proof.
  intros Ha. rewrite leb_spec. unfold SFleb. rewrite SFcompare_refl; auto.
  intros N. apply is_nan_spec in N. congruence.
Qed.

(** A lower bound of both arguments is a lower bound of [Math.min]. *)
Lemma Math_min_glb c a b :
  (c <=? a) = true -> (c <=? b) = true -> (c <=? Math_min a b) = true.
Proof.
  intros Ha Hb.
  destruct (leb_not_nan _ _ Ha) as [_ Na]. destruct (leb_not_nan _ _ Hb) as [_ Nb].
  destruct (Math_min_cases a b Na Nb) as [[-> _] | [-> _]]; auto.
Qed.

End Comparisons.

(* ================================================================== *)
(** * The order of binary64 numbers is a lexicographic order *)
(* ================================================================== *)

Section Order.
Local Open Scope Z_scope.

Ltac pick_order :=
  (left; split; [reflexivity | lia])
  || (right; left; split; [reflexivity | lia])
  || (right; right; split; [reflexivity | lia]).

Lemma SFcompare_key_finite sx mx ex sy my ey :
  let x := S754_finite sx mx ex in
  let y := S754_finite sy my ey in
  (SFcompare x y = Some Lt /\ lexlt (key x) (key y))
  \/ (SFcompare x y = Some Eq /\ lexeq (key x) (key y))
  \/ (SFcompare x y = Some Gt /\ lexlt (key y) (key x)).
Proof.
  cbn zeta. cbn [SFcompare key]. unfold lexlt, lexeq.
  change (Pos.compare_cont Eq mx my) with (Zpos mx ?= Zpos my).
  destruct sx, sy; cbn [fst snd]; try pick_order;
    destruct (Z.compare_spec ex ey); destruct (Z.compare_spec (Zpos mx) (Zpos my));
    cbn [CompOpp]; pick_order.
Qed.

Lemma SFcompare_key x y :
  x <> S754_nan -> y <> S754_nan ->
  (SFcompare x y = Some Lt /\ lexlt (key x) (key y))
  \/ (SFcompare x y = Some Eq /\ lexeq (key x) (key y))
  \/ (SFcompare x y = Some Gt /\ lexlt (key y) (key x)).
Proof.
  intros Hx Hy.
  destruct x as [sx | sx | | sx mx ex]; try congruence;
    destruct y as [sy | sy | | sy my ey]; try congruence;
    try apply SFcompare_key_finite;
    cbn [SFcompare key]; unfold lexlt, lexeq;
    try (destruct sx; cbn [fst snd]; pick_order);
    try (destruct sy; cbn [fst snd]; pick_order);
    destruct sx, sy; cbn [fst snd]; pick_order.
Qed.

Lemma SFltb_key x y :
  SFltb x y = true <-> x <> S754_nan /\ y <> S754_nan /\ lexlt (key x) (key y).
Proof.
  split.
  - intros H.
    assert (Hx : x <> S754_nan) by (intros ->; discriminate H).
    assert (Hy : y <> S754_nan) by (intros ->; destruct x; discriminate H).
    repeat split; auto. unfold SFltb in H.
    destruct (SFcompare_key x y Hx Hy) as [[E L] | [[E L] | [E L]]];
      rewrite E in H; try discriminate; auto.
  - intros (Hx & Hy & L). unfold SFltb.
    destruct (SFcompare_key x y Hx Hy) as [[E L'] | [[E L'] | [E L']]];
      rewrite E; auto; exfalso; unfold lexlt, lexeq in *; lia.
Qed.

Lemma SFleb_key x y :
  SFleb x y = true <->
  x <> S754_nan /\ y <> S754_nan /\ (lexlt (key x) (key y) \/ lexeq (key x) (key y)).
Proof.
  split.
  - intros H.
    assert (Hx : x <> S754_nan) by (intros ->; discriminate H).
    assert (Hy : y <> S754_nan) by (intros ->; destruct x; discriminate H).
    repeat split; auto. unfold SFleb in H.
    destruct (SFcompare_key x y Hx Hy) as [[E L] | [[E L] | [E L]]];
      rewrite E in H; try discriminate; auto.
  - intros (Hx & Hy & L). unfold SFleb.
    destruct (SFcompare_key x y Hx Hy) as [[E L'] | [[E L'] | [E L']]];
      rewrite E; auto; exfalso; unfold lexlt, lexeq in *; lia.
Qed.

Lemma SFleb_trans x y z : SFleb x y = true -> SFleb y z = true -> SFleb x z = true.
Proof.
  rewrite !SFleb_key. unfold lexlt, lexeq. intros (? & ? & ?) (? & ? & ?).
  repeat split; auto. lia.
Qed.

Lemma SFltb_leb_trans x y z : SFltb x y = true -> SFleb y z = true -> SFltb x z = true.
Proof.
  rewrite !SFltb_key, SFleb_key. unfold lexlt, lexeq. intros (? & ? & ?) (? & ? & ?).
  repeat split; auto. lia.
Qed.

Lemma SFleb_ltb_trans x y z : SFleb x y = true -> SFltb y z = true -> SFltb x z = true.
Proof.
  rewrite !SFltb_key, SFleb_key. unfold lexlt, lexeq. intros (? & ? & ?) (? & ? & ?).
  repeat split; auto. lia.
Qed.

End Order.

Section FloatOrder.
Local Open Scope float_scope.

Lemma leb_trans a b c : (a <=? b) = true -> (b <=? c) = true -> (a <=? c) = true.
Proof. rewrite !leb_spec. apply SFleb_trans. Qed.

Lemma ltb_leb_trans a b c : (a <? b) = true -> (b <=? c) = true -> (a <? c) = true.
Proof. rewrite !ltb_spec, leb_spec. apply SFltb_leb_trans. Qed.

Lemma leb_ltb_trans a b c : (a <=? b) = true -> (b <? c) = true -> (a <? c) = true.
Proof. rewrite !ltb_spec, leb_spec. apply SFleb_ltb_trans. Qed.

End FloatOrder.

(* ================================================================== *)
(** * The report tier (C6) *)
(* ================================================================== *)

Section ReportTier.
Local Open Scope float_scope.

Lemma reportTier_generateDetailedAnalysis score analyses :
  reportTier (generateDetailedAnalysis score analyses)
  = Some (if gt score 0.8 then HighRisk
          else if gt score 0.6 then MediumRisk
          else if gt score 0.3 then LowRisk
          else AppearsAuthentic).
Proof.
  unfold generateDetailedAnalysis.
  destruct (gt score 0.8); [reflexivity|].
  destruct (gt score 0.6); [reflexivity|].
  destruct (gt score 0.3); reflexivity.
Qed.

(** A score at most [hi] is not above a threshold [c >= hi]. *)
Lemma not_above (score hi c : float) :
  (score <=? hi) = true -> (hi <=? c) = true -> gt score c = false.
Proof.
  intros H1 H2. unfold gt. apply leb_ltb_false. eapply leb_trans; eauto.
Qed.

(** C6: the tier of the report is decided by the forgery score alone,
    whatever the analyzer flags and the areas are: above 0.8 it is HIGH RISK,
    above 0.6 and at most 0.8 MEDIUM RISK, above 0.3 and at most 0.6
    LOW RISK, at most 0.3 the authentic report; the scores 0.8, 0.6 and 0.3
    themselves give MEDIUM RISK, LOW RISK and the authentic report, and
    0.80001 and 0.30001 give HIGH RISK and LOW RISK. *)
Theorem report_tier_depends_on_score_only (score : float) (analyses : Analyses) :
  let tier := reportTier (generateDetailedAnalysis score analyses) in
  (gt score 0.8 = true -> tier = Some HighRisk)
  /\ (gt score 0.6 = true -> (score <=? 0.8) = true -> tier = Some MediumRisk)
  /\ (gt score 0.3 = true -> (score <=? 0.6) = true -> tier = Some LowRisk)
  /\ ((score <=? 0.3) = true -> tier = Some AppearsAuthentic)
  /\ reportTier (generateDetailedAnalysis 0.8 analyses) = Some MediumRisk
  /\ reportTier (generateDetailedAnalysis 0.6 analyses) = Some LowRisk
  /\ reportTier (generateDetailedAnalysis 0.3 analyses) = Some AppearsAuthentic
  /\ reportTier (generateDetailedAnalysis 0.80001 analyses) = Some HighRisk
  /\ reportTier (generateDetailedAnalysis 0.30001 analyses) = Some LowRisk.
Proof.
  cbn zeta. rewrite !reportTier_generateDetailedAnalysis.
  repeat split; try reflexivity.
  - intros ->. reflexivity.
  - intros H6 H8. rewrite (not_above score 0.8 0.8 H8 eq_refl), H6. reflexivity.
  - intros H3 H6.
    rewrite (not_above score 0.6 0.8 H6 eq_refl), (not_above score 0.6 0.6 H6 eq_refl), H3.
    reflexivity.
  - intros H3.
    rewrite (not_above score 0.3 0.8 H3 eq_refl), (not_above score 0.3 0.6 H3 eq_refl),
            (not_above score 0.3 0.3 H3 eq_refl).
    reflexivity.
Qed.

Lemma report_tier_depends_on_score_only_witness :
  reportTier (generateDetailedAnalysis 0.9
                (mkAnalyses false false false false false [])) = Some HighRisk
  /\ reportTier (generateDetailedAnalysis 0.7
                (mkAnalyses true true true true true (farBlocks 10))) = Some MediumRisk
  /\ reportTier (generateDetailedAnalysis 0.5
                (mkAnalyses true false true false true [])) = Some LowRisk
  /\ reportTier (generateDetailedAnalysis 0.1
                (mkAnalyses true true true true true (farBlocks 3))) = Some AppearsAuthentic.
Proof.
  split; [|split; [|split]].
  - exact (proj1 (report_tier_depends_on_score_only
                    0.9 (mkAnalyses false false false false false [])) eq_refl).
  - exact (proj1 (proj2 (report_tier_depends_on_score_only
                    0.7 (mkAnalyses true true true true true (farBlocks 10))))
                 eq_refl eq_refl).
  - exact (proj1 (proj2 (proj2 (report_tier_depends_on_score_only
                    0.5 (mkAnalyses true false true false true []))))
                 eq_refl eq_refl).
  - exact (proj1 (proj2 (proj2 (proj2 (report_tier_depends_on_score_only
                    0.1 (mkAnalyses true true true true true (farBlocks 3))))))
                 eq_refl).
Defined.

End ReportTier.

(* ================================================================== *)
(** * Merging suspicious areas (C4, C5) *)
(* ================================================================== *)

Section MergeTwo.
Local Open Scope float_scope.

Lemma infinity_not_below x : (infinity <? x) = false.
Proof.
  rewrite ltb_spec. change (Prim2SF infinity) with (S754_infinity false).
  destruct (Prim2SF x) as [| [] | |]; reflexivity.
Qed.

Lemma not_below_neg_infinity x : (x <? neg_infinity) = false.
Proof.
  rewrite ltb_spec. change (Prim2SF neg_infinity) with (S754_infinity true).
  destruct (Prim2SF x) as [| [] | | []]; reflexivity.
Qed.

Lemma Math_min_infinity x : Math_min infinity x = x.
Proof.
  unfold Math_min. change (is_nan infinity) with false. cbn [orb].
  destruct (is_nan x) eqn:N.
  - symmetry. now apply is_nan_nan.
  - rewrite infinity_not_below. destruct (x <? infinity); reflexivity.
Qed.

Lemma Math_max_neg_infinity x : Math_max neg_infinity x = x.
Proof.
  unfold Math_max. change (is_nan neg_infinity) with false. cbn [orb].
  destruct (is_nan x) eqn:N.
  - symmetry. now apply is_nan_nan.
  - rewrite not_below_neg_infinity. destruct (neg_infinity <? x); reflexivity.
Qed.






End MergeTwo.

Section MergeOrderProof.
Variable areas : list SuspiciousArea.

Lemma absorb_fold area js : forall group processed,
  exists rest,
    fst (fold_left (absorb areas area) js (group, processed)) = group ++ rest
    /\ incl rest areas.
Proof.
  induction js as [|j js IH]; intros group processed; cbn [fold_left].
  - exists []. rewrite app_nil_r. split; [reflexivity | apply incl_nil_l].
  - unfold absorb at 2.
    destruct (processed_has processed j); [apply IH|].
    destruct (nth_error areas j) as [other|] eqn:E; [|apply IH].
    destruct (areAreasNearby area other 50); [|apply IH].
    destruct (IH (group ++ [other]) (j :: processed)) as (rest & -> & Hin).
    exists (other :: rest). rewrite <- app_assoc. split; [reflexivity|].
    apply incl_cons; auto. eapply nth_error_In; eauto.
Qed.

Lemma mergeSuspiciousAreas_length : (List.length (mergeSuspiciousAreas areas) <= 20)%nat.
Proof. unfold mergeSuspiciousAreas. rewrite length_firstn. lia. Qed.

End MergeOrderProof.

Lemma detectSuspiciousAreas_length cfg path raw :
  (List.length (detectSuspiciousAreas cfg path raw) <= 20)%nat.
Proof.
  unfold detectSuspiciousAreas.
  destruct (String.eqb path ""); [cbn; lia|].
  destruct raw as [[data info]|]; [apply mergeSuspiciousAreas_length | cbn; lia].
Qed.

Lemma analyzeImage_areas Date_parse cfg path w r :
  analyzeImage Date_parse cfg path w = Resolved r ->
  exists ela,
    performELA path (elaWorld w) = Resolved ela
    /\ result_suspiciousAreas r
       = detectSuspiciousAreas cfg (elaImagePath ela) (elaGreyscaleRaw w).
Proof.
  unfold analyzeImage. destruct (performELA path (elaWorld w)) as [ela|]; [|discriminate].
  intros H. injection H as <-. exists ela. split; reflexivity.
Qed.

(* ================================================================== *)
(** * The aggregated score (C1, C2) *)
(* ================================================================== *)

Section AreaScore.
Local Open Scope float_scope.

Lemma finite_one : finite 1.
Proof. reflexivity. Qed.

Lemma val_one : val 1 = K.
Proof. vm_compute. reflexivity. Qed.

Lemma finite_ten : finite 10.
Proof. reflexivity. Qed.

Lemma val_ten : val 10 = (10 * K)%Z.
Proof. vm_compute. reflexivity. Qed.

(** Two numbers each at most the other are the same number, unless they
    are zeros. *)
Lemma leb_antisym a b :
  finite a -> val a <> 0%Z -> (a <=? b) = true -> (b <=? a) = true -> b = a.
Proof.
  intros Fa NZ H1 H2.
  assert (Fb : finite b) by (eapply (finite_between a a b); eauto).
  rewrite leb_val in H1, H2 by auto. apply Z.leb_le in H1, H2.
  symmetry. apply val_inj; auto. lia.
Qed.

(** From ten areas on the area term is 1. *)
Lemma suspiciousAreaScore_saturates (count : nat) :
  (10 <= count)%nat -> suspiciousAreaScore count = 1.
Proof.
  intros Hc. unfold suspiciousAreaScore, Number_of_nat.
  set (n := Number_of_Z (Z.of_nat count)).
  pose proof K_pos as HK.
  assert (Hn : (10 <=? n) = true).
  { apply Number_lo; [lia | exact finite_ten |].
    rewrite val_ten. apply Z.mul_le_mono_nonneg_r; lia. }
  assert (Hq : (1 <=? n / 10) = true).
  { destruct (Prim2SF n) as [s | [] | | s m e] eqn:E.
    - (* zero *) rewrite leb_spec, E in Hn. discriminate Hn.
    - rewrite leb_spec, E in Hn. discriminate Hn.
    - assert (n = infinity) as -> by (apply Prim2SF_inj; rewrite E; reflexivity).
      reflexivity.
    - rewrite leb_spec, E in Hn. destruct (Prim2SF 10); discriminate Hn.
    - assert (Fn : finite n) by (unfold finite; rewrite E; reflexivity).
      pose proof Hn as Hv. rewrite leb_val in Hv by (auto using finite_ten).
      apply Z.leb_le in Hv. rewrite val_ten in Hv.
      apply (div_lo n 10 1 Fn finite_ten finite_one);
        rewrite ?val_one, ?val_ten; nia. }
  destruct (leb_not_nan _ _ Hq) as [_ Nq].
  destruct (Math_min_cases (n / 10) 1 Nq eq_refl) as [[-> H] | [-> H]]; auto.
  apply (leb_antisym 1 (n / 10)); auto using finite_one.
  rewrite val_one. lia.
Qed.

Lemma suspiciousAreaScore_min (count : nat) :
  suspiciousAreaScore count = suspiciousAreaScore (Nat.min count 10).
Proof.
  destruct (Nat.le_gt_cases 10 count) as [H | H].
  - rewrite Nat.min_r by lia. rewrite suspiciousAreaScore_saturates by lia. reflexivity.
  - rewrite Nat.min_l by lia. reflexivity.
Qed.

End AreaScore.

Section Aggregation.
Local Open Scope float_scope.

Lemma calculateForgeryScore_analysesAt (analyses : Analyses) :
  calculateForgeryScore analyses
  = calculateForgeryScore
      (analysesAt (flagsOf analyses)
                  (Nat.min (List.length (suspiciousAreas analyses)) 10)).
Proof.
  destruct analyses as [e c m n d areas]. unfold flagsOf, analysesAt.
  cbn [ela_hasAnomalies compression_hasInconsistentCompression
       metadata_hasInconsistentMetadata noise_hasInconsistentNoise
       edge_hasInconsistentEdges suspiciousAreas].
  unfold calculateForgeryScore.
  cbn [ela_hasAnomalies compression_hasInconsistentCompression
       metadata_hasInconsistentMetadata noise_hasInconsistentNoise
       edge_hasInconsistentEdges suspiciousAreas].
  rewrite repeat_length.
  change (Math_min (Number_of_nat (List.length areas) / 10) 1)
    with (suspiciousAreaScore (List.length areas)).
  change (Math_min (Number_of_nat (Nat.min (List.length areas) 10) / 10) 1)
    with (suspiciousAreaScore (Nat.min (List.length areas) 10)).
  rewrite <- suspiciousAreaScore_min. reflexivity.
Qed.

Lemma spec_forgeryScore_analysesAt (analyses : Analyses) :
  spec_forgeryScore analyses
  = spec_forgeryScore
      (analysesAt (flagsOf analyses)
                  (Nat.min (List.length (suspiciousAreas analyses)) 10)).
Proof.
  destruct analyses as [e c m n d areas]. unfold flagsOf, analysesAt.
  cbn [ela_hasAnomalies compression_hasInconsistentCompression
       metadata_hasInconsistentMetadata noise_hasInconsistentNoise
       edge_hasInconsistentEdges suspiciousAreas].
  unfold spec_forgeryScore, analyzerTable.
  cbn [ela_hasAnomalies compression_hasInconsistentCompression
       metadata_hasInconsistentMetadata noise_hasInconsistentNoise
       edge_hasInconsistentEdges suspiciousAreas].
  rewrite repeat_length.
  change (Math_min (Number_of_nat (List.length areas) / 10) 1)
    with (suspiciousAreaScore (List.length areas)).
  change (Math_min (Number_of_nat (Nat.min (List.length areas) 10) / 10) 1)
    with (suspiciousAreaScore (Nat.min (List.length areas) 10)).
  rewrite <- suspiciousAreaScore_min. reflexivity.
Qed.

Lemma In_allFlags (f : Flags) : In f allFlags.
Proof.
  destruct f as [[[[e c] m] n] d].
  unfold allFlags. repeat apply in_prod; unfold bools;
    match goal with |- In ?b _ => destruct b; cbn; auto end.
Qed.

(** The two checks evaluate to [true]; they are stated unfolded, ready for
    [forallb_forall]. *)
Lemma monotone_check_true :
  ltac:(let t := eval unfold monotone_check in (monotone_check = true) in exact t).
Proof. vm_compute. reflexivity. Qed.

Lemma specified_check_true :
  ltac:(let t := eval unfold specified_check in (specified_check = true) in exact t).
Proof. vm_compute. reflexivity. Qed.

Lemma calculateForgeryScore_specified (analyses : Analyses) :
  calculateForgeryScore analyses = spec_forgeryScore analyses.
Proof.
  rewrite calculateForgeryScore_analysesAt, spec_forgeryScore_analysesAt.
  pose proof specified_check_true as H.
  rewrite forallb_forall in H.
  specialize (H (flagsOf analyses) (In_allFlags _)).
  rewrite forallb_forall in H.
  apply FloatAxioms.Leibniz.eqb_spec. apply H. apply in_seq. lia.
Qed.

End Aggregation.

Section AggregationTheorems.
Local Open Scope float_scope.

Lemma monotone_check_spec (f1 f2 : Flags) (k1 k2 : nat) :
  (k1 <= 10)%nat -> (k2 <= 10)%nat -> (k1 <= k2)%nat ->
  subflags f1 f2 = true ->
  (calculateForgeryScore (analysesAt f1 k1)
   <=? calculateForgeryScore (analysesAt f2 k2)) = true.
Proof.
  intros H1 H2 H12 Hs.
  pose proof (proj1 (forallb_forall _ _) monotone_check_true (f1, f2)
                (proj2 (in_prod_iff _ _ _ _) (conj (In_allFlags f1) (In_allFlags f2))))
    as H.
  pose proof (proj1 (forallb_forall _ _) H (k1, k2)) as H'.
  cbv beta in H'. cbn [fst snd] in H'.
  rewrite Hs in H'. rewrite (proj2 (Nat.leb_le k1 k2) H12) in H'.
  apply H'. apply in_prod; apply in_seq; lia.
Qed.

(** C2: with the weights and severities fixed, the score does not decrease
    when flags are added and the number of suspicious areas does not
    decrease. *)
Theorem calculateForgeryScore_monotone (a1 a2 : Analyses) :
  Bool.le (ela_hasAnomalies a1) (ela_hasAnomalies a2) ->
  Bool.le (compression_hasInconsistentCompression a1)
          (compression_hasInconsistentCompression a2) ->
  Bool.le (metadata_hasInconsistentMetadata a1) (metadata_hasInconsistentMetadata a2) ->
  Bool.le (noise_hasInconsistentNoise a1) (noise_hasInconsistentNoise a2) ->
  Bool.le (edge_hasInconsistentEdges a1) (edge_hasInconsistentEdges a2) ->
  (List.length (suspiciousAreas a1) <= List.length (suspiciousAreas a2))%nat ->
  (calculateForgeryScore a1 <=? calculateForgeryScore a2) = true.
Proof.
  intros He Hc Hm Hn Hd Hk.
  rewrite (calculateForgeryScore_analysesAt a1), (calculateForgeryScore_analysesAt a2).
  apply monotone_check_spec; try lia.
  unfold subflags, flagsOf.
  destruct (ela_hasAnomalies a1), (ela_hasAnomalies a2); try discriminate He;
  destruct (compression_hasInconsistentCompression a1),
           (compression_hasInconsistentCompression a2); try discriminate Hc;
  destruct (metadata_hasInconsistentMetadata a1),
           (metadata_hasInconsistentMetadata a2); try discriminate Hm;
  destruct (noise_hasInconsistentNoise a1), (noise_hasInconsistentNoise a2);
    try discriminate Hn;
  destruct (edge_hasInconsistentEdges a1), (edge_hasInconsistentEdges a2);
    try discriminate Hd; reflexivity.
Qed.

Lemma calculateForgeryScore_monotone_witness :
  (calculateForgeryScore (mkAnalyses true false false false false (farBlocks 2))
   <=? calculateForgeryScore (mkAnalyses true true false false true (farBlocks 12)))
  = true.
Proof.
  apply calculateForgeryScore_monotone; cbn; auto. lia.
Defined.

End AggregationTheorems.

Section PipelineScore.
Local Open Scope float_scope.

(** The run [worldAllFlagged], evaluated. *)
Lemma analyzeImage_worldAllFlagged :
  exists r,
    analyzeImage Date_parse_none config "doc.jpg" worldAllFlagged = Resolved r
    /\ flagsOf (analysesOf (elaAnalysis r) (compressionAnalysis r) (metadataAnalysis r)
                           (noiseAnalysis r) (edgeAnalysis r) (result_suspiciousAreas r))
       = (true, true, true, true, true)
    /\ List.length (result_suspiciousAreas r) = 10%nat
    /\ forgeryScore r = 0.6699999999999999
    /\ isForgery r = true.
Proof. eexists. vm_compute. repeat split. Qed.

Lemma analyzeImage_result Date_parse cfg path w r :
  analyzeImage Date_parse cfg path w = Resolved r ->
  let analyses :=
    analysesOf (elaAnalysis r) (compressionAnalysis r) (metadataAnalysis r)
               (noiseAnalysis r) (edgeAnalysis r) (result_suspiciousAreas r) in
  forgeryScore r = calculateForgeryScore analyses
  /\ isForgery r = gt (forgeryScore r) 0.6
  /\ analysis r = generateDetailedAnalysis (forgeryScore r) analyses.
Proof.
  unfold analyzeImage. destruct (performELA path (elaWorld w)) as [ela|]; [|discriminate].
  intros H. injection H as <-. cbn. repeat split.
Qed.

(** C1, as the code has it: the score of every analysis returned is the
    sum, over the flagged analyzers, of weight times severity, plus
    [0.10 * min(count / 10, 1)], clamped to [0, 1], computed in binary64 in
    the order of the analyzers; [isForgery] is [forgeryScore > 0.6]; with all
    five flags and ten areas the score is 0.6699999999999999, the binary64
    number just below 0.67, and [isForgery] is true. *)
Theorem forgery_score_as_specified Date_parse cfg path w r :
  analyzeImage Date_parse cfg path w = Resolved r ->
  let analyses :=
    analysesOf (elaAnalysis r) (compressionAnalysis r) (metadataAnalysis r)
               (noiseAnalysis r) (edgeAnalysis r) (result_suspiciousAreas r) in
  forgeryScore r = spec_forgeryScore analyses
  /\ isForgery r = gt (forgeryScore r) 0.6
  /\ (flagsOf analyses = (true, true, true, true, true) ->
      List.length (result_suspiciousAreas r) = 10%nat ->
      forgeryScore r = 0.6699999999999999 /\ isForgery r = true).
Proof.
  intros H analyses.
  destruct (analyzeImage_result _ _ _ _ _ H) as (Hs & Hf & _). fold analyses in Hs.
  split; [|split].
  - rewrite Hs. apply calculateForgeryScore_specified.
  - exact Hf.
  - intros Hflags Hlen.
    assert (E : forgeryScore r = 0.6699999999999999).
    { rewrite Hs, calculateForgeryScore_analysesAt, Hflags.
      change (suspiciousAreas analyses) with (result_suspiciousAreas r).
      rewrite Hlen. vm_compute. reflexivity. }
    split; [exact E|]. rewrite Hf, E. reflexivity.
Qed.

Lemma forgery_score_as_specified_witness :
  exists r,
    analyzeImage Date_parse_none config "doc.jpg" worldAllFlagged = Resolved r
    /\ forgeryScore r = 0.6699999999999999 /\ isForgery r = true.
Proof.
  destruct analyzeImage_worldAllFlagged as (r & Hr & Hflags & Hlen & _).
  exists r. split; [exact Hr|].
  exact (proj2 (proj2 (forgery_score_as_specified
                         Date_parse_none config "doc.jpg"%string worldAllFlagged r Hr))
               Hflags Hlen).
Defined.

(** C1 as stated fails: a run with all five flags and ten areas whose
    score is not 0.67 (it is below). *)
Lemma forgery_score_is_not_0_67 :
  ~ (forall Date_parse cfg path w r,
        analyzeImage Date_parse cfg path w = Resolved r ->
        flagsOf (analysesOf (elaAnalysis r) (compressionAnalysis r) (metadataAnalysis r)
                            (noiseAnalysis r) (edgeAnalysis r) (result_suspiciousAreas r))
        = (true, true, true, true, true) ->
        List.length (result_suspiciousAreas r) = 10%nat ->
        forgeryScore r = 0.67).
Proof.
  intros claim.
  destruct analyzeImage_worldAllFlagged as (r & Hr & Hflags & Hlen & Hs & _).
  specialize (claim _ _ _ _ _ Hr Hflags Hlen). rewrite Hs in claim.
  assert (F : (0.6699999999999999 <? 0.67) = true) by reflexivity.
  rewrite claim in F. discriminate F.
Qed.

End PipelineScore.

(* ================================================================== *)
(** * The compression flag (C3) *)
(* ================================================================== *)

Section CompressionFlag.
Local Open Scope float_scope.

(** The count that [analyzeCompression] tests is 0 unless the script exits
    with code 0 and prints what parses. *)
Lemma detectCompressionArtifacts_count (run : ScriptRun) :
  (exitCode run <> 0%Z \/ parsedOutput run = None ->
   inconsistentBlocks (detectCompressionArtifacts run) = 0)
  /\ (forall parsed,
         exitCode run = 0%Z -> parsedOutput run = Some parsed ->
         detectCompressionArtifacts run = parsed).
Proof.
  unfold detectCompressionArtifacts. split.
  - intros [H | H].
    + apply Z.eqb_neq in H. rewrite H. reflexivity.
    + rewrite H. destruct (Z.eqb (exitCode run) 0); reflexivity.
  - intros parsed H1 H2. rewrite H1, H2. reflexivity.
Qed.

(** C3, as the code has it: [hasInconsistentCompression] is true exactly
    when the two image reads of [analyzeCompression] resolve, the
    compression script exits with code 0, its output parses and the
    [inconsistentBlocks] it reports is above 5.  The flag is false when an
    image read rejects, whatever the script reports, and when the script
    fails or prints what does not parse, for the count is then 0.  The
    number of blocks of the map that deviate from the mean by more than
    twice the standard deviation is another count: in a full result it is
    [suspiciousBlockCount], and its thresholds 5 and 2 set
    [overallSuspicion] only. *)
Theorem compression_flag_from_script_count metadata run raw :
  (hasInconsistentCompression (analyzeCompression metadata run raw) = true
   <-> (exists md, metadata = Resolved md)
       /\ (exists data info, raw = Resolved (data, info))
       /\ exitCode run = 0%Z
       /\ exists parsed,
            parsedOutput run = Some parsed
            /\ gt (inconsistentBlocks parsed) 5 = true)
  /\ (exitCode run <> 0%Z \/ parsedOutput run = None ->
      inconsistentBlocks (detectCompressionArtifacts run) = 0
      /\ hasInconsistentCompression (analyzeCompression metadata run raw) = false)
  /\ (forall details,
         comp_details (analyzeCompression metadata run raw) = Some details ->
         compressionArtifacts details = detectCompressionArtifacts run
         /\ hasInconsistentCompression (analyzeCompression metadata run raw)
            = gt (inconsistentBlocks (compressionArtifacts details)) 5
         /\ suspiciousBlockCount (comp_analysis details)
            = List.length (filter (isSuspiciousBlock (compressionMap details))
                                  (compressionMap details))
         /\ overallSuspicion (comp_analysis details)
            = (if Nat.ltb 5 (suspiciousBlockCount (comp_analysis details)) then high
               else if Nat.ltb 2 (suspiciousBlockCount (comp_analysis details))
                    then medium
                    else low)).
Proof.
  destruct (detectCompressionArtifacts_count run) as [Zero Parsed].
  split; [|split].
  - split.
    + intros H. unfold analyzeCompression in H.
      destruct metadata as [md | msg]; [|discriminate H].
      destruct raw as [[data info] | msg]; [|discriminate H].
      cbn [hasInconsistentCompression] in H.
      split; [now exists md|]. split; [now exists data, info|].
      destruct (Z.eq_dec (exitCode run) 0) as [E | E].
      * split; [exact E|].
        destruct (parsedOutput run) as [parsed|] eqn:P.
        -- exists parsed. split; [reflexivity|].
           now rewrite (Parsed parsed E eq_refl) in H.
        -- rewrite (Zero (or_intror eq_refl)) in H. discriminate H.
      * rewrite (Zero (or_introl E)) in H. discriminate H.
    + intros ((md & ->) & (data & info & ->) & E & parsed & P & G).
      cbn [analyzeCompression hasInconsistentCompression].
      now rewrite (Parsed parsed E P).
  - intros H. split; [exact (Zero H)|]. unfold analyzeCompression.
    destruct metadata as [md | msg]; [|reflexivity].
    destruct raw as [[data info] | msg]; [|reflexivity].
    cbn [hasInconsistentCompression]. now rewrite (Zero H).
  - intros details H. unfold analyzeCompression in *.
    destruct metadata as [md | msg]; [|discriminate H].
    destruct raw as [[data info] | msg]; [|discriminate H].
    cbn [comp_details] in H. injection H as <-.
    cbn [compressionArtifacts hasInconsistentCompression comp_analysis compressionMap].
    repeat split.
Qed.

Lemma compression_flag_from_script_count_witness :
  hasInconsistentCompression
    (analyzeCompression (Resolved (plainMetadata None)) scriptSaysSix uniformRaw) = true
  /\ hasInconsistentCompression
       (analyzeCompression (Resolved (plainMetadata None)) scriptCrashes uniformRaw)
     = false
  /\ hasInconsistentCompression
       (analyzeCompression (Resolved (plainMetadata None)) scriptSaysSix
                           (Rejected "resize failed")) = false.
Proof.
  split; [|split].
  - apply (proj1 (compression_flag_from_script_count
                    (Resolved (plainMetadata None)) scriptSaysSix uniformRaw)).
    split; [eexists; reflexivity|]. split; [eexists; eexists; reflexivity|].
    split; [reflexivity|]. eexists. split; reflexivity.
  - refine (proj2 (proj1 (proj2 (compression_flag_from_script_count
                                    (Resolved (plainMetadata None)) scriptCrashes
                                    uniformRaw)) _)).
    left. discriminate.
  - destruct (hasInconsistentCompression
                (analyzeCompression (Resolved (plainMetadata None)) scriptSaysSix
                                    (Rejected "resize failed"))) eqn:F; [|reflexivity].
    apply (proj1 (compression_flag_from_script_count
                    (Resolved (plainMetadata None)) scriptSaysSix
                    (Rejected "resize failed"))) in F.
    destruct F as (_ & (data & info & F) & _). discriminate F.
Defined.

(** C3 as stated fails: the script reports six inconsistent blocks, no
    block of the map deviates, and the flag is raised. *)
Lemma compression_flag_is_not_the_suspicious_block_count :
  exists details,
    comp_details (analyzeCompression (Resolved (plainMetadata None))
                                     scriptSaysSix uniformRaw) = Some details
    /\ suspiciousBlockCount (comp_analysis details) = 0%nat
    /\ overallSuspicion (comp_analysis details) = low
    /\ hasInconsistentCompression
         (analyzeCompression (Resolved (plainMetadata None)) scriptSaysSix uniformRaw)
       = true.
Proof. eexists. vm_compute. repeat split. Qed.

End CompressionFlag.

(* ================================================================== *)
(** * Failures (C7) *)
(* ================================================================== *)

Section Failures.
Local Open Scope string_scope.

(** A failure of a re-encoding or of the difference script makes
    [performELA] reject. *)
Lemma performELA_rejects path (w : ElaWorld) :
  (exists message, reencode w = Rejected message)
  \/ (exists message, reencodeAgain w = Rejected message)
  \/ diff_exitCode (difference w) <> 0%Z ->
  performELA path w = Rejected "Failed to perform ELA analysis".
Proof.
  unfold performELA, calculateImageDifference.
  intros [[m H] | [[m H] | H]].
  - rewrite H. reflexivity.
  - rewrite H. destruct (reencode w); reflexivity.
  - apply Z.eqb_neq in H. rewrite H.
    destruct (reencode w); [|reflexivity]. destruct (reencodeAgain w); reflexivity.
Qed.



End Failures.



(* ================================================================== *)
(** * Determinism and the clock (C8) *)
(* ================================================================== *)

Section Clock.
Local Open Scope float_scope.

Variable Date_parse : string -> option Z.






End Clock.




(* ================================================================== *)
(** * The edge flag (C10) *)
(* ================================================================== *)

Section Gaps.
Local Open Scope Z_scope.

(** Around a representable number with mantissa [m0] there is no other
    representable number closer than one unit of its last place. *)
Lemma canon_gap_above m e m0 e0 :
  canon (Zpos m) e -> canon (Zpos m0) e0 ->
  V (Zpos m0) e0 < V (Zpos m) e -> V (Zpos m0 + 1) e0 <= V (Zpos m) e.
Proof.
  intros [A1 A2 A3 A4 A5] [B1 B2 B3 B4 B5] H.
  destruct (Z.lt_trichotomy e e0) as [L | [E | G]].
  - assert (2 ^ 52 <= Zpos m0) by (apply B5; lia).
    assert (V (Zpos m) e < V (Zpos m0) e0) by (apply V_lt_exp; try split; lia). lia.
  - subst e0. unfold V in *.
    assert (HP : 0 < 2 ^ (e + 1074)) by (apply Z.pow_pos_nonneg; lia).
    apply Z.mul_lt_mono_pos_r in H; [|exact HP].
    apply Z.mul_le_mono_nonneg_r; lia.
  - unfold V.
    assert (E2 : 2 ^ (e + 1074) = 2 ^ (e - e0 - 1) * 2 * 2 ^ (e0 + 1074)).
    { replace (e + 1074) with ((e - e0 - 1) + 1 + (e0 + 1074)) by lia.
      rewrite (Z.pow_add_r 2 (e - e0 - 1 + 1) (e0 + 1074)), (Z.pow_add_r 2 (e - e0 - 1) 1) by lia.
      reflexivity. }
    rewrite E2.
    assert (HP : 0 < 2 ^ (e0 + 1074)) by (apply Z.pow_pos_nonneg; lia).
    assert (HQ : 1 <= 2 ^ (e - e0 - 1)) by (apply (Z.pow_le_mono_r 2 0); lia).
    assert (Hm : 2 ^ 52 <= Zpos m) by (apply A5; lia).
    change (2 ^ 53) with (2 * 2 ^ 52) in B2.
    remember (2 ^ 52) as c eqn:Ec. clear Ec.
    remember (2 ^ (e0 + 1074)) as P eqn:EP. clear EP E2.
    remember (2 ^ (e - e0 - 1)) as Q eqn:EQ. clear EQ.
    apply Z.le_trans with (2 * c * P).
    { apply Z.mul_le_mono_nonneg_r; lia. }
    apply Z.le_trans with (2 * Zpos m * P).
    { apply Z.mul_le_mono_nonneg_r; lia. }
    replace (Zpos m * (Q * 2 * P)) with (Q * (2 * Zpos m * P)) by ring.
    assert (HW : 0 <= 2 * Zpos m * P) by (apply Z.mul_nonneg_nonneg; lia).
    remember (2 * Zpos m * P) as W eqn:EW. clear - HQ HW. nia.
Qed.

Lemma canon_gap_below m e m0 e0 :
  canon (Zpos m) e -> canon (Zpos m0) e0 -> 2 ^ 52 < Zpos m0 ->
  V (Zpos m) e < V (Zpos m0) e0 -> V (Zpos m) e <= V (Zpos m0 - 1) e0.
Proof.
  intros [A1 A2 A3 A4 A5] [B1 B2 B3 B4 B5] Hm H.
  destruct (Z.lt_trichotomy e e0) as [L | [E | G]].
  - apply Z.lt_le_incl. apply V_lt_exp; try split; lia.
  - subst e0. unfold V in *.
    assert (HP : 0 < 2 ^ (e + 1074)) by (apply Z.pow_pos_nonneg; lia).
    apply Z.mul_lt_mono_pos_r in H; [|exact HP].
    apply Z.mul_le_mono_nonneg_r; lia.
  - assert (2 ^ 52 <= Zpos m) by (apply A5; lia).
    assert (V (Zpos m0) e0 < V (Zpos m) e) by (apply V_lt_exp; try split; lia). lia.
Qed.

End Gaps.

Section EdgeRatio.
Local Open Scope Z_scope.
Local Open Scope float_scope.

Lemma abs_val x : finite x -> finite (abs x) /\ val (abs x) = Z.abs (val x).
Proof.
  unfold finite, val. rewrite abs_spec.
  destruct (Prim2SF x) as [s | s | | s m e]; cbn [SFabs fin SV]; intros F;
    try discriminate F; split; try reflexivity.
  assert (0 <= V (Zpos m) e)%Z.
  { unfold V. apply Z.mul_nonneg_nonneg; [lia | apply Z.pow_nonneg; lia]. }
  destruct s; cbn [cond_Zopp]; lia.
Qed.

Lemma Number_of_nat_nonneg n : nonneg (Prim2SF (Number_of_nat n)).
Proof.
  unfold Number_of_nat. rewrite Number_of_Z_spec by lia.
  destruct (Z.of_nat n) as [|p|p] eqn:E; try lia; cbn [binary_normalize].
  - exact I.
  - pose proof (br_lo p 0 ltac:(lia) 1%positive (-1074)) as L.
    destruct (br_shape p 0 ltac:(lia)) as [-> | [[W F] S]]; [exact I|].
    assert (Hc : canon 1 (-1074)) by (constructor; cbn; lia).
    assert (HV : (V 1 (-1074) <= V (Zpos p) 0)%Z).
    { unfold V. change (2 ^ (-1074 + 1074))%Z with 1%Z.
      assert (0 < 2 ^ (0 + 1074))%Z by reflexivity. nia. }
    specialize (L Hc HV).
    destruct (binary_round prec emax false p 0) as [s | s | | s m e]; try discriminate.
    destruct s; [|exact I].
    cbn [SV cond_Zopp] in S.
    pose proof (V_pos (Zpos m) e ltac:(lia) (wf_emin _ _ _ (conj W F))). lia.
Qed.

(** A quotient of two numbers with the sign bit clear is NaN (0/0,
    Infinity/Infinity), +Infinity or a finite number that is not
    negative. *)
Lemma div_nonneg x y :
  nonneg (Prim2SF x) -> nonneg (Prim2SF y) ->
  is_nan (x / y) = true \/ Prim2SF (x / y) = S754_infinity false
  \/ (finite (x / y) /\ (0 <= val (x / y))%Z).
Proof.
  intros Hx Hy. unfold finite, val. rewrite is_nan_spec, div_spec. unfold SF64div.
  pose proof (Prim2SF_valid x) as Vx. pose proof (Prim2SF_valid y) as Vy.
  destruct (Prim2SF x) as [sx | sx | | sx mx ex]; try destruct sx;
    try (exfalso; exact Hx);
  destruct (Prim2SF y) as [sy | sy | | sy my ey]; try destruct sy;
    try (exfalso; exact Hy);
    cbn [SFdiv xorb]; auto;
    try (right; right; split; [reflexivity | cbn [SV]; lia]).
  assert (Wx : wf (S754_finite false mx ex)) by (split; auto).
  assert (Wy : wf (S754_finite false my ey)) by (split; auto).
  pose proof (V_pos (Zpos mx) ex ltac:(lia) (wf_emin _ _ _ Wx)).
  pose proof (V_pos (Zpos my) ey ltac:(lia) (wf_emin _ _ _ Wy)).
  destruct (SFdiv_shape _ _ Wx Wy) as [E | [[W F] S]]; cbn [SV cond_Zopp]; try lia.
  - right; left. exact E.
  - right; right. split; assumption.
Qed.

Lemma P18_pos : (0 < P18)%Z. Proof. reflexivity. Qed.
Lemma K_P18 : K = (72057594037927936 * P18)%Z. Proof. reflexivity. Qed.
Lemma val_0_1 : val 0.1 = (7205759403792794 * P18)%Z. Proof. vm_compute. reflexivity. Qed.
Lemma val_m0_1 : val (-0.1) = (- 7205759403792794 * P18)%Z. Proof. vm_compute. reflexivity. Qed.
Lemma val_0_3 : val 0.3 = (21617278211378380 * P18)%Z. Proof. vm_compute. reflexivity. Qed.
Lemma val_0_3' : val 0.30000000000000004 = (21617278211378384 * P18)%Z.
Proof. vm_compute. reflexivity. Qed.
Lemma val_0_4 : val 0.4 = (28823037615171176 * P18)%Z. Proof. vm_compute. reflexivity. Qed.
Lemma val_below_0_4 : val below_0_4 = (28823037615171172 * P18)%Z.
Proof. vm_compute. reflexivity. Qed.

Lemma Prim2SF_0_4 : Prim2SF 0.4 = S754_finite false 7205759403792794 (-54).
Proof. reflexivity. Qed.

Lemma canon_0_4 : canon (Zpos 7205759403792794) (-54).
Proof. apply bounded_canon. reflexivity. Qed.

Lemma V_0_4 : V (Zpos 7205759403792794) (-54) = (28823037615171176 * P18)%Z.
Proof. vm_compute. reflexivity. Qed.

Lemma V_step (m : Z) : V (m + 1) (-54) = (V m (-54) + 4 * P18)%Z.
Proof.
  unfold V. rewrite Z.mul_add_distr_r. f_equal; reflexivity.
Qed.

(** The doubles next to [0.4]. *)
Lemma above_0_4 r :
  finite r -> (val 0.4 < val r)%Z -> (val 0.4 + 4 * P18 <= val r)%Z.
Proof.
  intros F. pose proof (prim_wf r F) as W. pose proof P18_pos.
  rewrite val_0_4. unfold val. rewrite <- V_0_4.
  destruct (Prim2SF r) as [s | s | | s m e];
    try (destruct W as [_ W']; discriminate W'); cbn [SV].
  - rewrite V_0_4. lia.
  - pose proof (V_pos (Zpos m) e ltac:(lia) (wf_emin _ _ _ W)).
    destruct s; cbn [cond_Zopp]; [rewrite V_0_4; lia|].
    intros H'. rewrite <- V_step.
    apply canon_gap_above; auto using canon_0_4. now apply wf_finite in W.
Qed.

Lemma under_0_4 r :
  finite r -> (0 <= val r < val 0.4)%Z -> (val r <= val 0.4 - 4 * P18)%Z.
Proof.
  intros F. pose proof (prim_wf r F) as W. pose proof P18_pos.
  rewrite val_0_4. unfold val.
  destruct (Prim2SF r) as [s | s | | s m e];
    try (destruct W as [_ W']; discriminate W'); cbn [SV]; [lia|].
  pose proof (V_pos (Zpos m) e ltac:(lia) (wf_emin _ _ _ W)).
  destruct s; cbn [cond_Zopp]; [lia|].
  intros [_ H']. rewrite <- V_0_4 in H' |- *.
  pose proof (V_step (Zpos 7205759403792794 - 1)) as S.
  replace (Zpos 7205759403792794 - 1 + 1)%Z with (Zpos 7205759403792794) in S by lia.
  rewrite S.
  assert (V (Zpos m) e <= V (Zpos 7205759403792794 - 1) (-54))%Z; [|lia].
  apply canon_gap_below; auto using canon_0_4; try reflexivity.
  now apply wf_finite in W.
Qed.

End EdgeRatio.

Section EdgeFlag.
Local Open Scope Z_scope.
Local Open Scope float_scope.

(** The test [|edgeRatio - 0.1| > 0.3] is the test [edgeRatio >= 0.4] on
    every ratio that is not negative: at [0.4] the difference rounds to
    [0.30000000000000004], and one double below it stays at or under
    [0.3]. *)
Lemma edgeFlagOf_threshold r :
  is_nan r = true \/ Prim2SF r = S754_infinity false
  \/ (finite r /\ (0 <= val r)%Z) ->
  edgeFlagOf r = (0.4 <=? r).
Proof.
  intros [N | [I | [F V0]]].
  - apply is_nan_nan in N. subst r. reflexivity.
  - assert (r = infinity) by (apply Prim2SF_inj; rewrite I; reflexivity).
    subst r. reflexivity.
  - pose proof P18_pos as HP.
    assert (F01 : finite 0.1) by reflexivity.
    assert (F03 : finite 0.3) by reflexivity.
    assert (F04 : finite 0.4) by reflexivity.
    destruct (Z.lt_trichotomy (val r) (val 0.4)) as [L | [E | G]].
    + pose proof (under_0_4 r F (conj V0 L)) as U.
      rewrite (leb_val 0.4 r F04 F). rewrite (proj2 (Z.leb_gt _ _) L).
      unfold edgeFlagOf, gt, Math_abs.
      assert (Hlo : (-0.1 <=? r - 0.1) = true).
      { apply sub_lo; auto; try reflexivity. rewrite val_m0_1, val_0_1. lia. }
      assert (Hhi : (r - 0.1 <=? 0.3) = true).
      { apply sub_hi; auto. rewrite val_0_3, val_0_1. rewrite val_0_4 in U. lia. }
      assert (Fx : finite (r - 0.1)).
      { apply (finite_between (-0.1) 0.3); auto; reflexivity. }
      rewrite leb_val in Hlo, Hhi by (auto; reflexivity).
      destruct (abs_val _ Fx) as [Fa Va].
      rewrite ltb_val by auto. apply Z.ltb_ge. rewrite Va.
      apply Z.leb_le in Hlo, Hhi. rewrite val_m0_1 in Hlo. rewrite val_0_3 in Hhi |- *.
      lia.
    + assert (r = 0.4).
      { symmetry. apply val_inj; auto. rewrite val_0_4. lia. }
      subst r. reflexivity.
    + pose proof (above_0_4 r F G) as U.
      rewrite (leb_val 0.4 r F04 F).
      assert (Hle : (val 0.4 <=? val r)%Z = true) by (apply Z.leb_le; lia).
      rewrite Hle.
      unfold edgeFlagOf, gt, Math_abs.
      assert (Hlo : (0.30000000000000004 <=? r - 0.1) = true).
      { apply sub_lo; auto; try reflexivity. rewrite val_0_3', val_0_1.
        rewrite val_0_4 in U. lia. }
      assert (Hhi : (r - 0.1 <=? r) = true).
      { apply sub_hi; auto. rewrite val_0_1. lia. }
      assert (Fx : finite (r - 0.1)).
      { apply (finite_between 0.30000000000000004 r); auto; reflexivity. }
      rewrite leb_val in Hlo by (auto; reflexivity).
      destruct (abs_val _ Fx) as [Fa Va].
      rewrite ltb_val by auto. apply Z.ltb_lt. rewrite Va.
      apply Z.leb_le in Hlo. rewrite val_0_3' in Hlo. rewrite val_0_3.
      lia.
Qed.

(** The counting loop counts the bytes above 50. *)
Lemma edge_test_byte (b : byte) :
  gt (Number_of_byte b) 50 = (50 <? Z.of_N (Byte.to_N b))%Z.
Proof. destruct b; reflexivity. Qed.

Lemma countEdges_fold (pixels : Buffer) (c : nat) (t : float) :
  fst (fold_left
         (fun (st : nat * float) (b : byte) =>
            let '(edgePixels, totalIntensity) := st in
            if gt (Number_of_byte b) 50
            then (S edgePixels, totalIntensity + Number_of_byte b)
            else st)
         pixels (c, t))
  = (c + edgePixelsOf pixels)%nat.
Proof.
  revert c t. induction pixels as [|b l IH]; intros c t; cbn [fold_left].
  - unfold edgePixelsOf. cbn. lia.
  - unfold edgePixelsOf. cbn [filter]. rewrite <- edge_test_byte.
    destruct (gt (Number_of_byte b) 50); rewrite IH; unfold edgePixelsOf;
      cbn [List.length]; lia.
Qed.

Lemma countEdges_edgePixelsOf pixels : fst (countEdges pixels) = edgePixelsOf pixels.
Proof. unfold countEdges. now rewrite countEdges_fold. Qed.

Lemma edgePixelsOf_le pixels : (edgePixelsOf pixels <= List.length pixels)%nat.
Proof. apply filter_length_le. Qed.

Lemma edgeRatio_counts edgeData :
  edgeRatio (analyzeEdgeConsistency edgeData)
  = Number_of_nat (edgePixelsOf edgeData) / Number_of_nat (List.length edgeData).
Proof.
  unfold analyzeEdgeConsistency. rewrite <- countEdges_edgePixelsOf.
  destruct (countEdges edgeData); reflexivity.
Qed.

Lemma hasInconsistentEdges_edgeFlagOf edgeData :
  hasInconsistentEdges (analyzeEdges (Resolved edgeData))
  = edgeFlagOf (edgeRatio (analyzeEdgeConsistency edgeData)).
Proof.
  unfold analyzeEdges, analyzeEdgeConsistency, edgeFlagOf.
  destruct (countEdges edgeData); reflexivity.
Qed.

End EdgeFlag.

Section EdgeClaim.
Local Open Scope Z_scope.
Local Open Scope float_scope.

Lemma edge_counts_exact (edgeData : Buffer) :
  (Z.of_nat (List.length edgeData) < 2 ^ 52)%Z ->
  (finite (Number_of_nat (edgePixelsOf edgeData))
   /\ val (Number_of_nat (edgePixelsOf edgeData))
      = (Z.of_nat (edgePixelsOf edgeData) * K)%Z)
  /\ (finite (Number_of_nat (List.length edgeData))
      /\ val (Number_of_nat (List.length edgeData))
         = (Z.of_nat (List.length edgeData) * K)%Z).
Proof.
  intros Hn. pose proof (edgePixelsOf_le edgeData).
  assert (2 ^ 52 < 2 ^ 53)%Z by reflexivity.
  split; apply Number_of_nat_exact; lia.
Qed.

(** C10 (amended).  The edge flag of a pixel buffer is set exactly when the
    computed edge ratio [edgePixels / length] is at least the double [0.4];
    so a buffer with a larger share than two fifths of pixels above 50 is
    flagged, one with a smaller share never is, however few its edge
    pixels. *)
Theorem edge_flag_iff_ratio_at_least_0_4 (edgeData : Buffer) :
  hasInconsistentEdges (analyzeEdges (Resolved edgeData))
  = (0.4 <=? edgeRatio (analyzeEdgeConsistency edgeData))
  /\ ((Z.of_nat (List.length edgeData) < 2 ^ 52)%Z ->
      ((2 * List.length edgeData < 5 * edgePixelsOf edgeData)%nat ->
       hasInconsistentEdges (analyzeEdges (Resolved edgeData)) = true)
      /\ ((5 * edgePixelsOf edgeData < 2 * List.length edgeData)%nat ->
          hasInconsistentEdges (analyzeEdges (Resolved edgeData)) = false)).
Proof.
  assert (E : hasInconsistentEdges (analyzeEdges (Resolved edgeData))
              = (0.4 <=? edgeRatio (analyzeEdgeConsistency edgeData))).
  { rewrite hasInconsistentEdges_edgeFlagOf. apply edgeFlagOf_threshold.
    rewrite edgeRatio_counts. apply div_nonneg; apply Number_of_nat_nonneg. }
  split; [exact E|]. intros Hn.
  destruct (edge_counts_exact edgeData Hn) as [[Fe Ve] [Fn Vn]].
  pose proof (edgePixelsOf_le edgeData) as Hle.
  pose proof P18_pos as HP. pose proof K_pos as HK. pose proof K_P18 as EK.
  rewrite E, edgeRatio_counts.
  set (e := edgePixelsOf edgeData) in *. set (n := List.length edgeData) in *.
  split; intros H.
  - apply div_lo; auto; try reflexivity; rewrite ?Ve, ?Vn; try nia.
    rewrite val_0_4.
    assert (L : (28823037615171176 * Z.of_nat n <= Z.of_nat e * 72057594037927936)%Z) by lia.
    apply (Z.mul_le_mono_nonneg_r _ _ (P18 * K)%Z) in L; [|nia].
    remember K as k eqn:Ek. remember P18 as p eqn:Ep.
    remember (Z.of_nat n) as zn. remember (Z.of_nat e) as ze.
    replace (28823037615171176 * p * (zn * k))%Z
      with (28823037615171176 * zn * (p * k))%Z by ring.
    replace (ze * k * k)%Z with (ze * 72057594037927936 * (p * k))%Z; [exact L|].
    rewrite EK at 3. ring.
  - apply ltb_leb_false. apply (leb_ltb_trans _ below_0_4); [|reflexivity].
    apply div_hi; auto; try reflexivity; rewrite ?Ve, ?Vn; try nia.
    rewrite val_below_0_4.
    assert (L : (Z.of_nat e * 72057594037927936 <= 28823037615171172 * Z.of_nat n)%Z) by lia.
    apply (Z.mul_le_mono_nonneg_r _ _ (P18 * K)%Z) in L; [|nia].
    remember K as k eqn:Ek. remember P18 as p eqn:Ep.
    remember (Z.of_nat n) as zn. remember (Z.of_nat e) as ze.
    replace (28823037615171172 * p * (zn * k))%Z
      with (28823037615171172 * zn * (p * k))%Z by ring.
    replace (ze * k * k)%Z with (ze * 72057594037927936 * (p * k))%Z; [exact L|].
    rewrite EK at 3. ring.
Qed.

End EdgeClaim.

Lemma edge_flag_iff_ratio_at_least_0_4_witness :
  hasInconsistentEdges (analyzeEdges (Resolved oneOfTwo))
  = PrimFloat.leb 0.4 (edgeRatio (analyzeEdgeConsistency oneOfTwo))
  /\ hasInconsistentEdges (analyzeEdges (Resolved oneOfTwo)) = true.
Proof.
  destruct (edge_flag_iff_ratio_at_least_0_4 oneOfTwo) as [E C].
  split; [exact E|].
  apply C.
  - reflexivity.
  - cbn. lia.
Defined.

(** C10 as worded fails at a share of exactly two fifths: with two of five
    pixels above 50 the ratio is [0.4], [0.4 - 0.1] rounds up to
    [0.30000000000000004], and the flag is set although the share does not
    exceed 0.4. *)
Lemma edge_flag_set_at_exactly_two_fifths :
  ~ (forall edgeData : Buffer,
       hasInconsistentEdges (analyzeEdges (Resolved edgeData)) = true
       <-> (2 * List.length edgeData < 5 * edgePixelsOf edgeData)%nat).
Proof.
  intros H. destruct (H twoOfFive) as [H1 _].
  specialize (H1 eq_refl). cbn in H1. lia.
Qed.

(* ================================================================== *)
(** * Confidence and merged count of the suspicious areas (C9) *)
(* ================================================================== *)

Section BlockIntensity.
Local Open Scope Z_scope.
Local Open Scope float_scope.

Lemma finite_zero : finite 0.
Proof. reflexivity. Qed.

Lemma val_zero : val 0 = 0%Z.
Proof. reflexivity. Qed.

(** [lo <= x <= hi] between finite bounds: [x] is finite and its value
    lies between theirs. *)
Lemma between_val lo hi x :
  finite lo -> finite hi -> (lo <=? x) = true -> (x <=? hi) = true ->
  finite x /\ (val lo <= val x <= val hi)%Z.
Proof.
  intros Fl Fh H1 H2. pose proof (finite_between lo hi x Fl Fh H1 H2) as Fx.
  rewrite leb_val in H1, H2 by auto. apply Z.leb_le in H1, H2. auto.
Qed.

Lemma Number_of_byte_range (b : byte) :
  finite (Number_of_byte b) /\ (0 <= val (Number_of_byte b) <= 255 * K)%Z.
Proof.
  unfold Number_of_byte. pose proof (Byte.to_N_bounded b) as Hb.
  pose proof K_pos.
  assert (0 <= Z.of_N (Byte.to_N b) <= 255)%Z as Hz by lia.
  destruct (Number_exact (Z.of_N (Byte.to_N b))) as [F V].
  { split; [lia|]. apply Z.le_lt_trans with 255%Z; [lia | reflexivity]. }
  rewrite V. split; [exact F | nia].
Qed.

(** A sum of two numbers that are not negative, bounded by an integer
    below [2^53]. *)
Lemma add_range x y (a b : Z) :
  finite x -> finite y ->
  (0 <= val x <= a * K)%Z -> (0 <= val y <= b * K)%Z -> (0 <= a + b < 2 ^ 53)%Z ->
  finite (x + y) /\ (0 <= val (x + y) <= (a + b) * K)%Z.
Proof.
  intros Fx Fy Hx Hy Hab.
  destruct (Number_exact (a + b) Hab) as [Fn Vn].
  destruct (between_val 0 (Number_of_Z (a + b)) (x + y)) as [F [L U]];
    auto using finite_zero.
  - apply add_lo; auto using finite_zero. rewrite val_zero. lia.
  - apply add_hi; auto. rewrite Vn. lia.
  - rewrite val_zero in L. rewrite Vn in U. auto.
Qed.

(** A quotient of a number that is not negative by a positive one, bounded
    by a finite number. *)
Lemma div_range x y hi :
  finite x -> finite y -> finite hi ->
  (0 <= val x)%Z -> (0 < val y)%Z -> (val x * K <= val hi * val y)%Z ->
  finite (x / y) /\ (0 <= val (x / y) <= val hi)%Z.
Proof.
  intros Fx Fy Fh Hx Hy Hb. pose proof K_pos.
  destruct (between_val 0 hi (x / y)) as [F [L U]]; auto using finite_zero.
  - apply div_lo; auto using finite_zero. rewrite val_zero. nia.
  - apply div_hi; auto.
Qed.

Lemma Buffer_get_range (data : Buffer) (i : nat) :
  (i < List.length data)%nat ->
  finite (Buffer_get data i) /\ (0 <= val (Buffer_get data i) <= 255 * K)%Z.
Proof.
  intros Hi. unfold Buffer_get.
  destruct (nth_error data i) as [b|] eqn:E.
  - apply Number_of_byte_range.
  - apply nth_error_None in E. lia.
Qed.

(** The summing loop of [calculateBlockIntensity] keeps the total between
    0 and 255 times the count. *)
Lemma blockIntensity_fold (data : Buffer) (imageWidth : nat) (pixels : list (nat * nat)) :
  forall (total : float) (count : nat),
    finite total -> (0 <= val total <= 255 * Z.of_nat count * K)%Z ->
    (255 * (Z.of_nat count + Z.of_nat (List.length pixels)) < 2 ^ 53)%Z ->
    let st :=
      fold_left
        (fun (st : float * nat) (p : nat * nat) =>
           let '(totalIntensity, count) := st in
           let '(x, y) := p in
           if Nat.ltb x imageWidth
              && Nat.ltb (y * imageWidth + x) (List.length data)
           then (totalIntensity + Buffer_get data (y * imageWidth + x), S count)
           else st)
        pixels (total, count) in
    finite (fst st)
    /\ (0 <= val (fst st) <= 255 * Z.of_nat (snd st) * K)%Z
    /\ (Z.of_nat (snd st) <= Z.of_nat count + Z.of_nat (List.length pixels))%Z.
Proof.
  induction pixels as [|[x y] l IH]; intros total count F B HS; cbn [fold_left].
  - cbn [fst snd List.length]. repeat split; try tauto; lia.
  - cbn [List.length] in HS |- *. cbn zeta.
    destruct (Nat.ltb x imageWidth && Nat.ltb (y * imageWidth + x) (List.length data))
      eqn:C.
    + apply andb_true_iff in C. destruct C as [_ C]. apply Nat.ltb_lt in C.
      destruct (Buffer_get_range data _ C) as [Fb Bb].
      destruct (add_range total (Buffer_get data (y * imageWidth + x))
                          (255 * Z.of_nat count) 255 F Fb B Bb ltac:(lia)) as [Fs Bs].
      replace (255 * Z.of_nat count + 255)%Z with (255 * Z.of_nat (S count))%Z in Bs by lia.
      assert (HS' : (255 * (Z.of_nat (S count) + Z.of_nat (List.length l)) < 2 ^ 53)%Z)
        by lia.
      pose proof (IH _ (S count) Fs Bs HS') as IH'. cbn zeta in IH'.
      destruct IH' as (I1 & I2 & I3).
      split; [exact I1|]. split; [exact I2 | lia].
    + assert (HS' : (255 * (Z.of_nat count + Z.of_nat (List.length l)) < 2 ^ 53)%Z)
        by lia.
      pose proof (IH total count F B HS') as IH'. cbn zeta in IH'.
      destruct IH' as (I1 & I2 & I3).
      split; [exact I1|]. split; [exact I2 | lia].
Qed.

Lemma flat_map_length_const {A B} (f : A -> list B) (k : nat) (l : list A) :
  (forall a, List.length (f a) = k) ->
  List.length (flat_map f l) = (List.length l * k)%nat.
Proof.
  intros Hf. induction l as [|a l IH]; cbn [flat_map List.length]; [reflexivity|].
  rewrite length_app, Hf, IH. lia.
Qed.

Lemma blockPixels_length startX startY blockSize :
  List.length (blockPixels startX startY blockSize) = (blockSize * blockSize)%nat.
Proof.
  unfold blockPixels. rewrite (flat_map_length_const _ blockSize).
  - now rewrite length_seq.
  - intros y. now rewrite length_map, length_seq.
Qed.

(** The intensity of a block of 32 by 32 pixels is between 0 and 255. *)
Lemma calculateBlockIntensity_range data x y imageWidth :
  let intensity := calculateBlockIntensity data x y 32 imageWidth in
  finite intensity /\ (0 <= val intensity <= 255 * K)%Z.
Proof.
  cbn zeta. unfold calculateBlockIntensity. pose proof K_pos as HK.
  pose proof (blockIntensity_fold data imageWidth (blockPixels x y 32) 0 0%nat
                finite_zero) as H.
  cbn zeta in H. rewrite blockPixels_length, val_zero in H.
  destruct H as (F & B & C); [cbn; lia | reflexivity |].
  destruct (fold_left _ (blockPixels x y 32) (0, 0%nat)) as [total count].
  cbn [fst snd] in F, B, C.
  destruct (Nat.ltb 0 count) eqn:E.
  - apply Nat.ltb_lt in E.
    destruct (Number_of_nat_exact count) as [Fc Vc].
    { apply Z.le_lt_trans with (Z.of_nat (32 * 32)); [lia | reflexivity]. }
    assert (V255 : val 255 = (255 * K)%Z) by (vm_compute; reflexivity).
    rewrite <- V255.
    apply div_range; auto; try reflexivity; rewrite ?Vc, ?V255; nia.
  - split; [reflexivity | rewrite val_zero; lia].
Qed.

End BlockIntensity.

Section Confidence.
Local Open Scope Z_scope.
Local Open Scope float_scope.

Lemma unitConfidence_val (a : SuspiciousArea) :
  unitConfidence a ->
  finite (area_confidence a) /\ (0 <= val (area_confidence a) <= 1 * K)%Z.
Proof.
  intros [L U].
  destruct (between_val 0 1 (area_confidence a) finite_zero finite_one L U) as [F B].
  rewrite val_zero, val_one in B. split; [exact F | lia].
Qed.

(** [min(intensity / 255, 1)] for an intensity between 0 and 255. *)
Lemma block_confidence (intensity : float) :
  finite intensity -> (0 <= val intensity <= 255 * K)%Z ->
  (0 <=? Math_min (intensity / 255) 1) = true
  /\ (Math_min (intensity / 255) 1 <=? 1) = true.
Proof.
  intros F B.
  assert (V255 : val 255 = (255 * K)%Z) by (vm_compute; reflexivity).
  assert (F255 : finite 255) by reflexivity.
  pose proof K_pos as HK.
  destruct (div_range intensity 255 1 F F255 finite_one) as [Fq Bq].
  { lia. }
  { rewrite V255. lia. }
  { rewrite V255, val_one. nia. }
  rewrite val_one in Bq.
  assert (Q0 : (0 <=? intensity / 255) = true).
  { rewrite leb_val by auto using finite_zero. apply Z.leb_le. rewrite val_zero. lia. }
  assert (Q1 : (intensity / 255 <=? 1) = true).
  { rewrite leb_val by auto using finite_one. apply Z.leb_le. rewrite val_one. lia. }
  split.
  - apply Math_min_glb; [exact Q0 | reflexivity].
  - apply Math_min_le_r; [|reflexivity].
    destruct (leb_not_nan _ _ Q0) as [_ N]. exact N.
Qed.

(** What [detectSuspiciousAreas] pushes for a block: no [mergedCount], and
    a confidence [min(intensity / 255, 1)] within [[0, 1]]. *)
Lemma flaggedBlocks_spec cfg data info a :
  In a (flaggedBlocks cfg data info) ->
  area_mergedCount a = None /\ unitConfidence a.
Proof.
  unfold flaggedBlocks. intros H. apply in_flat_map in H.
  destruct H as ([x y] & _ & H).
  destruct (calculateBlockIntensity_range data x y (info_width info)) as [F B].
  revert H F B.
  generalize (calculateBlockIntensity data x y 32 (info_width info)).
  intros intensity H F B.
  destruct (gt intensity (suspiciousAreaThreshold cfg * 255)); [|contradiction].
  destruct H as [<- | []]. split; [reflexivity|].
  exact (block_confidence intensity F B).
Qed.

(** The summing loop of [mergeAreaGroup] over confidences within
    [[0, 1]]. *)
Lemma confidence_fold (group : list SuspiciousArea) :
  Forall unitConfidence group ->
  forall (sum : float) (j : nat),
    finite sum -> (0 <= val sum <= Z.of_nat j * K)%Z ->
    (Z.of_nat j + Z.of_nat (List.length group) < 2 ^ 53)%Z ->
    finite (fold_left (fun sum a => (sum + area_confidence a)%float) group sum)
    /\ (0 <= val (fold_left (fun sum a => (sum + area_confidence a)%float) group sum)
        <= (Z.of_nat j + Z.of_nat (List.length group)) * K)%Z.
Proof.
  induction 1 as [|a l Ha Hl IH]; intros sum j F B Hj; cbn [fold_left List.length] in *.
  - split; [exact F|]. replace (Z.of_nat j + Z.of_nat 0)%Z with (Z.of_nat j) by lia.
    exact B.
  - destruct (unitConfidence_val a Ha) as [Fa Ba].
    destruct (add_range sum (area_confidence a) (Z.of_nat j) 1 F Fa B Ba ltac:(lia))
      as [Fs Bs].
    replace (Z.of_nat j + 1)%Z with (Z.of_nat (S j)) in Bs by lia.
    destruct (IH _ (S j) Fs Bs ltac:(lia)) as [F' B'].
    split; [exact F'|].
    replace (Z.of_nat j + Z.of_nat (S (List.length l)))%Z
      with (Z.of_nat (S j) + Z.of_nat (List.length l))%Z by lia.
    exact B'.
Qed.

(** The average confidence of a merged group is within [[0, 1]]. *)
Lemma mergeAreaGroup_confidence (group : list SuspiciousArea) :
  Forall unitConfidence group ->
  (0 < Z.of_nat (List.length group) < 2 ^ 53)%Z ->
  unitConfidence (mergeAreaGroup group).
Proof.
  intros HF Hn. unfold unitConfidence, mergeAreaGroup. cbn [area_confidence].
  unfold sum_by. pose proof K_pos as HK.
  destruct (confidence_fold group HF 0 0%nat finite_zero) as [Fs Bs].
  { rewrite val_zero. lia. }
  { lia. }
  cbn [Z.of_nat Z.add] in Bs.
  destruct (Number_of_nat_exact (List.length group)) as [Fn Vn]; [lia|].
  destruct (div_range
              (fold_left (fun sum a => (sum + area_confidence a)%float) group 0)
              (Number_of_nat (List.length group)) 1) as [Fq Bq];
    auto using finite_one; rewrite ?Vn, ?val_one; try nia.
  rewrite val_one in Bq.
  split; rewrite leb_val by auto using finite_zero, finite_one; apply Z.leb_le;
    rewrite ?val_zero, ?val_one; lia.
Qed.

End Confidence.

Section MergeInvariant.
Variable areas : list SuspiciousArea.

Lemma absorb_fold_length area js : forall group processed,
  (List.length (fst (fold_left (absorb areas area) js (group, processed)))
   <= List.length group + List.length js)%nat.
Proof.
  induction js as [|j js IH]; intros group processed; cbn [fold_left List.length].
  - cbn [fst]. lia.
  - unfold absorb at 2.
    destruct (processed_has processed j); [rewrite IH; lia|].
    destruct (nth_error areas j) as [other|]; [|rewrite IH; lia].
    destruct (areAreasNearby area other 50); [|rewrite IH; lia].
    rewrite IH. rewrite length_app. cbn [List.length]. lia.
Qed.

Lemma fromBlocks_step i area processed :
  nth_error areas i = Some area ->
  let group :=
    fst (fold_left (absorb areas area) (seq (S i) (List.length areas - S i))
                   ([area], processed)) in
  fromBlocks areas (if Nat.ltb 1 (List.length group)
                    then mergeAreaGroup group else area).
Proof.
  intros E group.
  assert (Hi : (i < List.length areas)%nat) by (apply nth_error_Some; congruence).
  pose proof (absorb_fold_length area (seq (S i) (List.length areas - S i))
                                 [area] processed) as HL.
  destruct (absorb_fold areas area (seq (S i) (List.length areas - S i)) [area] processed)
    as (rest & Hg & Hin).
  fold group in Hg, HL. rewrite length_seq in HL. cbn [List.length] in HL.
  destruct (Nat.ltb 1 (List.length group)) eqn:C.
  - apply Nat.ltb_lt in C. right. exists group. repeat split; try lia.
    rewrite Hg. cbn [app]. apply incl_cons; auto. eapply nth_error_In; eauto.
  - left. eapply nth_error_In; eauto.
Qed.

Lemma mergeStep_fold_fromBlocks len : forall start merged processed,
  Forall (fromBlocks areas) merged ->
  Forall (fromBlocks areas)
         (fst (fold_left (mergeStep areas) (seq start len) (merged, processed))).
Proof.
  induction len as [|len IH]; intros start merged processed HF; cbn [seq fold_left].
  - exact HF.
  - unfold mergeStep at 2.
    destruct (processed_has processed start); [now apply IH|].
    destruct (nth_error areas start) as [area|] eqn:E; [|now apply IH].
    pose proof (fromBlocks_step start area (start :: processed) E) as Hstep.
    cbn zeta in Hstep.
    destruct (fold_left (absorb areas area) (seq (S start) (List.length areas - S start))
                        ([area], start :: processed)) as [group processed'].
    cbn [fst] in Hstep.
    apply IH. apply Forall_app. split; auto.
Qed.

Lemma mergeSuspiciousAreas_fromBlocks :
  Forall (fromBlocks areas) (mergeSuspiciousAreas areas).
Proof.
  unfold mergeSuspiciousAreas, mergePass.
  pose proof (mergeStep_fold_fromBlocks (List.length areas) 0 [] [] (Forall_nil _)) as H.
  apply Forall_forall. intros o Ho. eapply Forall_forall in H; [exact H|].
  rewrite <- (firstn_skipn 20). apply in_or_app. left. exact Ho.
Qed.

End MergeInvariant.

Section ConfidenceClaim.
Local Open Scope string_scope.

(** C9 (amended).  Every area that [detectSuspiciousAreas] returns has a
    confidence within [[0, 1]]; it is either a flagged block as it was
    pushed, which carries no [mergedCount] at all, or the merge of a group
    of two or more flagged blocks, whose [mergedCount] is the size of the
    group.  (The image has fewer than [2^53] flagged blocks.) *)
Theorem suspicious_area_confidence_and_merged_count cfg path data info o :
  (Z.of_nat (List.length (flaggedBlocks cfg data info)) < 2 ^ 53)%Z ->
  In o (detectSuspiciousAreas cfg path (Resolved (data, info))) ->
  unitConfidence o
  /\ ((In o (flaggedBlocks cfg data info) /\ area_mergedCount o = None)
      \/ exists group,
           (2 <= List.length group)%nat
           /\ incl group (flaggedBlocks cfg data info)
           /\ o = mergeAreaGroup group
           /\ area_mergedCount o = Some (List.length group)).
Proof.
  intros Hn Ho. unfold detectSuspiciousAreas in Ho.
  destruct (String.eqb path ""); [contradiction|].
  pose proof (mergeSuspiciousAreas_fromBlocks (flaggedBlocks cfg data info)) as HF.
  eapply Forall_forall in HF; [|exact Ho].
  destruct HF as [Hin | (group & [H2 Hlen] & Hincl & ->)].
  - destruct (flaggedBlocks_spec _ _ _ _ Hin) as [M U]. split; auto.
  - split.
    + apply mergeAreaGroup_confidence; [|lia].
      apply Forall_forall. intros a Ha. apply Hincl in Ha.
      now destruct (flaggedBlocks_spec _ _ _ _ Ha).
    + right. exists group. repeat split; auto.
Qed.

End ConfidenceClaim.

Lemma suspicious_area_confidence_and_merged_count_witness :
  unitConfidence whiteRowMerged /\ area_mergedCount whiteRowMerged = Some 2%nat.
Proof.
  destruct (suspicious_area_confidence_and_merged_count
              config "doc_ela.jpg"%string whiteRow whiteRowInfo whiteRowMerged)
    as [U _].
  - vm_compute. reflexivity.
  - vm_compute. left. reflexivity.
  - split; [exact U | reflexivity].
Defined.

(** C9 as worded fails on a block that is not merged: the area of a single
    white pixel is returned as it was pushed, without [mergedCount]. *)
Lemma unmerged_area_has_no_mergedCount :
  ~ (forall cfg path raw o,
       In o (detectSuspiciousAreas cfg path raw) ->
       exists k, area_mergedCount o = Some k /\ (1 <= k)%nat).
Proof.
  intros H.
  assert (E : map area_mergedCount
                  (detectSuspiciousAreas config "doc_ela.jpg"%string
                                         (Resolved ([xff]%byte, onePixel)))
              = [None]) by (vm_compute; reflexivity).
  destruct (detectSuspiciousAreas config "doc_ela.jpg"%string
                                  (Resolved ([xff]%byte, onePixel))) as [|o l] eqn:D;
    [discriminate E|].
  injection E as E0 _.
  destruct (H _ _ _ o ltac:(rewrite D; left; reflexivity)) as (k & Hk & _).
  congruence.
Qed.


(* ================================================================== *)
(** * What the weights allow *)
(* ================================================================== *)

Section Verdict.
Local Open Scope float_scope.

Lemma verdict_check_true :
  ltac:(let t := eval unfold verdict_check in (verdict_check = true) in exact t).
Proof. vm_compute. reflexivity. Qed.

Lemma ceiling_check_true :
  ltac:(let t := eval unfold ceiling_check in (ceiling_check = true) in exact t).
Proof. vm_compute. reflexivity. Qed.

Lemma findings_check_true :
  ltac:(let t := eval unfold findings_check in (findings_check = true) in exact t).
Proof. vm_compute. reflexivity. Qed.

Lemma forgeryVerdict_min (f : Flags) (count : nat) :
  forgeryVerdict f (Nat.min count 10) = forgeryVerdict f count.
Proof.
  destruct f as [[[[e c] m] n] d]. unfold forgeryVerdict.
  destruct e, c, m, n, d; cbn [andb]; try reflexivity;
    destruct (Nat.leb_spec 4 count), (Nat.leb_spec 4 (Nat.min count 10)),
             (Nat.leb_spec 8 count), (Nat.leb_spec 8 (Nat.min count 10));
    try reflexivity; lia.
Qed.

Lemma calculateForgeryScore_verdict (analyses : Analyses) :
  gt (calculateForgeryScore analyses) 0.6
  = forgeryVerdict (flagsOf analyses) (List.length (suspiciousAreas analyses)).
Proof.
  rewrite calculateForgeryScore_analysesAt, <- forgeryVerdict_min.
  pose proof (proj1 (forallb_forall _ _) verdict_check_true (flagsOf analyses)
                (In_allFlags _)) as H.
  pose proof (proj1 (forallb_forall _ _) H
                (Nat.min (List.length (suspiciousAreas analyses)) 10)) as H'.
  cbv beta in H'. apply eqb_prop. apply H'. apply in_seq. lia.
Qed.

Lemma calculateForgeryScore_range (analyses : Analyses) :
  (0 <=? calculateForgeryScore analyses) = true
  /\ (calculateForgeryScore analyses <=? 0.6699999999999999) = true.
Proof.
  rewrite calculateForgeryScore_analysesAt.
  pose proof (proj1 (forallb_forall _ _) ceiling_check_true (flagsOf analyses)
                (In_allFlags _)) as H.
  pose proof (proj1 (forallb_forall _ _) H
                (Nat.min (List.length (suspiciousAreas analyses)) 10)) as H'.
  cbv beta in H'. apply andb_true_iff. apply H'. apply in_seq. lia.
Qed.

Lemma calculateForgeryScore_findings (analyses : Analyses) :
  gt (calculateForgeryScore analyses) 0.3 = true ->
  ela_hasAnomalies analyses
  || compression_hasInconsistentCompression analyses
  || metadata_hasInconsistentMetadata analyses = true.
Proof.
  rewrite calculateForgeryScore_analysesAt. intros G.
  pose proof (proj1 (forallb_forall _ _) findings_check_true (flagsOf analyses)
                (In_allFlags _)) as H.
  pose proof (proj1 (forallb_forall _ _) H
                (Nat.min (List.length (suspiciousAreas analyses)) 10)) as H'.
  cbv beta in H'. rewrite G in H'. cbn [implb] in H'.
  apply H'. apply in_seq. lia.
Qed.

Lemma isForgery_flags Date_parse cfg path w r :
  analyzeImage Date_parse cfg path w = Resolved r ->
  isForgery r
  = hasAnomalies (elaAnalysis r)
    && hasInconsistentCompression (compressionAnalysis r)
    && hasInconsistentMetadata (metadataAnalysis r)
    && hasInconsistentNoise (noiseAnalysis r)
    && (if hasInconsistentEdges (edgeAnalysis r)
        then Nat.leb 4 (List.length (result_suspiciousAreas r))
        else Nat.leb 8 (List.length (result_suspiciousAreas r))).
Proof.
  intros Hr. destruct (analyzeImage_result _ _ _ _ _ Hr) as (Hs & Hf & _).
  rewrite Hf, Hs. apply calculateForgeryScore_verdict.
Qed.

End Verdict.

Section VerdictTheorems.
Local Open Scope float_scope.

(** X1.  [isForgery] of an analysis returned by [analyzeImage] is true
    exactly when the ELA, compression, metadata and noise flags are all
    set and there are at least four suspicious areas, or at least eight
    when the edge flag is not set: no other combination brings the score
    above 0.6. *)
Theorem isForgery_needs_four_flags_and_areas Date_parse cfg path w r :
  analyzeImage Date_parse cfg path w = Resolved r ->
  isForgery r
  = hasAnomalies (elaAnalysis r)
    && hasInconsistentCompression (compressionAnalysis r)
    && hasInconsistentMetadata (metadataAnalysis r)
    && hasInconsistentNoise (noiseAnalysis r)
    && (if hasInconsistentEdges (edgeAnalysis r)
        then Nat.leb 4 (List.length (result_suspiciousAreas r))
        else Nat.leb 8 (List.length (result_suspiciousAreas r))).
Proof.
  exact (isForgery_flags Date_parse cfg path w r).
Qed.

(** X2.  Whatever the flags and the areas, the score is between 0 and
    0.6699999999999999: the last statement [Math.min(score, 1)] never
    changes it. *)
Theorem forgery_score_between_0_and_0_67 (analyses : Analyses) :
  (0 <=? calculateForgeryScore analyses) = true
  /\ (calculateForgeryScore analyses <=? 0.6699999999999999) = true
  /\ lt (calculateForgeryScore analyses) 1 = true.
Proof.
  destruct (calculateForgeryScore_range analyses) as [L U].
  repeat split; auto.
  unfold lt. eapply leb_ltb_trans; [exact U | reflexivity].
Qed.

(** X3.  The report of an analysis returned by [analyzeImage] is never the
    HIGH RISK one, and it is the MEDIUM RISK one exactly when [isForgery]
    is true. *)
Theorem analyzeImage_never_reports_high_risk Date_parse cfg path w r :
  analyzeImage Date_parse cfg path w = Resolved r ->
  reportTier (analysis r) <> Some HighRisk
  /\ (reportTier (analysis r) = Some MediumRisk <-> isForgery r = true).
Proof.
  intros Hr. destruct (analyzeImage_result _ _ _ _ _ Hr) as (Hs & Hf & Ha).
  cbv zeta in Hs, Ha. rewrite Ha, reportTier_generateDetailedAnalysis, Hf.
  assert (H8 : gt (forgeryScore r) 0.8 = false).
  { rewrite Hs. eapply not_above; [apply calculateForgeryScore_range | reflexivity]. }
  rewrite H8. split.
  - destruct (gt (forgeryScore r) 0.6), (gt (forgeryScore r) 0.3); discriminate.
  - destruct (gt (forgeryScore r) 0.6), (gt (forgeryScore r) 0.3);
      split; intros H; try reflexivity; discriminate H.
Qed.

(** X4.  A report that carries a risk tier names at least one finding: a
    score above 0.3 needs the ELA, the compression or the metadata flag,
    each of which adds its sentence. *)
Theorem risk_report_names_a_finding (analyses : Analyses) :
  gt (calculateForgeryScore analyses) 0.3 = true ->
  findings analyses <> []
  /\ reportTier (generateDetailedAnalysis (calculateForgeryScore analyses) analyses)
     <> Some AppearsAuthentic.
Proof.
  intros G. split.
  - pose proof (calculateForgeryScore_findings analyses G) as H.
    unfold findings.
    destruct (ela_hasAnomalies analyses); [discriminate|].
    destruct (compression_hasInconsistentCompression analyses); [discriminate|].
    destruct (metadata_hasInconsistentMetadata analyses); [discriminate|].
    discriminate H.
  - rewrite reportTier_generateDetailedAnalysis, G.
    destruct (gt (calculateForgeryScore analyses) 0.8),
             (gt (calculateForgeryScore analyses) 0.6); discriminate.
Qed.

(** X5.  When the compression analyzer, the metadata analyzer or the noise
    analyzer degrades, when the compression script fails or prints
    nothing that parses, or when the image has no EXIF block, the analysis
    returned is never a forgery verdict. *)
Theorem degraded_analysis_is_never_a_forgery Date_parse cfg path w r :
  analyzeImage Date_parse cfg path w = Resolved r ->
  (exists message, compressionMetadata w = Rejected message)
  \/ (exists message, resizedRaw w = Rejected message)
  \/ exitCode (compressionScript w) <> 0%Z
  \/ parsedOutput (compressionScript w) = None
  \/ (exists message, imageMetadata w = Rejected message)
  \/ (exists metadata, imageMetadata w = Resolved metadata /\ md_exif metadata = None)
  \/ (exists message, greyscaleRaw w = Rejected message) ->
  isForgery r = false.
Proof.
  intros Hr H.
  rewrite (isForgery_flags _ _ _ _ _ Hr).
  unfold analyzeImage in Hr.
  destruct (performELA path (elaWorld w)) as [ela|]; [|discriminate].
  injection Hr as <-. cbn [compressionAnalysis metadataAnalysis noiseAnalysis
                           elaAnalysis edgeAnalysis result_suspiciousAreas].
  assert (F : hasInconsistentCompression
                (analyzeCompression (compressionMetadata w) (compressionScript w)
                                    (resizedRaw w))
              && hasInconsistentMetadata
                   (analyzeMetadata Date_parse (clock w) (imageMetadata w))
              && hasInconsistentNoise (analyzeNoise (greyscaleRaw w)) = false).
  { destruct H as [[m E] | [[m E] | [E | [E | [[m E] | [(md & E & X) | [m E]]]]]]].
    - rewrite E. reflexivity.
    - rewrite E. destruct (compressionMetadata w); reflexivity.
    - unfold analyzeCompression, detectCompressionArtifacts.
      apply Z.eqb_neq in E. rewrite E.
      destruct (compressionMetadata w); [|reflexivity].
      destruct (resizedRaw w) as [[data info]|]; reflexivity.
    - unfold analyzeCompression, detectCompressionArtifacts. rewrite E.
      destruct (compressionMetadata w); [|reflexivity].
      destruct (resizedRaw w) as [[data info]|]; [|reflexivity].
      destruct (Z.eqb (exitCode (compressionScript w)) 0); reflexivity.
    - rewrite E. cbn [analyzeMetadata hasInconsistentMetadata].
      now rewrite andb_false_r.
    - rewrite E. cbn [analyzeMetadata hasInconsistentMetadata]. rewrite X.
      cbn. now rewrite andb_false_r.
    - rewrite E. cbn [analyzeNoise hasInconsistentNoise]. now rewrite andb_false_r. }
  destruct (hasAnomalies ela); [|reflexivity]. cbn [andb].
  rewrite F. reflexivity.
Qed.

End VerdictTheorems.

Lemma isForgery_needs_four_flags_and_areas_witness :
  exists r,
    analyzeImage Date_parse_none config "doc.jpg" worldAllFlagged = Resolved r
    /\ isForgery r
       = hasAnomalies (elaAnalysis r)
         && hasInconsistentCompression (compressionAnalysis r)
         && hasInconsistentMetadata (metadataAnalysis r)
         && hasInconsistentNoise (noiseAnalysis r)
         && (if hasInconsistentEdges (edgeAnalysis r)
             then Nat.leb 4 (List.length (result_suspiciousAreas r))
             else Nat.leb 8 (List.length (result_suspiciousAreas r))).
Proof.
  destruct analyzeImage_worldAllFlagged as (r & Hr & _).
  exists r. split; [exact Hr|].
  exact (isForgery_needs_four_flags_and_areas
           Date_parse_none config "doc.jpg"%string worldAllFlagged r Hr).
Defined.

Lemma analyzeImage_never_reports_high_risk_witness :
  exists r,
    analyzeImage Date_parse_none config "doc.jpg" worldAllFlagged = Resolved r
    /\ reportTier (analysis r) <> Some HighRisk
    /\ (reportTier (analysis r) = Some MediumRisk <-> isForgery r = true).
Proof.
  destruct analyzeImage_worldAllFlagged as (r & Hr & _).
  exists r. split; [exact Hr|].
  exact (analyzeImage_never_reports_high_risk
           Date_parse_none config "doc.jpg"%string worldAllFlagged r Hr).
Defined.

Lemma risk_report_names_a_finding_witness :
  findings (analysesAt (true, true, true, false, false) 0) <> []
  /\ reportTier
       (generateDetailedAnalysis
          (calculateForgeryScore (analysesAt (true, true, true, false, false) 0))
          (analysesAt (true, true, true, false, false) 0))
     <> Some AppearsAuthentic.
Proof.
  apply (risk_report_names_a_finding (analysesAt (true, true, true, false, false) 0)).
  vm_compute. reflexivity.
Defined.

Lemma degraded_analysis_is_never_a_forgery_witness :
  exists r,
    analyzeImage Date_parse_none config "doc.jpg" worldOthersFail = Resolved r
    /\ isForgery r = false.
Proof.
  eexists. split.
  - vm_compute. reflexivity.
  - apply (degraded_analysis_is_never_a_forgery
             Date_parse_none config "doc.jpg"%string worldOthersFail).
    + vm_compute. reflexivity.
    + left. eexists. reflexivity.
Defined.

(* ================================================================== *)
(** * Block intensities and the types of the suspicious areas *)
(* ================================================================== *)

Section IntensityRange.
Local Open Scope Z_scope.
Local Open Scope float_scope.

(** A sum of two finite numbers, between two integers below [2^53]. *)
Lemma add_between x y (a a' b b' : Z) :
  finite x -> finite y ->
  (a * K <= val x <= a' * K)%Z -> (b * K <= val y <= b' * K)%Z ->
  (0 <= a + b)%Z -> (a + b <= a' + b')%Z -> (a' + b' < 2 ^ 53)%Z ->
  finite (x + y) /\ ((a + b) * K <= val (x + y) <= (a' + b') * K)%Z.
Proof.
  intros Fx Fy Hx Hy H0 H1 H2.
  destruct (Number_exact (a + b) ltac:(lia)) as [Fl Vl].
  destruct (Number_exact (a' + b') ltac:(lia)) as [Fh Vh].
  destruct (between_val (Number_of_Z (a + b)) (Number_of_Z (a' + b')) (x + y))
    as [F [L U]]; auto.
  - apply add_lo; auto. rewrite Vl. lia.
  - apply add_hi; auto. rewrite Vh. lia.
  - rewrite Vl in L. rewrite Vh in U. auto.
Qed.

(** [xs.reduce((sum, a) => sum + f(a), 0)] over values between two
    integers [lo] and [hi]. *)
Lemma sum_fold_between {A} (f : A -> float) (lo hi : Z) (xs : list A) :
  (0 <= lo <= hi)%Z ->
  Forall (fun a => finite (f a) /\ (lo * K <= val (f a) <= hi * K)%Z) xs ->
  forall (sum : float) (j : nat),
    finite sum ->
    (lo * Z.of_nat j * K <= val sum <= hi * Z.of_nat j * K)%Z ->
    (hi * (Z.of_nat j + Z.of_nat (List.length xs)) < 2 ^ 53)%Z ->
    finite (fold_left (fun sum a => (sum + f a)%float) xs sum)
    /\ (lo * (Z.of_nat j + Z.of_nat (List.length xs)) * K
        <= val (fold_left (fun sum a => (sum + f a)%float) xs sum)
        <= hi * (Z.of_nat j + Z.of_nat (List.length xs)) * K)%Z.
Proof.
  intros Hlh. induction 1 as [|a l [Fa Ba] Hl IH]; intros sum j F B Hj;
    cbn [fold_left List.length] in *.
  - split; [exact F|]. replace (Z.of_nat j + Z.of_nat 0)%Z with (Z.of_nat j) by lia.
    exact B.
  - destruct (add_between sum (f a) (lo * Z.of_nat j) (hi * Z.of_nat j) lo hi F Fa B Ba)
      as [Fs Bs]; try nia.
    replace (lo * Z.of_nat j + lo)%Z with (lo * Z.of_nat (S j))%Z in Bs by lia.
    replace (hi * Z.of_nat j + hi)%Z with (hi * Z.of_nat (S j))%Z in Bs by lia.
    destruct (IH _ (S j) Fs Bs ltac:(lia)) as [F' B'].
    split; [exact F'|].
    replace (Z.of_nat j + Z.of_nat (S (List.length l)))%Z
      with (Z.of_nat (S j) + Z.of_nat (List.length l))%Z by lia.
    exact B'.
Qed.

(** The average [sum / length] of a list that is not empty, of values
    between two integers. *)
Lemma average_between {A} (f : A -> float) (lo hi : Z) (xs : list A) :
  (0 <= lo <= hi)%Z -> xs <> [] ->
  (hi * Z.of_nat (List.length xs) < 2 ^ 53)%Z ->
  (Z.of_nat (List.length xs) < 2 ^ 53)%Z ->
  Forall (fun a => finite (f a) /\ (lo * K <= val (f a) <= hi * K)%Z) xs ->
  finite (sum_by f xs / Number_of_nat (List.length xs))
  /\ (lo * K <= val (sum_by f xs / Number_of_nat (List.length xs)) <= hi * K)%Z.
Proof.
  intros Hlh Hne Hn Hn' HF. pose proof K_pos as HK.
  assert (Hlen : (0 < Z.of_nat (List.length xs))%Z).
  { destruct xs; [contradiction | cbn [List.length]; lia]. }
  destruct (sum_fold_between f lo hi xs Hlh HF 0 0%nat finite_zero) as [Fs Bs].
  { rewrite val_zero. lia. }
  { cbn [Z.of_nat Z.add]. exact Hn. }
  cbn [Z.of_nat Z.add] in Bs. fold (sum_by f xs) in Fs, Bs.
  destruct (Number_of_nat_exact (List.length xs) Hn') as [Fn Vn].
  destruct (Number_exact lo ltac:(nia)) as [Fl Vl].
  destruct (Number_exact hi ltac:(nia)) as [Fh Vh].
  destruct (between_val (Number_of_Z lo) (Number_of_Z hi)
                        (sum_by f xs / Number_of_nat (List.length xs)))
    as [F [L U]]; auto.
  - apply div_lo; auto; rewrite ?Vn, ?Vl; nia.
  - apply div_hi; auto; rewrite ?Vn, ?Vh; nia.
  - rewrite Vl in L. rewrite Vh in U. auto.
Qed.

End IntensityRange.

Section AreaTypes.
Local Open Scope Z_scope.
Local Open Scope float_scope.

(** What [detectSuspiciousAreas] pushes for a block: its intensity, which
    is above the threshold, and the type read off it. *)
Lemma flaggedBlocks_intensity cfg data info a :
  In a (flaggedBlocks cfg data info) ->
  finite (area_intensity a)
  /\ (0 <= val (area_intensity a) <= 255 * K)%Z
  /\ gt (area_intensity a) (suspiciousAreaThreshold cfg * 255) = true
  /\ area_type a = classifySuspiciousArea (area_intensity a).
Proof.
  unfold flaggedBlocks. intros H. apply in_flat_map in H.
  destruct H as ([x y] & _ & H).
  destruct (calculateBlockIntensity_range data x y (info_width info)) as [F B].
  revert H F B.
  generalize (calculateBlockIntensity data x y 32 (info_width info)).
  intros intensity H F B.
  destruct (gt intensity (suspiciousAreaThreshold cfg * 255)) eqn:G; [|contradiction].
  destruct H as [<- | []]. cbn [area_intensity area_type]. auto.
Qed.

Lemma finite_151 : finite 151. Proof. reflexivity. Qed.
Lemma val_151 : val 151 = (151 * K)%Z. Proof. vm_compute. reflexivity. Qed.
Lemma finite_255 : finite 255. Proof. reflexivity. Qed.
Lemma val_255 : val 255 = (255 * K)%Z. Proof. vm_compute. reflexivity. Qed.

(** An intensity of at least 151 is classified as a medium or a high
    manipulation. *)
Lemma classifySuspiciousArea_above_150 (intensity : float) :
  (151 <=? intensity) = true ->
  classifySuspiciousArea intensity = high_manipulation
  \/ classifySuspiciousArea intensity = medium_manipulation.
Proof.
  intros H. unfold classifySuspiciousArea.
  destruct (gt intensity 200); [now left|].
  assert (G : gt intensity 150 = true).
  { unfold gt. apply (ltb_leb_trans _ 151); [reflexivity | exact H]. }
  rewrite G. now right.
Qed.

Lemma flaggedBlocks_between cfg data info a :
  (151 <=? suspiciousAreaThreshold cfg * 255) = true ->
  In a (flaggedBlocks cfg data info) ->
  finite (area_intensity a)
  /\ (151 * K <= val (area_intensity a) <= 255 * K)%Z.
Proof.
  intros HT Ha. destruct (flaggedBlocks_intensity _ _ _ _ Ha) as (F & B & G & _).
  split; [exact F|]. split; [|lia].
  assert (L : (151 <=? area_intensity a) = true).
  { apply ltb_leb. apply (leb_ltb_trans _ (suspiciousAreaThreshold cfg * 255)); auto. }
  rewrite leb_val in L by auto using finite_151. apply Z.leb_le in L.
  rewrite val_151 in L. exact L.
Qed.

(** X7.  When the flagging threshold times 255 is at least 151, as with the
    configured 0.7, every area that [detectSuspiciousAreas] returns,
    merged or not, has an intensity between 151 and 255 and the type
    [high_manipulation] or [medium_manipulation]: [low_manipulation] and
    [noise] never occur.  (The image has fewer than [2^53 / 255] flagged
    blocks.) *)
Theorem suspicious_areas_are_medium_or_high cfg path data info o :
  (151 <=? suspiciousAreaThreshold cfg * 255) = true ->
  (255 * Z.of_nat (List.length (flaggedBlocks cfg data info)) < 2 ^ 53)%Z ->
  In o (detectSuspiciousAreas cfg path (Resolved (data, info))) ->
  (151 <=? area_intensity o) = true
  /\ (area_intensity o <=? 255) = true
  /\ (area_type o = high_manipulation \/ area_type o = medium_manipulation).
Proof.
  intros HT Hn Ho. unfold detectSuspiciousAreas in Ho.
  destruct (String.eqb path ""); [contradiction|].
  pose proof (mergeSuspiciousAreas_fromBlocks (flaggedBlocks cfg data info)) as HF.
  eapply Forall_forall in HF; [|exact Ho].
  assert (R : finite (area_intensity o)
              /\ (151 * K <= val (area_intensity o) <= 255 * K)%Z
              /\ area_type o = classifySuspiciousArea (area_intensity o)).
  { destruct HF as [Hin | (group & [H2 Hlen] & Hincl & ->)].
    - destruct (flaggedBlocks_between _ _ _ _ HT Hin) as [F B].
      destruct (flaggedBlocks_intensity _ _ _ _ Hin) as (_ & _ & _ & T). auto.
    - unfold mergeAreaGroup. cbn [area_intensity area_type].
      destruct (average_between area_intensity 151 255 group) as [F B]; try lia.
      + destruct group; [cbn in H2; lia | discriminate].
      + apply Forall_forall. intros a Ha. apply Hincl in Ha.
        now apply (flaggedBlocks_between cfg data info).
      + auto. }
  destruct R as (F & B & T).
  assert (L : (151 <=? area_intensity o) = true).
  { rewrite leb_val by auto using finite_151. apply Z.leb_le. rewrite val_151. lia. }
  split; [exact L|]. split.
  - rewrite leb_val by auto using finite_255. apply Z.leb_le. rewrite val_255. lia.
  - rewrite T. now apply classifySuspiciousArea_above_150.
Qed.

(** X6.  The intensity of a block of 32 by 32 pixels is a number between 0
    and 255 whatever the buffer and the position, and 0 for a block that
    starts at or past the right edge of the image. *)
Theorem block_intensity_between_0_and_255 (data : Buffer) (x y imageWidth : nat) :
  (0 <=? calculateBlockIntensity data x y 32 imageWidth) = true
  /\ (calculateBlockIntensity data x y 32 imageWidth <=? 255) = true
  /\ ((imageWidth <= x)%nat -> calculateBlockIntensity data x y 32 imageWidth = 0).
Proof.
  destruct (calculateBlockIntensity_range data x y imageWidth) as [F B].
  cbn zeta in F, B. split; [|split].
  - rewrite leb_val by auto using finite_zero. apply Z.leb_le. rewrite val_zero. lia.
  - rewrite leb_val by auto using finite_255. apply Z.leb_le. rewrite val_255. lia.
  - intros Hw. unfold calculateBlockIntensity.
    assert (E : forall (pixels : list (nat * nat)) (st : float * nat),
               Forall (fun p => (x <= fst p)%nat) pixels ->
               fold_left
                 (fun (st : float * nat) (p : nat * nat) =>
                    let '(totalIntensity, count) := st in
                    let '(x, y) := p in
                    if Nat.ltb x imageWidth
                       && Nat.ltb (y * imageWidth + x) (List.length data)
                    then (totalIntensity + Buffer_get data (y * imageWidth + x), S count)
                    else st)
                 pixels st = st).
    { induction pixels as [|[px py] l IH]; intros [t c] HA; cbn [fold_left];
        [reflexivity|].
      inversion HA as [|? ? Hp Hl]; subst. cbn [fst] in Hp.
      rewrite (proj2 (Nat.ltb_ge px imageWidth)) by lia. cbn [andb]. now apply IH. }
    rewrite E; [reflexivity|].
    apply Forall_forall. intros [px py] Hin. cbn [fst].
    unfold blockPixels in Hin. apply in_flat_map in Hin.
    destruct Hin as (y' & _ & Hin). apply in_map_iff in Hin.
    destruct Hin as (x' & Hx' & Hin). injection Hx' as <- _.
    apply in_seq in Hin. lia.
Qed.

End AreaTypes.

Lemma suspicious_areas_are_medium_or_high_witness :
  (151 <=? area_intensity whiteRowMerged)%float = true
  /\ (area_intensity whiteRowMerged <=? 255)%float = true
  /\ (area_type whiteRowMerged = high_manipulation
      \/ area_type whiteRowMerged = medium_manipulation).
Proof.
  apply (suspicious_areas_are_medium_or_high
           config "doc_ela.jpg"%string whiteRow whiteRowInfo whiteRowMerged).
  - vm_compute. reflexivity.
  - vm_compute. reflexivity.
  - vm_compute. left. reflexivity.
Defined.

Lemma block_intensity_between_0_and_255_witness :
  calculateBlockIntensity whiteRow 64 0 32 64 = 0%float.
Proof.
  apply (proj2 (proj2 (block_intensity_between_0_and_255 whiteRow 64 0 64))).
  apply Nat.le_refl.
Defined.

(* ================================================================== *)
(** * The merge pass: accounting and the case of no neighbours *)
(* ================================================================== *)

Section MergeAccountingProof.
Variable areas : list SuspiciousArea.

Lemma processed_has_In processed i :
  processed_has processed i = true <-> In i processed.
Proof.
  unfold processed_has. rewrite existsb_exists. split.
  - intros (j & Hj & E). apply Nat.eqb_eq in E. now subst.
  - intros H. exists i. split; [exact H | apply Nat.eqb_refl].
Qed.

Lemma absorb_step area group processed j :
  absorb areas area (group, processed) j = (group, processed)
  \/ exists other,
       absorb areas area (group, processed) j = (group ++ [other], j :: processed)
       /\ ~ In j processed /\ (j < List.length areas)%nat.
Proof.
  unfold absorb.
  destruct (processed_has processed j) eqn:P; [now left|].
  destruct (nth_error areas j) as [other|] eqn:E; [|now left].
  destruct (areAreasNearby area other 50); [|now left].
  right. exists other. repeat split.
  - intros H. apply processed_has_In in H. congruence.
  - apply nth_error_Some. congruence.
Qed.

(** The inner loop adds to [group] one area for each index it adds to
    [processed], and keeps [processed] free of repetitions. *)
Lemma absorb_fold_accounting area js : forall group processed,
  NoDup processed ->
  Forall (fun i => (i < List.length areas)%nat) processed ->
  forall st, st = fold_left (absorb areas area) js (group, processed) ->
  NoDup (snd st)
  /\ Forall (fun i => (i < List.length areas)%nat) (snd st)
  /\ incl processed (snd st)
  /\ (List.length (fst st) + List.length processed
      = List.length group + List.length (snd st))%nat.
Proof.
  induction js as [|j js IH]; intros group processed ND HB st ->; cbn [fold_left].
  - cbn [fst snd]. repeat split; auto. apply incl_refl.
  - destruct (absorb_step area group processed j) as [-> | (other & -> & Hj & Hlt)].
    + now apply (IH group processed).
    + destruct (IH (group ++ [other]) (j :: processed)
                   ltac:(now constructor) ltac:(now constructor) _ eq_refl)
        as (I1 & I2 & I3 & I4).
      repeat split; auto.
      * intros i Hi. apply I3. now right.
      * rewrite length_app in I4. cbn [List.length] in I4. lia.
Qed.

Lemma mergeStep_eq merged processed i :
  mergeStep areas (merged, processed) i
  = if processed_has processed i then (merged, processed)
    else match nth_error areas i with
         | Some area =>
             let st := fold_left (absorb areas area)
                                 (seq (S i) (List.length areas - S i))
                                 ([area], i :: processed) in
             (merged ++ [if Nat.ltb 1 (List.length (fst st))
                         then mergeAreaGroup (fst st) else area],
              snd st)
         | None => (merged, processed)
         end.
Proof.
  unfold mergeStep. destruct (processed_has processed i); [reflexivity|].
  destruct (nth_error areas i) as [area|]; [|reflexivity].
  destruct (fold_left _ _ _). reflexivity.
Qed.

(** The outer loop: the areas pushed so far stand for as many blocks as
    there are indices in [processed]. *)
Lemma mergeStep_fold_accounting len : forall start merged processed,
  Forall (fun a => area_mergedCount a = None) areas ->
  (start + len <= List.length areas)%nat ->
  NoDup processed ->
  Forall (fun i => (i < List.length areas)%nat) processed ->
  (forall i, (i < start)%nat -> In i processed) ->
  list_sum (map blocksOf merged) = List.length processed ->
  forall st, st = fold_left (mergeStep areas) (seq start len) (merged, processed) ->
  NoDup (snd st)
  /\ Forall (fun i => (i < List.length areas)%nat) (snd st)
  /\ (forall i, (i < start + len)%nat -> In i (snd st))
  /\ list_sum (map blocksOf (fst st)) = List.length (snd st).
Proof.
  induction len as [|len IH]; intros start merged processed HN Hlen ND HB HA HS st ->;
    cbn [seq fold_left].
  - cbn [fst snd]. repeat split; auto. intros i Hi. apply HA. lia.
  - replace (start + S len)%nat with (S start + len)%nat by lia.
    rewrite mergeStep_eq.
    destruct (processed_has processed start) eqn:P.
    { apply (IH (S start) merged processed); auto; try lia. intros i Hi.
      destruct (Nat.eq_dec i start) as [-> | Hne];
        [now apply processed_has_In | apply HA; lia]. }
    destruct (nth_error areas start) as [area|] eqn:E.
    2:{ apply nth_error_None in E. lia. }
    assert (Hs : ~ In start processed).
    { intros H. apply processed_has_In in H. congruence. }
    assert (ND' : NoDup (start :: processed)) by now constructor.
    assert (HB' : Forall (fun i => (i < List.length areas)%nat) (start :: processed))
      by (constructor; auto; lia).
    pose proof (absorb_fold_accounting area
                  (seq (S start) (List.length areas - S start))
                  [area] (start :: processed) ND' HB' _ eq_refl) as HI.
    cbn zeta.
    destruct (fold_left (absorb areas area)
                        (seq (S start) (List.length areas - S start))
                        ([area], start :: processed)) as [group processed'].
    cbn [fst snd List.length] in HI |- *.
    destruct HI as (I1 & I2 & I3 & I4).
    match goal with
    | |- context [fold_left (mergeStep areas) _ (?m, processed')] =>
        apply (IH (S start) m processed'); auto; try lia
    end.
    + intros i Hi. apply I3.
      destruct (Nat.eq_dec i start) as [-> | Hne]; [now left | right; apply HA; lia].
    + rewrite map_app, list_sum_app. cbn [map list_sum fold_right].
      destruct (Nat.ltb 1 (List.length group)) eqn:C.
      * change (blocksOf (mergeAreaGroup group)) with (List.length group). lia.
      * apply Nat.ltb_ge in C.
        assert (Hin : In area areas) by (eapply nth_error_In; eauto).
        eapply Forall_forall in HN; [|exact Hin].
        assert (B1 : blocksOf area = 1%nat) by (unfold blocksOf; now rewrite HN).
        pose proof (NoDup_incl_length ND' I3) as Hle. cbn [List.length] in Hle.
        rewrite B1. lia.
Qed.

(** Indices without repetition that cover [0 .. n-1] and stay below [n]
    are [n] in number. *)
Lemma covering_indices_length (n : nat) (processed : list nat) :
  NoDup processed ->
  Forall (fun i => (i < n)%nat) processed ->
  (forall i, (i < n)%nat -> In i processed) ->
  List.length processed = n.
Proof.
  intros ND HB HA.
  assert (H1 : (List.length processed <= List.length (seq 0 n))%nat).
  { apply NoDup_incl_length; auto.
    intros i Hi. apply in_seq. eapply Forall_forall in HB; eauto. lia. }
  assert (H2 : (List.length (seq 0 n) <= List.length processed)%nat).
  { apply NoDup_incl_length; [apply seq_NoDup|].
    intros i Hi. apply in_seq in Hi. apply HA. lia. }
  rewrite length_seq in H1, H2. lia.
Qed.

Lemma mergePass_accounting :
  Forall (fun a => area_mergedCount a = None) areas ->
  list_sum (map blocksOf (mergePass areas)) = List.length areas.
Proof.
  intros HN. unfold mergePass.
  destruct (mergeStep_fold_accounting (List.length areas) 0 [] [] HN
              (Nat.le_refl _) (NoDup_nil _) (Forall_nil _)
              ltac:(intros i Hi; lia) eq_refl _ eq_refl) as (ND & HB & HA & HS).
  rewrite HS. apply covering_indices_length; auto.
Qed.

(** When no area is near a later one the inner loop changes nothing. *)
Lemma absorb_fold_none area js st :
  (forall j other, In j js -> nth_error areas j = Some other ->
                   areAreasNearby area other 50 = false) ->
  fold_left (absorb areas area) js st = st.
Proof.
  revert st. induction js as [|j js IH]; intros [group processed] H; cbn [fold_left];
    [reflexivity|].
  assert (E : absorb areas area (group, processed) j = (group, processed)).
  { unfold absorb. destruct (processed_has processed j); [reflexivity|].
    destruct (nth_error areas j) as [other|] eqn:N; [|reflexivity].
    rewrite (H j other); auto. now left. }
  rewrite E. apply IH. intros j' other Hj. apply H. now right.
Qed.

Lemma mergeStep_fold_none len : forall start merged processed,
  noneNearby areas ->
  (start + len = List.length areas)%nat ->
  Forall (fun i => (i < start)%nat) processed ->
  fst (fold_left (mergeStep areas) (seq start len) (merged, processed))
  = merged ++ skipn start areas.
Proof.
  induction len as [|len IH]; intros start merged processed HN Hlen HB;
    cbn [seq fold_left].
  - cbn [fst]. rewrite skipn_all2 by lia. now rewrite app_nil_r.
  - rewrite mergeStep_eq.
    assert (P : processed_has processed start = false).
    { apply not_true_is_false. intros H. apply processed_has_In in H.
      eapply Forall_forall in HB; eauto. lia. }
    rewrite P.
    destruct (nth_error areas start) as [area|] eqn:E.
    2:{ apply nth_error_None in E. lia. }
    cbn zeta. rewrite absorb_fold_none.
    2:{ intros j other Hj Ho. apply in_seq in Hj. apply (HN start j); auto. lia. }
    cbn [fst snd List.length Nat.ltb Nat.leb].
    rewrite (IH (S start)); auto; try lia.
    + rewrite <- app_assoc. f_equal. cbn [app].
      clear - E. revert start E.
      induction areas as [|a l IHl]; intros [|start] E; cbn in *; try discriminate.
      * now injection E as ->.
      * now apply IHl.
    + constructor; [lia|]. eapply Forall_impl; [|exact HB]. cbn. intros. lia.
Qed.

Lemma mergePass_none : noneNearby areas -> mergePass areas = areas.
Proof.
  intros HN. unfold mergePass.
  now rewrite (mergeStep_fold_none (List.length areas) 0 [] []).
Qed.

End MergeAccountingProof.

Section MergeAccountingTheorems.
Local Open Scope string_scope.

Lemma list_sum_firstn_le {A} (f : A -> nat) (n : nat) (l : list A) :
  (list_sum (map f (firstn n l)) <= list_sum (map f l))%nat.
Proof.
  rewrite <- (firstn_skipn n l) at 2. rewrite map_app, list_sum_app. lia.
Qed.

(** X8.  The merge pass accounts for every flagged block exactly once: the
    areas it produces stand together for as many blocks as were flagged
    (an unmerged area for one, a merged area for its [mergedCount]).
    What [detectSuspiciousAreas] returns therefore stands for no more
    blocks than were flagged, and for all of them when the merge pass
    produced at most twenty areas. *)
Theorem merge_accounts_for_every_flagged_block cfg path data info :
  path <> "" ->
  list_sum (map blocksOf (mergePass (flaggedBlocks cfg data info)))
  = List.length (flaggedBlocks cfg data info)
  /\ (list_sum (map blocksOf (detectSuspiciousAreas cfg path (Resolved (data, info))))
      <= List.length (flaggedBlocks cfg data info))%nat
  /\ ((List.length (mergePass (flaggedBlocks cfg data info)) <= 20)%nat ->
      list_sum (map blocksOf (detectSuspiciousAreas cfg path (Resolved (data, info))))
      = List.length (flaggedBlocks cfg data info)).
Proof.
  intros Hp.
  assert (E : list_sum (map blocksOf (mergePass (flaggedBlocks cfg data info)))
              = List.length (flaggedBlocks cfg data info)).
  { apply mergePass_accounting. apply Forall_forall. intros a Ha.
    now destruct (flaggedBlocks_spec _ _ _ _ Ha). }
  unfold detectSuspiciousAreas. apply String.eqb_neq in Hp. rewrite Hp.
  unfold mergeSuspiciousAreas. split; [exact E|]. split.
  - rewrite <- E. apply list_sum_firstn_le.
  - intros H20. rewrite firstn_all2 by exact H20. exact E.
Qed.

(** X9.  When no area is near a later one, [mergeSuspiciousAreas] returns
    the first twenty areas as they are, in order. *)
Theorem far_apart_areas_are_returned_unmerged (areas : list SuspiciousArea) :
  noneNearby areas -> mergeSuspiciousAreas areas = firstn 20 areas.
Proof.
  intros H. unfold mergeSuspiciousAreas. now rewrite mergePass_none.
Qed.

End MergeAccountingTheorems.

Lemma merge_accounts_for_every_flagged_block_witness :
  list_sum (map blocksOf (detectSuspiciousAreas config "doc_ela.jpg"
                                                (Resolved (whiteRow, whiteRowInfo))))
  = List.length (flaggedBlocks config whiteRow whiteRowInfo).
Proof.
  apply (proj2 (proj2 (merge_accounts_for_every_flagged_block
                         config "doc_ela.jpg"%string whiteRow whiteRowInfo
                         ltac:(discriminate)))).
  vm_compute. repeat constructor.
Defined.

Lemma far_apart_areas_are_returned_unmerged_witness :
  mergeSuspiciousAreas (farBlocks 3) = firstn 20 (farBlocks 3).
Proof.
  apply (far_apart_areas_are_returned_unmerged (farBlocks 3)).
  intros i j a b Hij Ha Hb.
  destruct i as [|[|[|i]]]; destruct j as [|[|[|j]]];
    cbn in Ha, Hb; try discriminate; try lia;
    try (destruct i; discriminate); try (destruct j; discriminate);
    injection Ha as <-; injection Hb as <-; vm_compute; reflexivity.
Defined.

(* ================================================================== *)
(** * Error-level analysis: extremes, anomalies and the output path *)
(* ================================================================== *)

Section ElaExtremes.
Local Open Scope Z_scope.
Local Open Scope float_scope.

Lemma finite_not_nan x : finite x -> is_nan x = false.
Proof.
  intros F. apply not_true_is_false. intros N. apply is_nan_spec in N.
  unfold finite in F. rewrite N in F. discriminate F.
Qed.

(** [Math.max] and [Math.min] of two integers below [2^53]. *)
Lemma Math_max_integers (m n : Z) :
  (0 <= m < 2 ^ 53)%Z -> (0 <= n < 2 ^ 53)%Z ->
  Math_max (Number_of_Z m) (Number_of_Z n) = Number_of_Z (Z.max m n).
Proof.
  intros Hm Hn. pose proof K_pos as HK.
  destruct (Number_exact m Hm) as [Fm Vm]. destruct (Number_exact n Hn) as [Fn Vn].
  unfold Math_max. rewrite !finite_not_nan by auto. cbn [orb].
  rewrite !ltb_val by auto. rewrite Vm, Vn.
  destruct (Z.ltb_spec (m * K) (n * K)) as [L | L].
  - f_equal. nia.
  - destruct (Z.ltb_spec (n * K) (m * K)) as [L' | L'].
    + f_equal. nia.
    + assert (m = n) by nia. subst n. rewrite Z.max_id. now destruct (get_sign _).
Qed.

Lemma Math_min_integers (m n : Z) :
  (0 <= m < 2 ^ 53)%Z -> (0 <= n < 2 ^ 53)%Z ->
  Math_min (Number_of_Z m) (Number_of_Z n) = Number_of_Z (Z.min m n).
Proof.
  intros Hm Hn. pose proof K_pos as HK.
  destruct (Number_exact m Hm) as [Fm Vm]. destruct (Number_exact n Hn) as [Fn Vn].
  unfold Math_min. rewrite !finite_not_nan by auto. cbn [orb].
  rewrite !ltb_val by auto. rewrite Vm, Vn.
  destruct (Z.ltb_spec (m * K) (n * K)) as [L | L].
  - f_equal. nia.
  - destruct (Z.ltb_spec (n * K) (m * K)) as [L' | L'].
    + f_equal. nia.
    + assert (m = n) by nia. subst n. rewrite Z.min_id. now destruct (get_sign _).
Qed.

Lemma byte_range (b : byte) : (0 <= Z.of_N (Byte.to_N b) <= 255)%Z.
Proof. pose proof (Byte.to_N_bounded b). lia. Qed.

Lemma extremes_fold (pixels : Buffer) : forall (sum : float) (m n : Z),
  (0 <= m <= 255)%Z -> (0 <= n <= 255)%Z ->
  let st :=
    fold_left
      (fun (st : float * float * float) (b : byte) =>
         let '(sum, max, min) := st in
         let value := Number_of_byte b in
         (sum + value, Math_max max value, Math_min min value))
      pixels (sum, Number_of_Z m, Number_of_Z n) in
  snd (fst st)
  = Number_of_Z (fold_left (fun m b => Z.max m (Z.of_N (Byte.to_N b))) pixels m)
  /\ snd st
     = Number_of_Z (fold_left (fun m b => Z.min m (Z.of_N (Byte.to_N b))) pixels n).
Proof.
  induction pixels as [|b l IH]; intros sum m n Hm Hn; cbn [fold_left].
  - cbn. auto.
  - pose proof (byte_range b) as Hb.
    assert (B53 : (255 < 2 ^ 53)%Z) by reflexivity.
    unfold Number_of_byte.
    rewrite Math_max_integers, Math_min_integers by lia.
    apply IH; lia.
Qed.

Lemma max_fold_ge (pixels : Buffer) (m : Z) :
  (m <= fold_left (fun m b => Z.max m (Z.of_N (Byte.to_N b))) pixels m)%Z.
Proof.
  revert m. induction pixels as [|c l IH]; intros m; cbn [fold_left]; [lia|].
  specialize (IH (Z.max m (Z.of_N (Byte.to_N c)))). lia.
Qed.

Lemma maxSample_ge (pixels : Buffer) (b : byte) :
  In b pixels -> (Z.of_N (Byte.to_N b) <= maxSample pixels)%Z.
Proof.
  unfold maxSample. generalize 0%Z.
  induction pixels as [|c l IH]; intros m0 H; [contradiction|].
  cbn [fold_left]. destruct H as [-> | H].
  - pose proof (max_fold_ge l (Z.max m0 (Z.of_N (Byte.to_N b)))). lia.
  - now apply IH.
Qed.

Lemma maxSample_range (pixels : Buffer) : (0 <= maxSample pixels <= 255)%Z.
Proof.
  unfold maxSample.
  assert (H : forall m, (0 <= m <= 255)%Z ->
            (0 <= fold_left (fun m b => Z.max m (Z.of_N (Byte.to_N b))) pixels m <= 255)%Z).
  { induction pixels as [|c l IH]; intros m Hm; cbn [fold_left]; [exact Hm|].
    apply IH. pose proof (byte_range c). lia. }
  apply H. lia.
Qed.

(** X10.  [maxIntensity] and [minIntensity] are the largest and the
    smallest sample of the buffer, 0 and 255 when it is empty. *)
Theorem ela_extremes_are_the_extreme_samples (pixels : Buffer) :
  maxIntensity (analyzeELAStatistics pixels) = Number_of_Z (maxSample pixels)
  /\ minIntensity (analyzeELAStatistics pixels) = Number_of_Z (minSample pixels).
Proof.
  pose proof (extremes_fold pixels 0 0 255 ltac:(lia) ltac:(lia)) as H.
  cbn zeta in H. unfold analyzeELAStatistics, maxSample, minSample.
  change (Number_of_Z 0) with 0 in H. change (Number_of_Z 255) with 255 in H.
  destruct (fold_left _ pixels (0, 0, 255)) as [[sum max] min].
  cbn [fst snd maxIntensity minIntensity] in *. exact H.
Qed.

Lemma ela_extremes_max (pixels : Buffer) :
  finite (maxIntensity (analyzeELAStatistics pixels))
  /\ val (maxIntensity (analyzeELAStatistics pixels)) = (maxSample pixels * K)%Z.
Proof.
  pose proof (extremes_fold pixels 0 0 255 ltac:(lia) ltac:(lia)) as H.
  cbn zeta in H. destruct H as [H _].
  change (Number_of_Z 0) with 0 in H. change (Number_of_Z 255) with 255 in H.
  unfold analyzeELAStatistics.
  destruct (fold_left _ pixels (0, 0, 255)) as [[sum max] min].
  cbn [fst snd maxIntensity] in *. rewrite H.
  pose proof (maxSample_range pixels).
  apply Number_exact. split; [lia|].
  apply Z.le_lt_trans with 255%Z; [lia | reflexivity].
Qed.

End ElaExtremes.

Section ElaAnomalies.
Local Open Scope Z_scope.
Local Open Scope float_scope.

Lemma performELA_resolved path (w : ElaWorld) ela :
  performELA path w = Resolved ela ->
  exists data info,
    elaRaw w = Resolved (data, info)
    /\ ela = {| elaImagePath := elaOutputPath path;
                statistics := analyzeELAStatistics data;
                hasAnomalies :=
                  gt (maxIntensity (analyzeELAStatistics data)) 50
                  || gt (ela_variance (analyzeELAStatistics data)) 1000 |}.
Proof.
  unfold performELA.
  destruct (reencode w); [|discriminate].
  destruct (reencodeAgain w); [|discriminate].
  destruct (calculateImageDifference (difference w)); [|discriminate].
  destruct (writeFile w); [|discriminate].
  destruct (elaRaw w) as [[data info]|]; [|discriminate].
  intros H. injection H as <-. exists data, info. auto.
Qed.

(** X11.  One sample above 50 in the decoded ELA image is enough for
    [hasAnomalies]; an empty ELA image never has anomalies. *)
Theorem sample_above_50_is_an_anomaly path (w : ElaWorld) ela data info :
  performELA path w = Resolved ela ->
  elaRaw w = Resolved (data, info) ->
  ((exists b, In b data /\ (50 < Z.of_N (Byte.to_N b))%Z) -> hasAnomalies ela = true)
  /\ (data = [] -> hasAnomalies ela = false).
Proof.
  intros He Hr. destruct (performELA_resolved _ _ _ He) as (data' & info' & Hr' & ->).
  rewrite Hr in Hr'. injection Hr' as <- <-. cbn [hasAnomalies]. split.
  - intros (b & Hb & H50).
    destruct (ela_extremes_max data) as [F V].
    assert (G : gt (maxIntensity (analyzeELAStatistics data)) 50 = true).
    { unfold gt. rewrite ltb_val by (auto; reflexivity). apply Z.ltb_lt.
      rewrite V. pose proof (maxSample_ge data b Hb). pose proof K_pos.
      assert (V50 : val 50 = (50 * K)%Z) by (vm_compute; reflexivity).
      rewrite V50. nia. }
    rewrite G. reflexivity.
  - intros ->. reflexivity.
Qed.

End ElaAnomalies.

Section ElaPath.
Local Open Scope string_scope.

Lemma length_append (s t : string) :
  String.length (s ++ t) = (String.length s + String.length t)%nat.
Proof. induction s as [|c s IH]; cbn; [reflexivity | now rewrite IH]. Qed.

Lemma length_substring_0 (n : nat) (s : string) :
  (n <= String.length s)%nat -> String.length (substring 0 n s) = n.
Proof.
  revert s. induction n as [|n IH]; intros [|c s] H; cbn in *; try lia; try reflexivity.
  rewrite IH; lia.
Qed.

Lemma prefix_substring_0 (n : nat) (s : string) :
  String.prefix (substring 0 n s) s = true.
Proof.
  revert s. induction n as [|n IH]; intros [|c s]; cbn; try reflexivity.
  destruct (ascii_dec c c) as [_ | N]; [apply IH | contradiction].
Qed.

Lemma hasExtension_length ext path :
  hasExtension ext path = true -> (String.length ext <= String.length path)%nat.
Proof.
  unfold hasExtension. intros H. apply andb_true_iff in H. destruct H as [_ H].
  now apply Nat.leb_le.
Qed.

End ElaPath.

Lemma sample_above_50_is_an_anomaly_witness :
  exists ela,
    performELA "doc.jpg" (okElaWorld [x3c; x00]%byte) = Resolved ela
    /\ hasAnomalies ela = true.
Proof.
  eexists. split.
  - vm_compute. reflexivity.
  - apply (proj1 (sample_above_50_is_an_anomaly
                    "doc.jpg"%string (okElaWorld [x3c; x00]%byte) _
                    [x3c; x00]%byte
                    {| info_width := 2; info_height := 1; info_channels := 1 |}
                    eq_refl eq_refl)).
    exists x3c%byte. split; [now left | reflexivity].
Defined.

(* ================================================================== *)
(** * The edge metrics *)
(* ================================================================== *)

Section EdgeMetrics.
Local Open Scope Z_scope.
Local Open Scope float_scope.

Lemma Number_of_byte_exact (b : byte) :
  finite (Number_of_byte b)
  /\ val (Number_of_byte b) = (Z.of_N (Byte.to_N b) * K)%Z.
Proof.
  unfold Number_of_byte. pose proof (byte_range b).
  apply Number_exact. split; [lia|].
  apply Z.le_lt_trans with 255%Z; [lia | reflexivity].
Qed.

(** The counting loop keeps the total between 51 and 255 times the number
    of edge pixels. *)
Lemma countEdges_total (pixels : Buffer) : forall (c : nat) (t : float),
  finite t ->
  (51 * Z.of_nat c * K <= val t <= 255 * Z.of_nat c * K)%Z ->
  (255 * (Z.of_nat c + Z.of_nat (List.length pixels)) < 2 ^ 53)%Z ->
  let st :=
    fold_left
      (fun (st : nat * float) (b : byte) =>
         let '(edgePixels, totalIntensity) := st in
         if gt (Number_of_byte b) 50
         then (S edgePixels, totalIntensity + Number_of_byte b)
         else st)
      pixels (c, t) in
  finite (snd st)
  /\ (51 * Z.of_nat (fst st) * K <= val (snd st) <= 255 * Z.of_nat (fst st) * K)%Z.
Proof.
  induction pixels as [|b l IH]; intros c t F B Hn; cbn [fold_left List.length] in *.
  - cbn. auto.
  - cbn zeta. rewrite edge_test_byte.
    destruct (Z.ltb_spec 50 (Z.of_N (Byte.to_N b))) as [H50 | H50].
    + destruct (Number_of_byte_exact b) as [Fb Vb]. pose proof (byte_range b) as Rb.
      pose proof K_pos as HK.
      destruct (add_between t (Number_of_byte b)
                            (51 * Z.of_nat c) (255 * Z.of_nat c) 51 255 F Fb B)
        as [Fs Bs]; try lia.
      { rewrite Vb. nia. }
      replace (51 * Z.of_nat c + 51)%Z with (51 * Z.of_nat (S c))%Z in Bs by lia.
      replace (255 * Z.of_nat c + 255)%Z with (255 * Z.of_nat (S c))%Z in Bs by lia.
      apply (IH (S c)); auto. lia.
    + apply (IH c); auto. lia.
Qed.

(** X13.  For a buffer of fewer than [2^53 / 255] pixels that is not empty,
    [edgeRatio] is between 0 and 1, and [averageEdgeIntensity] is 0 when no
    pixel is above 50 and between 51 and 255 otherwise.  For an empty
    buffer [edgeRatio] is NaN and the flag is not set. *)
Theorem edge_metrics_ranges (edgeData : Buffer) :
  (255 * Z.of_nat (List.length edgeData) < 2 ^ 53)%Z ->
  (edgeData <> [] ->
   (0 <=? edgeRatio (analyzeEdgeConsistency edgeData)) = true
   /\ (edgeRatio (analyzeEdgeConsistency edgeData) <=? 1) = true)
  /\ (edgePixelsOf edgeData = 0%nat ->
      averageEdgeIntensity (analyzeEdgeConsistency edgeData) = 0)
  /\ ((0 < edgePixelsOf edgeData)%nat ->
      (51 <=? averageEdgeIntensity (analyzeEdgeConsistency edgeData)) = true
      /\ (averageEdgeIntensity (analyzeEdgeConsistency edgeData) <=? 255) = true)
  /\ (edgeData = [] ->
      is_nan (edgeRatio (analyzeEdgeConsistency edgeData)) = true
      /\ hasInconsistentEdges (analyzeEdges (Resolved edgeData)) = false).
Proof.
  intros Hn. pose proof K_pos as HK. pose proof (edgePixelsOf_le edgeData) as Hle.
  assert (H53 : (Z.of_nat (List.length edgeData) < 2 ^ 53)%Z) by lia.
  split; [|split; [|split]].
  - intros Hne. rewrite edgeRatio_counts.
    assert (Hlen : (0 < Z.of_nat (List.length edgeData))%Z).
    { destruct edgeData; [contradiction | cbn [List.length]; lia]. }
    destruct (Number_of_nat_exact (edgePixelsOf edgeData)) as [Fe Ve]; [lia|].
    destruct (Number_of_nat_exact (List.length edgeData)) as [Fn Vn]; [lia|].
    split.
    + apply div_lo; auto using finite_zero; rewrite ?Ve, ?Vn, ?val_zero; nia.
    + apply div_hi; auto using finite_one; rewrite ?Ve, ?Vn, ?val_one; nia.
  - intros H0. unfold analyzeEdgeConsistency.
    pose proof (countEdges_edgePixelsOf edgeData) as E. rewrite H0 in E.
    destruct (countEdges edgeData) as [e t]. cbn [fst] in E. subst e. reflexivity.
  - intros Hpos. unfold analyzeEdgeConsistency.
    pose proof (countEdges_edgePixelsOf edgeData) as E.
    pose proof (countEdges_total edgeData 0%nat 0 finite_zero) as T.
    cbn zeta in T. fold (countEdges edgeData) in T.
    destruct T as [Ft Bt].
    { rewrite val_zero. lia. }
    { cbn [Z.of_nat Z.add]. exact Hn. }
    destruct (countEdges edgeData) as [e t]. cbn [fst snd] in *. subst e.
    cbn [averageEdgeIntensity].
    rewrite (proj2 (Nat.ltb_lt 0 (edgePixelsOf edgeData)) Hpos).
    destruct (Number_of_nat_exact (edgePixelsOf edgeData)) as [Fe Ve]; [lia|].
    assert (V51 : val 51 = (51 * K)%Z) by (vm_compute; reflexivity).
    assert (F51 : finite 51) by reflexivity.
    split.
    + apply div_lo; auto; rewrite ?Ve, ?V51; nia.
    + apply div_hi; auto using finite_255; rewrite ?Ve, ?val_255; nia.
  - intros ->. split; reflexivity.
Qed.

End EdgeMetrics.

Lemma edge_metrics_ranges_witness :
  (51 <=? averageEdgeIntensity (analyzeEdgeConsistency twoOfFive))%float = true
  /\ (averageEdgeIntensity (analyzeEdgeConsistency twoOfFive) <=? 255)%float = true.
Proof.
  apply (proj1 (proj2 (proj2 (edge_metrics_ranges twoOfFive ltac:(reflexivity))))).
  cbn. lia.
Defined.

(* ================================================================== *)
(** * Binary64 rounding: products of numbers that are not negative *)
(* ================================================================== *)

Section Products.
Local Open Scope Z_scope.

(** The exponent of an exact product is never above the exponent the
    format gives it. *)
Lemma mul_exponent (mx my : positive) (ex ey : Z) :
  canon (Zpos mx) ex -> canon (Zpos my) ey ->
  ex + ey <= fexp prec emax (Zdigits2 (Zpos (mx * my)) + (ex + ey)).
Proof.
  intros [A1 A2 A3 A4 A5] [B1 B2 B3 B4 B5]. rewrite fexp_eq.
  destruct (Z.eq_dec ex (-1074)) as [Ex | Ex];
    [destruct (Z.eq_dec ey (-1074)) as [Ey | Ey]; [lia|] |].
  - assert (Hm : 2 ^ 52 <= Zpos my) by (apply B5; lia).
    pose proof (Zdigits2_bounds (Zpos (mx * my)) ltac:(lia)) as [_ Hd].
    assert (Hp : 2 ^ 52 <= Zpos (mx * my)) by (rewrite Pos2Z.inj_mul; nia).
    assert (52 < Zdigits2 (Zpos (mx * my))).
    { apply (Z.pow_lt_mono_r_iff 2); try lia.
      pose proof (Zdigits2_nonneg (Zpos (mx * my))). lia. }
    lia.
  - assert (Hm : 2 ^ 52 <= Zpos mx) by (apply A5; lia).
    pose proof (Zdigits2_bounds (Zpos (mx * my)) ltac:(lia)) as [_ Hd].
    assert (Hp : 2 ^ 52 <= Zpos (mx * my)) by (rewrite Pos2Z.inj_mul; nia).
    assert (52 < Zdigits2 (Zpos (mx * my))).
    { apply (Z.pow_lt_mono_r_iff 2); try lia.
      pose proof (Zdigits2_nonneg (Zpos (mx * my))). lia. }
    lia.
Qed.

Lemma mul_scale (mx my : positive) (ex ey e' : Z) (vt : Z) :
  -1074 <= ex -> -1074 <= ey -> ex + ey <= e' -> -1074 <= e' ->
  (vt * 2 ^ 1074 <= V (Zpos mx) ex * V (Zpos my) ey <->
   vt * (2 ^ (e' - (ex + ey)) * 1) <= Zpos (mx * my) * 2 ^ (e' + 1074))
  /\ (V (Zpos mx) ex * V (Zpos my) ey <= vt * 2 ^ 1074 <->
      Zpos (mx * my) * 2 ^ (e' + 1074) <= vt * (2 ^ (e' - (ex + ey)) * 1)).
Proof.
  intros H1 H2 H3 H4. unfold V. rewrite Pos2Z.inj_mul, Z.mul_1_r.
  set (a := e' - (ex + ey)). set (b := e' + 1074).
  assert (Ha : 0 < 2 ^ a) by (apply Z.pow_pos_nonneg; unfold a; lia).
  assert (HK : 0 < 2 ^ 1074) by reflexivity.
  assert (E : 2 ^ (ex + 1074) * 2 ^ (ey + 1074) * 2 ^ a = 2 ^ b * 2 ^ 1074).
  { rewrite <- !Z.pow_add_r by (unfold a, b; lia). f_equal. unfold a, b. lia. }
  remember (2 ^ a) as Pa eqn:EPa. clear EPa.
  remember (2 ^ b) as Pb eqn:EPb. clear EPb.
  remember (2 ^ 1074) as PK eqn:EPK. clear EPK.
  assert (E1 : Zpos mx * 2 ^ (ex + 1074) * (Zpos my * 2 ^ (ey + 1074)) * Pa
               = Zpos mx * Zpos my * Pb * PK).
  { transitivity (Zpos mx * Zpos my * (2 ^ (ex + 1074) * 2 ^ (ey + 1074) * Pa));
      [ring | rewrite E; ring]. }
  remember (Zpos mx * 2 ^ (ex + 1074) * (Zpos my * 2 ^ (ey + 1074))) as L eqn:EL.
  clear EL E.
  remember (Zpos mx * Zpos my * Pb) as R eqn:ER. clear ER.
  split; split; intros H.
  - assert (vt * Pa * PK <= R * PK); [|nia]. rewrite <- E1. nia.
  - assert (vt * PK * Pa <= L * Pa); [|nia]. rewrite E1. nia.
  - assert (R * PK <= vt * Pa * PK); [|nia]. rewrite <- E1. nia.
  - assert (L * Pa <= vt * PK * Pa); [|nia]. rewrite E1. nia.
Qed.

Section Mul.
Variables x y t : spec_float.
Hypothesis Hx : wf x.
Hypothesis Hy : wf y.
Hypothesis Ht : wf t.
Hypothesis Hx0 : 0 <= SV x.
Hypothesis Hy0 : 0 <= SV y.

Lemma SFmul_zero_l s : SV (SFmul prec emax (S754_zero s) y) = 0 /\ wf (SFmul prec emax (S754_zero s) y).
Proof.
  destruct y as [sy | sy | | sy my ey]; try (destruct Hy as [_ F]; discriminate F);
    cbn [SFmul SV]; split; auto using wf_zero.
Qed.

Lemma SFmul_zero_r s : SV (SFmul prec emax x (S754_zero s)) = 0 /\ wf (SFmul prec emax x (S754_zero s)).
Proof.
  destruct x as [sx | sx | | sx mx ex]; try (destruct Hx as [_ F]; discriminate F);
    cbn [SFmul SV]; split; auto using wf_zero.
Qed.

Lemma SFmul_lo : SV t * 2 ^ 1074 <= SV x * SV y -> SFleb t (SFmul prec emax x y) = true.
Proof.
  intros HV. assert (HK : 0 < 2 ^ 1074) by reflexivity.
  destruct x as [sx | sx | | sx mx ex] eqn:Ex; try (destruct Hx as [_ F]; discriminate F).
  { destruct (SFmul_zero_l sx) as [E W].
    rewrite SFleb_SV by auto. apply Z.leb_le. rewrite E. cbn [SV] in HV. lia. }
  destruct y as [sy | sy | | sy my ey] eqn:Ey; try (destruct Hy as [_ F]; discriminate F).
  { cbn [SFmul]. rewrite SFleb_SV by auto using wf_zero. apply Z.leb_le.
    cbn [SV] in *. lia. }
  pose proof (wf_emin _ _ _ Hx) as Hex. pose proof (wf_emin _ _ _ Hy) as Hey.
  pose proof (V_pos (Zpos mx) ex ltac:(lia) Hex) as HVx.
  pose proof (V_pos (Zpos my) ey ltac:(lia) Hey) as HVy.
  destruct sx; [cbn [SV cond_Zopp] in Hx0; lia|].
  destruct sy; [cbn [SV cond_Zopp] in Hy0; lia|].
  cbn [SFmul xorb]. cbn [SV cond_Zopp] in HV.
  pose proof Hx as Cx. apply wf_finite in Cx. pose proof Hy as Cy. apply wf_finite in Cy.
  pose proof (mul_exponent mx my ex ey Cx Cy) as HP.
  apply bra_lo_wf with (N := Zpos (mx * my)) (D := 1); auto; try lia.
  - apply Located_exact. lia.
  - apply (proj1 (mul_scale mx my ex ey _ (SV t) Hex Hey HP
                    ltac:(rewrite fexp_eq; lia))). exact HV.
Qed.

Lemma SFmul_hi : SV x * SV y <= SV t * 2 ^ 1074 -> SFleb (SFmul prec emax x y) t = true.
Proof.
  intros HV. assert (HK : 0 < 2 ^ 1074) by reflexivity.
  destruct x as [sx | sx | | sx mx ex] eqn:Ex; try (destruct Hx as [_ F]; discriminate F).
  { destruct (SFmul_zero_l sx) as [E W].
    rewrite SFleb_SV by auto. apply Z.leb_le. rewrite E. cbn [SV] in HV. lia. }
  destruct y as [sy | sy | | sy my ey] eqn:Ey; try (destruct Hy as [_ F]; discriminate F).
  { cbn [SFmul]. rewrite SFleb_SV by auto using wf_zero. apply Z.leb_le.
    cbn [SV] in *. lia. }
  pose proof (wf_emin _ _ _ Hx) as Hex. pose proof (wf_emin _ _ _ Hy) as Hey.
  pose proof (V_pos (Zpos mx) ex ltac:(lia) Hex) as HVx.
  pose proof (V_pos (Zpos my) ey ltac:(lia) Hey) as HVy.
  destruct sx; [cbn [SV cond_Zopp] in Hx0; lia|].
  destruct sy; [cbn [SV cond_Zopp] in Hy0; lia|].
  cbn [SFmul xorb]. cbn [SV cond_Zopp] in HV.
  pose proof Hx as Cx. apply wf_finite in Cx. pose proof Hy as Cy. apply wf_finite in Cy.
  pose proof (mul_exponent mx my ex ey Cx Cy) as HP.
  apply bra_hi_wf with (N := Zpos (mx * my)) (D := 1); auto; try lia.
  - apply Located_exact. lia.
  - apply (proj2 (mul_scale mx my ex ey _ (SV t) Hex Hey HP
                    ltac:(rewrite fexp_eq; lia))). exact HV.
Qed.

End Mul.
End Products.

Section PrimProducts.
Local Open Scope float_scope.
Variables x y t : float.
Hypothesis Hx : finite x.
Hypothesis Hy : finite y.
Hypothesis Ht : finite t.
Hypothesis Hx0 : (0 <= val x)%Z.
Hypothesis Hy0 : (0 <= val y)%Z.

Lemma mul_lo : (val t * K <= val x * val y)%Z -> (t <=? x * y) = true.
Proof. intros. rewrite leb_spec, mul_spec. apply SFmul_lo; auto using prim_wf. Qed.

Lemma mul_hi : (val x * val y <= val t * K)%Z -> (x * y <=? t) = true.
Proof. intros. rewrite leb_spec, mul_spec. apply SFmul_hi; auto using prim_wf. Qed.

End PrimProducts.

(* ================================================================== *)
(** * The document processor: classification *)
(* ================================================================== *)

Section Classification.
Local Open Scope string_scope.

Lemma prefix_append (sub post : string) : String.prefix sub (sub ++ post) = true.
Proof.
  induction sub as [|c sub IH]; [destruct post; reflexivity|].
  cbn. destruct (ascii_dec c c) as [_ | N]; [exact IH | contradiction].
Qed.

Lemma includes_append (pre sub post : string) :
  includes (pre ++ sub ++ post) sub = true.
Proof.
  induction pre as [|c pre IH].
  - cbn [append]. destruct (sub ++ post) eqn:E; cbn [includes];
      rewrite <- E, prefix_append; reflexivity.
  - cbn [append includes]. rewrite IH. apply orb_true_r.
Qed.

Lemma text_toLowerCase_append (s t : string) :
  text_toLowerCase (s ++ t) = text_toLowerCase s ++ text_toLowerCase t.
Proof. induction s as [|c s IH]; cbn; [reflexivity | now rewrite IH]. Qed.

(** X14.  A text in which the letters [p], [a], [n] follow one another, in
    any letter case and in any place (inside "company", say), is
    classified as an Aadhaar card or as a PAN card, never as an invoice,
    an identity card or a passport, whatever else it contains. *)
Theorem text_with_pan_is_never_an_invoice (pre word post : string)
  (entities : list Entity) :
  text_toLowerCase word = "pan" ->
  classifyDocument (pre ++ word ++ post) entities = aadhaar_card
  \/ classifyDocument (pre ++ word ++ post) entities = pan_card.
Proof.
  intros Hw. unfold classifyDocument.
  rewrite !text_toLowerCase_append, Hw.
  set (lowered := text_toLowerCase pre ++ "pan" ++ text_toLowerCase post).
  assert (P : includes lowered "pan" = true) by apply includes_append.
  destruct (includes lowered "aadhaar" || includes lowered "aadhar"
            || existsb (fun e => EntityType_eqb (ent_type e) AADHAAR_NUMBER) entities);
    [now left|].
  rewrite P, orb_true_r. cbn [orb]. now right.
Qed.

End Classification.

Lemma text_with_pan_is_never_an_invoice_witness :
  classifyDocument "Invoice of Acme Company, total due: Rs. 500" [] = aadhaar_card
  \/ classifyDocument "Invoice of Acme Company, total due: Rs. 500" [] = pan_card.
Proof.
  apply (text_with_pan_is_never_an_invoice
           "Invoice of Acme Com" "pan" "y, total due: Rs. 500" []).
  reflexivity.
Defined.

(* ================================================================== *)
(** * The document processor: OCR quality and confidence *)
(* ================================================================== *)

Section ErrorCount.
Local Open Scope string_scope.

(** A code unit is in at most one of the three classes that the error
    patterns count. *)
Lemma error_classes_disjoint (c : ascii) :
  ((if isOddChar c then 1 else 0) + (if isRegexSpace c then 1 else 0)
   + (if isDigit c then 1 else 0) <= 1)%nat.
Proof. destruct c as [[] [] [] [] [] [] [] []]; vm_compute; lia. Qed.

Lemma countRuns_le (class : ascii -> bool) (k : nat) (s : string) :
  (1 <= k)%nat ->
  forall run,
    (countRuns class k s run
     <= countChars class s + (if Nat.ltb 0 run then 1 else 0))%nat.
Proof.
  intros Hk. induction s as [|c s IH]; intros run; cbn [countRuns countChars].
  - destruct (Nat.leb_spec k run), (Nat.ltb_spec 0 run); lia.
  - destruct (class c).
    + specialize (IH (S run)). cbn [Nat.ltb Nat.leb] in IH. lia.
    + specialize (IH 0%nat). cbn [Nat.ltb Nat.leb] in IH.
      destruct (Nat.leb_spec k run), (Nat.ltb_spec 0 run); lia.
Qed.

Lemma countChars_classes (s : string) :
  (countChars isOddChar s + countChars isRegexSpace s + countChars isDigit s
   <= String.length s)%nat.
Proof.
  induction s as [|c s IH]; cbn [countChars String.length]; [lia|].
  pose proof (error_classes_disjoint c). lia.
Qed.

(** The matches of the three error patterns are at most as many as the
    code units of the text. *)
Lemma errorCount_le (text : string) : (errorCount text <= String.length text)%nat.
Proof.
  unfold errorCount.
  pose proof (countRuns_le isRegexSpace 3 text ltac:(lia) 0) as H1.
  pose proof (countRuns_le isDigit 10 text ltac:(lia) 0) as H2.
  pose proof (countChars_classes text) as H3.
  cbn [Nat.ltb Nat.leb] in H1, H2. lia.
Qed.

End ErrorCount.

Section Quality.
Local Open Scope Z_scope.
Local Open Scope float_scope.

(** [Math.max(a, b)] is one of its arguments when neither is NaN. *)
Lemma Math_max_cases a b :
  is_nan a = false -> is_nan b = false ->
  (Math_max a b = b /\ (a <=? b) = true) \/ (Math_max a b = a /\ (b <=? a) = true).
Proof.
  intros Ha Hb. unfold Math_max. rewrite Ha, Hb. cbn [orb].
  destruct (a <? b) eqn:E1.
  - left. split; auto. now apply ltb_leb.
  - destruct (b <? a) eqn:E2.
    + right. split; auto. now apply ltb_leb.
    + destruct (get_sign a).
      * left. split; auto. now apply ltb_false_leb.
      * right. split; auto. now apply ltb_false_leb.
Qed.

(** A product of two numbers that are not negative, bounded by a finite
    number. *)
Lemma mul_range x y hi :
  finite x -> finite y -> finite hi ->
  (0 <= val x)%Z -> (0 <= val y)%Z -> (val x * val y <= val hi * K)%Z ->
  finite (x * y) /\ (0 <= val (x * y) <= val hi)%Z.
Proof.
  intros Fx Fy Fh Hx Hy Hb.
  destruct (between_val 0 hi (x * y)) as [F [L U]]; auto using finite_zero.
  - apply mul_lo; auto using finite_zero. rewrite val_zero. nia.
  - apply mul_hi; auto.
Qed.

Lemma sub_range x y lo hi :
  finite x -> finite y -> finite lo -> finite hi ->
  (val lo <= val x - val y <= val hi)%Z ->
  finite (x - y) /\ (val lo <= val (x - y) <= val hi)%Z.
Proof.
  intros Fx Fy Fl Fh H.
  apply between_val; auto; [apply sub_lo | apply sub_hi]; auto; lia.
Qed.

Lemma zero_div y : finite y -> (0 < val y)%Z -> 0 / y = 0.
Proof.
  intros F HV. apply Prim2SF_inj. rewrite div_spec.
  unfold finite, val in *. change (Prim2SF 0) with (S754_zero false).
  destruct (Prim2SF y) as [s | s | | s m e]; cbn [SV fin] in *; try lia; try discriminate.
  destruct s; [|reflexivity].
  cbn [cond_Zopp] in HV. unfold V in HV.
  assert (0 <= Zpos m * 2 ^ (e + 1074))%Z by (apply Z.mul_nonneg_nonneg; [lia | apply Z.pow_nonneg; lia]).
  lia.
Qed.

Lemma val_minus_9 : val (-9) = (- 9 * K)%Z. Proof. vm_compute. reflexivity. Qed.

(** The value before [Math.max]: between -9 and 1. *)
Lemma quality_core (c n : nat) :
  (c <= n)%nat -> (0 < n)%nat -> (Z.of_nat n < 2 ^ 53)%Z ->
  finite (1 - Number_of_nat c / Number_of_nat n * 10)
  /\ (val (1 - Number_of_nat c / Number_of_nat n * 10) <= K)%Z.
Proof.
  intros Hc Hn H53. pose proof K_pos as HK.
  destruct (Number_of_nat_exact c ltac:(lia)) as [Fc Vc].
  destruct (Number_of_nat_exact n H53) as [Fn Vn].
  destruct (div_range (Number_of_nat c) (Number_of_nat n) 1) as [Fr Br];
    auto using finite_one; rewrite ?Vc, ?Vn, ?val_one; try nia.
  rewrite val_one in Br.
  destruct (mul_range (Number_of_nat c / Number_of_nat n) 10 10) as [Fm Bm];
    auto; try reflexivity; rewrite ?val_ten; try nia.
  rewrite val_ten in Bm.
  destruct (sub_range 1 (Number_of_nat c / Number_of_nat n * 10) (-9) 1) as [Fs Bs];
    auto using finite_one; try reflexivity.
  { rewrite val_one, val_minus_9. lia. }
  rewrite val_one in Bs. split; [exact Fs | lia].
Qed.

Lemma assessOCRQuality_spec (text : string) :
  (Z.of_nat (String.length text) < 2 ^ 53)%Z ->
  (0.2 <=? assessOCRQuality text) = true
  /\ (assessOCRQuality text <=? 1) = true
  /\ ((String.length text < 10)%nat -> assessOCRQuality text = 0.2)
  /\ ((10 <= String.length text)%nat -> errorCount text = 0%nat ->
      assessOCRQuality text = 1).
Proof.
  intros H53. unfold assessOCRQuality.
  destruct (Nat.ltb_spec (String.length text) 10) as [Hs | Hl].
  - rewrite orb_true_r. repeat split; try reflexivity. intros. lia.
  - assert (E : String.eqb text "" = false).
    { apply String.eqb_neq. intros ->. cbn in Hl. lia. }
    rewrite E. cbn [orb].
    destruct (quality_core (errorCount text) (String.length text)) as [F B];
      auto using errorCount_le; try lia.
    set (d := 1 - Number_of_nat (errorCount text)
                  / Number_of_nat (String.length text) * 10) in *.
    assert (D1 : (d <=? 1) = true).
    { rewrite leb_val by auto using finite_one. apply Z.leb_le. now rewrite val_one. }
    split; [|split; [|split]].
    + destruct (Math_max_cases 0.2 d) as [[-> H] | [-> H]];
        auto using finite_not_nan; reflexivity.
    + destruct (Math_max_cases 0.2 d) as [[-> H] | [-> H]];
        auto using finite_not_nan; reflexivity.
    + intros. lia.
    + intros _ E0. subst d. rewrite E0.
      change (Number_of_nat 0) with 0.
      destruct (Number_of_nat_exact (String.length text) H53) as [Fn Vn].
      rewrite zero_div by (auto; rewrite Vn; pose proof K_pos; nia).
      reflexivity.
Qed.

(** X15.  The OCR quality of a text (of fewer than [2^53] code units) is
    between 0.2 and 1; it is 0.2 for a text shorter than ten code units
    and 1 for a text of ten or more in which no error pattern matches. *)
Theorem ocr_quality_between_0_2_and_1 (text : string) :
  (Z.of_nat (String.length text) < 2 ^ 53)%Z ->
  (0.2 <=? assessOCRQuality text) = true
  /\ (assessOCRQuality text <=? 1) = true
  /\ ((String.length text < 10)%nat -> assessOCRQuality text = 0.2)
  /\ ((10 <= String.length text)%nat -> errorCount text = 0%nat ->
      assessOCRQuality text = 1).
Proof. exact (assessOCRQuality_spec text). Qed.

End Quality.

Lemma ocr_quality_between_0_2_and_1_witness :
  assessOCRQuality "Government of India" = 1%float.
Proof.
  apply (ocr_quality_between_0_2_and_1 "Government of India").
  - reflexivity.
  - cbn. lia.
  - reflexivity.
Defined.

Section Confidence.
Local Open Scope Z_scope.
Local Open Scope float_scope.

Ltac closed_le := apply Z.leb_le; vm_compute; reflexivity.

Lemma add_range2 x y lo hi :
  finite x -> finite y -> finite lo -> finite hi ->
  (val lo <= val x + val y <= val hi)%Z ->
  finite (x + y) /\ (val lo <= val (x + y) <= val hi)%Z.
Proof.
  intros Fx Fy Fl Fh H.
  apply between_val; auto; [apply add_lo | apply add_hi]; auto; lia.
Qed.

Lemma assessOCRQuality_val (text : string) :
  (Z.of_nat (String.length text) < 2 ^ 53)%Z ->
  finite (assessOCRQuality text)
  /\ (val 0.2 <= val (assessOCRQuality text) <= K)%Z.
Proof.
  intros H. destruct (assessOCRQuality_spec text H) as (L & U & _).
  destruct (between_val 0.2 1 (assessOCRQuality text) eq_refl finite_one L U) as [F B].
  rewrite val_one in B. auto.
Qed.

(** The score before the clamp, for an OCR quality between 0.2 and 1. *)
Lemma score_range (q : float) (formatValid forged : bool) :
  finite q -> (val 0.2 <= val q <= K)%Z ->
  let score :=
    0 + q * 0.4 + (if formatValid then 1 else 0.3) * 0.3
    + (if forged then 0.1 else 0.9) * 0.3 in
  finite score
  /\ (val (confidenceFloor formatValid forged) <= val score
      <= val (confidenceCeiling formatValid forged))%Z.
Proof.
  intros Fq Bq. pose proof K_pos as HK.
  assert (P02 : (0 <= val 0.2)%Z) by closed_le.
  assert (P04 : (0 <= val 0.4)%Z) by closed_le.
  assert (C1 : (val 0.08 * K <= val 0.2 * val 0.4)%Z) by closed_le.
  assert (F04 : finite 0.4) by reflexivity.
  assert (F008 : finite 0.08) by reflexivity.
  assert (La : (0.08 <=? q * 0.4) = true).
  { apply mul_lo; auto; try lia.
    apply Z.le_trans with (val 0.2 * val 0.4)%Z; [exact C1 | nia]. }
  assert (Ua : (q * 0.4 <=? 0.4) = true).
  { apply mul_hi; auto; try lia. nia. }
  destruct (between_val 0.08 0.4 (q * 0.4) F008 F04 La Ua) as [Fa Ba].
  assert (H1 : (val 0.08 <= val 0 + val (q * 0.4) <= val 0.4)%Z)
    by (rewrite val_zero; lia).
  destruct (add_range2 0 (q * 0.4) 0.08 0.4 finite_zero Fa F008 F04 H1) as [F1 B1].
  cbn zeta.
  destruct formatValid.
  - assert (H2 : (val 0.3799 <= val (0 + q * 0.4) + val (1 * 0.3) <= val 0.7001)%Z).
    { split.
      - apply Z.le_trans with (val 0.08 + val (1 * 0.3))%Z; [closed_le | lia].
      - apply Z.le_trans with (val 0.4 + val (1 * 0.3))%Z; [lia | closed_le]. }
    destruct (add_range2 (0 + q * 0.4) (1 * 0.3) 0.3799 0.7001
                         F1 eq_refl eq_refl eq_refl H2) as [F2 B2].
    destruct forged; cbn [confidenceFloor confidenceCeiling].
    + apply (add_range2 _ (0.1 * 0.3) 0.4099 0.7301 F2 eq_refl eq_refl eq_refl). split.
      * apply Z.le_trans with (val 0.3799 + val (0.1 * 0.3))%Z; [closed_le | lia].
      * apply Z.le_trans with (val 0.7001 + val (0.1 * 0.3))%Z; [lia | closed_le].
    + apply (add_range2 _ (0.9 * 0.3) 0.6499 0.9701 F2 eq_refl eq_refl eq_refl). split.
      * apply Z.le_trans with (val 0.3799 + val (0.9 * 0.3))%Z; [closed_le | lia].
      * apply Z.le_trans with (val 0.7001 + val (0.9 * 0.3))%Z; [lia | closed_le].
  - assert (H2 : (val 0.1699 <= val (0 + q * 0.4) + val (0.3 * 0.3) <= val 0.4901)%Z).
    { split.
      - apply Z.le_trans with (val 0.08 + val (0.3 * 0.3))%Z; [closed_le | lia].
      - apply Z.le_trans with (val 0.4 + val (0.3 * 0.3))%Z; [lia | closed_le]. }
    destruct (add_range2 (0 + q * 0.4) (0.3 * 0.3) 0.1699 0.4901
                         F1 eq_refl eq_refl eq_refl H2) as [F2 B2].
    destruct forged; cbn [confidenceFloor confidenceCeiling].
    + apply (add_range2 _ (0.1 * 0.3) 0.1999 0.5201 F2 eq_refl eq_refl eq_refl). split.
      * apply Z.le_trans with (val 0.1699 + val (0.1 * 0.3))%Z; [closed_le | lia].
      * apply Z.le_trans with (val 0.4901 + val (0.1 * 0.3))%Z; [lia | closed_le].
    + apply (add_range2 _ (0.9 * 0.3) 0.4399 0.7601 F2 eq_refl eq_refl eq_refl). split.
      * apply Z.le_trans with (val 0.1699 + val (0.9 * 0.3))%Z; [closed_le | lia].
      * apply Z.le_trans with (val 0.4901 + val (0.9 * 0.3))%Z; [lia | closed_le].
Qed.

Lemma finite_confidenceFloor a b : finite (confidenceFloor a b).
Proof. destruct a, b; reflexivity. Qed.

Lemma finite_confidenceCeiling a b : finite (confidenceCeiling a b).
Proof. destruct a, b; reflexivity. Qed.

(** The overall confidence is the score itself, within the range of its
    case. *)
Lemma overall_range (text : string) (fv : FormatValidation) (forged : bool)
  (entities : list Entity) :
  (Z.of_nat (String.length text) < 2 ^ 53)%Z ->
  let c := calculateConfidenceScore text fv forged entities in
  finite (overall c)
  /\ (confidenceFloor (format_isValid fv) forged <=? overall c) = true
  /\ (overall c <=? confidenceCeiling (format_isValid fv) forged) = true
  /\ overall c
     = 0 + assessOCRQuality text * 0.4
       + (if format_isValid fv then 1 else 0.3) * 0.3
       + (if forged then 0.1 else 0.9) * 0.3.
Proof.
  intros H53. destruct (assessOCRQuality_val text H53) as [Fq Bq].
  pose proof (score_range (assessOCRQuality text) (format_isValid fv) forged Fq Bq) as S.
  cbn zeta in *. unfold calculateConfidenceScore. cbn [overall].
  set (score := 0 + assessOCRQuality text * 0.4
                + (if format_isValid fv then 1 else 0.3) * 0.3
                + (if forged then 0.1 else 0.9) * 0.3) in *.
  destruct S as [F [L U]].
  assert (U1 : (score <? 1) = true).
  { apply (leb_ltb_trans _ (confidenceCeiling (format_isValid fv) forged)).
    - rewrite leb_val by auto using finite_confidenceCeiling. now apply Z.leb_le.
    - destruct (format_isValid fv), forged; reflexivity. }
  assert (E : Math_min score 1 = score).
  { destruct (Math_min_cases score 1) as [[E _] | [_ H]];
      auto using finite_not_nan, finite_one.
    apply ltb_leb_false in U1. congruence. }
  rewrite E. repeat split; auto.
  - rewrite leb_val by auto using finite_confidenceFloor. now apply Z.leb_le.
  - rewrite leb_val by auto using finite_confidenceCeiling. now apply Z.leb_le.
Qed.

End Confidence.

Section Decisions.
Local Open Scope Z_scope.
Local Open Scope float_scope.

(** X16.  The overall confidence is the weighted sum itself, never the
    clamp at 1, and lies in the range of its case: 0.65 to 0.97 for a valid
    format and no forgery verdict, 0.41 to 0.73 for a valid format and a
    forgery verdict, 0.44 to 0.76 for an invalid format and no forgery
    verdict, 0.20 to 0.52 for an invalid format and a forgery verdict (each
    bound with a margin of 0.0001). *)
Theorem confidence_range_by_case (text : string) (fv : FormatValidation)
  (forged : bool) (entities : list Entity) :
  (Z.of_nat (String.length text) < 2 ^ 53)%Z ->
  (confidenceFloor (format_isValid fv) forged
   <=? overall (calculateConfidenceScore text fv forged entities)) = true
  /\ (overall (calculateConfidenceScore text fv forged entities)
      <=? confidenceCeiling (format_isValid fv) forged) = true
  /\ overall (calculateConfidenceScore text fv forged entities)
     = 0 + assessOCRQuality text * 0.4
       + (if format_isValid fv then 1 else 0.3) * 0.3
       + (if forged then 0.1 else 0.9) * 0.3.
Proof.
  intros H. destruct (overall_range text fv forged entities H) as (_ & L & U & E).
  auto.
Qed.

(** The risk rating is [low] exactly when the confidence is at least 0.7
    and there is no forgery verdict. *)
Lemma calculateFraudRisk_low (forged : bool) (c : ConfidenceScore) :
  finite (overall c) ->
  (calculateFraudRisk forged c = low
   <-> (0.7 <=? overall c) && negb forged = true).
Proof.
  intros F. pose proof (finite_not_nan _ F) as N.
  unfold calculateFraudRisk, lt. destruct forged; cbn [orb negb].
  - rewrite andb_false_r. split; discriminate.
  - rewrite andb_true_r.
    destruct (0.7 <=? overall c) eqn:G.
    + assert (L7 : (overall c <? 0.7) = false) by now apply leb_ltb_false.
      assert (L5 : (overall c <? 0.5) = false).
      { apply not_true_is_false. intros L5.
        assert (X : (overall c <? 0.7) = true)
          by (apply (ltb_leb_trans _ 0.5); [exact L5 | reflexivity]).
        congruence. }
      rewrite L5, L7. split; reflexivity.
    + assert (L7 : (overall c <? 0.7) = true).
      { destruct (overall c <? 0.7) eqn:L7; [reflexivity|].
        rewrite (ltb_false_leb (overall c) 0.7 N eq_refl L7) in G. discriminate G. }
      rewrite L7. destruct (overall c <? 0.5); split; discriminate.
Qed.

(** Without a forgery verdict and with a valid format the confidence is
    never below 0.5. *)
Lemma genuine_valid_not_below_half (text : string) (fv : FormatValidation)
  (entities : list Entity) :
  (Z.of_nat (String.length text) < 2 ^ 53)%Z ->
  format_isValid fv = true ->
  lt (overall (calculateConfidenceScore text fv false entities)) 0.5 = false.
Proof.
  intros H V. destruct (overall_range text fv false entities H) as (_ & L & _).
  rewrite V in L. cbn [confidenceFloor] in L.
  unfold lt. apply leb_ltb_false. apply (leb_trans _ 0.6499); [reflexivity | exact L].
Qed.

Lemma short_text_confidence (text : string) (fv : FormatValidation)
  (forged : bool) (entities : list Entity) :
  (String.length text < 10)%nat ->
  (0.7 <=? overall (calculateConfidenceScore text fv forged entities)) = false
  /\ calculateFraudRisk forged (calculateConfidenceScore text fv forged entities)
     <> low.
Proof.
  intros H. unfold calculateFraudRisk, calculateConfidenceScore. cbn [overall].
  assert (Q : assessOCRQuality text = 0.2).
  { unfold assessOCRQuality. rewrite (proj2 (Nat.ltb_lt _ _) H).
    now rewrite orb_true_r. }
  rewrite Q. destruct (format_isValid fv), forged; vm_compute; split;
    try reflexivity; discriminate.
Qed.

End Decisions.

Section ProcessDocumentTheorems.
Local Open Scope string_scope.
Variable Date_parse : string -> option Z.

Lemma processDocument_resolved cfg filePath filename (s : Services) d :
  processDocument Date_parse cfg filePath filename s = Resolved d ->
  exists fv,
    doc_confidence d
    = overall (calculateConfidenceScore (doc_extractedText d) fv
                 (isForgery (doc_forgeryAnalysis d)) (doc_entities d))
    /\ doc_isValid d
       = (0.7 <=? doc_confidence d)%float && negb (isForgery (doc_forgeryAnalysis d))
    /\ doc_fraudRisk d
       = calculateFraudRisk (isForgery (doc_forgeryAnalysis d))
           (calculateConfidenceScore (doc_extractedText d) fv
              (isForgery (doc_forgeryAnalysis d)) (doc_entities d))
    /\ bd_formatValidation (doc_confidenceBreakdown d)
       = (if format_isValid fv then 1 else 0.3)%float
    /\ extractText s = Resolved (doc_extractedText d)
    /\ analyzeImage Date_parse cfg filePath (forgeryWorld s)
       = Resolved (doc_forgeryAnalysis d)
    /\ doc_type d = classifyDocument (doc_extractedText d) (doc_entities d).
Proof.
  unfold processDocument.
  destruct (extractText s) as [text|]; [|discriminate].
  destruct (extractEntities s text) as [entities|]; [|discriminate].
  destruct (validateFormat s entities (classifyDocument text entities)) as [fv|];
    [|discriminate].
  destruct (analyzeImage Date_parse cfg filePath (forgeryWorld s)) as [fa|];
    [|discriminate].
  intros H. injection H as <-. exists fv. cbn. repeat split.
Qed.

(** X17.  A document whose extracted text is shorter than ten code units
    is never valid and never rated low risk, whatever the validation
    service and the forgery detector say. *)
Theorem short_text_is_never_valid cfg filePath filename (s : Services) d :
  processDocument Date_parse cfg filePath filename s = Resolved d ->
  (String.length (doc_extractedText d) < 10)%nat ->
  doc_isValid d = false /\ doc_fraudRisk d <> low.
Proof.
  intros H Hs.
  destruct (processDocument_resolved _ _ _ _ _ H) as (fv & Ec & Ev & Er & _).
  destruct (short_text_confidence (doc_extractedText d) fv
              (isForgery (doc_forgeryAnalysis d)) (doc_entities d) Hs) as [A B].
  rewrite Ev, Ec, A, Er. auto.
Qed.

(** X18.  A processed document (with a text of fewer than [2^53] code
    units) is valid exactly when its fraud risk is [low]; with a forgery
    verdict it is not valid and its fraud risk is [high]. *)
Theorem valid_exactly_when_low_risk cfg filePath filename (s : Services) d :
  processDocument Date_parse cfg filePath filename s = Resolved d ->
  (Z.of_nat (String.length (doc_extractedText d)) < 2 ^ 53)%Z ->
  (doc_isValid d = true <-> doc_fraudRisk d = low)
  /\ (isForgery (doc_forgeryAnalysis d) = true ->
      doc_isValid d = false /\ doc_fraudRisk d = high).
Proof.
  intros H H53.
  destruct (processDocument_resolved _ _ _ _ _ H) as (fv & Ec & Ev & Er & _).
  destruct (overall_range (doc_extractedText d) fv (isForgery (doc_forgeryAnalysis d))
                          (doc_entities d) H53) as (F & _).
  cbn zeta in F. split.
  - rewrite Ev, Er, Ec. symmetry. now apply calculateFraudRisk_low.
  - intros Hf. rewrite Ev, Er, Hf. unfold calculateFraudRisk.
    now rewrite andb_false_r.
Qed.

(** X19.  A document is rated [high] risk only with a forgery verdict or
    with a format that fails validation: without a forgery verdict and
    with a valid format the confidence is at least 0.6499. *)
Theorem high_risk_needs_forgery_or_invalid_format cfg filePath filename
  (s : Services) d :
  processDocument Date_parse cfg filePath filename s = Resolved d ->
  (Z.of_nat (String.length (doc_extractedText d)) < 2 ^ 53)%Z ->
  doc_fraudRisk d = high ->
  isForgery (doc_forgeryAnalysis d) = true
  \/ bd_formatValidation (doc_confidenceBreakdown d) = 0.3%float.
Proof.
  intros H H53 Hh.
  destruct (processDocument_resolved _ _ _ _ _ H) as (fv & Ec & Ev & Er & Ef & _).
  destruct (isForgery (doc_forgeryAnalysis d)) eqn:Fg; [now left | right].
  rewrite Ef. destruct (format_isValid fv) eqn:V; [|reflexivity].
  exfalso. rewrite Er in Hh. unfold calculateFraudRisk in Hh.
  rewrite (genuine_valid_not_below_half _ fv (doc_entities d) H53 V) in Hh.
  cbn [orb] in Hh.
  destruct (lt _ 0.7); discriminate Hh.
Qed.

Lemma processDocument_message cfg filePath filename (s : Services) message :
  processDocument Date_parse cfg filePath filename s = Rejected message ->
  message = "Failed to process document with AI".
Proof.
  unfold processDocument.
  destruct (extractText s) as [text|]; [|now intros [= <-]].
  destruct (extractEntities s text) as [entities|]; [|now intros [= <-]].
  destruct (validateFormat s entities (classifyDocument text entities));
    [|now intros [= <-]].
  destruct (analyzeImage Date_parse cfg filePath (forgeryWorld s));
    [discriminate | now intros [= <-]].
Qed.

(** X20.  [processDocument] fails with the one message
    "Failed to process document with AI" whatever went wrong inside, and
    it does fail when the OCR service fails or when the ELA of the forgery
    detector fails. *)
Theorem processDocument_failure cfg filePath filename (s : Services) :
  ((exists message, extractText s = Rejected message)
   \/ (exists message, reencode (elaWorld (forgeryWorld s)) = Rejected message)
   \/ (exists message, reencodeAgain (elaWorld (forgeryWorld s)) = Rejected message)
   \/ diff_exitCode (difference (elaWorld (forgeryWorld s))) <> 0%Z ->
   processDocument Date_parse cfg filePath filename s
   = Rejected "Failed to process document with AI")
  /\ (forall message,
         processDocument Date_parse cfg filePath filename s = Rejected message ->
         message = "Failed to process document with AI").
Proof.
  split.
  - intros [[m E] | H].
    + unfold processDocument. now rewrite E.
    + assert (A : analyzeImage Date_parse cfg filePath (forgeryWorld s)
                  = Rejected "Failed to analyze image for forgery").
      { unfold analyzeImage. now rewrite (performELA_rejects _ _ H). }
      unfold processDocument. rewrite A.
      destruct (extractText s) as [text|]; [|reflexivity].
      destruct (extractEntities s text) as [entities|]; [|reflexivity].
      destruct (validateFormat s entities (classifyDocument text entities));
        reflexivity.
  - intros message. apply processDocument_message.
Qed.

End ProcessDocumentTheorems.

Lemma confidence_range_by_case_witness :
  (0.6499 <=? overall (calculateConfidenceScore "Government of India"
                                                formatAccepted false []))%float = true
  /\ (overall (calculateConfidenceScore "Government of India" formatAccepted false [])
      <=? 0.9701)%float = true.
Proof.
  destruct (confidence_range_by_case "Government of India" formatAccepted false [])
    as (L & U & _).
  - reflexivity.
  - split; [exact L | exact U].
Defined.

Lemma short_text_is_never_valid_witness :
  exists d,
    processDocument Date_parse_none config "doc.jpg" "doc.jpg" servicesPoor = Resolved d
    /\ doc_isValid d = false /\ doc_fraudRisk d <> low.
Proof.
  eexists. split.
  - vm_compute. reflexivity.
  - apply (short_text_is_never_valid Date_parse_none config
             "doc.jpg"%string "doc.jpg"%string servicesPoor).
    + vm_compute. reflexivity.
    + cbn. lia.
Defined.

Lemma valid_exactly_when_low_risk_witness :
  exists d,
    processDocument Date_parse_none config "doc.jpg" "doc.jpg" servicesClean = Resolved d
    /\ (doc_isValid d = true <-> doc_fraudRisk d = low).
Proof.
  eexists. split.
  - vm_compute. reflexivity.
  - apply (valid_exactly_when_low_risk Date_parse_none config
             "doc.jpg"%string "doc.jpg"%string servicesClean).
    + vm_compute. reflexivity.
    + reflexivity.
Defined.

Lemma high_risk_needs_forgery_or_invalid_format_witness :
  exists d,
    processDocument Date_parse_none config "doc.jpg" "doc.jpg" servicesPoor = Resolved d
    /\ (isForgery (doc_forgeryAnalysis d) = true
        \/ bd_formatValidation (doc_confidenceBreakdown d) = 0.3%float).
Proof.
  eexists. split.
  - vm_compute. reflexivity.
  - apply (high_risk_needs_forgery_or_invalid_format Date_parse_none config
             "doc.jpg"%string "doc.jpg"%string servicesPoor).
    + vm_compute. reflexivity.
    + reflexivity.
    + vm_compute. reflexivity.
Defined.

Lemma processDocument_failure_witness :
  processDocument Date_parse_none config "doc.jpg" "doc.jpg" servicesNoText
  = Rejected "Failed to process document with AI".
Proof.
  apply (proj1 (processDocument_failure Date_parse_none config
                  "doc.jpg"%string "doc.jpg"%string servicesNoText)).
  left. eexists. reflexivity.
Defined.

(* ================================================================== *)
(** * The validation routes *)
(* ================================================================== *)

Section UploadNames.
Local Open Scope string_scope.

Lemma sanitizedName_length (name : string) :
  String.length (sanitizedName name) = String.length name.
Proof. induction name as [|c s IH]; cbn; [reflexivity | now rewrite IH]. Qed.

(** Every code unit of the result is a letter, a digit, a dot, a hyphen or
    an underscore. *)
Lemma sanitizedName_chars (name : string) :
  countChars (fun c => negb (isNameChar c || Ascii.eqb c "_"%char))
             (sanitizedName name) = 0%nat.
Proof.
  induction name as [|c s IH]; cbn [sanitizedName countChars]; [reflexivity|].
  rewrite IH. destruct (isNameChar c) eqn:E.
  - rewrite E. reflexivity.
  - reflexivity.
Qed.

Lemma sanitizedName_idempotent (name : string) :
  sanitizedName (sanitizedName name) = sanitizedName name.
Proof.
  induction name as [|c s IH]; cbn [sanitizedName]; [reflexivity|].
  rewrite IH. destruct (isNameChar c) eqn:E; [now rewrite E | reflexivity].
Qed.

Lemma sanitizedName_append (s t : string) :
  sanitizedName (s ++ t) = sanitizedName s ++ sanitizedName t.
Proof. induction s as [|c s IH]; cbn; [reflexivity | now rewrite IH]. Qed.

(** Only name characters change under [toLowerCase]. *)
Lemma toLowerCase_ascii_name (c : ascii) :
  isNameChar c = false -> toLowerCase_ascii c = c.
Proof. destruct c as [[] [] [] [] [] [] [] []]; vm_compute; congruence. Qed.

Lemma toLowerCase_sanitized_char (c e : ascii) :
  isNameChar e = true ->
  (toLowerCase_ascii (if isNameChar c then c else "_"%char) = e
   <-> toLowerCase_ascii c = e).
Proof.
  intros He. destruct (isNameChar c) eqn:E; [reflexivity|].
  rewrite (toLowerCase_ascii_name c E). split; intros H; subst e.
  - vm_compute in He. discriminate He.
  - congruence.
Qed.

(** The lowered text of a sanitized name is a word of name characters
    exactly when that of the name is. *)
Lemma toLowerCase_sanitizedName (ext : string) : forall name : string,
  countChars (fun c => negb (isNameChar c)) ext = 0%nat ->
  (toLowerCase (sanitizedName name) = ext <-> toLowerCase name = ext).
Proof.
  induction ext as [|e ext IH]; intros [|c s] He; cbn [sanitizedName toLowerCase];
    try (split; discriminate); try reflexivity.
  cbn [countChars] in He.
  destruct (isNameChar e) eqn:Ee; cbn [negb] in He; [|discriminate He].
  specialize (IH s He).
  pose proof (toLowerCase_sanitized_char c e Ee) as Hc.
  split; intros H; injection H as H1 H2; f_equal; tauto.
Qed.

Lemma toLowerCase_length (s : string) :
  String.length (toLowerCase s) = String.length s.
Proof. induction s as [|c s IH]; cbn; [reflexivity | now rewrite IH]. Qed.

Lemma substring_0_all (s : string) : substring 0 (String.length s) s = s.
Proof. induction s as [|c s IH]; cbn; [reflexivity | now rewrite IH]. Qed.

Lemma substring_append_r (s t : string) :
  substring (String.length s) (String.length t) (s ++ t) = t.
Proof.
  induction s as [|c s IH]; cbn [String.length append substring].
  - apply substring_0_all.
  - exact IH.
Qed.

Lemma substring_split (i : nat) (s : string) :
  (i <= String.length s)%nat ->
  s = substring 0 i s ++ substring i (String.length s - i) s.
Proof.
  revert i. induction s as [|c s IH]; intros [|i] Hi; cbn in Hi; try lia.
  - reflexivity.
  - cbn [substring append String.length Nat.sub]. now rewrite substring_0_all.
  - cbn [substring append String.length Nat.sub]. f_equal. apply IH. lia.
Qed.

Lemma length_substring (i k : nat) (s : string) :
  (i + k <= String.length s)%nat -> String.length (substring i k s) = k.
Proof.
  revert k s. induction i as [|i IH]; intros k s H.
  - now apply length_substring_0.
  - destruct s as [|c s]; cbn in H; [lia|]. cbn [substring]. apply IH. lia.
Qed.

(** A path has the extension when it ends in a tail that lowers to it. *)
Lemma hasExtension_iff (ext path : string) :
  hasExtension ext path = true
  <-> exists stem tail, path = stem ++ tail /\ toLowerCase tail = ext.
Proof.
  unfold hasExtension. rewrite andb_true_iff, String.eqb_eq, Nat.leb_le. split.
  - intros [E L].
    exists (substring 0 (String.length path - String.length ext) path),
           (substring (String.length path - String.length ext) (String.length ext) path).
    split; [|exact E].
    rewrite (substring_split (String.length path - String.length ext) path) at 1 by lia.
    do 3 f_equal. lia.
  - intros (stem & tail & -> & E).
    assert (Hl : String.length tail = String.length ext).
    { rewrite <- E. symmetry. apply toLowerCase_length. }
    rewrite length_append, <- Hl.
    replace (String.length stem + String.length tail - String.length tail)%nat
      with (String.length stem) by lia.
    rewrite substring_append_r. split; [exact E | lia].
Qed.

Lemma sanitizedName_hasExtension (ext name : string) :
  countChars (fun c => negb (isNameChar c)) ext = 0%nat ->
  hasExtension ext (sanitizedName name) = hasExtension ext name.
Proof.
  intros He. apply eq_true_iff_eq. rewrite !hasExtension_iff. split.
  - intros (stem & tail & E & T).
    assert (Hl : (String.length tail <= String.length name)%nat).
    { rewrite <- (sanitizedName_length name), E, length_append. lia. }
    rewrite (substring_split (String.length name - String.length tail) name) in E by lia.
    rewrite sanitizedName_append in E.
    exists (substring 0 (String.length name - String.length tail) name),
           (substring (String.length name - String.length tail)
                      (String.length name - (String.length name - String.length tail))
                      name).
    split; [apply substring_split; lia|].
    apply (toLowerCase_sanitizedName ext _ He). rewrite <- T. f_equal.
    assert (Hs : String.length
                   (sanitizedName
                      (substring 0 (String.length name - String.length tail) name))
                 = String.length stem).
    { rewrite sanitizedName_length, length_substring_0 by lia.
      apply (f_equal String.length) in E.
      rewrite !length_append, !sanitizedName_length in E.
      rewrite length_substring_0, length_substring in E by lia. lia. }
    clear - E Hs. revert E Hs.
    generalize (sanitizedName
                  (substring 0 (String.length name - String.length tail) name)).
    generalize (sanitizedName
                  (substring (String.length name - String.length tail)
                             (String.length name
                              - (String.length name - String.length tail)) name)).
    intros t' s'. revert stem.
    induction s' as [|c s' IH]; intros [|d stem] E Hs; cbn in *; try lia; auto.
    injection E as _ E. apply (IH stem); auto.
  - intros (stem & tail & -> & T).
    exists (sanitizedName stem), (sanitizedName tail). split.
    + apply sanitizedName_append.
    + now apply (toLowerCase_sanitizedName ext _ He).
Qed.

(** X21.  The sanitized upload name has the length of the original name,
    consists of letters, digits, dots, hyphens and underscores only (so it
    holds no path separator), is left unchanged by a second sanitizing,
    and ends in [.jpg], [.jpeg] or [.png] exactly when the original name
    does. *)
Theorem sanitized_upload_name (originalname : string) :
  String.length (sanitizedName originalname) = String.length originalname
  /\ countChars (fun c => negb (isNameChar c || Ascii.eqb c "_"%char))
                (sanitizedName originalname) = 0%nat
  /\ sanitizedName (sanitizedName originalname) = sanitizedName originalname
  /\ hasImageExtension (sanitizedName originalname) = hasImageExtension originalname.
Proof.
  repeat split.
  - apply sanitizedName_length.
  - apply sanitizedName_chars.
  - apply sanitizedName_idempotent.
  - unfold hasImageExtension.
    rewrite !sanitizedName_hasExtension by reflexivity. reflexivity.
Qed.

End UploadNames.

Section Endpoints.
Local Open Scope string_scope.
Variable Date_parse : string -> option Z.

(** X22.  Whatever fails inside [processDocument], the single-document
    endpoint answers with status 500 and code [PROCESSING_ERROR]: the one
    message of the failure holds none of the words that select 400 or
    408. *)
Theorem processing_failure_is_answered_with_500 cfg filePath filename
  (s : Services) message :
  processDocument Date_parse cfg filePath filename s = Rejected message ->
  errorResponse message = (500%Z, "PROCESSING_ERROR").
Proof.
  intros H. apply processDocument_message in H. subst message. reflexivity.
Qed.

Lemma firstn_add_skipn {A} (a b : nat) (l : list A) :
  firstn (a + b) l = (firstn a l ++ firstn b (skipn a l))%list.
Proof.
  revert l. induction a as [|a IH]; intros l; [reflexivity|].
  destruct l as [|x l]; cbn [Nat.add firstn skipn app].
  - now rewrite firstn_nil.
  - now rewrite IH.
Qed.

Lemma chunks_concat {A} (size : nat) (l : list A) (m : nat) :
  List.concat (map (fun i => firstn size (skipn i l))
              (map (fun k => (k * size)%nat) (seq 0 m)))
  = firstn (m * size) l.
Proof.
  induction m as [|m IH]; [reflexivity|].
  rewrite seq_S, !map_app, concat_app, IH. cbn [map List.concat Nat.add].
  rewrite app_nil_r. cbn [Nat.mul]. rewrite (Nat.add_comm size).
  symmetry. apply firstn_add_skipn.
Qed.

(** The slices, put end to end, are the list. *)
Lemma chunksOf_concat {A} (size : nat) (l : list A) :
  (0 < size)%nat -> List.concat (chunksOf size l) = l.
Proof.
  intros Hs. unfold chunksOf, blockStarts. rewrite chunks_concat.
  apply firstn_all2.
  pose proof (Nat.div_mod_eq (List.length l + size - 1) size) as E.
  pose proof (Nat.mod_upper_bound (List.length l + size - 1) size ltac:(lia)) as U.
  nia.
Qed.

Lemma batchResults_map cfg (files : list Upload) :
  batchResults Date_parse cfg files = map (processUpload Date_parse cfg) files.
Proof.
  unfold batchResults.
  rewrite <- (chunksOf_concat 3 files) at 2 by lia.
  induction (chunksOf 3 files) as [|chunk chunks IH]; cbn [flat_map List.concat map];
    [reflexivity|].
  now rewrite map_app, IH.
Qed.

Lemma filter_partition_length {A} (p : A -> bool) (l : list A) :
  (List.length (filter (fun x => negb (p x)) l) + List.length (filter p l)
   = List.length l)%nat.
Proof.
  induction l as [|x l IH]; cbn [filter List.length]; [reflexivity|].
  destruct (p x); cbn [negb List.length]; lia.
Qed.

Lemma entryError_processUpload cfg (file : Upload) :
  entryError (processUpload Date_parse cfg file)
  = match processDocument Date_parse cfg (upload_path file)
                          (upload_originalname file) (upload_services file) with
    | Resolved _ => false
    | Rejected _ => true
    end.
Proof.
  unfold processUpload.
  destruct (processDocument _ _ _ _ _) as [d | message] eqn:E; [reflexivity|].
  apply processDocument_message in E. subst message. reflexivity.
Qed.

(** X23.  The batch endpoint returns one entry per upload, in upload
    order, whatever the slicing by three; in its summary the successes and
    the failures add up to the total, and the failures are the uploads
    for which [processDocument] failed. *)
Theorem batch_summary_adds_up cfg (files : list Upload) :
  batchResults Date_parse cfg files = map (processUpload Date_parse cfg) files
  /\ (summary_successful (batchSummary Date_parse cfg files)
      + summary_failed (batchSummary Date_parse cfg files)
      = summary_total (batchSummary Date_parse cfg files))%nat
  /\ summary_failed (batchSummary Date_parse cfg files)
     = List.length
         (filter (fun file =>
                    match processDocument Date_parse cfg (upload_path file)
                            (upload_originalname file) (upload_services file) with
                    | Resolved _ => false
                    | Rejected _ => true
                    end)
                 files).
Proof.
  split; [apply batchResults_map|]. unfold batchSummary.
  cbn [summary_successful summary_failed summary_total].
  rewrite batchResults_map. split.
  - rewrite filter_partition_length. apply length_map.
  - induction files as [|f l IH]; cbn [map filter]; [reflexivity|].
    rewrite entryError_processUpload.
    destruct (processDocument _ _ _ _ _); cbn [List.length]; now rewrite IH.
Qed.

End Endpoints.

Lemma processing_failure_is_answered_with_500_witness :
  errorResponse "Failed to process document with AI" = (500%Z, "PROCESSING_ERROR"%string).
Proof.
  apply (processing_failure_is_answered_with_500 Date_parse_none config
           "doc.jpg"%string "doc.jpg"%string servicesNoText).
  reflexivity.
Defined.


(* ================================================================== *)
(** * Nearness of two areas *)
(* ================================================================== *)

Section Nearness.

(** Rounding a magnitude with either sign gives the same square. *)
Lemma square_binary_round (p : positive) (e : Z) :
  SFmul prec emax (binary_round prec emax true p e) (binary_round prec emax true p e)
  = SFmul prec emax (binary_round prec emax false p e) (binary_round prec emax false p e).
Proof.
  unfold binary_round. destruct (shl_align p e (fexp prec emax (Z.pos (digits2_pos p) + e))) as [mz ez].
  unfold binary_round_aux.
  destruct (shr_fexp prec emax (Zpos mz) ez loc_Exact) as [mrs' e'].
  destruct (shr_fexp prec emax _ e' loc_Exact) as [mrs'' e''].
  destruct (shr_m mrs'') as [|m|m]; try reflexivity.
  destruct (e'' <=? emax - prec)%Z; reflexivity.
Qed.

Lemma square_binary_normalize (z e : Z) :
  SFmul prec emax (binary_normalize prec emax (- z) e false)
                  (binary_normalize prec emax (- z) e false)
  = SFmul prec emax (binary_normalize prec emax z e false)
                    (binary_normalize prec emax z e false).
Proof.
  destruct z as [|p|p]; cbn [Z.opp binary_normalize]; try reflexivity.
  - apply square_binary_round.
  - symmetry. apply square_binary_round.
Qed.

(** The square of a difference does not depend on the order of the two
    operands, whatever they are. *)
Lemma square_SFsub (x y : spec_float) :
  SFmul prec emax (SFsub prec emax x y) (SFsub prec emax x y)
  = SFmul prec emax (SFsub prec emax y x) (SFsub prec emax y x).
Proof.
  destruct x as [sx|sx| |sx mx ex], y as [sy|sy| |sy my ey];
    try (destruct sx, sy; reflexivity);
    try (destruct sx; reflexivity);
    try (destruct sy; reflexivity);
    try reflexivity.
  unfold SFsub. rewrite (Z.min_comm ey ex).
  set (a := cond_Zopp sx _). set (b := cond_Zopp sy _).
  replace (b - a)%Z with (- (a - b))%Z by lia.
  symmetry. apply square_binary_normalize.
Qed.

Lemma Math_pow2_sub (a b : float) :
  Math_pow2 (a - b) = Math_pow2 (b - a).
Proof.
  unfold Math_pow2. apply Prim2SF_inj.
  rewrite !mul_spec, !sub_spec. apply square_SFsub.
Qed.

Lemma centerDistance_sym (area1 area2 : SuspiciousArea) :
  centerDistance area1 area2 = centerDistance area2 area1.
Proof.
  unfold centerDistance.
  rewrite (Math_pow2_sub (area_x area2 + area_width area2 / 2)),
          (Math_pow2_sub (area_y area2 + area_height area2 / 2)).
  reflexivity.
Qed.

(** X24.  Nearness is symmetric: [areAreasNearby] gives the same answer
    when its two areas are exchanged, for every threshold and for all
    coordinates, the infinite ones and NaN included.  So whether two
    flagged blocks are merged does not depend on which of them comes first
    in the array. *)
Theorem nearby_is_symmetric (area1 area2 : SuspiciousArea) (threshold : float) :
  areAreasNearby area1 area2 threshold = areAreasNearby area2 area1 threshold.
Proof.
  unfold areAreasNearby. rewrite centerDistance_sym. reflexivity.
Qed.

End Nearness.

(* ================================================================== *)
(** * Suspicious areas lie inside the image *)
(* ================================================================== *)

Section Rectangles.
Local Open Scope Z_scope.
Local Open Scope float_scope.

(** Sums and differences of whole numbers below [2^53] are exact. *)
Lemma Number_add_exact (m n : Z) :
  (0 <= m)%Z -> (0 <= n)%Z -> (m + n < 2 ^ 53)%Z ->
  Number_of_Z m + Number_of_Z n = Number_of_Z (m + n).
Proof.
  intros Hm Hn H. pose proof K_pos as HK.
  destruct (Z.eq_dec (m + n) 0) as [E | E].
  - assert (m = 0%Z) by lia. assert (n = 0%Z) by lia. subst. reflexivity.
  - destruct (Number_exact m ltac:(lia)) as [Fm Vm].
    destruct (Number_exact n ltac:(lia)) as [Fn Vn].
    destruct (Number_exact (m + n) ltac:(lia)) as [Fs Vs].
    apply (leb_antisym (Number_of_Z (m + n))); auto.
    + rewrite Vs. nia.
    + apply add_lo; auto. rewrite Vm, Vn, Vs. lia.
    + apply add_hi; auto. rewrite Vm, Vn, Vs. lia.
Qed.

Lemma Number_sub_exact (m n : Z) :
  (0 <= n)%Z -> (n < m)%Z -> (m < 2 ^ 53)%Z ->
  Number_of_Z m - Number_of_Z n = Number_of_Z (m - n).
Proof.
  intros Hn Hm H. pose proof K_pos as HK.
  destruct (Number_exact m ltac:(lia)) as [Fm Vm].
  destruct (Number_exact n ltac:(lia)) as [Fn Vn].
  destruct (Number_exact (m - n) ltac:(lia)) as [Fs Vs].
  apply (leb_antisym (Number_of_Z (m - n))); auto.
  - rewrite Vs. nia.
  - apply sub_lo; auto. rewrite Vm, Vn, Vs. lia.
  - apply sub_hi; auto. rewrite Vm, Vn, Vs. lia.
Qed.

Lemma Number_of_nat_add (m n : nat) :
  (Z.of_nat (m + n) < 2 ^ 53)%Z ->
  Number_of_nat m + Number_of_nat n = Number_of_nat (m + n).
Proof.
  intros H. unfold Number_of_nat.
  rewrite Number_add_exact by lia. now rewrite Nat2Z.inj_add.
Qed.

Lemma Number_of_nat_sub (m n : nat) :
  (n < m)%nat -> (Z.of_nat m < 2 ^ 53)%Z ->
  Number_of_nat m - Number_of_nat n = Number_of_nat (m - n).
Proof.
  intros L H. unfold Number_of_nat.
  rewrite Number_sub_exact by lia. f_equal. lia.
Qed.

(** The starts of the blocks lie inside the side they divide. *)
Lemma blockStarts_lt (n blockSize v : nat) :
  (0 < blockSize)%nat -> In v (blockStarts n blockSize) -> (v < n)%nat.
Proof.
  intros Hb H. unfold blockStarts in H. apply in_map_iff in H.
  destruct H as (k & <- & H). apply in_seq in H.
  pose proof (Nat.Div0.mul_div_le (n + blockSize - 1) blockSize) as D.
  nia.
Qed.

Lemma blockGrid_inside (info : Info) (blockSize x y : nat) :
  (0 < blockSize)%nat -> In (x, y) (blockGrid info blockSize) ->
  (x < info_width info)%nat /\ (y < info_height info)%nat.
Proof.
  intros Hb H. unfold blockGrid in H. apply in_flat_map in H.
  destruct H as (y' & Hy & H). apply in_map_iff in H.
  destruct H as (x' & E & Hx). injection E as -> ->.
  split; eapply blockStarts_lt; eauto.
Qed.

Lemma Math_min_nat (m n : nat) :
  (Z.of_nat m < 2 ^ 53)%Z -> (Z.of_nat n < 2 ^ 53)%Z ->
  Math_min (Number_of_nat m) (Number_of_nat n) = Number_of_nat (Nat.min m n).
Proof.
  intros Hm Hn. unfold Number_of_nat.
  rewrite Math_min_integers by lia. now rewrite Nat2Z.inj_min.
Qed.

Lemma Math_max_nat (m n : nat) :
  (Z.of_nat m < 2 ^ 53)%Z -> (Z.of_nat n < 2 ^ 53)%Z ->
  Math_max (Number_of_nat m) (Number_of_nat n) = Number_of_nat (Nat.max m n).
Proof.
  intros Hm Hn. unfold Number_of_nat.
  rewrite Math_max_integers by lia. now rewrite Nat2Z.inj_max.
Qed.

(** A flagged block is the part of its 32 by 32 square that lies inside
    the image. *)
Lemma flaggedBlocks_inside cfg data info a :
  (Z.of_nat (info_width info) < 2 ^ 53)%Z ->
  (Z.of_nat (info_height info) < 2 ^ 53)%Z ->
  In a (flaggedBlocks cfg data info) -> insideImage info a.
Proof.
  intros HW HH H. unfold flaggedBlocks in H. apply in_flat_map in H.
  destruct H as ([x y] & Hg & H).
  apply blockGrid_inside in Hg; [|lia]. destruct Hg as [Hx Hy].
  destruct (gt _ _); [|contradiction].
  destruct H as [<- | []].
  exists x, y, (Nat.min 32 (info_width info - x)), (Nat.min 32 (info_height info - y)).
  cbn [area_x area_y area_width area_height].
  rewrite !Math_min_nat by (cbn; lia).
  repeat split; lia.
Qed.

(** The two folds of [mergeAreaGroup] over whole numbers. *)
Lemma min_fold_nat (lo hi : nat) (xs : list float) : forall m : nat,
  (Z.of_nat hi < 2 ^ 53)%Z -> (lo <= m <= hi)%nat ->
  Forall (fun v => exists n : nat, v = Number_of_nat n /\ (lo <= n <= hi)%nat) xs ->
  exists m' : nat,
    fold_left Math_min xs (Number_of_nat m) = Number_of_nat m'
    /\ (lo <= m' <= m)%nat.
Proof.
  induction xs as [|v xs IH]; intros m Hhi Hm HF; cbn [fold_left].
  - exists m. split; [reflexivity | lia].
  - inversion HF as [|? ? (n & -> & Hn) HF']; subst.
    rewrite Math_min_nat by lia.
    destruct (IH (Nat.min m n) Hhi ltac:(lia) HF') as (m' & E & Hm').
    exists m'. split; [exact E | lia].
Qed.

Lemma max_fold_nat (lo hi : nat) (xs : list float) : forall m : nat,
  (Z.of_nat hi < 2 ^ 53)%Z -> (lo <= m <= hi)%nat ->
  Forall (fun v => exists n : nat, v = Number_of_nat n /\ (lo <= n <= hi)%nat) xs ->
  exists m' : nat,
    fold_left Math_max xs (Number_of_nat m) = Number_of_nat m'
    /\ (m <= m' <= hi)%nat.
Proof.
  induction xs as [|v xs IH]; intros m Hhi Hm HF; cbn [fold_left].
  - exists m. split; [reflexivity | lia].
  - inversion HF as [|? ? (n & -> & Hn) HF']; subst.
    rewrite Math_max_nat by lia.
    destruct (IH (Nat.max m n) Hhi ltac:(lia) HF') as (m' & E & Hm').
    exists m'. split; [exact E | lia].
Qed.

(** The span [max - min] of the starts [x] and the ends [x + w] of a group
    of segments inside [[0, hi]]: it starts at or before the first start,
    ends at or after the first end, and lies inside [[0, hi]]. *)
Lemma span_of_group (hi : nat) (start size : SuspiciousArea -> float)
  (group : list SuspiciousArea) :
  (Z.of_nat hi < 2 ^ 53)%Z ->
  group <> [] ->
  Forall (fun a => exists x w : nat,
            start a = Number_of_nat x /\ size a = Number_of_nat w
            /\ (1 <= w)%nat /\ (x + w <= hi)%nat) group ->
  exists x w : nat,
    Math_min_list (map start group) = Number_of_nat x
    /\ Math_max_list (map (fun a => start a + size a) group)
       - Math_min_list (map start group) = Number_of_nat w
    /\ (1 <= w)%nat /\ (x + w <= hi)%nat.
Proof.
  intros Hhi Hne HF. destruct group as [|a group]; [congruence|].
  inversion HF as [|? ? (x1 & w1 & Ex & Ew & Hw & Hxw) HF']; subst.
  unfold Math_min_list, Math_max_list. cbn [map fold_left].
  rewrite Math_min_infinity, Math_max_neg_infinity, Ex, Ew.
  rewrite Number_of_nat_add by lia.
  destruct (min_fold_nat 0 hi (map start group) x1 Hhi ltac:(lia)) as (x & Emin & Hx).
  { apply Forall_map. eapply Forall_impl; [|exact HF'].
    intros b (x & w & E1 & _ & _ & H). exists x. split; [exact E1 | lia]. }
  destruct (max_fold_nat 0 hi (map (fun a => start a + size a) group) (x1 + w1)
                         Hhi ltac:(lia)) as (e & Emax & He).
  { apply Forall_map. eapply Forall_impl; [|exact HF'].
    intros b (x' & w & E1 & E2 & _ & H). exists (x' + w)%nat.
    split; [|lia]. rewrite E1, E2. apply Number_of_nat_add. lia. }
  rewrite Emin, Emax. exists x, (e - x)%nat.
  split; [reflexivity|]. split; [|lia].
  apply Number_of_nat_sub; lia.
Qed.

Lemma mergeAreaGroup_inside info (group : list SuspiciousArea) :
  (Z.of_nat (info_width info) < 2 ^ 53)%Z ->
  (Z.of_nat (info_height info) < 2 ^ 53)%Z ->
  group <> [] ->
  Forall (insideImage info) group ->
  insideImage info (mergeAreaGroup group).
Proof.
  intros HW HH Hne HF.
  destruct (span_of_group (info_width info) area_x area_width group HW Hne)
    as (x & w & Ex & Ew & Hw & Hxw).
  { eapply Forall_impl; [|exact HF].
    intros a (x & y & w & h & E1 & E2 & E3 & E4 & H1 & H2 & H3 & H4).
    exists x, w. auto. }
  destruct (span_of_group (info_height info) area_y area_height group HH Hne)
    as (y & h & Ey & Eh & Hh & Hyh).
  { eapply Forall_impl; [|exact HF].
    intros a (x' & y & w' & h & E1 & E2 & E3 & E4 & H1 & H2 & H3 & H4).
    exists y, h. auto. }
  exists x, y, w, h. unfold mergeAreaGroup.
  cbn [area_x area_y area_width area_height].
  repeat split; assumption.
Qed.

End Rectangles.

Section RectanglesTheorem.
Local Open Scope string_scope.

(** X25.  Every area that [detectSuspiciousAreas] returns, merged or not,
    is a rectangle with whole coordinates that is not empty and lies
    inside the image: [x + width] is at most the width of the image and
    [y + height] at most its height.  (The sides of the image are below
    [2^53].) *)
Theorem suspicious_areas_lie_inside_the_image cfg path data info a :
  (Z.of_nat (info_width info) < 2 ^ 53)%Z ->
  (Z.of_nat (info_height info) < 2 ^ 53)%Z ->
  In a (detectSuspiciousAreas cfg path (Resolved (data, info))) ->
  insideImage info a.
Proof.
  intros HW HH H. unfold detectSuspiciousAreas in H.
  destruct (String.eqb path ""); [contradiction|].
  pose proof (mergeSuspiciousAreas_fromBlocks (flaggedBlocks cfg data info)) as HF.
  eapply Forall_forall in HF; [|exact H].
  destruct HF as [Hin | (group & Hlen & Hincl & ->)].
  - eapply flaggedBlocks_inside; eauto.
  - apply mergeAreaGroup_inside; auto.
    + intros ->. destruct Hlen as [Hlen _]. cbn [List.length] in Hlen. lia.
    + apply Forall_forall. intros b Hb.
      eapply flaggedBlocks_inside; eauto.
Qed.

Lemma suspicious_areas_lie_inside_the_image_witness :
  insideImage whiteRowInfo whiteRowMerged.
Proof.
  apply (suspicious_areas_lie_inside_the_image config "scan_ela.jpg" whiteRow
           whiteRowInfo whiteRowMerged).
  - cbn. lia.
  - cbn. lia.
  - vm_compute. left. reflexivity.
Defined.

End RectanglesTheorem.

(* ================================================================== *)
(** * Images whose samples lie in a narrow band *)
(* ================================================================== *)

Section NarrowBand.
Local Open Scope Z_scope.
Local Open Scope float_scope.

Lemma finite_1000 : finite 1000. Proof. reflexivity. Qed.
Lemma val_1000 : val 1000 = (1000 * K)%Z. Proof. vm_compute. reflexivity. Qed.

(** A result of at most 1000 is not above 1000. *)
Lemma at_most_1000 (x : float) (c : Z) :
  finite x -> (val x <= c * K)%Z -> (c <= 1000)%Z -> gt x 1000 = false.
Proof.
  intros F B C. pose proof K_pos as HK. unfold gt.
  rewrite ltb_val by auto using finite_1000. rewrite val_1000.
  apply Z.ltb_ge. nia.
Qed.

Lemma sample_between (lo hi : Z) (b : byte) :
  (0 <= lo)%Z -> (lo <= Z.of_N (Byte.to_N b) <= hi)%Z ->
  finite (Number_of_byte b)
  /\ (lo * K <= val (Number_of_byte b) <= hi * K)%Z.
Proof.
  intros Hlo H. pose proof K_pos as HK. pose proof (byte_range b) as Hb.
  destruct (Number_exact (Z.of_N (Byte.to_N b))) as [F V].
  { split; [lia|]. apply Z.le_lt_trans with 255%Z; [lia | reflexivity]. }
  fold (Number_of_byte b) in F, V. rewrite V. split; [exact F | nia].
Qed.

(** The product of two values between whole bounds. *)
Lemma mul_between (x y : float) (lo hi : Z) :
  finite x -> finite y -> (0 <= lo)%Z -> (hi * hi < 2 ^ 53)%Z ->
  (lo * K <= val x <= hi * K)%Z -> (lo * K <= val y <= hi * K)%Z ->
  finite (x * y) /\ (lo * lo * K <= val (x * y) <= hi * hi * K)%Z.
Proof.
  intros Fx Fy Hlo Hhi Bx By. pose proof K_pos as HK.
  assert (Hlh : (lo <= hi)%Z) by nia.
  destruct (Number_exact (lo * lo) ltac:(nia)) as [Fl Vl].
  destruct (Number_exact (hi * hi) ltac:(nia)) as [Fh Vh].
  assert (Hx : (0 <= val x)%Z) by nia.
  assert (Hy : (0 <= val y)%Z) by nia.
  assert (L0 : (val (Number_of_Z (lo * lo)) * K <= val x * val y)%Z).
  { rewrite Vl. apply Z.le_trans with ((lo * K) * (lo * K))%Z; [lia|].
    apply Z.mul_le_mono_nonneg; nia. }
  assert (U0 : (val x * val y <= val (Number_of_Z (hi * hi)) * K)%Z).
  { rewrite Vh. apply Z.le_trans with ((hi * K) * (hi * K))%Z; [|lia].
    apply Z.mul_le_mono_nonneg; nia. }
  destruct (between_val (Number_of_Z (lo * lo)) (Number_of_Z (hi * hi)) (x * y)
                        Fl Fh (mul_lo _ _ _ Fx Fy Fl Hx Hy L0)
                        (mul_hi _ _ _ Fx Fy Fh Hx Hy U0)) as [F [L U]].
  rewrite Vl in L. rewrite Vh in U. auto.
Qed.

(** The loop of [calculateNoiseMetrics] is two sums side by side. *)
Lemma noise_fold (data : Buffer) : forall sum sumSquares,
  fold_left
    (fun (st : float * float) (b : byte) =>
       let '(sum, sumSquares) := st in
       (sum + Number_of_byte b,
        sumSquares + Number_of_byte b * Number_of_byte b))
    data (sum, sumSquares)
  = (fold_left (fun sum b => sum + Number_of_byte b) data sum,
     fold_left (fun sum b => sum + Number_of_byte b * Number_of_byte b)
               data sumSquares).
Proof.
  induction data as [|b data IH]; intros sum sumSquares; cbn [fold_left];
    [reflexivity | apply IH].
Qed.

(** The [variance] of [calculateNoiseMetrics], the mean of the squares
    minus the square of the mean, for samples between [lo] and [hi]: it is
    at most [hi^2 - lo^2]. *)
Lemma noise_variance_band (data : Buffer) (lo hi : Z) :
  data <> [] ->
  (0 <= lo)%Z -> (hi <= 255)%Z ->
  (65025 * Z.of_nat (List.length data) < 2 ^ 53)%Z ->
  Forall (fun b => (lo <= Z.of_N (Byte.to_N b) <= hi)%Z) data ->
  finite (nm_variance (calculateNoiseMetrics data))
  /\ (val (nm_variance (calculateNoiseMetrics data)) <= (hi * hi - lo * lo) * K)%Z.
Proof.
  intros Hne Hlo Hhi Hn HF. pose proof K_pos as HK.
  assert (Hlh : (lo <= hi)%Z).
  { destruct data as [|b data]; [congruence|].
    inversion HF as [|? ? Hb _]; subst. lia. }
  assert (Hlen : (0 < Z.of_nat (List.length data))%Z).
  { destruct data; [congruence | cbn [List.length]; lia]. }
  unfold calculateNoiseMetrics. rewrite noise_fold. cbn [nm_variance].
  fold (sum_by Number_of_byte data).
  fold (sum_by (fun b => Number_of_byte b * Number_of_byte b) data).
  destruct (average_between Number_of_byte lo hi data) as [Fm Bm];
    auto; try nia.
  { eapply Forall_impl; [|exact HF]. intros b Hb. now apply sample_between. }
  destruct (average_between (fun b => Number_of_byte b * Number_of_byte b)
                            (lo * lo) (hi * hi) data) as [Fq Bq];
    auto; try nia.
  { eapply Forall_impl; [|exact HF]. intros b Hb.
    destruct (sample_between lo hi b Hlo Hb) as [Fb Bb].
    apply mul_between; auto.
    apply Z.le_lt_trans with 65025%Z; [nia | reflexivity]. }
  set (mean := sum_by Number_of_byte data / Number_of_nat (List.length data)) in *.
  set (meanSquares :=
         sum_by (fun b => Number_of_byte b * Number_of_byte b) data
         / Number_of_nat (List.length data)) in *.
  destruct (mul_between mean mean lo hi) as [Fp Bp]; auto.
  { apply Z.le_lt_trans with 65025%Z; [nia | reflexivity]. }
  destruct (Number_exact (hi * hi - lo * lo)) as [Ft Vt].
  { split; [nia|]. apply Z.le_lt_trans with 65025%Z; [nia | reflexivity]. }
  destruct (Number_exact 65025 ltac:(split; [lia | reflexivity])) as [Fc Vc].
  assert (Fo : finite (- Number_of_Z 65025)) by reflexivity.
  assert (Vo : val (- Number_of_Z 65025) = (- (65025 * K))%Z)
    by (vm_compute; reflexivity).
  destruct (between_val (- Number_of_Z 65025) (Number_of_Z (hi * hi - lo * lo))
                        (meanSquares - mean * mean)) as [F [_ U]]; auto.
  - apply sub_lo; auto. rewrite Vo. nia.
  - apply sub_hi; auto. rewrite Vt. nia.
  - rewrite Vt in U. auto.
Qed.

End NarrowBand.

Section NarrowBandTheorems.
Local Open Scope Z_scope.

(** X26.  An image whose grey samples all lie between [lo] and [hi] with
    [hi^2 - lo^2 <= 1000] is never flagged for inconsistent noise: an
    image darker than 32 everywhere, for one, or a uniform one.  Nor is an
    image without samples.  (The image has fewer than [2^53 / 65025]
    samples.) *)
Theorem narrow_band_image_has_consistent_noise (data : Buffer) (info : Info)
  (lo hi : Z) :
  0 <= lo -> hi <= 255 -> hi * hi - lo * lo <= 1000 ->
  65025 * Z.of_nat (List.length data) < 2 ^ 53 ->
  Forall (fun b => lo <= Z.of_N (Byte.to_N b) <= hi) data ->
  hasInconsistentNoise (analyzeNoise (Resolved (data, info))) = false.
Proof.
  intros Hlo Hhi Hband Hn HF. cbn [analyzeNoise hasInconsistentNoise].
  destruct data as [|b data]; [reflexivity|].
  destruct (noise_variance_band (b :: data) lo hi) as [F B]; auto; [discriminate|].
  exact (at_most_1000 _ _ F B Hband).
Qed.

Lemma narrow_band_image_has_consistent_noise_witness :
  hasInconsistentNoise
    (analyzeNoise (Resolved ([x0f; x23; x14], {| info_width := 3; info_height := 1;
                                                 info_channels := 1 |})))
  = false.
Proof.
  apply (narrow_band_image_has_consistent_noise _ _ 15 35).
  - lia.
  - lia.
  - reflexivity.
  - cbn. lia.
  - repeat constructor; cbn; lia.
Defined.

End NarrowBandTheorems.

Section ElaBand.
Local Open Scope Z_scope.
Local Open Scope float_scope.

Lemma opp_val (x : float) : finite x -> finite (- x) /\ val (- x) = (- val x)%Z.
Proof.
  unfold finite, val. rewrite opp_spec.
  destruct (Prim2SF x) as [s|s| |s m e]; intros F; try discriminate F;
    split; try reflexivity.
  destruct s; cbn [SFopp SV negb cond_Zopp]; lia.
Qed.

(** A square is the square of the absolute value. *)
Lemma square_abs (x : float) : Math_pow2 x = abs x * abs x.
Proof.
  unfold Math_pow2. apply Prim2SF_inj. rewrite !mul_spec, abs_spec.
  destruct (Prim2SF x) as [s|s| |s m e]; try destruct s; reflexivity.
Qed.

(** The square of a value within [c] of zero. *)
Lemma square_within (x : float) (c : Z) :
  finite x -> (0 <= c)%Z -> (c * c < 2 ^ 53)%Z ->
  (- (c * K) <= val x <= c * K)%Z ->
  finite (Math_pow2 x) /\ (0 * K <= val (Math_pow2 x) <= c * c * K)%Z.
Proof.
  intros F Hc Hcc B. pose proof K_pos as HK.
  destruct (abs_val x F) as [Fa Va].
  destruct (Number_exact (c * c) ltac:(nia)) as [Fc Vc].
  rewrite square_abs.
  destruct (mul_range (abs x) (abs x) (Number_of_Z (c * c))) as [Fm Bm]; auto;
    try lia.
  - rewrite Va, Vc.
    apply Z.le_trans with ((c * K) * (c * K))%Z; [|lia].
    apply Z.mul_le_mono_nonneg; lia.
  - rewrite Vc in Bm. split; [exact Fm | lia].
Qed.

(** The first loop of [analyzeELAStatistics] sums the samples. *)
Lemma ela_fold_sum (pixels : Buffer) : forall sum max min,
  fst (fst (fold_left
              (fun (st : float * float * float) (b : byte) =>
                 let '(sum, max, min) := st in
                 let value := Number_of_byte b in
                 (sum + value, Math_max max value, Math_min min value))
              pixels (sum, max, min)))
  = fold_left (fun sum b => sum + Number_of_byte b) pixels sum.
Proof.
  induction pixels as [|b pixels IH]; intros sum max min; cbn [fold_left];
    [reflexivity | apply IH].
Qed.

Lemma ela_statistics_eq (pixels : Buffer) :
  let mean := sum_by Number_of_byte pixels / Number_of_nat (List.length pixels) in
  ela_mean (analyzeELAStatistics pixels) = mean
  /\ ela_variance (analyzeELAStatistics pixels)
     = sum_by (fun b => Math_pow2 (Number_of_byte b - mean)) pixels
       / Number_of_nat (List.length pixels).
Proof.
  pose proof (ela_fold_sum pixels 0 0 255) as H.
  unfold analyzeELAStatistics.
  destruct (fold_left _ pixels (0, 0, 255)) as [[sum max] min].
  cbn [fst] in H. subst sum. cbn [ela_mean ela_variance]. split; reflexivity.
Qed.

(** The [variance] of [analyzeELAStatistics] for samples between [lo] and
    [hi]: it is at most [(hi - lo)^2]. *)
Lemma ela_variance_band (pixels : Buffer) (lo hi : Z) :
  pixels <> [] ->
  (0 <= lo)%Z -> (hi <= 255)%Z ->
  (65025 * Z.of_nat (List.length pixels) < 2 ^ 53)%Z ->
  Forall (fun b => (lo <= Z.of_N (Byte.to_N b) <= hi)%Z) pixels ->
  finite (ela_variance (analyzeELAStatistics pixels))
  /\ (0 <= val (ela_variance (analyzeELAStatistics pixels))
      <= (hi - lo) * (hi - lo) * K)%Z.
Proof.
  intros Hne Hlo Hhi Hn HF. pose proof K_pos as HK.
  assert (Hlh : (lo <= hi)%Z).
  { destruct pixels as [|b pixels]; [congruence|].
    inversion HF as [|? ? Hb _]; subst. lia. }
  assert (Hlen : (0 < Z.of_nat (List.length pixels))%Z).
  { destruct pixels; [congruence | cbn [List.length]; lia]. }
  destruct (ela_statistics_eq pixels) as [_ ->].
  destruct (average_between Number_of_byte lo hi pixels) as [Fm Bm];
    auto; try nia.
  { eapply Forall_impl; [|exact HF]. intros b Hb. now apply sample_between. }
  set (mean := sum_by Number_of_byte pixels / Number_of_nat (List.length pixels)) in *.
  assert (Hcc : ((hi - lo) * (hi - lo) < 2 ^ 53)%Z).
  { apply Z.le_lt_trans with 65025%Z; [nia | reflexivity]. }
  assert (Hc : ((hi - lo) * (hi - lo) <= 65025)%Z) by nia.
  assert (Hcn : ((hi - lo) * (hi - lo) * Z.of_nat (List.length pixels) < 2 ^ 53)%Z).
  { eapply Z.le_lt_trans; [|exact Hn].
    apply Z.mul_le_mono_nonneg_r; lia. }
  destruct (average_between (fun b => Math_pow2 (Number_of_byte b - mean))
                            0 ((hi - lo) * (hi - lo)) pixels) as [Fv Bv];
    auto; try lia; try nia.
  eapply Forall_impl; [|exact HF]. intros b Hb.
  destruct (sample_between lo hi b Hlo Hb) as [Fb Bb].
  destruct (Number_exact (hi - lo) ltac:(lia)) as [Fc Vc].
  destruct (opp_val _ Fc) as [Fo Vo].
  destruct (sub_range (Number_of_byte b) mean (- Number_of_Z (hi - lo))
                      (Number_of_Z (hi - lo))) as [Fd Bd]; auto.
  { rewrite Vo, Vc. lia. }
  rewrite Vo, Vc in Bd.
  apply square_within; auto; lia.
Qed.

End ElaBand.

Section ElaBandTheorems.
Local Open Scope Z_scope.

Lemma maxSample_le (pixels : Buffer) (hi : Z) :
  0 <= hi -> Forall (fun b => Z.of_N (Byte.to_N b) <= hi) pixels ->
  maxSample pixels <= hi.
Proof.
  intros Hhi. unfold maxSample.
  assert (H : forall m, m <= hi ->
            Forall (fun b => Z.of_N (Byte.to_N b) <= hi) pixels ->
            fold_left (fun m b => Z.max m (Z.of_N (Byte.to_N b))) pixels m <= hi).
  { induction pixels as [|c l IH]; intros m Hm HF; cbn [fold_left]; [exact Hm|].
    inversion HF; subst. apply IH; [lia | assumption]. }
  apply H. exact Hhi.
Qed.

(** X27.  An ELA image whose samples all lie between [lo] and [hi], with
    [hi] at most 50 and [(hi - lo)^2] at most 1000, has no anomalies: an
    ELA image without a sample above 31, for one.  (The image has fewer
    than [2^53 / 65025] samples.) *)
Theorem narrow_band_ela_has_no_anomalies path (w : ElaWorld) ela data info
  (lo hi : Z) :
  performELA path w = Resolved ela ->
  elaRaw w = Resolved (data, info) ->
  0 <= lo -> hi <= 50 -> (hi - lo) * (hi - lo) <= 1000 ->
  65025 * Z.of_nat (List.length data) < 2 ^ 53 ->
  Forall (fun b => lo <= Z.of_N (Byte.to_N b) <= hi) data ->
  hasAnomalies ela = false.
Proof.
  intros He Hr Hlo Hhi Hband Hn HF. pose proof K_pos as HK.
  destruct (performELA_resolved _ _ _ He) as (data' & info' & Hr' & ->).
  rewrite Hr in Hr'. injection Hr' as <- <-. cbn [hasAnomalies].
  destruct data as [|b data]; [reflexivity|].
  assert (Hlh : lo <= hi) by (inversion HF; subst; lia).
  apply orb_false_intro.
  - destruct (ela_extremes_max (b :: data)) as [F V]. unfold gt.
    rewrite ltb_val by (auto; reflexivity). apply Z.ltb_ge. rewrite V.
    assert (V50 : val 50 = 50 * K) by (vm_compute; reflexivity).
    rewrite V50.
    assert (maxSample (b :: data) <= hi).
    { apply maxSample_le; [lia|]. eapply Forall_impl; [|exact HF].
      cbn beta. intros; lia. }
    nia.
  - destruct (ela_variance_band (b :: data) lo hi) as [F B]; auto;
      [discriminate | lia |].
    exact (at_most_1000 _ _ F (proj2 B) Hband).
Qed.

Lemma narrow_band_ela_has_no_anomalies_witness :
  exists ela,
    performELA "doc.jpg" (okElaWorld [x1f; x05]%byte) = Resolved ela
    /\ hasAnomalies ela = false.
Proof.
  eexists. split.
  - vm_compute. reflexivity.
  - apply (narrow_band_ela_has_no_anomalies
             "doc.jpg"%string (okElaWorld [x1f; x05]%byte) _
             [x1f; x05]%byte
             {| info_width := 2; info_height := 1; info_channels := 1 |}
             0 31 eq_refl eq_refl).
    + lia.
    + lia.
    + lia.
    + cbn. lia.
    + repeat constructor; cbn; lia.
Defined.

End ElaBandTheorems.

(* ================================================================== *)
(** * What the metadata flag needs *)
(* ================================================================== *)

Section MetadataFlag.
Local Open Scope string_scope.

Lemma string_app_assoc (a b c : string) : (a ++ b) ++ c = a ++ b ++ c.
Proof. induction a as [|x a IH]; cbn; [reflexivity | now rewrite IH]. Qed.

Lemma string_app_nil_r (a : string) : a ++ "" = a.
Proof. induction a as [|x a IH]; cbn; [reflexivity | now rewrite IH]. Qed.

(** A string starts with its prefix. *)
Lemma prefix_split (p : string) : forall s : string,
  String.prefix p s = true ->
  s = p ++ substring (String.length p) (String.length s - String.length p) s.
Proof.
  induction p as [|c p IH]; intros s H.
  - cbn [String.length append]. rewrite Nat.sub_0_r.
    symmetry. apply substring_0_all.
  - destruct s as [|d s]; [discriminate H|]. cbn in H.
    destruct (ascii_dec c d) as [-> | _]; [|discriminate H].
    cbn [String.length append Nat.sub substring]. f_equal. now apply IH.
Qed.

Lemma takeNonNul_split (s : string) : exists rest, s = takeNonNul s ++ rest.
Proof.
  induction s as [|c s (rest & IH)]; [now exists ""|].
  cbn [takeNonNul]. destruct (Ascii.eqb c NUL).
  - now exists (String c s).
  - exists rest. cbn [append]. now rewrite <- IH.
Qed.

Lemma matchField_eq (key s : string) :
  matchField key s
  = let pattern := key ++ String NUL EmptyString in
    let capture :=
      takeNonNul (substring (String.length pattern)
                            (String.length s - String.length pattern) s) in
    if String.prefix pattern s && negb (String.eqb capture "")
    then Some capture
    else match s with
         | EmptyString => None
         | String _ rest => matchField key rest
         end.
Proof. destruct s; reflexivity. Qed.

Lemma capture_occurs (pattern s : string) :
  String.prefix pattern s = true ->
  exists post,
    s = pattern
        ++ takeNonNul (substring (String.length pattern)
                                 (String.length s - String.length pattern) s)
        ++ post.
Proof.
  intros P. apply prefix_split in P. revert P.
  generalize (substring (String.length pattern)
                        (String.length s - String.length pattern) s).
  intros tail P. destruct (takeNonNul_split tail) as (rest & E).
  exists rest. now rewrite <- E.
Qed.

(** A captured field stands in the text, after its key and a NUL. *)
Lemma matchField_occurs (key : string) : forall (s v : string),
  matchField key s = Some v ->
  exists pre post, s = pre ++ (key ++ String NUL "") ++ v ++ post.
Proof.
  induction s as [|c s IH]; intros v H; rewrite matchField_eq in H; cbn zeta in H.
  - destruct (String.prefix _ _ && _) eqn:C; [|discriminate H].
    apply andb_prop in C. destruct C as [P _]. injection H as <-.
    destruct (capture_occurs _ _ P) as (post & E).
    exists "", post. exact E.
  - destruct (String.prefix _ _ && _) eqn:C.
    + apply andb_prop in C. destruct C as [P _]. injection H as <-.
      destruct (capture_occurs _ _ P) as (post & E).
      exists "", post. exact E.
    + destruct (IH v H) as (pre & post & E).
      exists (String c pre), post. cbn [append]. now rewrite <- E.
Qed.

Lemma trimStart_split (s : string) : exists ws, s = ws ++ trimStart s.
Proof.
  induction s as [|c s (ws & IH)]; [now exists ""|].
  cbn [trimStart]. destruct (isWhiteSpace c).
  - exists (String c ws). cbn [append]. now rewrite <- IH.
  - now exists "".
Qed.

Lemma string_rev_append (a b : string) :
  string_rev (a ++ b) = string_rev b ++ string_rev a.
Proof.
  induction a as [|x a IH]; cbn [append string_rev].
  - now rewrite string_app_nil_r.
  - now rewrite IH, string_app_assoc.
Qed.

Lemma string_rev_involutive (a : string) : string_rev (string_rev a) = a.
Proof.
  induction a as [|x a IH]; cbn [string_rev]; [reflexivity|].
  rewrite string_rev_append, IH. reflexivity.
Qed.

(** What [trim] returns stands in the string it is given. *)
Lemma trim_occurs (s : string) : exists pre post, s = pre ++ trim s ++ post.
Proof.
  unfold trim. destruct (trimStart_split s) as (ws & E).
  destruct (trimStart_split (string_rev (trimStart s))) as (ws' & E').
  exists ws, (string_rev ws').
  rewrite <- string_rev_append, <- E', string_rev_involutive. exact E.
Qed.

Lemma toLowerCase_append (s t : string) :
  toLowerCase (s ++ t) = toLowerCase s ++ toLowerCase t.
Proof. induction s as [|c s IH]; cbn; [reflexivity | now rewrite IH]. Qed.

Lemma includes_split (sub : string) : forall s : string,
  includes s sub = true -> exists pre post, s = pre ++ sub ++ post.
Proof.
  induction s as [|c s IH]; intros H; cbn [includes] in H;
    apply orb_prop in H; destruct H as [P | H]; try discriminate H.
  - apply prefix_split in P. exists "". eexists. exact P.
  - apply prefix_split in P. exists "". eexists. exact P.
  - destruct (IH H) as (pre & post & E).
    exists (String c pre), post. cbn [append]. now rewrite <- E.
Qed.

(** What occurs in a part of a string occurs in the string. *)
Lemma includes_inside (pre m post sub : string) :
  includes m sub = true -> includes (pre ++ m ++ post) sub = true.
Proof.
  intros H. destruct (includes_split sub m H) as (a & b & ->).
  rewrite !string_app_assoc, <- (string_app_assoc pre a).
  apply includes_append.
Qed.

Variable Date_parse : string -> option Z.

(** A field of [parseExifData] stands in the EXIF text, in a value that
    follows the key of the field and a NUL. *)
Lemma parsed_field_occurs (key exif value : string) :
  option_map trim (matchField key exif) = Some value ->
  includes exif (key ++ String NUL "") = true
  /\ exists pre post, exif = pre ++ value ++ post.
Proof.
  intros H. destruct (matchField key exif) as [v|] eqn:M; [|discriminate H].
  injection H as <-.
  destruct (matchField_occurs key exif v M) as (pre & post & ->).
  split; [apply includes_append|].
  destruct (trim_occurs v) as (a & b & E).
  exists (pre ++ (key ++ String NUL "") ++ a), (b ++ post).
  rewrite E at 1. now rewrite !string_app_assoc.
Qed.

(** X28.  The metadata of an image is flagged only for one of two
    reasons, both read from its EXIF text: the text has a [Software] field
    and names Photoshop, GIMP or Paint.NET in some letter case, or it has
    a [DateTime] field with a value that the engine parses to an instant
    after the clock.  An image without an EXIF block is never flagged. *)
Theorem metadata_flag_needs_editor_or_future_date (now : Z) (metadata : Metadata) :
  hasInconsistentMetadata (analyzeMetadata Date_parse now (Resolved metadata)) = true ->
  exists exif,
    md_exif metadata = Some exif
    /\ ((includes exif ("Software" ++ String NUL "") = true
         /\ exists sw, In sw suspiciousSoftware
                       /\ includes (toLowerCase exif) sw = true)
        \/ (includes exif ("DateTime" ++ String NUL "") = true
            /\ exists value creationDate,
                 includes exif value = true
                 /\ Date_parse value = Some creationDate
                 /\ (now < creationDate)%Z)).
Proof.
  cbn [analyzeMetadata hasInconsistentMetadata].
  unfold checkMetadataConsistency, inconsistencies.
  destruct (md_exif metadata) as [exif|]; [|discriminate].
  intros H. exists exif. split; [reflexivity|].
  cbn [parseExifData exif_DateTime exif_Software] in H.
  destruct (truthy (option_map trim (matchField "Software" exif))
            && existsb _ suspiciousSoftware) eqn:S.
  - left. apply andb_prop in S. destruct S as [T S].
    destruct (option_map trim (matchField "Software" exif)) as [value|] eqn:M;
      [|discriminate T].
    destruct (parsed_field_occurs _ _ _ M) as (I & pre & post & E).
    split; [exact I|].
    apply existsb_exists in S. destruct S as (sw & Hin & Hsw).
    exists sw. split; [exact Hin|].
    cbn [field_text] in Hsw.
    rewrite E, !toLowerCase_append. now apply includes_inside.
  - right. rewrite app_nil_r in H.
    destruct (truthy (option_map trim (matchField "DateTime" exif))) eqn:T;
      [|discriminate H].
    destruct (option_map trim (matchField "DateTime" exif)) as [value|] eqn:M;
      [|discriminate T].
    destruct (parsed_field_occurs _ _ _ M) as (I & pre & post & E).
    split; [exact I|].
    cbn [field_text] in H.
    destruct (Date_parse value) as [creationDate|] eqn:D; [|discriminate H].
    destruct (Z.ltb now creationDate) eqn:L; [|discriminate H].
    exists value, creationDate. repeat split; auto.
    + rewrite E. apply includes_append.
    + now apply Z.ltb_lt.
Qed.

End MetadataFlag.

Lemma metadata_flag_needs_editor_or_future_date_witness :
  exists exif,
    md_exif (plainMetadata
               (Some ("Software" ++ String NUL "Adobe Photoshop" ++ String NUL ""))%string)
    = Some exif
    /\ ((includes exif ("Software" ++ String NUL "") = true
         /\ exists sw, In sw suspiciousSoftware
                       /\ includes (toLowerCase exif) sw = true)
        \/ (includes exif ("DateTime" ++ String NUL "") = true
            /\ exists value creationDate,
                 includes exif value = true
                 /\ Date_parse_none value = Some creationDate
                 /\ (0 < creationDate)%Z)).
Proof.
  apply (metadata_flag_needs_editor_or_future_date Date_parse_none 0
           (plainMetadata
              (Some ("Software" ++ String NUL "Adobe Photoshop" ++ String NUL ""))%string)).
  vm_compute. reflexivity.
Defined.


(* ================================================================== *)
(** * The noise map *)
(* ================================================================== *)

Section NoiseMap.
Local Open Scope Z_scope.
Local Open Scope float_scope.

Lemma fold_left_pointwise {A B} (f g : A -> B -> A) (l : list B) : forall a,
  (forall a b, f a b = g a b) -> fold_left f l a = fold_left g l a.
Proof.
  induction l as [|b l IH]; intros a H; cbn [fold_left]; [reflexivity|].
  rewrite H. now apply IH.
Qed.

Section Loops.
Variables (data : Buffer) (imageWidth : nat).

(** The test of the two loops of [calculateBlockNoise]. *)
Variable inside : nat * nat -> bool.
Hypothesis inside_eq : forall x y,
  inside (x, y)
  = Nat.ltb x imageWidth && Nat.ltb (y * imageWidth + x) (List.length data).

(** The first loop counts the pixels that pass the test. *)
Lemma blockNoise_count (pixels : list (nat * nat)) : forall (total : float) (count : nat),
  snd (fold_left
         (fun (st : float * nat) (p : nat * nat) =>
            let '(totalIntensity, count) := st in
            let '(x, y) := p in
            if Nat.ltb x imageWidth
               && Nat.ltb (y * imageWidth + x) (List.length data)
            then (totalIntensity + Buffer_get data (y * imageWidth + x), S count)
            else st)
         pixels (total, count))
  = (count + List.length (filter inside pixels))%nat.
Proof.
  induction pixels as [|[x y] l IH]; intros total count; cbn [fold_left filter].
  - cbn [snd List.length]. lia.
  - rewrite inside_eq.
    destruct (Nat.ltb x imageWidth && Nat.ltb (y * imageWidth + x) (List.length data)).
    + rewrite IH. cbn [List.length]. lia.
    + apply IH.
Qed.

(** The second loop keeps the sum of the squares between 0 and [255^2]
    times the number of pixels added. *)
Lemma blockNoise_fold (mean : float) (pixels : list (nat * nat)) :
  finite mean -> (0 <= val mean <= 255 * K)%Z ->
  forall (variance : float) (j : nat),
    finite variance -> (0 <= val variance <= 65025 * Z.of_nat j * K)%Z ->
    (65025 * (Z.of_nat j + Z.of_nat (List.length pixels)) < 2 ^ 53)%Z ->
    let r :=
      fold_left
        (fun (variance : float) (p : nat * nat) =>
           let '(x, y) := p in
           if inside p
           then variance + Math_pow2 (Buffer_get data (y * imageWidth + x) - mean)
           else variance)
        pixels variance in
    finite r
    /\ (0 <= val r
        <= 65025 * (Z.of_nat j + Z.of_nat (List.length (filter inside pixels))) * K)%Z.
Proof.
  intros Fm Bm. pose proof K_pos as HK.
  induction pixels as [|[x y] l IH]; intros variance j F B HS; cbn [fold_left filter].
  - cbn [List.length]. split; [exact F | lia].
  - cbn [List.length] in HS. cbn zeta.
    destruct (inside (x, y)) eqn:C.
    + rewrite inside_eq in C. apply andb_true_iff in C. destruct C as [_ C].
      apply Nat.ltb_lt in C.
      destruct (Buffer_get_range data _ C) as [Fb Bb].
      assert (Fo : finite (-255)) by reflexivity.
      assert (Vo : val (-255) = (- (255 * K))%Z) by (vm_compute; reflexivity).
      destruct (sub_range (Buffer_get data (y * imageWidth + x)) mean (-255) 255)
        as [Fd Bd]; auto using finite_255.
      { rewrite Vo, val_255. lia. }
      rewrite Vo, val_255 in Bd.
      destruct (square_within (Buffer_get data (y * imageWidth + x) - mean) 255 Fd)
        as [Fq Bq]; [lia | reflexivity | lia |].
      destruct (add_range variance
                  (Math_pow2 (Buffer_get data (y * imageWidth + x) - mean))
                  (65025 * Z.of_nat j) 65025 F Fq B ltac:(lia) ltac:(lia))
        as [Fs Bs].
      replace (65025 * Z.of_nat j + 65025)%Z with (65025 * Z.of_nat (S j))%Z in Bs by lia.
      destruct (IH _ (S j) Fs Bs ltac:(lia)) as [I1 I2].
      split; [exact I1|]. cbn [List.length]. lia.
    + apply IH; auto. lia.
Qed.

(** The result of [calculateBlockNoise] from the results of its two
    loops. *)
Lemma blockNoise_result (pixels : list (nat * nat)) :
  (65025 * Z.of_nat (List.length pixels) < 2 ^ 53)%Z ->
  let '(total, count) :=
    fold_left
      (fun (st : float * nat) (p : nat * nat) =>
         let '(totalIntensity, count) := st in
         let '(x, y) := p in
         if Nat.ltb x imageWidth
            && Nat.ltb (y * imageWidth + x) (List.length data)
         then (totalIntensity + Buffer_get data (y * imageWidth + x), S count)
         else st)
      pixels (0, 0%nat) in
  let mean := total / Number_of_nat count in
  let variance :=
    fold_left
      (fun (variance : float) (p : nat * nat) =>
         let '(x, y) := p in
         if inside p
         then variance + Math_pow2 (Buffer_get data (y * imageWidth + x) - mean)
         else variance)
      pixels 0 in
  let blockNoise := if Nat.ltb 0 count then variance / Number_of_nat count else 0 in
  finite blockNoise /\ (0 <= val blockNoise <= 65025 * K)%Z.
Proof.
  intros HS. pose proof K_pos as HK.
  pose proof (blockIntensity_fold data imageWidth pixels 0 0%nat finite_zero) as H.
  cbn zeta in H. rewrite val_zero in H.
  destruct H as (F & B & Hn); [cbn; lia | cbn [Z.of_nat Z.add]; lia |].
  pose proof (blockNoise_count pixels 0 0%nat) as Hc.
  destruct (fold_left _ pixels (0, 0%nat)) as [total count].
  cbn [fst snd] in F, B, Hc, Hn. cbn [Nat.add] in Hc. cbn [Z.of_nat Z.add] in Hn.
  cbn zeta.
  destruct (Nat.ltb 0 count) eqn:E;
    [|split; [reflexivity | rewrite val_zero; lia]].
  apply Nat.ltb_lt in E.
  destruct (Number_of_nat_exact count ltac:(lia)) as [Fc Vc].
  destruct (div_range total (Number_of_nat count) 255) as [Fm Bm];
    auto using finite_255; rewrite ?Vc, ?val_255; try nia.
  rewrite val_255 in Bm.
  destruct (blockNoise_fold (total / Number_of_nat count) pixels Fm Bm
                            0 0%nat finite_zero) as [Fv Bv].
  { rewrite val_zero. lia. }
  { cbn [Z.of_nat Z.add]. exact HS. }
  rewrite <- Hc in Bv. cbn [Z.of_nat Z.add] in Bv.
  destruct (Number_exact 65025 ltac:(split; [lia | reflexivity])) as [Fh Vh].
  rewrite <- Vh.
  revert Fv Bv.
  generalize (fold_left
    (fun (variance : float) (p : nat * nat) =>
       let '(x, y) := p in
       if inside p
       then variance
            + Math_pow2 (Buffer_get data (y * imageWidth + x)
                         - total / Number_of_nat count)
       else variance) pixels 0).
  intros variance Fv Bv.
  apply div_range; auto; rewrite ?Vc, ?Vh; try lia.
  apply Z.le_trans with (65025 * Z.of_nat count * K * K)%Z; [|lia].
  apply Z.mul_le_mono_nonneg_r; lia.
Qed.

End Loops.

(** The noise of a block of 16 by 16 pixels is between 0 and [255^2]. *)
Lemma calculateBlockNoise_range (data : Buffer) (imageWidth x y : nat) :
  let blockNoise := calculateBlockNoise data x y 16 imageWidth in
  finite blockNoise /\ (0 <= val blockNoise <= 65025 * K)%Z.
Proof.
  cbn zeta.
  pose proof (blockNoise_result data imageWidth
                (fun p : nat * nat =>
                   let '(x, y) := p in
                   Nat.ltb x imageWidth
                   && Nat.ltb (y * imageWidth + x) (List.length data))
                (fun x y => eq_refl) (blockPixels x y 16)) as H.
  rewrite blockPixels_length in H. specialize (H eq_refl).
  unfold calculateBlockNoise. cbv zeta.
  rewrite (fold_left_pointwise _
             (fun (st : float * nat) (p : nat * nat) =>
                let '(totalIntensity, count) := st in
                let '(x, y) := p in
                if Nat.ltb x imageWidth
                   && Nat.ltb (y * imageWidth + x) (List.length data)
                then (totalIntensity + Buffer_get data (y * imageWidth + x), S count)
                else st))
    by (intros [m c] [a b]; reflexivity).
  revert H.
  generalize (fold_left
    (fun (st : float * nat) (p : nat * nat) =>
       let '(totalIntensity, count) := st in
       let '(x, y) := p in
       if Nat.ltb x imageWidth
          && Nat.ltb (y * imageWidth + x) (List.length data)
       then (totalIntensity + Buffer_get data (y * imageWidth + x), S count)
       else st) (blockPixels x y 16) (0, 0%nat)).
  intros [total count] H. exact H.
Qed.

End NoiseMap.

Section NoiseMapTheorems.
Local Open Scope Z_scope.
Local Open Scope float_scope.

(** X29.  Every entry of the noise map has a noise between 0 and
    [255^2 = 65025], never NaN, whatever the buffer and the sizes that
    come with it; and for a map that is not empty (of fewer than
    [2^53 / 65025] blocks) so is the [noiseMean] of
    [analyzeNoisePatterns]. *)
Theorem noise_map_values_between_0_and_65025 (metrics : NoiseMetrics)
  (data : Buffer) (info : Info) :
  Forall (fun block => (0 <=? nb_noise block) = true
                       /\ (nb_noise block <=? 65025) = true)
         (generateNoiseMap data info)
  /\ (generateNoiseMap data info <> [] ->
      (65025 * Z.of_nat (List.length (generateNoiseMap data info)) < 2 ^ 53)%Z ->
      (0 <=? noiseMean (analyzeNoisePatterns metrics (generateNoiseMap data info))) = true
      /\ (noiseMean (analyzeNoisePatterns metrics (generateNoiseMap data info))
          <=? 65025) = true).
Proof.
  pose proof K_pos as HK.
  destruct (Number_exact 65025 ltac:(split; [lia | reflexivity])) as [Fh Vh].
  change (Number_of_Z 65025) with 65025 in Fh, Vh.
  assert (R : Forall (fun block => finite (nb_noise block)
                                   /\ (0 * K <= val (nb_noise block) <= 65025 * K)%Z)
                     (generateNoiseMap data info)).
  { unfold generateNoiseMap. apply Forall_map. apply Forall_forall.
    intros [x y] _. cbn [nb_noise].
    destruct (calculateBlockNoise_range data (info_width info) x y) as [F B].
    split; [exact F | lia]. }
  split.
  - eapply Forall_impl; [|exact R]. intros block [F B].
    rewrite !leb_val by auto using finite_zero.
    rewrite val_zero, Vh. split; apply Z.leb_le; lia.
  - intros Hne Hn. cbn [analyzeNoisePatterns noiseMean].
    assert (Hne' : map nb_noise (generateNoiseMap data info) <> []).
    { destruct (generateNoiseMap data info); [congruence | discriminate]. }
    destruct (average_between (fun n : float => n) 0 65025
                              (map nb_noise (generateNoiseMap data info)))
      as [F B]; auto; rewrite ?length_map; try lia.
    { apply Forall_map. exact R. }
    rewrite length_map in F, B.
    rewrite !leb_val by auto using finite_zero.
    rewrite val_zero, Vh. split; apply Z.leb_le; lia.
Qed.

Lemma noise_map_values_between_0_and_65025_witness :
  (0 <=? noiseMean
           (analyzeNoisePatterns
              (calculateNoiseMetrics whiteRow)
              (generateNoiseMap whiteRow whiteRowInfo)))%float = true
  /\ (noiseMean
        (analyzeNoisePatterns
           (calculateNoiseMetrics whiteRow)
           (generateNoiseMap whiteRow whiteRowInfo)) <=? 65025)%float = true.
Proof.
  apply (proj2 (noise_map_values_between_0_and_65025
                  (calculateNoiseMetrics whiteRow) whiteRow whiteRowInfo)).
  - vm_compute. discriminate.
  - vm_compute. reflexivity.
Defined.

End NoiseMapTheorems.


(* ================================================================== *)
(** * The order of the merged areas (C5) *)
(* ================================================================== *)

Section GreedyGroups.

Lemma filter_filter {A} (f g : A -> bool) (l : list A) :
  filter g (filter f l) = filter (fun a => f a && g a) l.
Proof.
  induction l as [|a l IH]; cbn [filter]; [reflexivity|].
  destruct (f a); cbn [filter andb]; [destruct (g a)|]; now rewrite IH.
Qed.

Lemma indexedFrom_index (areas : list SuspiciousArea) : forall i p,
  In p (indexedFrom i areas) -> (i <= fst p)%nat.
Proof.
  induction areas as [|a areas IH]; intros i p H; [contradiction|].
  destruct H as [<- | H]; [cbn; lia|]. apply IH in H. lia.
Qed.

Lemma indexedFrom_fst (areas : list SuspiciousArea) : forall i,
  map fst (indexedFrom i areas) = seq i (List.length areas).
Proof.
  induction areas as [|a areas IH]; intros i; cbn; [reflexivity | now rewrite IH].
Qed.

(** An index belongs to the indices of the entries that pass a test
    exactly when its own entry passes. *)
Lemma has_filter_index (f : nat * SuspiciousArea -> bool)
  (areas : list SuspiciousArea) : forall i p,
  In p (indexedFrom i areas) ->
  processed_has (map fst (filter f (indexedFrom i areas))) (fst p) = f p.
Proof.
  induction areas as [|a areas IH]; intros i p H; [contradiction|].
  cbn [indexedFrom filter] in *. destruct H as [<- | H].
  - cbn [fst]. destruct (f (i, a)) eqn:F.
    + cbn [map processed_has existsb fst]. unfold processed_has. cbn [existsb].
      now rewrite Nat.eqb_refl.
    + apply not_true_is_false. intros C. apply processed_has_In in C.
      apply in_map_iff in C. destruct C as (q & E & Hq).
      apply filter_In in Hq. destruct Hq as [Hq _].
      apply indexedFrom_index in Hq. lia.
  - pose proof (indexedFrom_index _ _ _ H) as Hi.
    destruct (f (i, a)).
    + cbn [map fst]. unfold processed_has. cbn [existsb].
      replace (Nat.eqb (fst p) i) with false
        by (symmetry; apply Nat.eqb_neq; lia).
      cbn [orb]. now apply IH.
    + now apply IH.
Qed.

Lemma processed_has_app (xs ys : list nat) (k : nat) :
  processed_has (xs ++ ys) k = processed_has xs k || processed_has ys k.
Proof. apply existsb_app. Qed.

Lemma processed_has_rev (xs : list nat) (k : nat) :
  processed_has (rev xs) k = processed_has xs k.
Proof.
  induction xs as [|x xs IH]; [reflexivity|].
  cbn [rev]. rewrite processed_has_app, IH. unfold processed_has. cbn [existsb].
  rewrite orb_false_r. apply orb_comm.
Qed.

Lemma unprocessedFrom_cons processed i area rest :
  unprocessedFrom processed i (area :: rest)
  = if processed_has processed i then unprocessedFrom processed (S i) rest
    else (i, area) :: unprocessedFrom processed (S i) rest.
Proof.
  unfold unprocessedFrom. cbn [indexedFrom filter fst].
  destruct (processed_has processed i); reflexivity.
Qed.

(** An index below [i] in the set does not matter from [i] on. *)
Lemma unprocessedFrom_earlier processed i j rest :
  (j < i)%nat ->
  unprocessedFrom (j :: processed) i rest = unprocessedFrom processed i rest.
Proof.
  intros H. unfold unprocessedFrom. apply filter_ext_in. intros p Hp.
  apply indexedFrom_index in Hp. unfold processed_has. cbn [existsb].
  replace (Nat.eqb (fst p) j) with false by (symmetry; apply Nat.eqb_neq; lia).
  reflexivity.
Qed.

(** What is left once a group has been formed. *)
Lemma unprocessedFrom_after_group (seed : nat * SuspiciousArea)
  (rest : list SuspiciousArea) (i : nat) (processed : list nat) :
  (fst seed < i)%nat ->
  unprocessedFrom
    (rev (map fst (filter (nearSeed seed) (unprocessedFrom processed i rest)))
     ++ fst seed :: processed)%list i rest
  = filter (fun other => negb (nearSeed seed other)) (unprocessedFrom processed i rest).
Proof.
  intros Hi. unfold unprocessedFrom. rewrite !filter_filter.
  apply filter_ext_in. intros p Hp.
  rewrite processed_has_app, processed_has_rev, (has_filter_index _ rest i p Hp).
  pose proof (indexedFrom_index _ _ _ Hp) as Hge.
  assert (H : processed_has (fst seed :: processed) (fst p)
              = processed_has processed (fst p)).
  { unfold processed_has. cbn [existsb].
    replace (Nat.eqb (fst p) (fst seed)) with false
      by (symmetry; apply Nat.eqb_neq; lia).
    reflexivity. }
  rewrite H.
  destruct (processed_has processed (fst p)), (nearSeed seed p); reflexivity.
Qed.

Variable areas : list SuspiciousArea.

(** The inner loop absorbs, in detection order, the unprocessed blocks
    that are near the seed, and marks them processed. *)
Lemma absorb_fold_greedy (seed : nat * SuspiciousArea) :
  forall (rest prefix : list SuspiciousArea) group processed,
    areas = (prefix ++ rest)%list ->
    let absorbed :=
      filter (nearSeed seed) (unprocessedFrom processed (List.length prefix) rest) in
    fold_left (absorb areas (snd seed)) (seq (List.length prefix) (List.length rest))
              (group, processed)
    = ((group ++ map snd absorbed)%list, (rev (map fst absorbed) ++ processed)%list).
Proof.
  induction rest as [|other rest IH]; intros prefix group processed E; cbn zeta.
  - cbn. now rewrite app_nil_r.
  - cbn [List.length seq fold_left].
    assert (E' : areas = ((prefix ++ [other]) ++ rest)%list)
      by (rewrite <- app_assoc; exact E).
    assert (Hn : nth_error areas (List.length prefix) = Some other).
    { rewrite E, nth_error_app2 by lia. now rewrite Nat.sub_diag. }
    assert (Hl : S (List.length prefix) = List.length (prefix ++ [other])%list)
      by (rewrite length_app; cbn; lia).
    pose proof (IH (prefix ++ [other])%list) as IH'. rewrite <- Hl in IH'.
    cbn zeta in IH'.
    rewrite unprocessedFrom_cons.
    unfold absorb at 2. rewrite Hn.
    destruct (processed_has processed (List.length prefix)) eqn:P.
    + apply IH'. exact E'.
    + cbn [filter].
      change (nearSeed seed (List.length prefix, other))
        with (areAreasNearby (snd seed) other 50).
      destruct (areAreasNearby (snd seed) other 50) eqn:N.
      * rewrite (IH' (group ++ [other])%list (List.length prefix :: processed) E').
        rewrite unprocessedFrom_earlier by lia.
        cbn [map snd fst rev]. rewrite <- !app_assoc. reflexivity.
      * apply IH'. exact E'.
Qed.

(** The outer loop pushes, group after group, what the greedy clustering
    of the unprocessed blocks gives. *)
Lemma mergeStep_fold_greedy :
  forall (rest prefix : list SuspiciousArea) (fuel : nat) merged processed,
    areas = (prefix ++ rest)%list ->
    (List.length rest <= fuel)%nat ->
    fst (fold_left (mergeStep areas) (seq (List.length prefix) (List.length rest))
                   (merged, processed))
    = (merged
       ++ map reduceGroup
              (greedyGroups fuel
                 (unprocessedFrom processed (List.length prefix) rest)))%list.
Proof.
  induction rest as [|area rest IH]; intros prefix fuel merged processed E Hf.
  - cbn. destruct fuel; cbn; now rewrite app_nil_r.
  - cbn [List.length seq fold_left]. cbn [List.length] in Hf.
    assert (E' : areas = ((prefix ++ [area]) ++ rest)%list)
      by (rewrite <- app_assoc; exact E).
    assert (Hn : nth_error areas (List.length prefix) = Some area).
    { rewrite E, nth_error_app2 by lia. now rewrite Nat.sub_diag. }
    assert (Hl : S (List.length prefix) = List.length (prefix ++ [area])%list)
      by (rewrite length_app; cbn; lia).
    assert (Hlen : (List.length areas - S (List.length prefix))%nat = List.length rest).
    { rewrite E, length_app. cbn [List.length]. lia. }
    pose proof (IH (prefix ++ [area])%list) as IH'. rewrite <- Hl in IH'.
    rewrite (mergeStep_eq areas), Hn, unprocessedFrom_cons.
    destruct (processed_has processed (List.length prefix)) eqn:P.
    + apply IH'; [exact E' | lia].
    + destruct fuel as [|fuel]; [lia|].
      cbn zeta. rewrite Hlen.
      pose proof (absorb_fold_greedy (List.length prefix, area) rest
                    (prefix ++ [area])%list [area]
                    (List.length prefix :: processed) E') as A.
      cbn zeta in A. rewrite <- Hl in A. cbn [snd] in A.
      rewrite A. cbn [fst snd].
      rewrite unprocessedFrom_earlier by lia.
      rewrite (IH' fuel) by (auto; lia).
      pose proof (unprocessedFrom_after_group (List.length prefix, area) rest
                    (S (List.length prefix)) processed ltac:(cbn; lia)) as U.
      cbn [fst] in U. rewrite U.
      cbn [greedyGroups map].
      rewrite <- app_assoc. cbn [app]. do 2 f_equal.
      unfold reduceGroup. cbn [fst snd].
      destruct (filter (nearSeed (List.length prefix, area))
                       (unprocessedFrom processed (S (List.length prefix)) rest))
        as [|q qs]; reflexivity.
Qed.

(** The merge pass is the greedy clustering of the specification. *)
Lemma mergePass_greedy :
  mergePass areas
  = map reduceGroup (greedyGroups (List.length areas) (indexed areas)).
Proof.
  unfold mergePass.
  pose proof (mergeStep_fold_greedy areas [] (List.length areas) [] [] eq_refl (le_n _))
    as H.
  cbn [app List.length] in H. rewrite H. unfold unprocessedFrom, indexed.
  do 2 f_equal. rewrite <- (filter_ext_in (fun _ => true)).
  - induction (indexedFrom 0 areas) as [|p l IHl]; cbn [filter]; [reflexivity|].
    now rewrite IHl.
  - reflexivity.
Qed.

End GreedyGroups.

Section GreedyOrder.

(** The seeds of the groups are blocks of the list clustered, each group
    is seeded before the next, and a seed comes before the blocks its group
    absorbs. *)
Lemma greedyGroups_seeds (fuel : nat) : forall unprocessed,
  StronglySorted Nat.lt (map fst unprocessed) ->
  StronglySorted Nat.lt (map seedIndex (greedyGroups fuel unprocessed))
  /\ Forall (fun g => In (fst g) unprocessed
                      /\ incl (snd g) unprocessed
                      /\ Forall (fun other => (seedIndex g < fst other)%nat) (snd g))
            (greedyGroups fuel unprocessed).
Proof.
  induction fuel as [|fuel IH]; intros unprocessed HS; cbn [greedyGroups].
  - destruct unprocessed; split; constructor.
  - destruct unprocessed as [|seed others]; [split; constructor|].
    cbn [map] in HS. inversion HS as [|? ? HS' HF]; subst.
    assert (Hsub : forall f, incl (filter f others) others)
      by (intros f q Hq; apply filter_In in Hq; tauto).
    assert (HS'' : StronglySorted Nat.lt
                     (map fst (filter (fun other => negb (nearSeed seed other)) others))).
    { clear - HS'. induction others as [|o os IHo]; cbn [filter map]; [constructor|].
      cbn [map] in HS'. inversion HS' as [|? ? H1 H2]; subst.
      destruct (negb (nearSeed seed o)); cbn [map]; auto.
      constructor; auto.
      apply Forall_forall. intros x Hx. apply in_map_iff in Hx.
      destruct Hx as (q & <- & Hq). apply filter_In in Hq.
      eapply Forall_forall in H2; [exact H2|]. apply in_map. tauto. }
    destruct (IH _ HS'') as [I1 I2]. split.
    + cbn [map]. constructor; [exact I1|].
      apply Forall_forall. intros x Hx. apply in_map_iff in Hx.
      destruct Hx as (g & <- & Hg).
      eapply Forall_forall in I2; [|exact Hg]. destruct I2 as [Hin _].
      apply Hsub in Hin. unfold seedIndex. cbn [fst].
      eapply Forall_forall in HF; [exact HF|]. now apply in_map.
    + constructor.
      * cbn [fst snd]. split; [now left|]. split.
        -- intros q Hq. right. eapply Hsub; eauto.
        -- apply Forall_forall. intros q Hq. apply Hsub in Hq.
           unfold seedIndex. cbn [fst].
           eapply Forall_forall in HF; [exact HF|]. now apply in_map.
      * eapply Forall_impl; [|exact I2]. cbn beta.
        intros g (G1 & G2 & G3). split; [right; eapply Hsub; eauto|].
        split; [|exact G3]. intros q Hq. right. eapply Hsub. now apply G2.
Qed.

Lemma indexed_sorted (areas : list SuspiciousArea) :
  StronglySorted Nat.lt (map fst (indexed areas)).
Proof.
  unfold indexed. rewrite indexedFrom_fst. generalize 0%nat.
  induction (List.length areas) as [|n IH]; intros i; cbn [seq]; constructor; auto.
  apply Forall_forall. intros x Hx. apply in_seq in Hx. unfold Nat.lt. lia.
Qed.

Lemma indexed_nth (areas : list SuspiciousArea) (p : nat * SuspiciousArea) :
  In p (indexed areas) -> nth_error areas (fst p) = Some (snd p).
Proof.
  unfold indexed.
  assert (H : forall i, In p (indexedFrom i areas) ->
                        nth_error areas (fst p - i) = Some (snd p)).
  { induction areas as [|a areas IH]; intros i Hp; [contradiction|].
    destruct Hp as [<- | Hp].
    - cbn [fst snd]. now rewrite Nat.sub_diag.
    - pose proof (indexedFrom_index _ _ _ Hp) as Hi.
      replace (fst p - i)%nat with (S (fst p - S i)) by lia.
      cbn [nth_error]. now apply IH. }
  intros Hp. specialize (H 0%nat Hp). now rewrite Nat.sub_0_r in H.
Qed.

End GreedyOrder.

Section MergeOrderTheorem.
Local Open Scope string_scope.

(** C5: [mergeSuspiciousAreas] returns what steps 2 and 3 of the
    specification describe: the flagged blocks are clustered greedily in
    detection order, each group is reduced to one area, and the first twenty
    of these are returned in the order in which the groups were seeded, so at
    most twenty.  The seeds come in ascending detection index and each seed
    precedes the blocks its group absorbs: nothing is sorted by severity.
    So it is for what [detectSuspiciousAreas] returns and for the
    [suspiciousAreas] of every analysis returned. *)
Theorem suspicious_areas_capped_in_merge_order :
  (forall areas,
      (List.length (mergeSuspiciousAreas areas) <= 20)%nat
      /\ mergeSuspiciousAreas areas = spec_mergedAreas areas
      /\ StronglySorted Nat.lt
           (map seedIndex (greedyGroups (List.length areas) (indexed areas)))
      /\ Forall (fun g =>
                   nth_error areas (seedIndex g) = Some (snd (fst g))
                   /\ Forall (fun other =>
                                (seedIndex g < fst other)%nat
                                /\ nth_error areas (fst other) = Some (snd other))
                             (snd g))
                (greedyGroups (List.length areas) (indexed areas)))
  /\ (forall cfg path data info,
         path <> "" ->
         detectSuspiciousAreas cfg path (Resolved (data, info))
         = spec_mergedAreas (flaggedBlocks cfg data info))
  /\ (forall cfg path raw,
         (List.length (detectSuspiciousAreas cfg path raw) <= 20)%nat)
  /\ (forall Date_parse cfg path w r,
         analyzeImage Date_parse cfg path w = Resolved r ->
         (List.length (result_suspiciousAreas r) <= 20)%nat
         /\ result_suspiciousAreas r
            = detectSuspiciousAreas cfg (elaImagePath (elaAnalysis r))
                                    (elaGreyscaleRaw w)).
Proof.
  assert (M : forall areas, mergeSuspiciousAreas areas = spec_mergedAreas areas).
  { intros areas. unfold mergeSuspiciousAreas, spec_mergedAreas.
    now rewrite mergePass_greedy. }
  split; [|split; [|split]].
  - intros areas. split; [apply mergeSuspiciousAreas_length|].
    split; [apply M|].
    destruct (greedyGroups_seeds (List.length areas) (indexed areas)
                                 (indexed_sorted areas)) as [S1 S2].
    split; [exact S1|].
    eapply Forall_impl; [|exact S2]. cbn beta. intros g (G1 & G2 & G3).
    split; [exact (indexed_nth areas _ G1)|].
    apply Forall_forall. intros other Ho. split.
    + eapply Forall_forall in G3; eauto.
    + apply indexed_nth. now apply G2.
  - intros cfg path data info Hp. unfold detectSuspiciousAreas.
    destruct (String.eqb path "") eqn:E; [apply String.eqb_eq in E; contradiction|].
    apply M.
  - apply detectSuspiciousAreas_length.
  - intros Date_parse cfg path w r H.
    destruct (analyzeImage_areas _ _ _ _ _ H) as (ela & He & Hr).
    split; [rewrite Hr; apply detectSuspiciousAreas_length|].
    rewrite Hr. f_equal. f_equal.
    unfold analyzeImage in H. rewrite He in H. injection H as <-. reflexivity.
Qed.

Lemma flaggedBlocks_rampColumn :
  flaggedBlocks config rampColumn rampInfo = rampBlocks.
Proof. vm_compute. reflexivity. Qed.

Lemma analyzeImage_after_ELA Date_parse cfg path w ela :
  performELA path (elaWorld w) = Resolved ela ->
  exists r, analyzeImage Date_parse cfg path w = Resolved r /\ elaAnalysis r = ela.
Proof.
  intros H. unfold analyzeImage. rewrite H. eexists. split; reflexivity.
Qed.

Lemma suspicious_areas_capped_in_merge_order_witness :
  flaggedBlocks config rampColumn rampInfo = rampBlocks
  /\ List.length rampBlocks = 21%nat
  /\ exists r,
       analyzeImage Date_parse_none config "doc.jpg" worldRamp = Resolved r
       /\ List.length (result_suspiciousAreas r) = 20%nat
       /\ result_suspiciousAreas r = firstn 20 rampBlocks.
Proof.
  split; [exact flaggedBlocks_rampColumn|]. split; [reflexivity|].
  destruct (analyzeImage_after_ELA Date_parse_none config "doc.jpg" worldRamp _ eq_refl)
    as (r & Hr & He).
  exists r. split; [exact Hr|].
  destruct (proj2 (proj2 (proj2 suspicious_areas_capped_in_merge_order))
              Date_parse_none config "doc.jpg" worldRamp r Hr) as [_ Ha].
  assert (E : result_suspiciousAreas r = firstn 20 rampBlocks).
  { rewrite Ha, He.
    change (elaGreyscaleRaw worldRamp) with (Resolved (rampColumn, rampInfo)).
    rewrite (proj1 (proj2 suspicious_areas_capped_in_merge_order))
      by (vm_compute; discriminate).
    rewrite flaggedBlocks_rampColumn. vm_compute. reflexivity. }
  split; [rewrite E; reflexivity | exact E].
Defined.

End MergeOrderTheorem.


(* ================================================================== *)
(** * The path of the ELA image *)
(* ================================================================== *)

Section ElaPathTheorem.
Local Open Scope string_scope.

Lemma substring_0_append (s t : string) : substring 0 (String.length s) (s ++ t) = s.
Proof.
  induction s as [|c s IH]; cbn [String.length append substring].
  - destruct t; reflexivity.
  - now rewrite IH.
Qed.

(** The replacement done for a path that has the extension: the tail that
    lowers to the extension is cut off and [_ela.jpg] put in its place. *)
Lemma replaceExtension_split (ext path : string) :
  hasExtension ext path = true ->
  exists stem tail,
    path = stem ++ tail /\ toLowerCase tail = ext
    /\ replaceExtension ext path = stem ++ "_ela.jpg".
Proof.
  intros H. apply hasExtension_iff in H. destruct H as (stem & tail & -> & E).
  exists stem, tail. repeat split; auto.
  unfold replaceExtension. rewrite length_append.
  rewrite <- (toLowerCase_length tail), E.
  replace (String.length stem + String.length ext - String.length ext)%nat
    with (String.length stem) by lia.
  now rewrite substring_0_append.
Qed.

Lemma append_inv_tail (s1 t1 s2 t2 : string) :
  s1 ++ t1 = s2 ++ t2 -> String.length t1 = String.length t2 ->
  s1 = s2 /\ t1 = t2.
Proof.
  revert s2. induction s1 as [|c s1 IH]; intros [|d s2] E L; cbn [append] in E.
  - auto.
  - apply (f_equal String.length) in E. cbn [String.length] in E.
    rewrite length_append in E. lia.
  - apply (f_equal String.length) in E. cbn [String.length] in E.
    rewrite length_append in E. lia.
  - injection E as -> E. destruct (IH _ E L) as [-> ->]. auto.
Qed.

(** X12.  For a path that ends in [.jpg], [.jpeg] or [.png], in any letter
    case, the path of the ELA image is the path with exactly this ending
    replaced by [_ela.jpg]: the path is a stem followed by the ending, and
    the ELA path is the stem followed by [_ela.jpg], so it differs from the
    path.  For a path with none of these endings it is the input path
    itself, so the ELA image is written over the input file. *)
Theorem ela_image_path_of_input_path path (w : ElaWorld) ela :
  performELA path w = Resolved ela ->
  (hasImageExtension path = false -> elaImagePath ela = path)
  /\ (hasImageExtension path = true ->
      exists stem ending,
        path = stem ++ ending
        /\ (toLowerCase ending = ".jpg" \/ toLowerCase ending = ".jpeg"
            \/ toLowerCase ending = ".png")
        /\ elaImagePath ela = stem ++ "_ela.jpg"
        /\ elaImagePath ela <> path).
Proof.
  intros He. destruct (performELA_resolved _ _ _ He) as (data & info & _ & ->).
  cbn [elaImagePath]. unfold hasImageExtension, elaOutputPath.
  assert (D : forall stem ending,
            (String.length ending <= 5)%nat ->
            stem ++ "_ela.jpg" <> stem ++ ending).
  { intros stem ending L E. apply (f_equal String.length) in E.
    rewrite !length_append in E. cbn [String.length] in E. lia. }
  assert (L : forall ending ext, toLowerCase ending = ext ->
                                 String.length ending = String.length ext).
  { intros ending ext <-. symmetry. apply toLowerCase_length. }
  destruct (hasExtension ".jpg" path) eqn:E1.
  { split; [discriminate|]. intros _.
    destruct (replaceExtension_split _ _ E1) as (stem & ending & -> & El & ->).
    exists stem, ending. repeat split; auto.
    apply D. rewrite (L _ _ El). cbn. lia. }
  destruct (hasExtension ".jpeg" path) eqn:E2.
  { split; [discriminate|]. intros _.
    destruct (replaceExtension_split _ _ E2) as (stem & ending & -> & El & ->).
    exists stem, ending. repeat split; auto.
    apply D. rewrite (L _ _ El). cbn. lia. }
  destruct (hasExtension ".png" path) eqn:E3.
  { split; [discriminate|]. intros _.
    destruct (replaceExtension_split _ _ E3) as (stem & ending & -> & El & ->).
    exists stem, ending. repeat split; auto.
    apply D. rewrite (L _ _ El). cbn. lia. }
  split; [reflexivity | discriminate].
Qed.

End ElaPathTheorem.

Lemma ela_image_path_of_input_path_witness :
  (exists ela,
      performELA "scan.tiff" (okElaWorld [x00; x00]%byte) = Resolved ela
      /\ elaImagePath ela = "scan.tiff"%string)
  /\ (exists ela,
         performELA "upload/scan.PNG" (okElaWorld [x00; x00]%byte) = Resolved ela
         /\ elaImagePath ela = "upload/scan_ela.jpg"%string).
Proof.
  split.
  - eexists. split; [vm_compute; reflexivity|].
    apply (proj1 (ela_image_path_of_input_path
                    "scan.tiff"%string (okElaWorld [x00; x00]%byte) _ eq_refl)).
    reflexivity.
  - eexists. split; [vm_compute; reflexivity|].
    destruct (proj2 (ela_image_path_of_input_path
                       "upload/scan.PNG"%string (okElaWorld [x00; x00]%byte) _ eq_refl)
                    eq_refl)
      as (stem & ending & Hp & Hl & -> & _).
    assert (Hlen : String.length ending = 4%nat \/ String.length ending = 5%nat).
    { destruct Hl as [Hl | [Hl | Hl]];
        apply (f_equal String.length) in Hl;
        rewrite toLowerCase_length in Hl; cbn in Hl; auto. }
    destruct Hlen as [Hlen | Hlen].
    + destruct (append_inv_tail "upload/scan" ".PNG" stem ending Hp
                                (eq_sym Hlen)) as [<- _].
      reflexivity.
    + destruct (append_inv_tail "upload/sca" "n.PNG" stem ending Hp
                                (eq_sym Hlen)) as [_ <-].
      destruct Hl as [Hl | [Hl | Hl]]; discriminate Hl.
Defined.
